(** * prompt-cache-engine: radix-trie prefix index and eviction-bounded cache store

    A shallow embedding of [prompt_cache_engine/trie.py], [models.py],
    [cache.py] and [find_common_prefix_length] of [utils.py], followed by the
    properties proved about them.

    Conventions of the embedding
    - Python [int] is [Z]; [len(x)] is [len x : Z]; loop positions are [nat].
    - A Python [float] (timestamps, [max_memory_mb], [default_ttl_seconds])
      is the rational number it denotes, in [Q]; the values are finite
      (no [inf], no [nan]). Comparisons and the truncation [int(...)] are
      exact, as they are on floats. The two operations of the program that
      round, the subtraction of two floats and the true division of two
      integers, round to the nearest binary64 number, ties to even
      ([pyfloat.sub], [pyfloat.truediv]). The product
      [max_memory_mb * 1024 * 1024] scales by a power of two, which is exact
      on binary64 short of overflow.
    - A [dict] / [OrderedDict] is an association list in insertion order with
      unique keys ([pydict]); assignment to an existing key keeps its position,
      assignment to a new key appends.
    - Mutation of [self] is explicit state passing; an operation that can raise
      returns an [outcome] next to the state it leaves behind.
    - [time.time()] is an argument of the operation that reads the clock.
    - Tokens are 32-bit signed integers (the domain on which
      [int.to_bytes(4, signed=True)] is defined). *)

From Stdlib Require Import String Ascii ZArith List Bool Lia QArith.
From Stdlib Require Import Qround Qabs Qpower Lqa.
From Stdlib Require Import Permutation Sorted.
Import ListNotations.

#[local] Open Scope Z_scope.

Definition len {A : Type} (l : list A) : Z := Z.of_nat (length l).

(* ===================================================================== *)
(** * Part I: the embedding                                               *)
(* ===================================================================== *)

(* ===================================================================== *)
(** * Python dictionaries                                                 *)
(* ===================================================================== *)

Module pydict.
Section Dict.
Context {K V : Type}.
Variable eqb : K -> K -> bool.

(** [d.get(k)] *)
Fixpoint get (d : list (K * V)) (k : K) : option V :=
  match d with
  | [] => None
  | (k', v) :: r => if eqb k' k then Some v else get r k
  end.

(** [k in d] *)
Definition contains (d : list (K * V)) (k : K) : bool :=
  match get d k with Some _ => true | None => false end.

(** [d[k] = v] *)
Fixpoint set (d : list (K * V)) (k : K) (v : V) : list (K * V) :=
  match d with
  | [] => [(k, v)]
  | (k', v') :: r => if eqb k' k then (k', v) :: r else (k', v') :: set r k v
  end.

(** the dictionary left by [d.pop(k, None)] *)
Fixpoint remove (d : list (K * V)) (k : K) : list (K * V) :=
  match d with
  | [] => []
  | (k', v) :: r => if eqb k' k then r else (k', v) :: remove r k
  end.

(** [OrderedDict.move_to_end(k)], for a key that is present *)
Definition move_to_end (d : list (K * V)) (k : K) : list (K * V) :=
  match get d k with
  | Some v => remove d k ++ [(k, v)]
  | None => d
  end.

(** Case analysis on [k in d], handing the value found to a continuation.
    Written with the continuation outside the recursion so that a function
    defined by recursion on a tree may call itself on the child found. *)
Definition dcase {A : Type} (k : K) (absent : A) (present : V -> A)
  : list (K * V) -> A :=
  fix go (d : list (K * V)) : A :=
    match d with
    | [] => absent
    | (k', v) :: r => if eqb k' k then present v else go r
    end.

End Dict.
End pydict.

(* ===================================================================== *)
(** * hashlib.sha256                                                       *)
(* ===================================================================== *)

(** The digest of Python's standard library that [_compute_cache_key]
    calls, written out from FIPS 180-4 on bytes given as integers 0..255.
    No property below depends on what the digest computes; it is here so
    that keys are the ones the program produces. Module [scenarios] compares
    it with the library's digests of three messages. *)

Module hashlib.

Definition w32 (x : Z) : Z := x mod 4294967296.
Definition add32 (x y : Z) : Z := w32 (x + y).
Definition rotr (n x : Z) : Z := Z.lor (Z.shiftr x n) (w32 (Z.shiftl x (32 - n))).
Definition not32 (x : Z) : Z := 4294967295 - x.

Definition Ch (x y z : Z) : Z := Z.lxor (Z.land x y) (Z.land (not32 x) z).
Definition Maj (x y z : Z) : Z :=
  Z.lxor (Z.lxor (Z.land x y) (Z.land x z)) (Z.land y z).
Definition Sigma0 (x : Z) : Z := Z.lxor (Z.lxor (rotr 2 x) (rotr 13 x)) (rotr 22 x).
Definition Sigma1 (x : Z) : Z := Z.lxor (Z.lxor (rotr 6 x) (rotr 11 x)) (rotr 25 x).
Definition sigma0 (x : Z) : Z := Z.lxor (Z.lxor (rotr 7 x) (rotr 18 x)) (Z.shiftr x 3).
Definition sigma1 (x : Z) : Z := Z.lxor (Z.lxor (rotr 17 x) (rotr 19 x)) (Z.shiftr x 10).

(** The first [n] primes, by trial division. *)
Fixpoint primes_from (fuel : nat) (n : nat) (candidate : Z) (found : list Z) : list Z :=
  match fuel, n with
  | O, _ | _, O => rev found
  | S fuel', S n' =>
      if forallb (fun p => negb (candidate mod p =? 0)) found
      then primes_from fuel' n' (candidate + 1) (candidate :: found)
      else primes_from fuel' n (candidate + 1) found
  end.

Definition first_primes (n : nat) : list Z := primes_from 400 n 2 [].

(** The integer cube root, bit by bit from [2^bits] down. *)
Fixpoint icbrt_bits (bits : nat) (n r : Z) : Z :=
  match bits with
  | O => r
  | S b =>
      let r' := r + 2 ^ Z.of_nat b in
      icbrt_bits b n (if r' * r' * r' <=? n then r' else r)
  end.

Definition icbrt (n : Z) : Z := icbrt_bits 40 n 0.

(** The round constants: the first 32 bits of the fractional parts of the
    cube roots of the first 64 primes. *)
Definition K256 : list Z :=
  Eval vm_compute in map (fun p => w32 (icbrt (p * 2 ^ 96))) (first_primes 64).

(** The initial hash value: the first 32 bits of the fractional parts of the
    square roots of the first 8 primes. *)
Definition H0 : list Z :=
  Eval vm_compute in map (fun p => w32 (Z.sqrt (p * 2 ^ 64))) (first_primes 8).

(** the [n] low bytes of [x], most significant first *)
Definition be_bytes (n : nat) (x : Z) : list Z :=
  map (fun i => (x / 2 ^ (8 * Z.of_nat i)) mod 256) (rev (seq 0 n)).

(** the padded message: 0x80, zeros up to 56 mod 64, the bit length on 8 bytes *)
Definition pad (msg : list Z) : list Z :=
  let l := len msg in
  let k := (55 - l) mod 64 in
  msg ++ [128] ++ repeat 0 (Z.to_nat k) ++ be_bytes 8 (8 * l).

Fixpoint words_of (n : nat) (bs : list Z) : list Z :=
  match n with
  | O => []
  | S n' =>
      match bs with
      | a :: b :: c :: d :: r =>
          (a * 16777216 + b * 65536 + c * 256 + d) :: words_of n' r
      | _ => []
      end
  end.

(** the message schedule: [w] holds the words computed so far, newest first *)
Fixpoint schedule (n : nat) (w : list Z) : list Z :=
  match n with
  | O => w
  | S n' =>
      let x := add32 (add32 (sigma1 (nth 1 w 0)) (nth 6 w 0))
                     (add32 (sigma0 (nth 14 w 0)) (nth 15 w 0)) in
      schedule n' (x :: w)
  end.

Definition round (s : list Z) (kw : Z * Z) : list Z :=
  match s with
  | [a; b; c; d; e; f; g; h] =>
      let t1 := add32 (add32 (add32 h (Sigma1 e)) (add32 (Ch e f g) (fst kw))) (snd kw) in
      let t2 := add32 (Sigma0 a) (Maj a b c) in
      [add32 t1 t2; a; b; c; add32 d t1; e; f; g]
  | _ => s
  end.

Definition compress (h : list Z) (block : list Z) : list Z :=
  let w := rev (schedule 48 (rev (words_of 16 block))) in
  let s := fold_left round (combine K256 w) h in
  map (fun p => add32 (fst p) (snd p)) (combine h s).

Fixpoint blocks (n : nat) (bs : list Z) : list (list Z) :=
  match n with
  | O => []
  | S n' => firstn 64 bs :: blocks n' (skipn 64 bs)
  end.

Definition hex_digit (d : Z) : ascii :=
  nth (Z.to_nat d)
      (list_ascii_of_string "0123456789abcdef") "0"%char.

Definition hex_byte (b : Z) : string :=
  String (hex_digit (b / 16)) (String (hex_digit (b mod 16)) EmptyString).

(** [hashlib.sha256(data).hexdigest()] *)
Definition sha256_hexdigest (data : list Z) : string :=
  let p := pad data in
  let h := fold_left compress (blocks (length p / 64) p) H0 in
  String.concat EmptyString (map hex_byte (flat_map (be_bytes 4) h)).

End hashlib.

(* ===================================================================== *)
(** * Python floats                                                    *)
(* ===================================================================== *)

(** The arithmetic of Python's [float] (IEEE 754 binary64, rounding to
    nearest, ties to even) on the rationals that floats denote, subnormal
    numbers included. A result of magnitude [2^1024] or more, for which a
    float subtraction answers [inf] and an integer division raises
    [OverflowError], is left as the number it is: it compares with every
    finite float as [inf] does, and the byte totals of the program stay
    far below [2^1044]. *)

Module pyfloat.

(** Rounding of a rational to an integer, halves to the even neighbour. *)
Definition rne (x : Q) : Z :=
  let f := Qfloor x in
  match (x - inject_Z f ?= 1 # 2)%Q with
  | Lt => f
  | Gt => f + 1
  | Eq => if Z.even f then f else f + 1
  end.

(** [floor(log2(a))] for [a > 0]: the binade of [a]. *)
Definition ilog2 (a : Q) : Z :=
  let e0 := Z.log2 (Qnum a) - Z.log2 (Zpos (Qden a)) in
  if Qle_bool (2 ^ e0) a then e0 else e0 - 1.

(** The exponent of the last place of a binary64 number in the binade of
    [a]: 53 significant bits, and [2^-1074] for the subnormal numbers. *)
Definition ulp_exponent (a : Q) : Z := Z.max (ilog2 a - 52) (-1074).

Definition nearest_pos (a : Q) : Q :=
  let k := ulp_exponent a in
  (inject_Z (rne (a / 2 ^ k)) * 2 ^ k)%Q.

(** The binary64 number nearest to [q], ties to even. *)
Definition nearest (q : Q) : Q :=
  if Qle_bool q 0 then
    if Qle_bool 0 q then 0%Q else (- nearest_pos (- q))%Q
  else nearest_pos q.

(** [a - b] on floats *)
Definition sub (a b : Q) : Q := nearest (a - b).

(** [a / b] on integers, [b] not zero: the exact quotient, rounded once *)
Definition truediv (a b : Z) : Q := nearest (inject_Z a / inject_Z b).

End pyfloat.

(* ===================================================================== *)
(** * exceptions.py                                                       *)
(* ===================================================================== *)

Module exceptions.

(** The exceptions the modelled code raises: the builtin [ValueError] (with
    the name of the offending field) and the package's [CacheError] family. *)
Inductive PyException : Type :=
| ValueError (field : string)
| CacheFullError (eviction_attempts : Z)
| EvictionError
| TokenizationError.

Inductive outcome (A : Type) : Type :=
| Ok (a : A)
| Raise (e : PyException).

Arguments Ok {A} a.
Arguments Raise {A} e.

End exceptions.

(* ===================================================================== *)
(** * models.py                                                           *)
(* ===================================================================== *)

Module models.
Import exceptions.

Record CacheConfig : Type := mkCacheConfig {
  max_entries : Z;
  max_memory_mb : Q;
  default_ttl_seconds : Q;
  eviction_policy : string;
  min_prefix_length : Z
}.

(** [CacheConfig.__post_init__] *)
Definition CacheConfig__post_init__ (self : CacheConfig) : outcome CacheConfig :=
  if max_entries self <? 1 then Raise (ValueError "max_entries")
  else if Qle_bool (max_memory_mb self) 0 then Raise (ValueError "max_memory_mb")
  else if negb (String.eqb (eviction_policy self) "lru"
                || String.eqb (eviction_policy self) "lfu")
       then Raise (ValueError "eviction_policy")
  else if min_prefix_length self <? 1 then Raise (ValueError "min_prefix_length")
  else Ok self.

(** [CacheConfig(max_entries=.., max_memory_mb=.., default_ttl_seconds=..,
    eviction_policy=.., min_prefix_length=..)]: the dataclass constructor
    fills the fields and runs [__post_init__]. *)
Definition CacheConfig_new (me : Z) (mm ttl : Q) (policy : string) (mpl : Z)
  : outcome CacheConfig :=
  CacheConfig__post_init__ (mkCacheConfig me mm ttl policy mpl).

(** [CacheConfig()] *)
Definition default_CacheConfig : CacheConfig :=
  mkCacheConfig 10000 1024 0 "lru" 4.

Record PrefixMatch : Type := mkPrefixMatch {
  matched_tokens : list Z;
  matched_length : Z;
  total_length : Z;
  cache_key : string;
  remaining_tokens : list Z;
  hit : bool
}.

Definition savings_ratio (self : PrefixMatch) : Q :=
  if total_length self =? 0 then 0%Q
  else pyfloat.truediv (matched_length self) (total_length self).

Record CacheStats : Type := mkCacheStats {
  total_lookups : Z;
  cache_hits : Z;
  cache_misses : Z;
  total_tokens_served : Z;
  total_tokens_requested : Z;
  entries_count : Z;
  memory_used_mb : Q;
  evictions : Z
}.

(** [CacheStats()] *)
Definition new_CacheStats : CacheStats := mkCacheStats 0 0 0 0 0 0 0 0.

Definition hit_rate (self : CacheStats) : Q :=
  if total_lookups self =? 0 then 0%Q
  else pyfloat.truediv (cache_hits self) (total_lookups self).

Definition token_savings_rate (self : CacheStats) : Q :=
  if total_tokens_requested self =? 0 then 0%Q
  else pyfloat.truediv (total_tokens_served self) (total_tokens_requested self).

Record BatchAnalysis : Type := mkBatchAnalysis {
  batch_size : Z;
  unique_prefixes : Z;
  shared_prefix_groups : list (string * list nat);
  potential_savings_tokens : Z;
  total_tokens : Z
}.

(** [BatchAnalysis()] *)
Definition new_BatchAnalysis : BatchAnalysis := mkBatchAnalysis 0 0 [] 0 0.

Definition dedup_ratio (self : BatchAnalysis) : Q :=
  if total_tokens self =? 0 then 0%Q
  else pyfloat.truediv (potential_savings_tokens self) (total_tokens self).

End models.

(* ===================================================================== *)
(** * trie.py                                                             *)
(* ===================================================================== *)

Module trie.

#[local] Unset Elimination Schemes.
Inductive TrieNode : Type := mkTrieNode {
  tokens : list Z;
  children : list (Z * TrieNode);
  cache_key : option string;
  depth : Z
}.
#[local] Set Elimination Schemes.

Record RadixTrie : Type := mkRadixTrie {
  root : TrieNode;
  _size : Z
}.

(** [TrieNode()] and [RadixTrie()] *)
Definition new_TrieNode : TrieNode := mkTrieNode [] [] None 0.
Definition new_RadixTrie : RadixTrie := mkRadixTrie new_TrieNode 0.

Definition size (self : RadixTrie) : Z := _size self.

Definition with_tokens (n : TrieNode) (t : list Z) : TrieNode :=
  mkTrieNode t (children n) (cache_key n) (depth n).
Definition with_cache_key (n : TrieNode) (k : option string) : TrieNode :=
  mkTrieNode (tokens n) (children n) k (depth n).
(** [n.children[t] = c] *)
Definition set_child (n : TrieNode) (t : Z) (c : TrieNode) : TrieNode :=
  mkTrieNode (tokens n) (pydict.set Z.eqb (children n) t c) (cache_key n) (depth n).

(** The inner [while] of all three walks: the number of leading positions at
    which the edge label [child_tokens] and the unread input [tokens[pos:]]
    agree. *)
Fixpoint match_len (child_tokens rest : list Z) : nat :=
  match child_tokens, rest with
  | c :: cs, t :: ts => if Z.eqb c t then S (match_len cs ts) else O
  | _, _ => O
  end.

(** The [while pos < len(tokens)] loop of [insert], from [node] with
    [rest = tokens[pos:]]; [total = len(tokens)].  Returns the updated node
    and the increment of [_size]. *)
Fixpoint insert_loop (node : TrieNode) (rest : list Z) (total : Z) (key : string)
  {struct node} : TrieNode * Z :=
  match rest with
  | [] =>
      (* reached the end of tokens exactly at an existing node *)
      (with_cache_key node (Some key),
       match cache_key node with None => 1 | Some _ => 0 end)
  | first_token :: _ =>
      pydict.dcase Z.eqb first_token
        (* no matching child: create a new leaf *)
        (set_child node first_token (mkTrieNode rest [] (Some key) total), 1)
        (fun child =>
           let child_tokens := tokens child in
           let common_len := match_len child_tokens rest in
           if Nat.eqb common_len (length child_tokens) then
             (* full match on the child edge: descend *)
             let (child', d) := insert_loop child (skipn common_len rest) total key in
             (set_child node first_token child', d)
           else
             (* partial match: split the edge *)
             let split_node :=
               mkTrieNode (firstn common_len child_tokens) [] None
                          (depth node + Z.of_nat common_len) in
             let child' := with_tokens child (skipn common_len child_tokens) in
             let split_node := set_child split_node (hd 0 (tokens child')) child' in
             let remaining := skipn common_len rest in
             let split_node :=
               match remaining with
               | r0 :: _ =>
                   set_child split_node r0 (mkTrieNode remaining [] (Some key) total)
               | [] => with_cache_key split_node (Some key)
               end in
             (set_child node first_token split_node, 1))
        (children node)
  end.

(** [RadixTrie.insert] *)
Definition insert (self : RadixTrie) (tokens : list Z) (cache_key : string)
  : RadixTrie :=
  match tokens with
  | [] => self
  | _ :: _ =>
      let (root', d) := insert_loop (root self) tokens (len tokens) cache_key in
      mkRadixTrie root' (_size self + d)
  end.

(** The [while] loop of [find_longest_prefix], from [node] with
    [rest = tokens[pos:]]. *)
Fixpoint find_loop (node : TrieNode) (rest : list Z) (pos : Z)
  (best_length : Z) (best_key : option string) {struct node}
  : Z * option string :=
  match rest with
  | [] => (best_length, best_key)
  | first_token :: _ =>
      pydict.dcase Z.eqb first_token
        (best_length, best_key)
        (fun child =>
           let child_tokens := tokens child in
           let match_len := match_len child_tokens rest in
           if Nat.ltb match_len (length child_tokens) then
             (* partial match on edge: cannot descend further *)
             (best_length, best_key)
           else
             let pos := pos + Z.of_nat match_len in
             match cache_key child with
             | Some k => find_loop child (skipn match_len rest) pos pos (Some k)
             | None => find_loop child (skipn match_len rest) pos best_length best_key
             end)
        (children node)
  end.

(** [RadixTrie.find_longest_prefix] *)
Definition find_longest_prefix (self : RadixTrie) (tokens : list Z)
  : Z * option string :=
  match tokens with
  | [] => (0, None)
  | _ :: _ => find_loop (root self) tokens 0 0 (cache_key (root self))
  end.

(** The walk of [remove] from [node] with [rest = tokens[pos:]]: [None] when
    the method returns [False], otherwise the node with the marker cleared. *)
Fixpoint remove_loop (node : TrieNode) (rest : list Z) {struct node}
  : option TrieNode :=
  match rest with
  | [] =>
      match cache_key node with
      | None => None
      | Some _ => Some (with_cache_key node None)
      end
  | first_token :: _ =>
      pydict.dcase Z.eqb first_token
        None
        (fun child =>
           let match_len := match_len (tokens child) rest in
           if Nat.ltb match_len (length (tokens child)) then None
           else
             match remove_loop child (skipn match_len rest) with
             | None => None
             | Some child' => Some (set_child node first_token child')
             end)
        (children node)
  end.

(** [RadixTrie.remove] *)
Definition remove (self : RadixTrie) (tokens : list Z) : bool * RadixTrie :=
  match tokens with
  | [] => (false, self)
  | _ :: _ =>
      match remove_loop (root self) tokens with
      | None => (false, self)
      | Some root' => (true, mkRadixTrie root' (_size self - 1))
      end
  end.

(** [RadixTrie._collect_entries], returning the entries appended *)
Fixpoint _collect_entries (node : TrieNode) (prefix : list Z)
  : list (list Z * string) :=
  let current := prefix ++ tokens node in
  match cache_key node with
  | Some k => [(current, k)]
  | None => []
  end ++ flat_map (fun kc => _collect_entries (snd kc) current) (children node).

(** [RadixTrie.get_all_entries] *)
Definition get_all_entries (self : RadixTrie) : list (list Z * string) :=
  _collect_entries (root self) [].

End trie.

(* ===================================================================== *)
(** * cache.py                                                            *)
(* ===================================================================== *)

Module cache.
Import exceptions.

Definition BYTES_PER_TOKEN_DEFAULT : Z := 2048.

(** The opaque KV payload: [None] or a handle the cache never inspects. *)
Inductive Any : Type :=
| PyNone
| PyObject (handle : Z).

Record CacheEntry : Type := mkCacheEntry {
  cache_key : string;
  tokens : list Z;
  kv_data : Any;
  token_count : Z;
  memory_bytes : Z;
  created_at : Q;
  last_accessed : Q;
  access_count : Z
}.

(** [CacheEntry.__post_init__]; [now] is what [time.time()] returns if read *)
Definition CacheEntry__post_init__ (self : CacheEntry) (now : Q) : CacheEntry :=
  let token_count' :=
    if token_count self =? 0 then len (tokens self) else token_count self in
  let memory_bytes' :=
    if memory_bytes self =? 0 then token_count' * BYTES_PER_TOKEN_DEFAULT
    else memory_bytes self in
  let created_at' :=
    if Qeq_bool (created_at self) 0 then now else created_at self in
  let last_accessed' :=
    if Qeq_bool (last_accessed self) 0 then created_at' else last_accessed self in
  mkCacheEntry (cache_key self) (tokens self) (kv_data self)
               token_count' memory_bytes' created_at' last_accessed'
               (access_count self).

(** [CacheEntry(cache_key=.., tokens=.., kv_data=.., memory_bytes=..)] *)
Definition CacheEntry_new (cache_key : string) (tokens : list Z) (kv_data : Any)
  (memory_bytes : Z) (now : Q) : CacheEntry :=
  CacheEntry__post_init__
    (mkCacheEntry cache_key tokens kv_data 0 memory_bytes 0 0 0) now.

(** the access bookkeeping [entry.last_accessed = time.time();
    entry.access_count += 1] *)
Definition touch (e : CacheEntry) (now : Q) : CacheEntry :=
  mkCacheEntry (cache_key e) (tokens e) (kv_data e) (token_count e)
               (memory_bytes e) (created_at e) now (access_count e + 1).

(** [t.to_bytes(4, byteorder="big", signed=True)] for a 32-bit token: the
    two's-complement encoding. For a token outside [-2^31, 2^31) Python raises
    [OverflowError]; the embedding covers the 32-bit tokens of the data model
    only. *)
Definition to_bytes (t : Z) : list Z := hashlib.be_bytes 4 (t mod 4294967296).

(** [_compute_cache_key] *)
Definition _compute_cache_key (tokens : list Z) : string :=
  let token_bytes := flat_map to_bytes tokens in
  String.substring 0 16 (hashlib.sha256_hexdigest token_bytes).

Record CacheManager : Type := mkCacheManager {
  config : models.CacheConfig;
  _trie : trie.RadixTrie;
  _entries : list (string * CacheEntry);
  _stats : models.CacheStats;
  _total_memory_bytes : Z
}.

(** [CacheManager(config)]; a [CacheConfig] object is truthy, so
    [config or CacheConfig()] replaces only [None] *)
Definition CacheManager_new (config : option models.CacheConfig) : CacheManager :=
  mkCacheManager
    (match config with Some c => c | None => models.default_CacheConfig end)
    trie.new_RadixTrie [] models.new_CacheStats 0.

Definition with_stats (self : CacheManager) (s : models.CacheStats) : CacheManager :=
  mkCacheManager (config self) (_trie self) (_entries self) s
                 (_total_memory_bytes self).
Definition with_entries (self : CacheManager) (d : list (string * CacheEntry))
  : CacheManager :=
  mkCacheManager (config self) (_trie self) d (_stats self)
                 (_total_memory_bytes self).

(** the [stats] property: it writes the two live fields into the shared
    statistics object and returns that object *)
Definition stats (self : CacheManager) : models.CacheStats * CacheManager :=
  let s := _stats self in
  let s' := models.mkCacheStats
              (models.total_lookups s) (models.cache_hits s) (models.cache_misses s)
              (models.total_tokens_served s) (models.total_tokens_requested s)
              (len (_entries self))
              (pyfloat.truediv (_total_memory_bytes self) (1024 * 1024))
              (models.evictions s) in
  (s', with_stats self s').

(** [_is_expired]; [now] is the clock reading. The age is the float
    difference [time.time() - entry.created_at]. *)
Definition _is_expired (self : CacheManager) (entry : CacheEntry) (now : Q) : bool :=
  if Qle_bool (models.default_ttl_seconds (config self)) 0 then false
  else negb (Qle_bool (pyfloat.sub now (created_at entry))
                      (models.default_ttl_seconds (config self))).

(** [_evict_entry] *)
Definition _evict_entry (self : CacheManager) (cache_key : string)
  : bool * CacheManager :=
  match pydict.get String.eqb (_entries self) cache_key with
  | None => (false, self)
  | Some entry =>
      let s := _stats self in
      (true,
       mkCacheManager
         (config self)
         (snd (trie.remove (_trie self) (tokens entry)))
         (pydict.remove String.eqb (_entries self) cache_key)
         (models.mkCacheStats
            (models.total_lookups s) (models.cache_hits s) (models.cache_misses s)
            (models.total_tokens_served s) (models.total_tokens_requested s)
            (models.entries_count s) (models.memory_used_mb s)
            (models.evictions s + 1))
         (_total_memory_bytes self - memory_bytes entry))
  end.

(** [min(iterable, key=f)] on a non-empty iterable [x :: xs]: the first
    element at which [f] is least *)
Definition py_min {A : Type} (f : A -> Z) (x : A) (xs : list A) : A :=
  fold_left (fun best y => if f y <? f best then y else best) xs x.

(** [_evict_one] *)
Definition _evict_one (self : CacheManager) : CacheManager :=
  match _entries self with
  | [] => self
  | (k0, _) :: rest =>
      if String.eqb (models.eviction_policy (config self)) "lru" then
        (* OrderedDict: first item is LRU *)
        snd (_evict_entry self k0)
      else if String.eqb (models.eviction_policy (config self)) "lfu" then
        let lfu_key :=
          py_min (fun k => match pydict.get String.eqb (_entries self) k with
                           | Some e => access_count e
                           | None => 0
                           end)
                 k0 (map fst rest) in
        snd (_evict_entry self lfu_key)
      else self
  end.

(** the loop condition of [_ensure_capacity] *)
Definition over_capacity (self : CacheManager) (needed_bytes max_memory_bytes : Z)
  : bool :=
  ((len (_entries self) >=? models.max_entries (config self))
   || (_total_memory_bytes self + needed_bytes >? max_memory_bytes))
  && match _entries self with [] => false | _ :: _ => true end.

(** The [while] loop of [_ensure_capacity]; [remaining] is
    [max_attempts - eviction_attempts], so the sentinel
    [eviction_attempts > max_attempts] fires exactly when the loop is entered
    with [remaining = 0]. *)
Fixpoint ensure_loop (remaining : nat) (max_attempts : Z) (self : CacheManager)
  (needed_bytes max_memory_bytes : Z) : outcome unit * CacheManager :=
  if over_capacity self needed_bytes max_memory_bytes then
    match remaining with
    | O => (Raise (CacheFullError (max_attempts + 1)), self)
    | S r => ensure_loop r max_attempts (_evict_one self) needed_bytes max_memory_bytes
    end
  else (Ok tt, self).

(** [int(x)] on a finite float: truncation towards zero. ([int] raises
    [OverflowError] on [inf] and [ValueError] on [nan], which are not values
    of the embedding.) *)
Definition py_int (x : Q) : Z := Z.quot (Qnum x) (Zpos (Qden x)).

(** [_ensure_capacity] *)
Definition _ensure_capacity (self : CacheManager) (needed_bytes : Z)
  : outcome unit * CacheManager :=
  let max_memory_bytes :=
    py_int (models.max_memory_mb (config self) * 1024 * 1024)%Q in
  let max_attempts := len (_entries self) + 1 in
  ensure_loop (Z.to_nat max_attempts) max_attempts self needed_bytes max_memory_bytes.

(** the miss result [PrefixMatch(total_length=len(tokens), hit=False)] *)
Definition miss (tokens : list Z) : models.PrefixMatch :=
  models.mkPrefixMatch [] 0 (len tokens) EmptyString [] false.

Definition count_lookup (s : models.CacheStats) (n : Z) : models.CacheStats :=
  models.mkCacheStats
    (models.total_lookups s + 1) (models.cache_hits s) (models.cache_misses s)
    (models.total_tokens_served s) (models.total_tokens_requested s + n)
    (models.entries_count s) (models.memory_used_mb s) (models.evictions s).
Definition count_miss (s : models.CacheStats) : models.CacheStats :=
  models.mkCacheStats
    (models.total_lookups s) (models.cache_hits s) (models.cache_misses s + 1)
    (models.total_tokens_served s) (models.total_tokens_requested s)
    (models.entries_count s) (models.memory_used_mb s) (models.evictions s).
Definition count_hit (s : models.CacheStats) (served : Z) : models.CacheStats :=
  models.mkCacheStats
    (models.total_lookups s) (models.cache_hits s + 1) (models.cache_misses s)
    (models.total_tokens_served s + served) (models.total_tokens_requested s)
    (models.entries_count s) (models.memory_used_mb s) (models.evictions s).

(** [lookup]; [now_expiry] is the clock read by [_is_expired], [now_access]
    the one read for [last_accessed] on a hit *)
Definition lookup (self : CacheManager) (tokens : list Z) (now_expiry now_access : Q)
  : models.PrefixMatch * CacheManager :=
  let self := with_stats self (count_lookup (_stats self) (len tokens)) in
  let (matched_len, found) := trie.find_longest_prefix (_trie self) tokens in
  match found with
  | None => (miss tokens, with_stats self (count_miss (_stats self)))
  | Some cache_key =>
      if matched_len <? models.min_prefix_length (config self) then
        (miss tokens, with_stats self (count_miss (_stats self)))
      else
        (* check entry exists and is not expired *)
        match pydict.get String.eqb (_entries self) cache_key with
        | None => (miss tokens, with_stats self (count_miss (_stats self)))
        | Some entry =>
            if _is_expired self entry now_expiry then
              let self := snd (_evict_entry self cache_key) in
              (miss tokens, with_stats self (count_miss (_stats self)))
            else
              (* update access tracking *)
              let entries :=
                pydict.move_to_end String.eqb
                  (pydict.set String.eqb (_entries self) cache_key
                              (touch entry now_access))
                  cache_key in
              let self := with_entries self entries in
              let self := with_stats self (count_hit (_stats self) matched_len) in
              (models.mkPrefixMatch
                 (firstn (Z.to_nat matched_len) tokens)
                 matched_len
                 (len tokens)
                 cache_key
                 (skipn (Z.to_nat matched_len) tokens)
                 true,
               self)
        end
  end.

(** [store]; [now] is the one clock reading of the call *)
Definition store (self : CacheManager) (tokens : list Z) (kv_data : Any)
  (memory_bytes : Z) (now : Q) : outcome string * CacheManager :=
  if len tokens <? models.min_prefix_length (config self) then
    (Ok EmptyString, self)
  else
    let cache_key := _compute_cache_key tokens in
    (* check if already cached *)
    match pydict.get String.eqb (_entries self) cache_key with
    | Some entry =>
        (Ok cache_key,
         with_entries self
           (pydict.move_to_end String.eqb
              (pydict.set String.eqb (_entries self) cache_key (touch entry now))
              cache_key))
    | None =>
        let entry :=
          CacheEntry_new cache_key tokens kv_data
            (if memory_bytes =? 0 then len tokens * BYTES_PER_TOKEN_DEFAULT
             else memory_bytes)
            now in
        (* evict if needed *)
        match _ensure_capacity self (cache.memory_bytes entry) with
        | (Raise e, self) => (Raise e, self)
        | (Ok _, self) =>
            (* store entry *)
            (Ok cache_key,
             mkCacheManager
               (config self)
               (trie.insert (_trie self) tokens cache_key)
               (pydict.set String.eqb (_entries self) cache_key entry)
               (_stats self)
               (_total_memory_bytes self + cache.memory_bytes entry))
        end
    end.

(** [evict] *)
Definition evict (self : CacheManager) (cache_key : string) : bool * CacheManager :=
  _evict_entry self cache_key.

(** [clear] *)
Definition clear (self : CacheManager) : CacheManager :=
  mkCacheManager (config self) trie.new_RadixTrie [] (_stats self) 0.

(** equality of token tuples (the keys of the analysis dictionary) *)
Fixpoint tokens_eqb (a b : list Z) : bool :=
  match a, b with
  | [], [] => true
  | x :: a', y :: b' => Z.eqb x y && tokens_eqb a' b'
  | _, _ => false
  end.

(** [tokens[:length]], with Python's reading of a negative bound *)
Definition slice_to (tokens : list Z) (length : Z) : list Z :=
  if 0 <=? length then firstn (Z.to_nat length) tokens
  else firstn (Z.to_nat (len tokens + length)) tokens.

(** [range(start, stop, -1)] *)
Definition range_down (start stop : Z) : list Z :=
  map (fun i => start - Z.of_nat i) (seq 0 (Z.to_nat (start - stop))).

(** the body of the inner [for length] loop of [analyze_batch] *)
Definition record_prefix (analysis_trie : list (list Z * list nat))
  (idx : nat) (prefix : list Z) : list (list Z * list nat) :=
  let analysis_trie :=
    if pydict.contains tokens_eqb analysis_trie prefix then analysis_trie
    else pydict.set tokens_eqb analysis_trie prefix [] in
  match pydict.get tokens_eqb analysis_trie prefix with
  | Some indices => pydict.set tokens_eqb analysis_trie prefix (indices ++ [idx])
  | None => analysis_trie
  end.

(** the first pair of loops of [analyze_batch] *)
Definition build_analysis_trie (min_prefix_length : Z)
  (token_sequences : list (list Z)) : list (list Z * list nat) :=
  fold_left
    (fun analysis_trie it =>
       let idx := fst it in
       let tokens := snd it in
       fold_left
         (fun analysis_trie length =>
            record_prefix analysis_trie idx (slice_to tokens length))
         (range_down (len tokens) (min_prefix_length - 1))
         analysis_trie)
    (combine (seq 0 (length token_sequences)) token_sequences)
    [].

(** [sorted(keys, key=len, reverse=True)]: a stable sort by decreasing
    length, here by insertion *)
Fixpoint insert_by_len (x : list Z) (l : list (list Z)) : list (list Z) :=
  match l with
  | [] => [x]
  | y :: r => if len y <? len x then x :: y :: r else y :: insert_by_len x r
  end.

Definition sorted_by_len_desc (l : list (list Z)) : list (list Z) :=
  fold_left (fun acc x => insert_by_len x acc) l [].

(** the body of the [for prefix in sorted_prefixes] loop; the loop state is
    [(shared_groups, assigned)] *)
Definition group_step (analysis_trie : list (list Z * list nat))
  (st : list (string * list nat) * list (nat * Z)) (prefix : list Z)
  : list (string * list nat) * list (nat * Z) :=
  let (shared_groups, assigned) := st in
  match pydict.get tokens_eqb analysis_trie prefix with
  | None => st
  | Some indices =>
      if len indices <? 2 then st
      else
        (* only consider indices not yet assigned to a longer prefix *)
        let unassigned :=
          filter (fun i => negb (pydict.contains Nat.eqb assigned i)) indices in
        if len unassigned <? 2 then st
        else
          let prefix_key := String.substring 0 8 (_compute_cache_key prefix) in
          (pydict.set String.eqb shared_groups prefix_key unassigned,
           fold_left (fun assigned i => pydict.set Nat.eqb assigned i (len prefix))
                     unassigned assigned)
  end.

(** [assigned.get(i, 0)] *)
Definition assigned_get (assigned : list (nat * Z)) (i : nat) : Z :=
  match pydict.get Nat.eqb assigned i with Some l => l | None => 0 end.

(** [sum(...)] and [max(...)] over integers *)
Definition py_sum (l : list Z) : Z := fold_left Z.add l 0.
Definition py_max (x : Z) (xs : list Z) : Z := fold_left Z.max xs x.

(** the [for group_indices in shared_groups.values()] loop *)
Definition subtract_group (assigned : list (nat * Z)) (savings : Z)
  (group_indices : list nat) : Z :=
  match group_indices with
  | [] => savings
  | i :: r =>
      let max_savings_in_group :=
        py_max (assigned_get assigned i) (map (assigned_get assigned) r) in
      savings - max_savings_in_group
  end.

(** [analyze_batch]: it only reads [self.config.min_prefix_length]; the
    manager is returned as it was received *)
Definition analyze_batch (self : CacheManager) (token_sequences : list (list Z))
  : models.BatchAnalysis * CacheManager :=
  match token_sequences with
  | [] => (models.new_BatchAnalysis, self)
  | _ :: _ =>
      (* build a temporary trie for analysis *)
      let analysis_trie :=
        build_analysis_trie (models.min_prefix_length (config self)) token_sequences in
      (* find maximal shared prefixes (prefixes appearing 2+ times) *)
      let sorted_prefixes := sorted_by_len_desc (map fst analysis_trie) in
      let (shared_groups, assigned) :=
        fold_left (group_step analysis_trie) sorted_prefixes ([], []) in
      let total_tokens := py_sum (map len token_sequences) in
      let savings :=
        py_sum (map (assigned_get assigned) (seq 0 (length token_sequences))) in
      (* subtract one copy per group (must compute at least once) *)
      let savings :=
        fold_left (subtract_group assigned) (map snd shared_groups) savings in
      (models.mkBatchAnalysis
         (len token_sequences)
         (len shared_groups)
         shared_groups
         (Z.max 0 savings)
         total_tokens,
       self)
  end.

(** [get_entry] *)
Definition get_entry (self : CacheManager) (cache_key : string) : option CacheEntry :=
  pydict.get String.eqb (_entries self) cache_key.

End cache.

(* ===================================================================== *)
(** * utils.py                                                         *)
(* ===================================================================== *)

Module utils.

(** [range(n)] *)
Definition range (n : Z) : list Z := map Z.of_nat (seq 0 (Z.to_nat n)).

(** [seq[i]] for [0 <= i < len(seq)], the only indices the loop below uses *)
Definition item (seq : list Z) (i : Z) : Z := nth (Z.to_nat i) seq 0.

(** the [for i in range(length)] loop of [find_common_prefix_length] over the
    indices still to visit *)
Fixpoint common_prefix_loop (seq_a seq_b : list Z) (indices : list Z) (length : Z)
  : Z :=
  match indices with
  | [] => length
  | i :: rest =>
      if negb (item seq_a i =? item seq_b i) then i
      else common_prefix_loop seq_a seq_b rest length
  end.

(** [find_common_prefix_length] *)
Definition find_common_prefix_length (seq_a seq_b : list Z) : Z :=
  let length := Z.min (len seq_a) (len seq_b) in
  common_prefix_loop seq_a seq_b (range length) length.

End utils.

(* ===================================================================== *)
(** * Part II: specification-level notions                                 *)
(* ===================================================================== *)

(* ===================================================================== *)
(** * Binary64 numbers                                                 *)
(* ===================================================================== *)

Module float_spec.

(** [q] is a binary64 number: an integer of less than 53 bits times a power
    of two that is at least [2^-1074]. The largest exponent, 971, is not
    part of the predicate: see [pyfloat] on results beyond the range. *)
Definition is_double (q : Q) : Prop :=
  exists m e : Z, Z.abs m < 2 ^ 53 /\ -1074 <= e /\ (q == inject_Z m * 2 ^ e)%Q.

End float_spec.

(* ===================================================================== *)
(** * The prefix index: abstraction and well-formedness                   *)
(* ===================================================================== *)

Module trie_spec.
Import trie.

(** [strip e rest] is what an edge comparison decides: [Some r] when the
    edge label [e] is matched in full and [r] is the input left, [None] on a
    partial match. *)
Definition strip (e rest : list Z) : option (list Z) :=
  if Nat.ltb (match_len e rest) (length e) then None
  else Some (skipn (match_len e rest) rest).

(** The terminal marker at the node whose path from [node] is exactly
    [path]: the walk of [remove], without the update. *)
Fixpoint marker (node : TrieNode) (path : list Z) {struct node} : option string :=
  match path with
  | [] => cache_key node
  | first_token :: _ =>
      pydict.dcase Z.eqb first_token None
        (fun child =>
           match strip (tokens child) path with
           | None => None
           | Some rest => marker child rest
           end)
        (children node)
  end.

(** The number of terminal markers below (and at) a node. *)
Fixpoint count_terminals (node : TrieNode) : Z :=
  match cache_key node with Some _ => 1 | None => 0 end
  + fold_right (fun kc acc => count_terminals (snd kc) + acc) 0 (children node).

(** Every child is filed under the first token of its (non-empty) edge
    label, and the keys of a children dictionary are distinct. *)
#[local] Unset Elimination Schemes.
Inductive wf_node : TrieNode -> Prop :=
| wf_node_intro (n : TrieNode) :
    NoDup (map fst (children n)) ->
    Forall (fun kc => hd_error (tokens (snd kc)) = Some (fst kc) /\ wf_node (snd kc))
           (children n) ->
    wf_node n.
#[local] Set Elimination Schemes.

Definition wf (t : RadixTrie) : Prop :=
  tokens (root t) = [] /\ cache_key (root t) = None /\ wf_node (root t)
  /\ _size t = count_terminals (root t).

(** The states of a [RadixTrie] object: what its methods build from
    [RadixTrie()]. *)
Inductive reachable : RadixTrie -> Prop :=
| reach_new : reachable new_RadixTrie
| reach_insert (t : RadixTrie) (s : list Z) (k : string) :
    reachable t -> reachable (insert t s k)
| reach_remove (t : RadixTrie) (s : list Z) :
    reachable t -> reachable (snd (remove t s)).

(** [stored t p k]: the index holds the marker [k] for the sequence [p]. *)
Definition stored (t : RadixTrie) (p : list Z) (k : string) : Prop :=
  In (p, k) (get_all_entries t).

(** The longest stored prefix of [rest], searched from length [m] down to 1. *)
Fixpoint best_prefix (node : TrieNode) (rest : list Z) (m : nat)
  : option (nat * string) :=
  match m with
  | O => None
  | S m' =>
      match marker node (firstn m rest) with
      | Some k => Some (m, k)
      | None => best_prefix node rest m'
      end
  end.

(** The terminal markers below the children of a node. *)
Definition csum (ch : list (Z * TrieNode)) : Z :=
  fold_right (fun kc acc => count_terminals (snd kc) + acc) 0 ch.

(** An index with two entries that share an edge. *)
Definition sample_index : RadixTrie :=
  insert (insert new_RadixTrie [1; 2; 3] "a") [1; 2; 4] "b".

(** [is_prefix p s]: the sequence [s] starts with [p]. *)
Definition is_prefix (p s : list Z) : Prop := exists r, s = p ++ r.

(** The [depth] field of every node is the number of tokens on the path from
    the root to the end of the node's edge; [above] is that number for the
    parent. *)
#[local] Unset Elimination Schemes.
Inductive depths_ok : Z -> TrieNode -> Prop :=
| depths_ok_intro (above : Z) (n : TrieNode) :
    depth n = above + len (tokens n) ->
    Forall (fun kc => depths_ok (depth n) (snd kc)) (children n) ->
    depths_ok above n.
#[local] Set Elimination Schemes.

(** A fresh index filled with the entries that [get_all_entries] lists. *)
Definition rebuild (t : RadixTrie) : RadixTrie :=
  fold_left (fun acc e => insert acc (fst e) (snd e)) (get_all_entries t)
            new_RadixTrie.

End trie_spec.

(* ===================================================================== *)
(** * The cache store: histories and invariants                           *)
(* ===================================================================== *)

Module cache_spec.
Import exceptions cache.

(** A configuration that its constructor accepts. *)
Definition valid_config (c : models.CacheConfig) : Prop :=
  models.CacheConfig__post_init__ c = Ok c.

(** The public operations that touch the state of a manager. *)
Inductive op : Type :=
| OpStore (tokens : list Z) (kv_data : Any) (memory_bytes : Z) (now : Q)
| OpLookup (tokens : list Z) (now_expiry now_access : Q)
| OpEvict (cache_key : string)
| OpClear
| OpStats.

(** The state an operation leaves behind. *)
Definition run_op (self : CacheManager) (o : op) : CacheManager :=
  match o with
  | OpStore tokens kv_data memory_bytes now =>
      snd (store self tokens kv_data memory_bytes now)
  | OpLookup tokens now_expiry now_access =>
      snd (lookup self tokens now_expiry now_access)
  | OpEvict cache_key => snd (evict self cache_key)
  | OpClear => clear self
  | OpStats => snd (stats self)
  end.

Definition run_ops (self : CacheManager) (ops : list op) : CacheManager :=
  fold_left run_op ops self.

(** The byte budget [M] in bytes. *)
Definition max_memory_bytes (c : models.CacheConfig) : Z :=
  py_int (models.max_memory_mb c * 1024 * 1024)%Q.

(** The sum of [memory_bytes] over the entries of the map. *)
Definition total_bytes (d : list (string * CacheEntry)) : Z :=
  fold_right (fun ke acc => memory_bytes (snd ke) + acc) 0 d.

(** The number of terminal markers in the index. *)
Definition terminal_markers (t : trie.RadixTrie) : Z :=
  len (trie.get_all_entries t).

(** Map/index synchrony and byte accounting. *)
Record Inv (self : CacheManager) : Prop := mkInv {
  inv_trie : trie_spec.wf (_trie self);
  inv_keys : NoDup (map fst (_entries self));
  inv_entry :
    forall k e,
      pydict.get String.eqb (_entries self) k = Some e ->
      cache_key e = k /\ k = _compute_cache_key (tokens e) /\ tokens e <> [] /\
      trie_spec.marker (trie.root (_trie self)) (tokens e) = Some k;
  inv_marker :
    forall p k,
      p <> [] -> trie_spec.marker (trie.root (_trie self)) p = Some k ->
      exists e, pydict.get String.eqb (_entries self) k = Some e /\ tokens e = p;
  inv_count :
    trie_spec.count_terminals (trie.root (_trie self)) = len (_entries self);
  inv_bytes : _total_memory_bytes self = total_bytes (_entries self)
}.

(** [CacheManager(config=CacheConfig(...))]: the argument is evaluated first,
    so an error raised by the configuration leaves no manager. *)
Definition construct (me : Z) (mm ttl : Q) (policy : string) (mpl : Z)
  : outcome CacheManager :=
  match models.CacheConfig_new me mm ttl policy mpl with
  | Raise e => Raise e
  | Ok c => Ok (CacheManager_new (Some c))
  end.

(** The footprint [store] gives a new entry. *)
Definition footprint (tokens : list Z) (memory_bytes : Z) : Z :=
  if memory_bytes =? 0 then len tokens * BYTES_PER_TOKEN_DEFAULT else memory_bytes.

(** A [store] whose caller-supplied footprint is not negative and whose entry
    fits in the byte budget on its own. *)
Definition fits (c : models.CacheConfig) (o : op) : Prop :=
  match o with
  | OpStore tokens _ memory_bytes _ =>
      0 <= memory_bytes /\ footprint tokens memory_bytes <= max_memory_bytes c
  | _ => True
  end.

(** The two capacity bounds. *)
Definition within_count (self : CacheManager) : Prop :=
  len (_entries self) <= models.max_entries (config self).

Definition within_bytes (self : CacheManager) : Prop :=
  _total_memory_bytes self <= max_memory_bytes (config self) /\
  forall k e, pydict.get String.eqb (_entries self) k = Some e -> 0 <= memory_bytes e.

(** The two recognised eviction policies. *)
Definition policy_ok (c : models.CacheConfig) : Prop :=
  models.eviction_policy c = "lru"%string \/ models.eviction_policy c = "lfu"%string.

(** the key that [_evict_one] picks, when the map is not empty *)
Definition victim (self : CacheManager) : option string :=
  match _entries self with
  | [] => None
  | (k0, _) :: rest =>
      if String.eqb (models.eviction_policy (config self)) "lru" then Some k0
      else if String.eqb (models.eviction_policy (config self)) "lfu" then
        Some (py_min (fun k => match pydict.get String.eqb (_entries self) k with
                               | Some e => access_count e
                               | None => 0
                               end)
                     k0 (map fst rest))
      else None
  end.

(** The small cache of the test suite. *)
Definition small_cache : CacheManager :=
  CacheManager_new (Some (models.mkCacheConfig 10 1 0 "lru" 2)).

(** A configuration and a history used to exercise the theorems. *)
Definition sample_config : models.CacheConfig :=
  models.mkCacheConfig 2 1 (1 # 10) "lfu" 2.

Definition sample_history : list op :=
  [ OpStore [1; 2; 3] PyNone 0 0;
    OpStore [1; 2; 4; 5] (PyObject 7) 4096 1;
    OpLookup [1; 2; 3; 9] (1 # 20) (1 # 20);
    OpStore [7; 8; 9] PyNone 0 2;
    OpStats ].

(** A lowercase hexadecimal digit. *)
Definition is_hex (c : ascii) : Prop :=
  In c (list_ascii_of_string "0123456789abcdef").

(** The counters of a statistics object are consistent. *)
Definition counters_ok (s : models.CacheStats) : Prop :=
  models.total_lookups s = models.cache_hits s + models.cache_misses s /\
  0 <= models.cache_hits s /\ 0 <= models.cache_misses s /\
  0 <= models.total_tokens_served s <= models.total_tokens_requested s /\
  0 <= models.evictions s.

(** The invariants of a live entry filed under the key [k]. *)
Definition entry_ok (c : models.CacheConfig) (k : string) (e : CacheEntry) : Prop :=
  cache_key e = k /\ k = _compute_cache_key (tokens e) /\
  token_count e = len (tokens e) /\
  models.min_prefix_length c <= len (tokens e) /\
  0 <= access_count e.

(** What [d.pop(k, None)] leaves for each key of [ks] in turn. *)
Definition removes (d : list (string * CacheEntry)) (ks : list string)
  : list (string * CacheEntry) :=
  fold_left (pydict.remove String.eqb) ks d.

(** The clock never goes back along a history: every reading is at least
    the one before it, starting from [t]. A [store] reads the clock once, a
    [lookup] reads it for the expiry test and then for the access time. *)
Fixpoint monotone_from (t : Q) (ops : list op) : Prop :=
  match ops with
  | [] => True
  | OpStore _ _ _ now :: r => (t <= now)%Q /\ monotone_from now r
  | OpLookup _ now_expiry now_access :: r =>
      (t <= now_expiry)%Q /\ (now_expiry <= now_access)%Q /\ monotone_from now_access r
  | _ :: r => monotone_from t r
  end.

(** [older a b]: the entry [a] was last accessed no later than [b]. *)
Definition older (a b : string * CacheEntry) : Prop :=
  (last_accessed (snd a) <= last_accessed (snd b))%Q.

(** The map lists its entries from the least to the most recently accessed,
    no access is later than [t], and no entry was accessed before it was
    created. *)
Definition recency_ordered (t : Q) (d : list (string * CacheEntry)) : Prop :=
  StronglySorted older d /\
  Forall (fun ke => (created_at (snd ke) <= last_accessed (snd ke))%Q /\
                    (last_accessed (snd ke) <= t)%Q) d.

(** A history whose clock readings increase. *)
Definition sample_timeline : list op :=
  [ OpStore [1; 2; 3] PyNone 0 0;
    OpStore [1; 2; 4; 5] PyNone 0 (1 # 100);
    OpLookup [1; 2; 3; 9] (2 # 100) (3 # 100);
    OpStore [7; 8; 9] PyNone 0 (4 # 100) ].

(** A manager whose configuration was given an unknown policy after it was
    validated, holding one entry. *)
Definition policy_less_cache : CacheManager :=
  snd (store (CacheManager_new (Some (models.mkCacheConfig 1 1 0 "fifo" 2)))
             [1; 2; 3] PyNone 0 0).

End cache_spec.

(* ===================================================================== *)
(** * The batch analyzer                                                  *)
(* ===================================================================== *)

Module batch_spec.
Import cache.

(** [candb L s p]: [p] is a candidate prefix of the sequence [s], that is
    [p = s[:l]] for a length [l] with [L <= l <= len(s)]. *)
Definition candb (L : Z) (s p : list Z) : bool :=
  (L <=? len p) && (length p <=? length s)%nat && tokens_eqb (firstn (length p) s) p.

(** The indices below [m] of the sequences that have [p] as a candidate
    prefix, in increasing order. *)
Definition indices_of (L : Z) (seqs : list (list Z)) (m : nat) (p : list Z) : list nat :=
  filter (fun i => candb L (nth i seqs []) p) (seq 0 m).

(** The state [(shared_groups, assigned)] in which the loop over the sorted
    prefixes of [analyze_batch] ends. *)
Definition batch_state (L : Z) (seqs : list (list Z))
  : list (string * list nat) * list (nat * Z) :=
  fold_left (group_step (build_analysis_trie L seqs))
            (sorted_by_len_desc (map fst (build_analysis_trie L seqs)))
            ([], []).

(** The candidate prefixes in the order in which the loop takes them. *)
Definition sorted_prefixes (L : Z) (seqs : list (list Z)) : list (list Z) :=
  sorted_by_len_desc (map fst (build_analysis_trie L seqs)).

(** Index [i] has a candidate prefix of length [l]. *)
Definition cand (L : Z) (seqs : list (list Z)) (i l : nat) : Prop :=
  L <= Z.of_nat l /\ (l <= length (nth i seqs []))%nat.

(** Index [i] is not assigned to a prefix longer than [l]. *)
Definition free (assigned : list (nat * Z)) (l i : nat) : Prop :=
  forall v, pydict.get Nat.eqb assigned i = Some v -> v <= Z.of_nat l.

(** The prefix of length [l] of sequence [i] is a candidate shared with
    another index, and neither of the two is assigned to a longer prefix. *)
Definition grouped_at (L : Z) (seqs : list (list Z)) (assigned : list (nat * Z))
  (l i : nat) : Prop :=
  cand L seqs i l /\ free assigned l i /\
  exists j, (j < length seqs)%nat /\ j <> i /\ cand L seqs j l /\
            firstn l (nth j seqs []) = firstn l (nth i seqs []) /\
            free assigned l j.

(** Sums and maxima as the claim states them. *)
Definition sum_assigned (assigned : list (nat * Z)) (n : nat) : Z :=
  fold_right Z.add 0 (map (assigned_get assigned) (seq 0 n)).

Definition group_max (assigned : list (nat * Z)) (g : list nat) : Z :=
  match g with
  | [] => 0
  | i :: r => fold_right Z.max (assigned_get assigned i)
                         (map (assigned_get assigned) r)
  end.

Definition sum_group_max (assigned : list (nat * Z)) (groups : list (string * list nat))
  : Z :=
  fold_right (fun g acc => group_max assigned (snd g) + acc) 0 groups.

(** The list stored under a key of the analysis dictionary, empty when the
    key is absent. *)
Definition get_or_nil (d : list (list Z * list nat)) (p : list Z) : list nat :=
  match pydict.get tokens_eqb d p with Some l => l | None => [] end.

(** The order of the pass: longer prefixes first. *)
Definition longer_first (a b : list Z) : Prop := (length b <= length a)%nat.

(** the indices of [p] that are not assigned yet *)
Definition unassigned (L : Z) (seqs : list (list Z)) (assigned : list (nat * Z))
  (p : list Z) : list nat :=
  filter (fun i => negb (pydict.contains Nat.eqb assigned i)) (indices_of L seqs (length seqs) p).

(** The loop invariant: an assigned index was assigned together with a
    partner at a prefix already taken, and in a prefix already taken an index
    that is not assigned at its length leaves every other index of that
    prefix assigned to a longer one. *)
Definition pass_inv (L : Z) (seqs : list (list Z)) (taken : list (list Z))
  (assigned : list (nat * Z)) : Prop :=
  (forall i v,
      pydict.get Nat.eqb assigned i = Some v ->
      exists p j, In p taken /\ v = len p /\ In i (indices_of L seqs (length seqs) p) /\ In j (indices_of L seqs (length seqs) p) /\
                  j <> i /\ pydict.get Nat.eqb assigned j = Some v) /\
  (forall p i j,
      In p taken -> In i (indices_of L seqs (length seqs) p) -> In j (indices_of L seqs (length seqs) p) -> j <> i ->
      (forall v, pydict.get Nat.eqb assigned i = Some v -> v < len p) ->
      exists v, pydict.get Nat.eqb assigned j = Some v /\ len p < v).

(** A batch used to exercise the theorem. *)
Definition sample_batch : list (list Z) :=
  [[1; 2; 3; 4; 5]; [1; 2; 3; 4; 6]; [1; 2; 3; 9]; [7; 8]].

(** A group of the report: at least two distinct indices of the batch that
    have one candidate prefix in common and are assigned its length, filed
    under the first 8 characters of the key of that prefix. *)
Definition group_ok (L : Z) (seqs : list (list Z)) (assigned : list (nat * Z))
  (kg : string * list nat) : Prop :=
  2 <= len (snd kg) /\ NoDup (snd kg) /\
  exists p, fst kg = String.substring 0 8 (_compute_cache_key p) /\
            forall i, In i (snd kg) ->
                      In i (indices_of L seqs (length seqs) p) /\
                      pydict.get Nat.eqb assigned i = Some (len p).

(** The groups have distinct keys, each is well formed, and no index is in
    two of them. *)
Definition groups_inv (L : Z) (seqs : list (list Z))
  (st : list (string * list nat) * list (nat * Z)) : Prop :=
  NoDup (map fst (fst st)) /\
  Forall (group_ok L seqs (snd st)) (fst st) /\
  (forall k1 g1 k2 g2 i,
      In (k1, g1) (fst st) -> In (k2, g2) (fst st) -> k1 <> k2 ->
      In i g1 -> ~ In i g2).

(** Two sequences of the batch have a prefix of at least [L] tokens in
    common. *)
Definition shares_prefix (L : Z) (seqs : list (list Z)) : Prop :=
  exists i j p, (i < j < length seqs)%nat /\ L <= len p /\
                trie_spec.is_prefix p (nth i seqs []) /\ trie_spec.is_prefix p (nth j seqs []).

End batch_spec.

(* ===================================================================== *)
(** * Part III: proofs                                                     *)
(* ===================================================================== *)

(* ===================================================================== *)
(** * Facts about the dictionary model                                    *)
(* ===================================================================== *)

Module pydict_facts.
Section Facts.
Context {K V : Type}.
Variable eqb : K -> K -> bool.
Hypothesis eqb_eq : forall a b, eqb a b = true <-> a = b.

Lemma eqb_refl (a : K) : eqb a a = true.
Proof. now apply eqb_eq. Qed.

Lemma eqb_neq (a b : K) : a <> b -> eqb a b = false.
Proof.
  intros H. destruct (eqb a b) eqn:E; [|reflexivity].
  apply eqb_eq in E. contradiction.
Qed.

Lemma eqb_false (a b : K) : eqb a b = false -> a <> b.
Proof. intros E ->. rewrite eqb_refl in E. discriminate. Qed.

Lemma dcase_get {A : Type} (k : K) (a : A) (f : V -> A) (d : list (K * V)) :
  pydict.dcase eqb k a f d =
  match pydict.get eqb d k with Some v => f v | None => a end.
Proof.
  induction d as [|[k' v] r IH]; simpl; [reflexivity|].
  destruct (eqb k' k); [reflexivity|exact IH].
Qed.

Lemma get_In (d : list (K * V)) (k : K) (v : V) :
  pydict.get eqb d k = Some v -> In (k, v) d.
Proof.
  induction d as [|[k' v'] r IH]; simpl; [discriminate|].
  destruct (eqb k' k) eqn:E.
  - intros [= ->]. apply eqb_eq in E. subst. now left.
  - intros H. right. auto.
Qed.

Lemma get_None_not_In (d : list (K * V)) (k : K) :
  pydict.get eqb d k = None <-> ~ In k (map fst d).
Proof.
  induction d as [|[k' v'] r IH]; simpl; [tauto|].
  destruct (eqb k' k) eqn:E.
  - apply eqb_eq in E. subst. split; [discriminate|]. intros H. exfalso. apply H. now left.
  - apply eqb_false in E. rewrite IH. tauto.
Qed.

Lemma In_get (d : list (K * V)) (k : K) (v : V) :
  NoDup (map fst d) -> In (k, v) d -> pydict.get eqb d k = Some v.
Proof.
  induction d as [|[k' v'] r IH]; simpl; [tauto|].
  intros ND [E|H].
  - injection E as -> ->. now rewrite eqb_refl.
  - inversion ND as [|? ? Hn ND']; subst.
    destruct (eqb k' k) eqn:E.
    + apply eqb_eq in E. subst. exfalso. apply Hn.
      change k with (fst (k, v)). now apply in_map.
    + auto.
Qed.

Lemma get_set_same (d : list (K * V)) (k : K) (v : V) :
  pydict.get eqb (pydict.set eqb d k v) k = Some v.
Proof.
  induction d as [|[k' v'] r IH]; simpl.
  - now rewrite eqb_refl.
  - destruct (eqb k' k) eqn:E; simpl; rewrite E; auto.
Qed.

Lemma get_set_other (d : list (K * V)) (k k' : K) (v : V) :
  k' <> k -> pydict.get eqb (pydict.set eqb d k v) k' = pydict.get eqb d k'.
Proof.
  intros N. induction d as [|[k0 v0] r IH]; simpl.
  - rewrite eqb_neq; auto.
  - destruct (eqb k0 k) eqn:E; simpl.
    + apply eqb_eq in E. subst. rewrite eqb_neq; auto.
    + now rewrite IH.
Qed.

Lemma get_remove_other (d : list (K * V)) (k k' : K) :
  k' <> k -> pydict.get eqb (pydict.remove eqb d k) k' = pydict.get eqb d k'.
Proof.
  intros N. induction d as [|[k0 v0] r IH]; simpl; [reflexivity|].
  destruct (eqb k0 k) eqn:E; simpl.
  - apply eqb_eq in E. subst. rewrite eqb_neq; auto.
  - now rewrite IH.
Qed.

Lemma keys_remove_incl (d : list (K * V)) (k x : K) :
  In x (map fst (pydict.remove eqb d k)) -> In x (map fst d).
Proof.
  induction d as [|[k0 v0] r IH]; simpl; [tauto|].
  destruct (eqb k0 k); simpl; tauto.
Qed.

Lemma NoDup_remove (d : list (K * V)) (k : K) :
  NoDup (map fst d) -> NoDup (map fst (pydict.remove eqb d k)).
Proof.
  induction d as [|[k0 v0] r IH]; simpl; [auto|].
  intros ND. inversion ND as [|? ? Hn ND']; subst.
  destruct (eqb k0 k); simpl; [assumption|].
  constructor; [|auto]. intros H. apply Hn. eapply keys_remove_incl; eauto.
Qed.

Lemma get_remove_same (d : list (K * V)) (k : K) :
  NoDup (map fst d) -> pydict.get eqb (pydict.remove eqb d k) k = None.
Proof.
  induction d as [|[k0 v0] r IH]; simpl; [reflexivity|].
  intros ND. inversion ND as [|? ? Hn ND']; subst.
  destruct (eqb k0 k) eqn:E; simpl.
  - apply eqb_eq in E. subst. now apply get_None_not_In.
  - rewrite E. auto.
Qed.

Lemma keys_set (d : list (K * V)) (k : K) (v : V) :
  map fst (pydict.set eqb d k v) =
  if pydict.contains eqb d k then map fst d else map fst d ++ [k].
Proof.
  unfold pydict.contains.
  induction d as [|[k0 v0] r IH]; simpl; [reflexivity|].
  destruct (eqb k0 k) eqn:E; simpl; [reflexivity|].
  rewrite IH. destruct (pydict.get eqb r k); reflexivity.
Qed.

Lemma NoDup_set (d : list (K * V)) (k : K) (v : V) :
  NoDup (map fst d) -> NoDup (map fst (pydict.set eqb d k v)).
Proof.
  intros ND. rewrite keys_set. unfold pydict.contains.
  destruct (pydict.get eqb d k) eqn:G; [assumption|].
  apply get_None_not_In in G.
  apply NoDup_rev in ND. rewrite <- (rev_involutive (map fst d ++ [k])).
  apply NoDup_rev. rewrite rev_app_distr. simpl. constructor; [|assumption].
  now rewrite <- in_rev.
Qed.

Lemma length_set (d : list (K * V)) (k : K) (v : V) :
  length (pydict.set eqb d k v) =
  if pydict.contains eqb d k then length d else S (length d).
Proof.
  rewrite <- (length_map fst), keys_set.
  destruct (pydict.contains eqb d k); rewrite ?length_app, length_map; simpl; lia.
Qed.

Lemma length_remove (d : list (K * V)) (k : K) :
  length (pydict.remove eqb d k) =
  if pydict.contains eqb d k then pred (length d) else length d.
Proof.
  unfold pydict.contains.
  induction d as [|[k0 v0] r IH]; simpl; [reflexivity|].
  destruct (eqb k0 k) eqn:E; simpl; [reflexivity|].
  rewrite IH. destruct (pydict.get eqb r k) eqn:G; [|reflexivity].
  destruct r; [discriminate|reflexivity].
Qed.

Lemma get_app_absent (d : list (K * V)) (k k' : K) (v : V) :
  pydict.get eqb (d ++ [(k, v)]) k' =
  match pydict.get eqb d k' with
  | Some x => Some x
  | None => if eqb k k' then Some v else None
  end.
Proof.
  induction d as [|[k0 v0] r IH]; simpl; [reflexivity|].
  destruct (eqb k0 k'); auto.
Qed.

Lemma get_move_to_end (d : list (K * V)) (k k' : K) :
  NoDup (map fst d) ->
  pydict.get eqb (pydict.move_to_end eqb d k) k' = pydict.get eqb d k'.
Proof.
  intros ND. unfold pydict.move_to_end.
  destruct (pydict.get eqb d k) eqn:G; [|reflexivity].
  rewrite get_app_absent.
  destruct (eqb k k') eqn:E.
  - apply eqb_eq in E. subst k'. rewrite get_remove_same, G; auto.
  - apply eqb_false in E. rewrite get_remove_other by congruence.
    destruct (pydict.get eqb d k'); reflexivity.
Qed.

Lemma remove_perm (d : list (K * V)) (k : K) (v : V) :
  pydict.get eqb d k = Some v -> Permutation d ((k, v) :: pydict.remove eqb d k).
Proof.
  induction d as [|[k0 v0] r IH]; simpl; [discriminate|].
  destruct (eqb k0 k) eqn:E.
  - intros [= ->]. apply eqb_eq in E. subst. reflexivity.
  - intros G. rewrite perm_swap. constructor. auto.
Qed.

Lemma move_to_end_perm (d : list (K * V)) (k : K) :
  Permutation (pydict.move_to_end eqb d k) d.
Proof.
  unfold pydict.move_to_end. destruct (pydict.get eqb d k) eqn:G; [|reflexivity].
  rewrite (remove_perm d k v G) at 2.
  rewrite Permutation_app_comm. reflexivity.
Qed.

End Facts.
End pydict_facts.

(* ===================================================================== *)
(** * Facts about the rounding of floats                               *)
(* ===================================================================== *)

Module pyfloat_facts.
Import pyfloat float_spec.

Lemma pow2_pos (k : Z) : (0 < 2 ^ k)%Q.
Proof. apply Qpower_0_lt. reflexivity. Qed.

Lemma pow2_add (a b : Z) : (2 ^ (a + b) == 2 ^ a * 2 ^ b)%Q.
Proof. apply Qpower_plus. discriminate. Qed.

Lemma pow2_le (a b : Z) : a <= b -> (2 ^ a <= 2 ^ b)%Q.
Proof. intros H. apply Qpower_le_compat_l; [exact H|discriminate]. Qed.

Lemma pow2_Z (n : Z) : 0 <= n -> (inject_Z (2 ^ n) == 2 ^ n)%Q.
Proof. intros H. now rewrite Zpower_Qpower. Qed.

Lemma rne_floor (x : Q) : Qfloor x <= rne x <= Qfloor x + 1.
Proof.
  unfold rne. destruct (Qcompare _ _); [destruct (Z.even _)| |]; lia.
Qed.

Lemma rne_lower (x : Q) (t : Z) : (inject_Z t <= x)%Q -> t <= rne x.
Proof.
  intros H. apply Qfloor_resp_le in H. rewrite Qfloor_Z in H.
  pose proof (rne_floor x). lia.
Qed.

Lemma rne_upper (x : Q) (t : Z) : (x <= inject_Z t)%Q -> rne x <= t.
Proof.
  intros H. pose proof (Qfloor_le x) as F.
  assert (Ft : Qfloor x <= t).
  { rewrite Zle_Qle. lra. }
  unfold rne. destruct (Qcompare_spec (x - inject_Z (Qfloor x)) (1 # 2)) as [E|L|G].
  - destruct (Z.even _); [exact Ft|].
    assert (Qfloor x < t); [|lia]. rewrite Zlt_Qlt. lra.
  - exact Ft.
  - assert (Qfloor x < t); [|lia]. rewrite Zlt_Qlt. lra.
Qed.

Lemma rne_half (x : Q) : (x - (1 # 2) <= inject_Z (rne x) <= x + (1 # 2))%Q.
Proof.
  pose proof (Qfloor_le x) as F. pose proof (Qlt_floor x) as C.
  rewrite inject_Z_plus in C. change (inject_Z 1) with 1%Q in C.
  unfold rne. destruct (Qcompare_spec (x - inject_Z (Qfloor x)) (1 # 2)) as [E|L|G].
  - destruct (Z.even _);
      [|rewrite inject_Z_plus; change (inject_Z 1) with 1%Q]; lra.
  - lra.
  - rewrite inject_Z_plus. change (inject_Z 1) with 1%Q. lra.
Qed.

Lemma ilog2_spec (a : Q) :
  (0 < a)%Q -> (2 ^ ilog2 a <= a)%Q /\ (a < 2 ^ (ilog2 a + 1))%Q.
Proof.
  intros Pa. destruct a as [n d]. unfold ilog2. cbn [Qnum Qden].
  assert (Pn : 0 < n) by (unfold Qlt in Pa; cbn in Pa; lia).
  set (l1 := Z.log2 n). set (l2 := Z.log2 (Z.pos d)).
  destruct (Z.log2_spec n Pn) as [N1 N2]. fold l1 in N1, N2.
  destruct (Z.log2_spec (Z.pos d) eq_refl) as [D1 D2]. fold l2 in D1, D2.
  assert (L1 : 0 <= l1) by apply Z.log2_nonneg.
  assert (L2 : 0 <= l2) by apply Z.log2_nonneg.
  assert (Ea : (n # d) * inject_Z (Z.pos d) == inject_Z n).
  { rewrite (Qmake_Qdiv n d). field. discriminate. }
  rewrite Zle_Qle in N1, D1. rewrite Zlt_Qlt in N2, D2.
  rewrite pow2_Z in N1, D1 by assumption.
  rewrite pow2_Z in N2, D2 by lia.
  replace (Z.succ l1) with (l1 + 1) in N2 by lia.
  replace (Z.succ l2) with (l2 + 1) in D2 by lia.
  pose proof (pow2_pos l2) as P2. pose proof (pow2_pos (l2 + 1)) as P2'.
  assert (Pd : (0 < inject_Z (Z.pos d))%Q) by reflexivity.
  destruct (Qle_bool (2 ^ (l1 - l2)) (n # d)) eqn:T.
  - apply Qle_bool_iff in T. split; [exact T|].
    assert (E : (2 ^ (l1 - l2 + 1) * 2 ^ l2 == 2 ^ (l1 + 1))%Q).
    { rewrite <- pow2_add. now replace (l1 - l2 + 1 + l2) with (l1 + 1) by lia. }
    pose proof (pow2_pos (l1 - l2 + 1)) as PA.
    apply Qnot_le_lt. intros C.
    assert ((2 ^ (l1 - l2 + 1) * 2 ^ l2 <= (n # d) * inject_Z (Z.pos d))%Q); [|lra].
    apply Qle_trans with ((n # d) * 2 ^ l2)%Q.
    + apply Qmult_le_compat_r; [exact C|lra].
    + rewrite !(Qmult_comm (n # d)). apply Qmult_le_compat_r; [exact D1|lra].
  - assert (T' : (n # d < 2 ^ (l1 - l2))%Q).
    { apply Qnot_le_lt. intros C. apply Qle_bool_iff in C. congruence. }
    split.
    + assert (E : (2 ^ (l1 - l2 - 1) * 2 ^ (l2 + 1) == 2 ^ l1)%Q).
      { rewrite <- pow2_add. now replace (l1 - l2 - 1 + (l2 + 1)) with l1 by lia. }
      pose proof (pow2_pos (l1 - l2 - 1)) as PA.
      apply Qnot_lt_le. intros C.
      assert (((n # d) * inject_Z (Z.pos d) < 2 ^ (l1 - l2 - 1) * 2 ^ (l2 + 1))%Q);
        [|lra].
      apply Qle_lt_trans with ((n # d) * 2 ^ (l2 + 1))%Q.
      * rewrite !(Qmult_comm (n # d)). apply Qmult_le_compat_r; [lra|lra].
      * apply Qmult_lt_compat_r; [exact P2'|exact C].
    + now replace (l1 - l2 - 1 + 1) with (l1 - l2) by lia.
Qed.

Lemma is_double_opp (f : Q) : is_double f -> is_double (- f).
Proof.
  intros (m & e & Hm & He & E). exists (- m), e.
  split; [lia|]. split; [exact He|]. rewrite E, inject_Z_opp. ring.
Qed.

Lemma is_double_Z (z : Z) (e : Z) :
  Z.abs z < 2 ^ 53 -> -1074 <= e -> is_double (inject_Z z * 2 ^ e).
Proof. intros Hz He. exists z, e. now repeat split. Qed.

(** A binary64 number is a multiple of [2^k], or below [2^(k + 52)] in
    magnitude, for every [k > -1074]. *)
Lemma double_grid (f : Q) (k : Z) :
  is_double f ->
  (exists t : Z, f == inject_Z t * 2 ^ k)%Q \/
  (-1074 < k /\ (- 2 ^ (k + 52) < f)%Q /\ (f < 2 ^ (k + 52))%Q).
Proof.
  intros (m & e & Hm & He & E).
  destruct (Z_le_gt_dec k e) as [Le|Gt].
  - left. exists (m * 2 ^ (e - k)). rewrite E, inject_Z_mult, pow2_Z by lia.
    rewrite <- Qmult_assoc, <- pow2_add. now replace (e - k + k) with e by lia.
  - right. split; [lia|].
    assert (B : (2 ^ 53 * 2 ^ e <= 2 ^ (k + 52))%Q).
    { rewrite <- pow2_add. apply pow2_le. lia. }
    pose proof (pow2_pos e) as Pe.
    assert (M1 : (inject_Z m < 2 ^ 53)%Q).
    { rewrite <- pow2_Z by lia. rewrite <- Zlt_Qlt. lia. }
    assert (M2 : (- 2 ^ 53 < inject_Z m)%Q).
    { rewrite <- pow2_Z by lia. rewrite <- inject_Z_opp, <- Zlt_Qlt. lia. }
    assert (U : (inject_Z m * 2 ^ e < 2 ^ 53 * 2 ^ e)%Q)
      by (apply Qmult_lt_compat_r; assumption).
    assert (D : (- 2 ^ 53 * 2 ^ e < inject_Z m * 2 ^ e)%Q)
      by (apply Qmult_lt_compat_r; assumption).
    rewrite E. split; lra.
Qed.

Lemma nearest_pos_between (a f : Q) :
  (0 < a)%Q -> is_double f ->
  ((a <= f)%Q -> (nearest_pos a <= f)%Q) /\
  ((f <= a)%Q -> (f <= nearest_pos a)%Q).
Proof.
  intros Pa Df. unfold nearest_pos, ulp_exponent.
  destruct (ilog2_spec a Pa) as [Lo Hi].
  set (e := ilog2 a) in *. set (k := Z.max (e - 52) (-1074)).
  pose proof (pow2_pos k) as Pk.
  set (x := (a / 2 ^ k)%Q).
  assert (Ex : (x * 2 ^ k == a)%Q) by (unfold x; field; lra).
  destruct (double_grid f k Df) as [[t Et]|(Hk & F1 & F2)].
  - split; intros H.
    + assert (rne x <= t); [|rewrite Et; apply Qmult_le_compat_r;
                              [now rewrite <- Zle_Qle|lra]].
      apply rne_upper. rewrite Et, <- Ex in H.
      apply Qmult_le_r in H; assumption.
    + assert (t <= rne x); [|rewrite Et; apply Qmult_le_compat_r;
                              [now rewrite <- Zle_Qle|lra]].
      apply rne_lower. rewrite Et, <- Ex in H.
      apply Qmult_le_r in H; assumption.
  - assert (K : k = e - 52) by lia.
    assert (Ee : (2 ^ (k + 52) == 2 ^ e)%Q) by (now replace (k + 52) with e by lia).
    split; intros H; [lra|].
    assert (T : 2 ^ 52 <= rne x).
    { apply rne_lower. rewrite pow2_Z by lia.
      apply (Qmult_le_r _ _ (2 ^ k)); [exact Pk|].
      rewrite Ex, <- pow2_add. now replace (52 + k) with e by lia. }
    rewrite Zle_Qle in T. rewrite pow2_Z in T by lia.
    assert ((2 ^ 52 * 2 ^ k <= inject_Z (rne x) * 2 ^ k)%Q)
      by (apply Qmult_le_compat_r; [exact T|lra]).
    rewrite <- pow2_add in H0. replace (52 + k) with e in H0 by lia. lra.
Qed.

Lemma nearest_pos_nonneg (a : Q) : (0 < a)%Q -> (0 <= nearest_pos a)%Q.
Proof.
  intros Pa. apply (nearest_pos_between a 0 Pa); [|lra].
  exists 0, 0. split; [reflexivity|]. split; [lia|]. reflexivity.
Qed.

(** Rounding never crosses a binary64 number. *)
Lemma nearest_between (q f : Q) :
  is_double f ->
  ((q <= f)%Q -> (nearest q <= f)%Q) /\ ((f <= q)%Q -> (f <= nearest q)%Q).
Proof.
  intros Df. unfold nearest.
  destruct (Qle_bool q 0) eqn:A.
  - apply Qle_bool_iff in A. destruct (Qle_bool 0 q) eqn:B.
    + apply Qle_bool_iff in B. split; intros; lra.
    + assert (N : (q < 0)%Q).
      { apply Qnot_le_lt. intros C. apply Qle_bool_iff in C. congruence. }
      assert (Pa : (0 < - q)%Q) by lra.
      destruct (nearest_pos_between (- q) (- f) Pa (is_double_opp f Df)) as [U L].
      split; intros H.
      * assert ((- f <= nearest_pos (- q))%Q) by (apply L; lra). lra.
      * assert ((nearest_pos (- q) <= - f)%Q) by (apply U; lra). lra.
  - assert (Pa : (0 < q)%Q).
    { apply Qnot_le_lt. intros C. apply Qle_bool_iff in C. congruence. }
    exact (nearest_pos_between q f Pa Df).
Qed.

(** A binary64 number is not changed by rounding. *)
Lemma nearest_exact (q : Q) : is_double q -> (nearest q == q)%Q.
Proof.
  intros D. destruct (nearest_between q q D) as [U L].
  apply Qle_antisym; [apply U|apply L]; apply Qle_refl.
Qed.

Lemma nearest_le (q f : Q) : is_double f -> (q <= f)%Q -> (nearest q <= f)%Q.
Proof. intros D. apply (nearest_between q f D). Qed.

Lemma nearest_ge (q f : Q) : is_double f -> (f <= q)%Q -> (f <= nearest q)%Q.
Proof. intros D. apply (nearest_between q f D). Qed.

(** [rne] returns a nearest integer, the even one of two. *)
Lemma rne_nearest (x : Q) (t : Z) :
  (Qabs (inject_Z (rne x) - x) <= Qabs (inject_Z t - x))%Q.
Proof.
  pose proof (Qfloor_le x) as F. pose proof (Qlt_floor x) as C.
  rewrite inject_Z_plus in C. change (inject_Z 1) with 1%Q in C.
  assert (T : (inject_Z t <= inject_Z (Qfloor x) \/
               inject_Z (Qfloor x) + 1 <= inject_Z t)%Q).
  { destruct (Z_le_gt_dec t (Qfloor x)) as [H|H].
    - left. now rewrite <- Zle_Qle.
    - right. change 1%Q with (inject_Z 1). rewrite <- inject_Z_plus, <- Zle_Qle. lia. }
  unfold rne. destruct (Qcompare_spec (x - inject_Z (Qfloor x)) (1 # 2)) as [E|L|G].
  - destruct (Z.even _);
      [|rewrite inject_Z_plus; change (inject_Z 1) with 1%Q];
      do 2 (apply Qabs_case; intros); lra.
  - do 2 (apply Qabs_case; intros); lra.
  - rewrite inject_Z_plus. change (inject_Z 1) with 1%Q.
    do 2 (apply Qabs_case; intros); lra.
Qed.

Lemma rne_tie (x : Q) :
  (x - inject_Z (Qfloor x) == 1 # 2)%Q -> Z.even (rne x) = true.
Proof.
  intros E. unfold rne. rewrite (proj1 (Qeq_alt _ _) E).
  destruct (Z.even (Qfloor x)) eqn:V; [exact V|].
  rewrite Z.even_add, V. reflexivity.
Qed.

Lemma nearest_pos_scaled (a : Q) :
  (0 < a)%Q ->
  let k := ulp_exponent a in
  -1074 <= k /\ 0 <= rne (a / 2 ^ k) <= 2 ^ 53 /\
  (k = -1074 \/ 2 ^ 52 <= rne (a / 2 ^ k)).
Proof.
  intros Pa k. unfold ulp_exponent in k.
  destruct (ilog2_spec a Pa) as [Lo Hi]. set (e := ilog2 a) in *.
  pose proof (pow2_pos k) as Pk.
  set (x := (a / 2 ^ k)%Q).
  assert (Ex : (x * 2 ^ k == a)%Q) by (unfold x; field; lra).
  split; [lia|]. split; [split|].
  - apply rne_lower. apply (Qmult_le_r _ _ (2 ^ k)); [exact Pk|]. rewrite Ex.
    change (inject_Z 0) with 0%Q. lra.
  - apply rne_upper. rewrite pow2_Z by lia.
    apply (Qmult_le_r _ _ (2 ^ k)); [exact Pk|].
    rewrite Ex, <- pow2_add.
    apply Qle_trans with (2 ^ (e + 1))%Q; [lra|apply pow2_le; lia].
  - destruct (Z_le_gt_dec (e - 52) (-1074)) as [H|H]; [left; lia|right].
    apply rne_lower. rewrite pow2_Z by lia.
    apply (Qmult_le_r _ _ (2 ^ k)); [exact Pk|].
    rewrite Ex, <- pow2_add. now replace (52 + k) with e by lia.
Qed.

Lemma nearest_pos_is_double (a : Q) : (0 < a)%Q -> is_double (nearest_pos a).
Proof.
  intros Pa. destruct (nearest_pos_scaled a Pa) as (Hk & [N0 N1] & _).
  unfold nearest_pos. set (k := ulp_exponent a) in *.
  set (n := rne (a / 2 ^ k)) in *.
  destruct (Z.eq_dec n (2 ^ 53)) as [E|NE].
  - exists (2 ^ 52), (k + 1). split; [reflexivity|]. split; [lia|].
    rewrite E, pow2_add. change (inject_Z (2 ^ 53)) with (inject_Z (2 ^ 52) * 2 ^ 1)%Q.
    ring.
  - exists n, k. split; [lia|]. split; [exact Hk|reflexivity].
Qed.

(** The result of rounding is a binary64 number (of unbounded exponent). *)
Lemma nearest_is_double (q : Q) : is_double (nearest q).
Proof.
  unfold nearest. destruct (Qle_bool q 0) eqn:A.
  - destruct (Qle_bool 0 q) eqn:B.
    + exists 0, 0. split; [reflexivity|]. split; [lia|reflexivity].
    + apply is_double_opp, nearest_pos_is_double.
      assert (N : (q < 0)%Q).
      { apply Qnot_le_lt. intros C. apply Qle_bool_iff in C. congruence. }
      lra.
  - apply nearest_pos_is_double.
    apply Qnot_le_lt. intros C. apply Qle_bool_iff in C. congruence.
Qed.

Lemma nearest_pos_is_nearest (a f : Q) :
  (0 < a)%Q -> is_double f ->
  (Qabs (nearest_pos a - a) <= Qabs (f - a))%Q.
Proof.
  intros Pa Df. unfold nearest_pos, ulp_exponent.
  destruct (ilog2_spec a Pa) as [Lo Hi].
  set (e := ilog2 a) in *. set (k := Z.max (e - 52) (-1074)).
  pose proof (pow2_pos k) as Pk.
  set (x := (a / 2 ^ k)%Q).
  assert (Ex : (x * 2 ^ k == a)%Q) by (unfold x; field; lra).
  assert (Sc : forall t : Z,
             (Qabs (inject_Z t * 2 ^ k - a) == Qabs (inject_Z t - x) * 2 ^ k)%Q).
  { intros t. rewrite <- Ex at 1.
    setoid_replace (inject_Z t * 2 ^ k - x * 2 ^ k)%Q
      with ((inject_Z t - x) * 2 ^ k)%Q by ring.
    rewrite Qabs_Qmult, (Qabs_pos (2 ^ k)) by lra. reflexivity. }
  destruct (double_grid f k Df) as [[t Et]|(Hk & F1 & F2)].
  - rewrite Et, !Sc. apply Qmult_le_compat_r; [apply rne_nearest|lra].
  - assert (K : k = e - 52) by lia.
    assert (Ee : (2 ^ (k + 52) == 2 ^ e)%Q) by (now replace (k + 52) with e by lia).
    apply Qle_trans with (Qabs (inject_Z (2 ^ 52) * 2 ^ k - a))%Q.
    + rewrite !Sc. apply Qmult_le_compat_r; [apply rne_nearest|lra].
    + rewrite pow2_Z, <- pow2_add by lia. replace (52 + k) with e by lia.
      do 2 (apply Qabs_case; intros); lra.
Qed.

(** Rounding is to a nearest binary64 number. *)
Lemma nearest_is_nearest (q f : Q) :
  is_double f -> (Qabs (nearest q - q) <= Qabs (f - q))%Q.
Proof.
  intros Df. unfold nearest. destruct (Qle_bool q 0) eqn:A.
  - apply Qle_bool_iff in A. destruct (Qle_bool 0 q) eqn:B.
    + apply Qle_bool_iff in B. do 2 (apply Qabs_case; intros); lra.
    + assert (N : (q < 0)%Q).
      { apply Qnot_le_lt. intros C. apply Qle_bool_iff in C. congruence. }
      assert (Pa : (0 < - q)%Q) by lra.
      pose proof (nearest_pos_is_nearest (- q) (- f) Pa (is_double_opp f Df)) as H.
      setoid_replace (nearest_pos (- q) - - q)%Q
        with (- (- nearest_pos (- q) - q))%Q in H by ring.
      setoid_replace (- f - - q)%Q with (- (f - q))%Q in H by ring.
      now rewrite !Qabs_opp in H.
  - apply nearest_pos_is_nearest; [|exact Df].
    apply Qnot_le_lt. intros C. apply Qle_bool_iff in C. congruence.
Qed.

Lemma is_double_0 : is_double 0.
Proof. exists 0, 0. split; [reflexivity|]. split; [lia|reflexivity]. Qed.

Lemma is_double_1 : is_double 1.
Proof. exists 1, 0. split; [reflexivity|]. split; [lia|reflexivity]. Qed.

(** The quotient of an integer of less than 53 bits by a power of two is a
    binary64 number: the division does not round. *)
Lemma truediv_pow2_exact (z n : Z) :
  0 <= n <= 1074 -> Z.abs z < 2 ^ 53 ->
  (truediv z (2 ^ n) * inject_Z (2 ^ n) == inject_Z z)%Q.
Proof.
  intros Hn Hz. unfold truediv.
  pose proof (pow2_pos n) as Pn.
  assert (E : (inject_Z z / inject_Z (2 ^ n) == inject_Z z * 2 ^ (- n))%Q).
  { rewrite pow2_Z, Qpower_opp by lia. reflexivity. }
  assert (D : is_double (inject_Z z / inject_Z (2 ^ n))).
  { exists z, (- n). split; [exact Hz|]. split; [lia|exact E]. }
  rewrite (nearest_exact _ D), pow2_Z by lia. field. lra.
Qed.

(** The rounded quotient of two integers [0 <= a <= b] stays in [0, 1]. *)
Lemma truediv_unit (a b : Z) :
  0 <= a <= b -> 0 < b -> (0 <= truediv a b <= 1)%Q.
Proof.
  intros H Pb. unfold truediv.
  assert (Hb : (inject_Z 0 < inject_Z b)%Q) by (rewrite <- Zlt_Qlt; lia).
  split.
  - apply nearest_ge; [exact is_double_0|].
    apply Qle_shift_div_l; [exact Hb|]. rewrite Qmult_0_l.
    change (inject_Z 0 <= inject_Z a)%Q. rewrite <- Zle_Qle. lia.
  - apply nearest_le; [exact is_double_1|].
    apply Qle_shift_div_r; [exact Hb|]. rewrite Qmult_1_l.
    rewrite <- (Zle_Qle a b). lia.
Qed.

End pyfloat_facts.

Module trie_facts.
Import trie trie_spec.

Lemma Zeqb_eq (a b : Z) : Z.eqb a b = true <-> a = b.
Proof. apply Z.eqb_eq. Qed.

(** Induction over a node with the hypothesis available at every child. *)
Lemma TrieNode_ind (P : TrieNode -> Prop) :
  (forall toks ch ck d,
      Forall (fun kc => P (snd kc)) ch -> P (mkTrieNode toks ch ck d)) ->
  forall n, P n.
Proof.
  intros H. fix IH 1. intros [toks ch ck d]. apply H.
  induction ch as [|[k c] r IHr]; constructor; [apply IH|exact IHr].
Qed.

Lemma match_len_le (a b : list Z) :
  (match_len a b <= length a)%nat /\ (match_len a b <= length b)%nat.
Proof.
  revert b. induction a as [|x a IH]; intros [|y b]; simpl; try lia.
  destruct (Z.eqb x y); simpl; [|lia]. specialize (IH b). lia.
Qed.

Lemma match_len_app (a r : list Z) : match_len a (a ++ r) = length a.
Proof.
  induction a as [|x a IH]; simpl; [now destruct r|].
  now rewrite Z.eqb_refl, IH.
Qed.

Lemma match_len_split (e rest : list Z) :
  let c := match_len e rest in
  e = firstn c e ++ skipn c e /\ rest = firstn c e ++ skipn c rest /\
  (forall x y a b, skipn c e = x :: a -> skipn c rest = y :: b -> x <> y).
Proof.
  revert rest. induction e as [|x e IH]; intros [|y rest]; simpl;
    try (repeat split; intros; discriminate).
  destruct (Z.eqb x y) eqn:E; simpl.
  - apply Z.eqb_eq in E. subst y. destruct (IH rest) as (H1 & H2 & H3).
    repeat split; [congruence|congruence|exact H3].
  - apply Z.eqb_neq in E. repeat split. intros ? ? ? ? [= -> ->] [= -> ->]. exact E.
Qed.

Lemma strip_spec (e rest r : list Z) : strip e rest = Some r <-> rest = e ++ r.
Proof.
  unfold strip. destruct (match_len_split e rest) as (H1 & H2 & _).
  destruct (match_len_le e rest) as [L1 _].
  destruct (Nat.ltb_spec (match_len e rest) (length e)) as [Lt|Ge].
  - split; [discriminate|]. intros ->. rewrite match_len_app in Lt. lia.
  - assert (C : match_len e rest = length e) by lia.
    rewrite C in *. rewrite firstn_all in H2.
    split.
    + intros [= <-]. exact H2.
    + intros ->. now rewrite skipn_app, skipn_all, Nat.sub_diag.
Qed.

Lemma strip_app (e r : list Z) : strip e (e ++ r) = Some r.
Proof. now apply strip_spec. Qed.

Lemma strip_None (e rest : list Z) :
  strip e rest = None <-> forall r, rest <> e ++ r.
Proof.
  split.
  - intros H r E. apply strip_spec in E. congruence.
  - intros H. destruct (strip e rest) as [r|] eqn:E; [|reflexivity].
    apply strip_spec in E. now apply H in E.
Qed.

Lemma marker_cons (node : TrieNode) (f : Z) (q : list Z) :
  marker node (f :: q) =
  match pydict.get Z.eqb (children node) f with
  | None => None
  | Some child =>
      match strip (tokens child) (f :: q) with
      | None => None
      | Some rest => marker child rest
      end
  end.
Proof.
  destruct node as [toks ch ck d]. simpl.
  apply (pydict_facts.dcase_get Z.eqb).
Qed.

Lemma marker_nil (node : TrieNode) : marker node [] = cache_key node.
Proof. now destruct node. Qed.

Lemma marker_leaf (toks : list Z) (k : string) (d : Z) (q : list Z) :
  marker (mkTrieNode toks [] (Some k) d) q =
  match q with [] => Some k | _ :: _ => None end.
Proof. destruct q; reflexivity. Qed.

Lemma marker_with_tokens (n : TrieNode) (t q : list Z) :
  marker (with_tokens n t) q = marker n q.
Proof. destruct n, q; reflexivity. Qed.

Lemma marker_set_child_same (node : TrieNode) (f : Z) (c : TrieNode) (q : list Z) :
  marker (set_child node f c) (f :: q) =
  match strip (tokens c) (f :: q) with
  | None => None
  | Some r => marker c r
  end.
Proof.
  rewrite marker_cons. simpl.
  now rewrite (pydict_facts.get_set_same Z.eqb Zeqb_eq).
Qed.

Lemma marker_set_child_other (node : TrieNode) (f g : Z) (c : TrieNode) (q : list Z) :
  g <> f -> marker (set_child node f c) (g :: q) = marker node (g :: q).
Proof.
  intros N. rewrite !marker_cons. simpl.
  now rewrite (pydict_facts.get_set_other Z.eqb Zeqb_eq).
Qed.

Lemma insert_loop_cons (node : TrieNode) (f : Z) (r : list Z) (total : Z) (key : string) :
  insert_loop node (f :: r) total key =
  match pydict.get Z.eqb (children node) f with
  | None => (set_child node f (mkTrieNode (f :: r) [] (Some key) total), 1)
  | Some child =>
      let child_tokens := tokens child in
      let common_len := match_len child_tokens (f :: r) in
      if Nat.eqb common_len (length child_tokens) then
        let (child', d) := insert_loop child (skipn common_len (f :: r)) total key in
        (set_child node f child', d)
      else
        let split_node :=
          mkTrieNode (firstn common_len child_tokens) [] None
                     (depth node + Z.of_nat common_len) in
        let child' := with_tokens child (skipn common_len child_tokens) in
        let split_node := set_child split_node (hd 0 (tokens child')) child' in
        let remaining := skipn common_len (f :: r) in
        let split_node :=
          match remaining with
          | r0 :: _ =>
              set_child split_node r0 (mkTrieNode remaining [] (Some key) total)
          | [] => with_cache_key split_node (Some key)
          end in
        (set_child node f split_node, 1)
  end.
Proof.
  destruct node as [toks ch ck d]. simpl insert_loop.
  rewrite (pydict_facts.dcase_get Z.eqb). reflexivity.
Qed.

Lemma insert_loop_tokens (node : TrieNode) (rest : list Z) (total : Z) (key : string) :
  tokens (fst (insert_loop node rest total key)) = tokens node.
Proof.
  destruct rest as [|f r].
  - destruct node; reflexivity.
  - rewrite insert_loop_cons.
    destruct (pydict.get Z.eqb (children node) f) as [child|]; [|reflexivity].
    cbv zeta. destruct (Nat.eqb _ _); [|reflexivity].
    destruct (insert_loop child _ total key). reflexivity.
Qed.

Lemma wf_node_child (node : TrieNode) (f : Z) (child : TrieNode) :
  wf_node node -> pydict.get Z.eqb (children node) f = Some child ->
  hd_error (tokens child) = Some f /\ wf_node child.
Proof.
  intros W G. inversion W as [n ND F]; subst.
  apply (pydict_facts.get_In Z.eqb Zeqb_eq) in G.
  rewrite Forall_forall in F. exact (F _ G).
Qed.


(** What a partial edge match looks like: the label is [e1 ++ x :: e2], the
    input is [e1 ++ rem], and [rem] does not start with [x]. *)
Lemma partial_match (e : list Z) (f : Z) (r : list Z) :
  hd_error e = Some f ->
  Nat.eqb (match_len e (f :: r)) (length e) = false ->
  exists e1 x e2 rem,
    firstn (match_len e (f :: r)) e = f :: e1 /\
    skipn (match_len e (f :: r)) e = x :: e2 /\
    skipn (match_len e (f :: r)) (f :: r) = rem /\
    e = (f :: e1) ++ x :: e2 /\ f :: r = (f :: e1) ++ rem /\
    (forall y b, rem = y :: b -> x <> y).
Proof.
  intros Hd Ne. apply Nat.eqb_neq in Ne.
  destruct (match_len_le e (f :: r)) as [L _].
  destruct (match_len_split e (f :: r)) as (H1 & H2 & H3).
  destruct e as [|x0 e0]; [discriminate|]. injection Hd as ->.
  remember (match_len (f :: e0) (f :: r)) as c eqn:Ec.
  destruct c as [|c].
  { simpl in Ec. rewrite Z.eqb_refl in Ec. discriminate. }
  destruct (skipn (S c) (f :: e0)) as [|x e2] eqn:Sk.
  { apply (f_equal (@length Z)) in Sk. rewrite length_skipn in Sk. simpl in *. lia. }
  simpl firstn in *. exists (firstn c e0), x, e2, (skipn (S c) (f :: r)).
  repeat split; auto. intros y b E. eapply H3; eauto.
Qed.

Lemma full_match (e rest : list Z) :
  Nat.eqb (match_len e rest) (length e) = true ->
  rest = e ++ skipn (match_len e rest) rest.
Proof.
  intros E. apply Nat.eqb_eq in E.
  destruct (match_len_split e rest) as (_ & H2 & _).
  rewrite E in H2 at 1. now rewrite firstn_all in H2.
Qed.

(** Insertion sets the marker of the inserted path and leaves every other
    marker alone. *)
Lemma marker_insert_loop (node : TrieNode) :
  wf_node node ->
  forall (rest : list Z) (total : Z) (key : string) (q : list Z),
    marker (fst (insert_loop node rest total key)) q =
    if list_eq_dec Z.eq_dec q rest then Some key else marker node q.
Proof.
  induction node as [toks ch ck d IH] using TrieNode_ind.
  intros W rest total key q.
  destruct rest as [|f r].
  { (* the walk ends at this node *)
    destruct q as [|g q]; simpl fst.
    - destruct (list_eq_dec Z.eq_dec [] []); [reflexivity|congruence].
    - destruct (list_eq_dec Z.eq_dec (g :: q) []); [discriminate|].
      rewrite !marker_cons. reflexivity. }
  rewrite insert_loop_cons.
  destruct (pydict.get Z.eqb (children (mkTrieNode toks ch ck d)) f) as [child|] eqn:G.
  2:{ (* a new leaf *)
    simpl fst. destruct q as [|g q].
    - destruct (list_eq_dec Z.eq_dec [] (f :: r)); [discriminate|reflexivity].
    - destruct (Z.eq_dec g f) as [->|N].
      + rewrite marker_set_child_same. simpl tokens.
        destruct (strip (f :: r) (f :: q)) as [q1|] eqn:S.
        * apply strip_spec in S. rewrite marker_leaf.
          destruct (list_eq_dec Z.eq_dec (f :: q) (f :: r)) as [E|NE].
          -- rewrite E in S. rewrite <- (app_nil_r (f :: r)) in S at 1.
             apply app_inv_head in S. now subst.
          -- destruct q1; [exfalso; apply NE; now rewrite S, app_nil_r|].
             rewrite marker_cons, G. reflexivity.
        * destruct (list_eq_dec Z.eq_dec (f :: q) (f :: r)) as [E|NE].
          -- rewrite E in S. rewrite <- (app_nil_r (f :: r)) in S at 2.
             now rewrite strip_app in S.
          -- rewrite marker_cons, G. reflexivity.
      + rewrite marker_set_child_other by exact N.
        destruct (list_eq_dec Z.eq_dec (g :: q) (f :: r)); [congruence|reflexivity]. }
  destruct (wf_node_child _ _ _ W G) as [Hd Wc].
  assert (IHc := proj1 (Forall_forall _ _) IH _
                   (pydict_facts.get_In Z.eqb Zeqb_eq _ _ _ G) Wc).
  cbn [snd] in IHc. clear IH.
  cbv zeta.
  destruct (Nat.eqb (match_len (tokens child) (f :: r)) (length (tokens child))) eqn:Full.
  { (* descend *)
    pose proof (full_match _ _ Full) as Erest.
    remember (skipn (match_len (tokens child) (f :: r)) (f :: r)) as rest' eqn:Er.
    specialize (IHc rest' total key).
    pose proof (insert_loop_tokens child rest' total key) as Tk.
    destruct (insert_loop child rest' total key) as [child' dl]. simpl fst in *.
    destruct q as [|g q].
    - destruct (list_eq_dec Z.eq_dec [] (f :: r)); [discriminate|reflexivity].
    - destruct (Z.eq_dec g f) as [->|N].
      + rewrite marker_set_child_same, Tk, marker_cons, G.
        destruct (strip (tokens child) (f :: q)) as [q1|] eqn:S.
        * apply strip_spec in S. rewrite IHc.
          destruct (list_eq_dec Z.eq_dec q1 rest') as [E1|N1];
            destruct (list_eq_dec Z.eq_dec (f :: q) (f :: r)) as [E2|N2];
            try reflexivity.
          -- exfalso. apply N2. rewrite S, Erest. now subst.
          -- exfalso. apply N1. rewrite E2, Erest in S. now apply app_inv_head in S.
        * destruct (list_eq_dec Z.eq_dec (f :: q) (f :: r)) as [E2|N2]; [|reflexivity].
          rewrite E2, Erest, strip_app in S. discriminate.
      + rewrite marker_set_child_other by exact N.
        destruct (list_eq_dec Z.eq_dec (g :: q) (f :: r)); [congruence|reflexivity]. }
  (* split the edge *)
  destruct (partial_match _ _ _ Hd Full) as (e1 & x & e2 & rem & F1 & F2 & F3 & Ee & Er & Ndiv).
  rewrite F1, F2, F3. simpl fst.
  destruct q as [|g q].
  { destruct (list_eq_dec Z.eq_dec [] (f :: r)); [discriminate|reflexivity]. }
  destruct (Z.eq_dec g f) as [->|N].
  2:{ rewrite marker_set_child_other by exact N.
      destruct (list_eq_dec Z.eq_dec (g :: q) (f :: r)); [congruence|reflexivity]. }
  rewrite marker_set_child_same, (marker_cons (mkTrieNode toks ch ck d)), G, Ee, Er.
  assert (Tsplit : forall sn,
            tokens (match rem with
                    | r0 :: _ => set_child sn r0 (mkTrieNode rem [] (Some key) total)
                    | [] => with_cache_key sn (Some key)
                    end) = tokens sn).
  { intros sn. destruct rem; reflexivity. }
  rewrite Tsplit. simpl tokens. simpl hd.
  destruct (strip (f :: e1) (f :: q)) as [q1|] eqn:S1.
  2:{ (* the query leaves the edge before the split point *)
      assert (S2 : strip ((f :: e1) ++ x :: e2) (f :: q) = None).
      { apply strip_None. intros r0 E. rewrite <- app_assoc in E.
        apply strip_spec in E. congruence. }
      rewrite S2.
      destruct (list_eq_dec Z.eq_dec (f :: q) ((f :: e1) ++ rem)) as [E|_]; [|reflexivity].
      rewrite E, strip_app in S1. discriminate. }
  apply strip_spec in S1. rewrite S1.
  assert (Eq : forall a, list_eq_dec Z.eq_dec ((f :: e1) ++ q1) ((f :: e1) ++ rem) = a ->
                         (exists E, a = left E) /\ q1 = rem \/ (exists E, a = right E) /\ q1 <> rem).
  { intros [E|NE] _; [left|right]; split; eauto.
    - now apply app_inv_head in E.
    - intros ->. now apply NE. }
  destruct (Eq _ eq_refl) as [[[E ->] Eq1]|[[E ->] Nq1]]; clear Eq.
  - (* the inserted path itself *)
    subst q1. destruct rem as [|y b].
    + destruct ch; reflexivity.
    + rewrite marker_cons. simpl children.
      assert (Nxy : x <> y) by (eapply Ndiv; eauto).
      assert (Ex : Z.eqb x y = false) by now apply Z.eqb_neq.
      rewrite Ex. simpl. rewrite Ex, Z.eqb_refl. simpl.
      replace (strip (y :: b) (y :: b)) with (Some (@nil Z)); [reflexivity|].
      symmetry. apply strip_spec. now rewrite app_nil_r.
  - (* any other path through the split node *)
    replace (strip ((f :: e1) ++ x :: e2) ((f :: e1) ++ q1))
      with (strip (x :: e2) q1).
    2:{ destruct (strip (x :: e2) q1) as [q2|] eqn:S2.
        - apply strip_spec in S2. symmetry. apply strip_spec.
          rewrite S2, <- !app_assoc. reflexivity.
        - symmetry. apply strip_None. intros r0 E0. rewrite <- app_assoc in E0.
          apply app_inv_head in E0. apply strip_spec in E0. congruence. }
    destruct q1 as [|g1 q1].
    + (* the query ends at the split node *)
      destruct rem as [|y b]; [congruence|].
      rewrite marker_nil. simpl. reflexivity.
    + rewrite marker_cons.
      destruct rem as [|y b].
      * simpl children. simpl pydict.get.
        destruct (Z.eqb x g1) eqn:Ex.
        -- apply Z.eqb_eq in Ex. subst g1. simpl tokens.
           destruct (strip (x :: e2) (x :: q1)); [|reflexivity].
           apply marker_with_tokens.
        -- apply Z.eqb_neq in Ex.
           assert (S2 : strip (x :: e2) (g1 :: q1) = None).
           { apply strip_None. intros r0 [= E0 _]. congruence. }
           now rewrite S2.
      * assert (Nxy : x <> y) by (eapply Ndiv; eauto).
        assert (Exy : Z.eqb x y = false) by now apply Z.eqb_neq.
        simpl children. simpl pydict.set. rewrite Exy. simpl pydict.get.
        destruct (Z.eqb x g1) eqn:Ex.
        -- apply Z.eqb_eq in Ex. subst g1. simpl tokens.
           destruct (strip (x :: e2) (x :: q1)); [|reflexivity].
           apply marker_with_tokens.
        -- apply Z.eqb_neq in Ex.
           assert (S2 : strip (x :: e2) (g1 :: q1) = None).
           { apply strip_None. intros r0 [= E0 _]. congruence. }
           rewrite S2.
           destruct (Z.eqb y g1) eqn:Ey; [|reflexivity].
           apply Z.eqb_eq in Ey. subst g1. simpl tokens.
           destruct (strip (y :: b) (y :: q1)) as [q2|] eqn:S3; [|reflexivity].
           apply strip_spec in S3. rewrite marker_leaf.
           destruct q2; [|reflexivity].
           exfalso. apply Nq1. now rewrite S3, app_nil_r.
Qed.

(** ** Counting terminal markers *)

Lemma count_terminals_eq (n : TrieNode) :
  count_terminals n =
  match cache_key n with Some _ => 1 | None => 0 end + csum (children n).
Proof. destruct n; reflexivity. Qed.

Lemma csum_set (ch : list (Z * TrieNode)) (f : Z) (c : TrieNode) :
  csum (pydict.set Z.eqb ch f c) =
  csum ch
  - match pydict.get Z.eqb ch f with Some c0 => count_terminals c0 | None => 0 end
  + count_terminals c.
Proof.
  induction ch as [|[k0 c0] r IH]; simpl; [lia|].
  destruct (Z.eqb k0 f); simpl; [lia|]. fold (csum r) in *.
  fold (csum (pydict.set Z.eqb r f c)). lia.
Qed.

Lemma count_set_child (node : TrieNode) (f : Z) (c : TrieNode) :
  count_terminals (set_child node f c) =
  count_terminals node
  - match pydict.get Z.eqb (children node) f with
    | Some c0 => count_terminals c0
    | None => 0
    end
  + count_terminals c.
Proof.
  rewrite (count_terminals_eq (set_child node f c)), (count_terminals_eq node).
  simpl cache_key. simpl children. rewrite csum_set. lia.
Qed.

Lemma count_with_tokens (n : TrieNode) (t : list Z) :
  count_terminals (with_tokens n t) = count_terminals n.
Proof. destruct n; reflexivity. Qed.

Lemma strip_of_full (e rest : list Z) :
  Nat.eqb (match_len e rest) (length e) = true ->
  strip e rest = Some (skipn (match_len e rest) rest).
Proof. intros E. apply strip_spec. now apply full_match. Qed.

Lemma strip_of_partial (e rest : list Z) :
  Nat.eqb (match_len e rest) (length e) = false -> strip e rest = None.
Proof.
  intros E. apply Nat.eqb_neq in E. unfold strip.
  destruct (match_len_le e rest) as [L _].
  destruct (Nat.ltb_spec (match_len e rest) (length e)); [reflexivity|lia].
Qed.

(** Insertion adds one terminal exactly when the path carried no marker, and
    the increment it reports for [_size] is that number. *)
Lemma count_insert_loop (node : TrieNode) :
  wf_node node ->
  forall (rest : list Z) (total : Z) (key : string),
    count_terminals (fst (insert_loop node rest total key)) =
      count_terminals node + snd (insert_loop node rest total key) /\
    snd (insert_loop node rest total key) =
      match marker node rest with None => 1 | Some _ => 0 end.
Proof.
  induction node as [toks ch ck d IH] using TrieNode_ind.
  intros W rest total key.
  destruct rest as [|f r].
  { simpl insert_loop. simpl fst. simpl snd. rewrite marker_nil.
    rewrite (count_terminals_eq (with_cache_key _ _)),
            (count_terminals_eq (mkTrieNode toks ch ck d)).
    simpl cache_key. simpl children. destruct ck; split; try reflexivity; lia. }
  rewrite insert_loop_cons, marker_cons.
  destruct (pydict.get Z.eqb (children (mkTrieNode toks ch ck d)) f) as [child|] eqn:G.
  2:{ simpl fst. simpl snd. rewrite count_set_child, G. split; [|reflexivity].
      rewrite (count_terminals_eq (mkTrieNode (f :: r) [] (Some key) total)).
      simpl. lia. }
  destruct (wf_node_child _ _ _ W G) as [Hd Wc].
  assert (IHc := proj1 (Forall_forall _ _) IH _
                   (pydict_facts.get_In Z.eqb Zeqb_eq _ _ _ G) Wc).
  cbn [snd] in IHc. clear IH.
  cbv zeta.
  destruct (Nat.eqb (match_len (tokens child) (f :: r)) (length (tokens child))) eqn:Full.
  - rewrite (strip_of_full _ _ Full).
    specialize (IHc (skipn (match_len (tokens child) (f :: r)) (f :: r)) total key).
    destruct (insert_loop child _ total key) as [child' dl]. simpl fst in *. simpl snd in *.
    rewrite count_set_child, G. destruct IHc as [C1 C2]. split; [lia|exact C2].
  - rewrite (strip_of_partial _ _ Full).
    destruct (partial_match _ _ _ Hd Full) as (e1 & x & e2 & rem & F1 & F2 & F3 & Ee & Er & Ndiv).
    rewrite F1, F2, F3. simpl fst. simpl snd. split; [|reflexivity].
    rewrite count_set_child, G. simpl hd.
    destruct rem as [|y b].
    + rewrite (count_terminals_eq (with_cache_key _ _)).
      cbn [with_cache_key cache_key children set_child pydict.set csum fold_right snd].
      rewrite count_with_tokens. lia.
    + assert (Exy : Z.eqb x y = false) by (apply Z.eqb_neq; eapply Ndiv; eauto).
      rewrite !count_set_child.
      cbn [children set_child pydict.set pydict.get]. rewrite Exy.
      cbn [pydict.get]. rewrite count_with_tokens.
      rewrite (count_terminals_eq (mkTrieNode (f :: e1) _ _ _)),
              (count_terminals_eq (mkTrieNode (y :: b) _ _ _)).
      cbn [cache_key children csum fold_right]. lia.
Qed.

(** ** Well-formedness is preserved *)

Lemma Forall_set {V : Type} (P : Z * V -> Prop) (d : list (Z * V)) (k : Z) (v : V) :
  Forall P d -> P (k, v) -> Forall P (pydict.set Z.eqb d k v).
Proof.
  intros F Pk. induction d as [|[k0 v0] r IH]; simpl.
  - constructor; auto.
  - inversion F; subst. destruct (Z.eqb k0 k) eqn:E.
    + apply Z.eqb_eq in E. subst. constructor; auto.
    + constructor; auto.
Qed.

Lemma wf_set_child (node : TrieNode) (f : Z) (c : TrieNode) :
  wf_node node -> hd_error (tokens c) = Some f -> wf_node c ->
  wf_node (set_child node f c).
Proof.
  intros W Hd Wc. inversion W as [n ND F]; subst.
  constructor; simpl.
  - now apply (pydict_facts.NoDup_set Z.eqb Zeqb_eq).
  - apply Forall_set; auto.
Qed.

Lemma wf_with_tokens (n : TrieNode) (t : list Z) :
  wf_node n -> wf_node (with_tokens n t).
Proof. intros W. inversion W; subst. now constructor. Qed.

Lemma wf_with_cache_key (n : TrieNode) (k : option string) :
  wf_node n -> wf_node (with_cache_key n k).
Proof. intros W. inversion W; subst. now constructor. Qed.

Lemma wf_leaf (toks : list Z) (k : option string) (d : Z) :
  wf_node (mkTrieNode toks [] k d).
Proof. constructor; simpl; constructor. Qed.

Lemma wf_insert_loop (node : TrieNode) :
  wf_node node ->
  forall (rest : list Z) (total : Z) (key : string),
    wf_node (fst (insert_loop node rest total key)).
Proof.
  induction node as [toks ch ck d IH] using TrieNode_ind.
  intros W rest total key.
  destruct rest as [|f r].
  { simpl. now apply (wf_with_cache_key (mkTrieNode toks ch ck d)). }
  rewrite insert_loop_cons.
  destruct (pydict.get Z.eqb (children (mkTrieNode toks ch ck d)) f) as [child|] eqn:G.
  2:{ simpl fst. apply wf_set_child; auto using wf_leaf. }
  destruct (wf_node_child _ _ _ W G) as [Hd Wc].
  assert (IHc := proj1 (Forall_forall _ _) IH _
                   (pydict_facts.get_In Z.eqb Zeqb_eq _ _ _ G) Wc).
  cbn [snd] in IHc. clear IH.
  cbv zeta.
  destruct (Nat.eqb (match_len (tokens child) (f :: r)) (length (tokens child))) eqn:Full.
  - specialize (IHc (skipn (match_len (tokens child) (f :: r)) (f :: r)) total key).
    pose proof (insert_loop_tokens child
                  (skipn (match_len (tokens child) (f :: r)) (f :: r)) total key) as Tk.
    destruct (insert_loop child _ total key) as [child' dl]. simpl fst in *.
    apply wf_set_child; auto. now rewrite Tk.
  - destruct (partial_match _ _ _ Hd Full) as (e1 & x & e2 & rem & F1 & F2 & F3 & Ee & Er & Ndiv).
    rewrite F1, F2, F3. simpl fst. simpl hd.
    apply wf_set_child; auto.
    + destruct rem; reflexivity.
    + assert (W1 : wf_node
                     (set_child (mkTrieNode (f :: e1) [] None (d + Z.of_nat (match_len (tokens child) (f :: r))))
                                x (with_tokens child (x :: e2)))).
      { apply wf_set_child; auto using wf_leaf, wf_with_tokens. }
      destruct rem as [|y b].
      * now apply wf_with_cache_key.
      * apply wf_set_child; auto using wf_leaf.
Qed.

(** ** Removal *)

Lemma remove_loop_cons (node : TrieNode) (f : Z) (r : list Z) :
  remove_loop node (f :: r) =
  match pydict.get Z.eqb (children node) f with
  | None => None
  | Some child =>
      match strip (tokens child) (f :: r) with
      | None => None
      | Some rest' =>
          match remove_loop child rest' with
          | None => None
          | Some child' => Some (set_child node f child')
          end
      end
  end.
Proof.
  destruct node as [toks ch ck d]. simpl remove_loop.
  rewrite (pydict_facts.dcase_get Z.eqb). simpl children.
  destruct (pydict.get Z.eqb ch f) as [child|]; [|reflexivity].
  unfold strip. destruct (Nat.ltb _ _); reflexivity.
Qed.

(** [remove] fails exactly on a path without a marker; when it succeeds it
    clears that marker, keeps all others, and removes one terminal. *)
Lemma remove_loop_spec (node : TrieNode) :
  forall rest : list Z,
    match remove_loop node rest with
    | None => marker node rest = None
    | Some n' =>
        marker node rest <> None /\
        tokens n' = tokens node /\
        (forall q, marker n' q =
                   if list_eq_dec Z.eq_dec q rest then None else marker node q) /\
        count_terminals n' = count_terminals node - 1 /\
        (wf_node node -> wf_node n')
    end.
Proof.
  induction node as [toks ch ck d IH] using TrieNode_ind.
  intros [|f r].
  { simpl remove_loop. rewrite marker_nil. simpl cache_key.
    destruct ck as [k|]; [|reflexivity].
    split; [discriminate|]. split; [reflexivity|]. split; [|split].
    - intros [|g q].
      + destruct (list_eq_dec Z.eq_dec [] []); [reflexivity|congruence].
      + destruct (list_eq_dec Z.eq_dec (g :: q) []); [discriminate|].
        rewrite !marker_cons. reflexivity.
    - rewrite (count_terminals_eq (with_cache_key _ _)),
              (count_terminals_eq (mkTrieNode toks ch (Some k) d)).
      cbn [cache_key children with_cache_key]. lia.
    - apply wf_with_cache_key. }
  rewrite remove_loop_cons, marker_cons.
  destruct (pydict.get Z.eqb (children (mkTrieNode toks ch ck d)) f) as [child|] eqn:G;
    [|reflexivity].
  assert (IHc := proj1 (Forall_forall _ _) IH _
                   (pydict_facts.get_In Z.eqb Zeqb_eq _ _ _ G)).
  cbn [snd] in IHc. clear IH.
  destruct (strip (tokens child) (f :: r)) as [rest'|] eqn:S; [|reflexivity].
  specialize (IHc rest').
  destruct (remove_loop child rest') as [child'|]; [|exact IHc].
  destruct IHc as (Hm & Tk & Hq & Hc & Hw).
  apply strip_spec in S.
  split; [exact Hm|]. split; [reflexivity|]. split; [|split].
  - intros [|g q].
    + destruct (list_eq_dec Z.eq_dec [] (f :: r)); [discriminate|reflexivity].
    + destruct (Z.eq_dec g f) as [->|N].
      * rewrite marker_set_child_same, Tk, marker_cons, G.
        destruct (strip (tokens child) (f :: q)) as [q1|] eqn:S1.
        -- apply strip_spec in S1. rewrite Hq.
           destruct (list_eq_dec Z.eq_dec q1 rest') as [E1|N1];
             destruct (list_eq_dec Z.eq_dec (f :: q) (f :: r)) as [E2|N2];
             try reflexivity.
           ++ exfalso. apply N2. rewrite S, S1. now subst.
           ++ exfalso. apply N1. rewrite E2, S in S1. now apply app_inv_head in S1.
        -- destruct (list_eq_dec Z.eq_dec (f :: q) (f :: r)) as [E2|N2]; reflexivity.
      * rewrite marker_set_child_other by exact N.
        destruct (list_eq_dec Z.eq_dec (g :: q) (f :: r)); [congruence|reflexivity].
  - rewrite count_set_child, G. lia.
  - intros W. destruct (wf_node_child _ _ _ W G) as [Hd Wc].
    apply wf_set_child; auto. now rewrite Tk.
Qed.

(** ** Longest-prefix search *)

Lemma find_loop_cons (node : TrieNode) (f : Z) (r : list Z) (pos bl : Z)
  (bk : option string) :
  find_loop node (f :: r) pos bl bk =
  match pydict.get Z.eqb (children node) f with
  | None => (bl, bk)
  | Some child =>
      match strip (tokens child) (f :: r) with
      | None => (bl, bk)
      | Some rest' =>
          let pos' := pos + len (tokens child) in
          match cache_key child with
          | Some k => find_loop child rest' pos' pos' (Some k)
          | None => find_loop child rest' pos' bl bk
          end
      end
  end.
Proof.
  destruct node as [toks ch ck d]. simpl find_loop.
  rewrite (pydict_facts.dcase_get Z.eqb). simpl children.
  destruct (pydict.get Z.eqb ch f) as [child|]; [|reflexivity].
  unfold strip. destruct (match_len_le (tokens child) (f :: r)) as [L _].
  destruct (Nat.ltb_spec (match_len (tokens child) (f :: r)) (length (tokens child)));
    [reflexivity|].
  replace (match_len (tokens child) (f :: r)) with (length (tokens child)) by lia.
  reflexivity.
Qed.

Lemma best_prefix_none (node : TrieNode) (rest : list Z) (m : nat) :
  (forall j, (1 <= j <= m)%nat -> marker node (firstn j rest) = None) ->
  best_prefix node rest m = None.
Proof.
  induction m as [|m IH]; intros H; [reflexivity|].
  cbn [best_prefix]. rewrite H by lia. apply IH. intros j Hj. apply H. lia.
Qed.

Lemma best_prefix_descend (node child : TrieNode) (f : Z) (e0 rest' : list Z) :
  pydict.get Z.eqb (children node) f = Some child ->
  tokens child = f :: e0 ->
  forall m' : nat,
    best_prefix node ((f :: e0) ++ rest') (length (f :: e0) + m') =
    match best_prefix child rest' m' with
    | Some (m, k) => Some ((length (f :: e0) + m)%nat, k)
    | None =>
        match cache_key child with
        | Some k => Some (length (f :: e0), k)
        | None => None
        end
    end.
Proof.
  intros G Tk m'. induction m' as [|m' IH].
  - rewrite Nat.add_0_r. cbn [best_prefix length].
    change (S (length e0)) with (length (f :: e0)).
    rewrite firstn_app, firstn_all, Nat.sub_diag. cbn [firstn]. rewrite app_nil_r.
    rewrite marker_cons, G, Tk.
    replace (strip (f :: e0) (f :: e0)) with (Some (@nil Z))
      by (symmetry; apply strip_spec; now rewrite app_nil_r).
    rewrite marker_nil. destruct (cache_key child); [reflexivity|].
    apply best_prefix_none. intros j Hj.
    destruct j as [|j]; [lia|]. cbn [app firstn]. rewrite marker_cons, G, Tk.
    replace (strip (f :: e0) (f :: firstn j (e0 ++ rest'))) with (@None (list Z));
      [reflexivity|].
    symmetry. apply strip_None. intros x E.
    apply (f_equal (@length Z)) in E. cbn [length] in E.
    rewrite length_firstn, length_app, length_app in E. cbn [length] in E. lia.
  - replace (length (f :: e0) + S m')%nat with (S (length (f :: e0) + m')) by lia.
    cbn [best_prefix]. rewrite IH.
    replace (S (length (f :: e0) + m')) with (length (f :: e0) + S m')%nat by lia.
    rewrite firstn_app_2.
    change ((f :: e0) ++ firstn (S m') rest') with (f :: (e0 ++ firstn (S m') rest')).
    rewrite marker_cons, G, Tk.
    change (f :: e0 ++ firstn (S m') rest') with ((f :: e0) ++ firstn (S m') rest').
    rewrite strip_app. destruct (marker child (firstn (S m') rest')); reflexivity.
Qed.

(** The walk of [find_longest_prefix] returns the longest stored prefix of
    its input, or the initial best when there is none. *)
Lemma find_loop_best (node : TrieNode) :
  wf_node node ->
  forall (rest : list Z) (pos bl : Z) (bk : option string),
    find_loop node rest pos bl bk =
    match best_prefix node rest (length rest) with
    | Some (m, k) => (pos + Z.of_nat m, Some k)
    | None => (bl, bk)
    end.
Proof.
  induction node as [toks ch ck d IH] using TrieNode_ind.
  intros W [|f r] pos bl bk; [reflexivity|].
  rewrite find_loop_cons.
  destruct (pydict.get Z.eqb (children (mkTrieNode toks ch ck d)) f) as [child|] eqn:G.
  2:{ rewrite best_prefix_none; [reflexivity|].
      intros [|j] Hj; [lia|]. cbn [firstn]. now rewrite marker_cons, G. }
  destruct (wf_node_child _ _ _ W G) as [Hd Wc].
  assert (IHc := proj1 (Forall_forall _ _) IH _
                   (pydict_facts.get_In Z.eqb Zeqb_eq _ _ _ G) Wc).
  cbn [snd] in IHc. clear IH.
  destruct (strip (tokens child) (f :: r)) as [rest'|] eqn:St.
  2:{ rewrite best_prefix_none; [reflexivity|].
      intros [|j] Hj; [lia|]. cbn [firstn]. rewrite marker_cons, G.
      destruct (strip (tokens child) (f :: firstn j r)) as [x|] eqn:S1; [|reflexivity].
      exfalso. apply strip_spec in S1.
      assert (E : f :: r = tokens child ++ x ++ skipn (S j) (f :: r)).
      { rewrite app_assoc, <- S1. cbn [skipn app]. now rewrite firstn_skipn. }
      apply strip_spec in E. congruence. }
  apply strip_spec in St.
  destruct (tokens child) as [|f0 e0] eqn:Tk; [discriminate|].
  injection Hd as ->.
  cbv zeta. rewrite St, length_app.
  rewrite (best_prefix_descend _ _ _ _ _ G Tk).
  unfold len.
  destruct (cache_key child) as [k|]; rewrite IHc;
    destruct (best_prefix child rest' (length rest')) as [[m k']|];
    try reflexivity; f_equal; lia.
Qed.

(** ** The enumeration [get_all_entries] and the markers *)

Lemma collect_entries_eq (node : TrieNode) (prefix : list Z) :
  _collect_entries node prefix =
  match cache_key node with
  | Some k => [(prefix ++ tokens node, k)]
  | None => []
  end ++ flat_map (fun kc => _collect_entries (snd kc) (prefix ++ tokens node))
                  (children node).
Proof. destruct node; reflexivity. Qed.

Lemma collect_entries_length (node : TrieNode) :
  forall prefix, len (_collect_entries node prefix) = count_terminals node.
Proof.
  induction node as [toks ch ck d IH] using TrieNode_ind. intros prefix.
  rewrite collect_entries_eq, count_terminals_eq. cbn [cache_key children tokens].
  unfold len in *. rewrite length_app, Nat2Z.inj_add.
  f_equal; [now destruct ck|].
  induction ch as [|[k c] r IHr]; [reflexivity|].
  inversion IH as [|? ? Hc Hr]; subst.
  cbn [flat_map csum fold_right snd]. rewrite length_app, Nat2Z.inj_add.
  fold (csum r). rewrite IHr by assumption. cbn [snd] in Hc. now rewrite Hc.
Qed.

Lemma collect_entries_marker (node : TrieNode) :
  wf_node node ->
  forall (prefix p : list Z) (k : string),
    In (p, k) (_collect_entries node prefix) <->
    exists q, p = prefix ++ tokens node ++ q /\ marker node q = Some k.
Proof.
  induction node as [toks ch ck d IH] using TrieNode_ind.
  intros W prefix p k. rewrite collect_entries_eq, in_app_iff, in_flat_map.
  cbn [cache_key children tokens].
  inversion W as [n ND F]; subst. cbn [children] in ND, F.
  rewrite Forall_forall in IH, F.
  split.
  - intros [H|[[g c] [Hin H]]].
    + destruct ck as [k'|]; [|contradiction].
      destruct H as [[= <- <-]|[]]. exists []. now rewrite app_nil_r.
    + destruct (F _ Hin) as [Hd Wc]. cbn [fst snd] in *.
      apply (IH _ Hin Wc) in H. destruct H as (q' & -> & Hm).
      exists (tokens c ++ q'). split; [now rewrite <- !app_assoc|].
      destruct (tokens c) as [|g0 e0] eqn:Tk; [discriminate|]. injection Hd as ->.
      cbn [app]. rewrite marker_cons. cbn [children].
      rewrite (pydict_facts.In_get Z.eqb Zeqb_eq _ _ _ ND Hin), Tk.
      change (g :: e0 ++ q') with ((g :: e0) ++ q'). now rewrite strip_app.
  - intros (q & -> & Hm). destruct q as [|g q].
    + left. rewrite marker_nil in Hm. cbn [cache_key] in Hm. subst ck.
      rewrite app_nil_r. now left.
    + right. rewrite marker_cons in Hm. cbn [children] in Hm.
      destruct (pydict.get Z.eqb ch g) as [c|] eqn:G; [|discriminate].
      destruct (strip (tokens c) (g :: q)) as [q'|] eqn:St; [|discriminate].
      apply strip_spec in St.
      pose proof (pydict_facts.get_In Z.eqb Zeqb_eq _ _ _ G) as Hin.
      exists (g, c). split; [exact Hin|]. cbn [snd].
      destruct (F _ Hin) as [Hd Wc].
      apply (IH _ Hin Wc). exists q'. split; [|exact Hm].
      rewrite St, <- !app_assoc. reflexivity.
Qed.

(** ** The three methods on a well-formed index *)

Lemma wf_new : wf new_RadixTrie.
Proof. refine (conj _ (conj _ (conj _ _))); try reflexivity. apply wf_leaf. Qed.

Lemma wf_insert (t : RadixTrie) (s : list Z) (k : string) :
  wf t -> wf (insert t s k).
Proof.
  intros (Ht & Hk & Hw & Hs). destruct s as [|f r]; [exact (conj Ht (conj Hk (conj Hw Hs)))|].
  unfold insert.
  pose proof (insert_loop_tokens (root t) (f :: r) (len (f :: r)) k) as Tk.
  pose proof (marker_insert_loop _ Hw (f :: r) (len (f :: r)) k []) as Mk.
  pose proof (count_insert_loop _ Hw (f :: r) (len (f :: r)) k) as [C1 _].
  pose proof (wf_insert_loop _ Hw (f :: r) (len (f :: r)) k) as W'.
  destruct (insert_loop (root t) (f :: r) (len (f :: r)) k) as [root' dl].
  cbn [fst snd] in *. refine (conj _ (conj _ (conj _ _))); cbn [root _size].
  - congruence.
  - rewrite marker_nil in Mk. rewrite Mk.
    destruct (list_eq_dec Z.eq_dec [] (f :: r)); [discriminate|].
    now rewrite marker_nil.
  - exact W'.
  - lia.
Qed.

Lemma wf_remove (t : RadixTrie) (s : list Z) :
  wf t -> wf (snd (remove t s)).
Proof.
  intros (Ht & Hk & Hw & Hs). destruct s as [|f r]; [exact (conj Ht (conj Hk (conj Hw Hs)))|].
  unfold remove. pose proof (remove_loop_spec (root t) (f :: r)) as R.
  destruct (remove_loop (root t) (f :: r)) as [root'|];
    [|exact (conj Ht (conj Hk (conj Hw Hs)))].
  destruct R as (_ & Tk & Hq & Hc & Hw'). cbn [snd]. refine (conj _ (conj _ (conj _ _))); cbn [root _size].
  - congruence.
  - specialize (Hq []). rewrite !marker_nil in Hq. rewrite Hq.
    destruct (list_eq_dec Z.eq_dec [] (f :: r)); [discriminate|exact Hk].
  - auto.
  - lia.
Qed.

Lemma reachable_wf (t : RadixTrie) : reachable t -> wf t.
Proof.
  induction 1; auto using wf_new, wf_insert, wf_remove.
Qed.

(** [stored] on a well-formed index is the marker of a non-empty path. *)
Lemma stored_marker (t : RadixTrie) (p : list Z) (k : string) :
  wf t -> (stored t p k <-> p <> [] /\ marker (root t) p = Some k).
Proof.
  intros (Ht & Hk & Hw & _). unfold stored, get_all_entries.
  rewrite (collect_entries_marker _ Hw). rewrite Ht. cbn [app].
  split.
  - intros (q & -> & Hm). split; [|exact Hm].
    intros ->. rewrite marker_nil in Hm. congruence.
  - intros [_ Hm]. eauto.
Qed.

Lemma marker_insert (t : RadixTrie) (s : list Z) (k : string) (q : list Z) :
  wf t -> s <> [] ->
  marker (root (insert t s k)) q =
  if list_eq_dec Z.eq_dec q s then Some k else marker (root t) q.
Proof.
  intros (_ & _ & Hw & _) Hs. destruct s as [|f r]; [congruence|].
  unfold insert.
  pose proof (marker_insert_loop _ Hw (f :: r) (len (f :: r)) k q) as Mk.
  destruct (insert_loop (root t) (f :: r) (len (f :: r)) k). exact Mk.
Qed.

Lemma marker_remove (t : RadixTrie) (s q : list Z) :
  s <> [] ->
  marker (root (snd (remove t s))) q =
  if list_eq_dec Z.eq_dec q s then None else marker (root t) q.
Proof.
  intros Hs. destruct s as [|f r]; [congruence|].
  unfold remove. pose proof (remove_loop_spec (root t) (f :: r)) as R.
  destruct (remove_loop (root t) (f :: r)) as [root'|]; cbn [snd root].
  - destruct R as (_ & _ & Hq & _). apply Hq.
  - destruct (list_eq_dec Z.eq_dec q (f :: r)) as [->|]; [exact R|reflexivity].
Qed.

Lemma remove_result (t : RadixTrie) (s : list Z) :
  fst (remove t s) =
  match s with
  | [] => false
  | _ :: _ => match marker (root t) s with Some _ => true | None => false end
  end.
Proof.
  destruct s as [|f r]; [reflexivity|].
  unfold remove. pose proof (remove_loop_spec (root t) (f :: r)) as R.
  destruct (remove_loop (root t) (f :: r)) as [root'|]; cbn [fst].
  - destruct R as (Hm & _). destruct (marker (root t) (f :: r)); congruence.
  - now rewrite R.
Qed.

Lemma remove_absent (t : RadixTrie) (s : list Z) :
  fst (remove t s) = false -> snd (remove t s) = t.
Proof.
  destruct s as [|f r]; [reflexivity|]. unfold remove.
  destruct (remove_loop (root t) (f :: r)); [discriminate|reflexivity].
Qed.

Lemma find_longest_prefix_best (t : RadixTrie) (s : list Z) :
  wf t ->
  find_longest_prefix t s =
  match best_prefix (root t) s (length s) with
  | Some (m, k) => (Z.of_nat m, Some k)
  | None => (0, None)
  end.
Proof.
  intros (_ & Hk & Hw & _). destruct s as [|f r]; [reflexivity|].
  unfold find_longest_prefix. rewrite (find_loop_best _ Hw), Hk.
  destruct (best_prefix _ _ _) as [[m k]|]; reflexivity.
Qed.

Lemma best_prefix_spec (node : TrieNode) (rest : list Z) (m : nat) :
  match best_prefix node rest m with
  | Some (j, k) =>
      (1 <= j <= m)%nat /\ marker node (firstn j rest) = Some k /\
      forall i, (j < i <= m)%nat -> marker node (firstn i rest) = None
  | None => forall i, (1 <= i <= m)%nat -> marker node (firstn i rest) = None
  end.
Proof.
  induction m as [|m IH]; cbn [best_prefix]; [intros; lia|].
  destruct (marker node (firstn (S m) rest)) as [k|] eqn:Mk.
  - split; [lia|]. split; [exact Mk|]. intros; lia.
  - destruct (best_prefix node rest m) as [[j k]|].
    + destruct IH as (Hj & Hm & Hi). split; [lia|]. split; [exact Hm|].
      intros i Hi'. destruct (Nat.eq_dec i (S m)) as [->|]; [exact Mk|]. apply Hi. lia.
    + intros i Hi. destruct (Nat.eq_dec i (S m)) as [->|]; [exact Mk|]. apply IH. lia.
Qed.

Lemma count_insert (t : RadixTrie) (s : list Z) (k : string) :
  wf t -> s <> [] ->
  count_terminals (root (insert t s k)) =
  count_terminals (root t)
  + match marker (root t) s with None => 1 | Some _ => 0 end.
Proof.
  intros (_ & _ & Hw & _) Hs. destruct s as [|f r]; [congruence|].
  unfold insert.
  pose proof (count_insert_loop _ Hw (f :: r) (len (f :: r)) k) as [C1 C2].
  destruct (insert_loop (root t) (f :: r) (len (f :: r)) k). cbn [fst snd root] in *.
  lia.
Qed.

Lemma count_remove (t : RadixTrie) (s : list Z) :
  s <> [] ->
  count_terminals (root (snd (remove t s))) =
  count_terminals (root t)
  - match marker (root t) s with None => 0 | Some _ => 1 end.
Proof.
  intros Hs. destruct s as [|f r]; [congruence|].
  unfold remove. pose proof (remove_loop_spec (root t) (f :: r)) as R.
  destruct (remove_loop (root t) (f :: r)) as [root'|]; cbn [snd root].
  - destruct R as (Hm & _ & _ & Hc & _).
    destruct (marker (root t) (f :: r)); [lia|congruence].
  - rewrite R. lia.
Qed.

(** ** Round trip and removal *)

(** C7. In every state of the index, inserting a non-empty sequence [s] with
    key [k] makes [find_longest_prefix s] return [(len s, k)]; inserting the
    empty sequence leaves the index as it was. *)
Theorem insert_find_roundtrip (t : RadixTrie) (s : list Z) (k : string) :
  reachable t ->
  (s <> [] -> find_longest_prefix (insert t s k) s = (len s, Some k)) /\
  insert t [] k = t.
Proof.
  intros R. split; [|reflexivity]. intros Hs.
  pose proof (reachable_wf _ R) as W.
  rewrite (find_longest_prefix_best _ _ (wf_insert _ s k W)).
  destruct s as [|f r]; [congruence|].
  cbn [length best_prefix].
  change (S (length r)) with (length (f :: r)). rewrite firstn_all.
  rewrite (marker_insert _ _ _ _ W Hs).
  destruct (list_eq_dec Z.eq_dec (f :: r) (f :: r)); [reflexivity|congruence].
Qed.

Lemma sample_index_reachable : reachable sample_index.
Proof. repeat constructor. Qed.

Lemma insert_find_roundtrip_witness :
  find_longest_prefix (insert sample_index [1; 2] "c") [1; 2] = (2, Some "c"%string).
Proof.
  apply (insert_find_roundtrip sample_index [1; 2] "c" sample_index_reachable).
  discriminate.
Defined.

(** C8 as stated fails: the index does not keep keys apart, so after
    [insert(s, k)] and [remove(s)] the search can still answer [k] when a
    shorter stored prefix of [s] was filed under the same key. *)
Lemma remove_after_insert_can_return_key :
  ~ (forall (t : RadixTrie) (s : list Z) (k : string),
        reachable t ->
        snd (find_longest_prefix (snd (remove (insert t s k) s)) s) <> Some k).
Proof.
  intros H.
  apply (H (insert new_RadixTrie [1] "k") [1; 2] "k"%string).
  - repeat constructor.
  - reflexivity.
Qed.

(** C8, amended. After [insert(s, k)] then [remove(s)], [find_longest_prefix s]
    answers [(0, None)] or the length and marker of a strictly shorter stored
    prefix of [s]; the answer is [k] only if such a prefix was itself stored
    under [k]. The entries of all other sequences are those of the original
    index, [s] itself is no longer stored, and removing a sequence that has no
    terminal returns [False] and changes nothing. *)
Theorem remove_after_insert (t : RadixTrie) (s : list Z) (k : string) :
  reachable t ->
  let t2 := snd (remove (insert t s k) s) in
  let n := fst (find_longest_prefix t2 s) in
  let r := snd (find_longest_prefix t2 s) in
  ((n = 0 /\ r = None) \/
   (0 < n < len s /\
    exists k', r = Some k' /\ stored t (firstn (Z.to_nat n) s) k')) /\
  ((forall j, (j < length s)%nat -> ~ stored t (firstn j s) k) -> r <> Some k) /\
  (forall p k', p <> s -> (stored t2 p k' <-> stored t p k')) /\
  (forall k', ~ stored t2 s k') /\
  (forall s', (forall k', ~ stored t s' k') -> remove t s' = (false, t)).
Proof.
  intros R t2 n r.
  pose proof (reachable_wf _ R) as W.
  pose proof (wf_insert _ s k W) as W1.
  pose proof (wf_remove _ s W1) as W2. fold t2 in W2.
  assert (Last : forall s', (forall k', ~ stored t s' k') -> remove t s' = (false, t)).
  { intros s' Hn. pose proof (remove_result t s') as Rr.
    assert (F : fst (remove t s') = false).
    { rewrite Rr. destruct s' as [|f' r']; [reflexivity|].
      destruct (marker (root t) (f' :: r')) as [k'|] eqn:Mk; [|reflexivity].
      exfalso. apply (Hn k'). apply stored_marker; auto. split; [discriminate|exact Mk]. }
    rewrite (surjective_pairing (remove t s')), F, (remove_absent _ _ F). reflexivity. }
  destruct (list_eq_dec Z.eq_dec s []) as [->|Hs].
  { (* the empty sequence: both calls do nothing *)
    subst t2 n r. cbn.
    split; [now left|]. split; [discriminate|]. split; [tauto|]. split; [|exact Last].
    intros k' St. apply stored_marker in St; [|exact W]. now destruct St. }
  assert (Mk : forall q, marker (root t2) q =
                         if list_eq_dec Z.eq_dec q s then None else marker (root t) q).
  { intros q. subst t2. rewrite (marker_remove _ _ _ Hs).
    destruct (list_eq_dec Z.eq_dec q s); [reflexivity|].
    rewrite (marker_insert _ _ _ _ W Hs).
    destruct (list_eq_dec Z.eq_dec q s); [contradiction|reflexivity]. }
  assert (Res : (n = 0 /\ r = None) \/
                (0 < n < len s /\
                 exists k', r = Some k' /\ stored t (firstn (Z.to_nat n) s) k')).
  { subst n r. rewrite (find_longest_prefix_best _ _ W2).
    pose proof (best_prefix_spec (root t2) s (length s)) as B.
    destruct (best_prefix (root t2) s (length s)) as [[j k']|]; [|now left].
    right. destruct B as (Hj & Hm & _). cbn [fst snd]. rewrite Mk in Hm.
    destruct (list_eq_dec Z.eq_dec (firstn j s) s) as [|Ne]; [discriminate|].
    assert (j <> length s) by (intros ->; apply Ne, firstn_all).
    unfold len. split; [lia|]. exists k'. split; [reflexivity|].
    rewrite Nat2Z.id. apply stored_marker; auto. split; [|exact Hm].
    intros E. apply (f_equal (@length Z)) in E. rewrite length_firstn in E.
    cbn [length] in E. lia. }
  split; [exact Res|]. split; [|split; [|split; [|exact Last]]].
  - intros Hn E. destruct Res as [[_ Hr]|(Hlt & k' & Hr & St)]; [congruence|].
    assert (k' = k) by congruence. subst k'.
    apply (Hn (Z.to_nat n)); [unfold len in Hlt; lia|exact St].
  - intros p k' Hp. rewrite (stored_marker _ _ _ W2), (stored_marker _ _ _ W), Mk.
    destruct (list_eq_dec Z.eq_dec p s); [contradiction|tauto].
  - intros k' St. apply stored_marker in St; [|exact W2]. destruct St as [_ St].
    rewrite Mk in St. destruct (list_eq_dec Z.eq_dec s s); [discriminate|congruence].
Qed.

Lemma remove_after_insert_witness :
  let t2 := snd (remove (insert sample_index [1; 2] "c") [1; 2]) in
  find_longest_prefix t2 [1; 2] = (0, None) /\
  stored t2 [1; 2; 4] "b" /\
  remove sample_index [1; 2] = (false, sample_index).
Proof.
  pose proof (remove_after_insert sample_index [1; 2] "c" sample_index_reachable)
    as (_ & _ & Hp & _ & Hr).
  split; [reflexivity|]. split.
  - apply Hp; [discriminate|]. right. left. reflexivity.
  - apply Hr. intros k' [E|[E|[]]]; discriminate.
Defined.

End trie_facts.

Module cache_facts.
Import exceptions cache cache_spec.

Lemma Seqb_eq (a b : string) : String.eqb a b = true <-> a = b.
Proof. apply String.eqb_eq. Qed.

(** ** Configuration *)

Lemma valid_config_fields (c : models.CacheConfig) :
  valid_config c ->
  1 <= models.max_entries c /\ (0 < models.max_memory_mb c)%Q /\
  policy_ok c /\ 1 <= models.min_prefix_length c.
Proof.
  unfold valid_config, models.CacheConfig__post_init__, policy_ok.
  destruct (models.max_entries c <? 1) eqn:E1; [discriminate|].
  destruct (Qle_bool (models.max_memory_mb c) 0) eqn:E2; [discriminate|].
  destruct (String.eqb (models.eviction_policy c) "lru") eqn:E3;
    destruct (String.eqb (models.eviction_policy c) "lfu") eqn:E4;
    cbn [orb negb]; try discriminate;
    (destruct (models.min_prefix_length c <? 1) eqn:E5; [discriminate|]);
    intros _; apply Z.ltb_ge in E1, E5;
    (assert (0 < models.max_memory_mb c)%Q
      by (apply Qnot_le_lt; intros H; apply Qle_bool_iff in H; congruence));
    rewrite ?String.eqb_eq in *; auto.
Qed.

(** C2 as stated fails: a negative [default_ttl_seconds] is accepted. *)
Lemma negative_ttl_is_accepted :
  ~ (forall (me : Z) (mm ttl : Q) (policy : string) (mpl : Z),
        (ttl < 0)%Q ->
        exists e, models.CacheConfig_new me mm ttl policy mpl = Raise e).
Proof.
  intros H. destruct (H 10 1%Q (-1)%Q "lru"%string 4) as [e He].
  - reflexivity.
  - discriminate.
Qed.

(** C2, amended. Construction validates [max_entries], [max_memory_mb],
    [eviction_policy] and [min_prefix_length], in that order, and raises
    [ValueError] for the first one that is out of bounds; then no manager is
    built. [default_ttl_seconds] is not examined: every value, negative ones
    included, is accepted when the other four fields are in bounds. *)
Theorem config_validation (me : Z) (mm ttl : Q) (policy : string) (mpl : Z) :
  let invalid :=
    me < 1 \/ (mm <= 0)%Q \/ (policy <> "lru"%string /\ policy <> "lfu"%string)
    \/ mpl < 1 in
  (invalid ->
   exists field,
     models.CacheConfig_new me mm ttl policy mpl = Raise (ValueError field) /\
     construct me mm ttl policy mpl = Raise (ValueError field)) /\
  (~ invalid ->
   models.CacheConfig_new me mm ttl policy mpl
     = Ok (models.mkCacheConfig me mm ttl policy mpl) /\
   construct me mm ttl policy mpl
     = Ok (CacheManager_new (Some (models.mkCacheConfig me mm ttl policy mpl)))) /\
  (me < 1 -> models.CacheConfig_new me mm ttl policy mpl
             = Raise (ValueError "max_entries")) /\
  (forall ttl',
      (exists e, models.CacheConfig_new me mm ttl policy mpl = Raise e) <->
      (exists e, models.CacheConfig_new me mm ttl' policy mpl = Raise e)).
Proof.
  cbv zeta. unfold construct, models.CacheConfig_new, models.CacheConfig__post_init__.
  cbn [models.max_entries models.max_memory_mb models.eviction_policy
       models.min_prefix_length].
  destruct (Z.ltb_spec me 1) as [L1|G1].
  { split; [intros _; eexists; split; reflexivity|].
    split; [intros H; exfalso; apply H; now left|].
    split; [reflexivity|]. intros ttl'. split; intros _; eexists; reflexivity. }
  destruct (Qle_bool mm 0) eqn:E2.
  { apply Qle_bool_iff in E2.
    split; [intros _; eexists; split; reflexivity|].
    split; [intros H; exfalso; apply H; right; now left|].
    split; [lia|]. intros ttl'. split; intros _; eexists; reflexivity. }
  assert (N2 : ~ (mm <= 0)%Q) by (intros H; apply Qle_bool_iff in H; congruence).
  destruct (String.eqb policy "lru" || String.eqb policy "lfu") eqn:E3; cbn [negb].
  2:{ apply orb_false_iff in E3. destruct E3 as [E3 E4].
      apply String.eqb_neq in E3, E4.
      split; [intros _; eexists; split; reflexivity|].
      split; [intros H; exfalso; apply H; right; right; now left|].
      split; [lia|]. intros ttl'. split; intros _; eexists; reflexivity. }
  assert (N3 : ~ (policy <> "lru"%string /\ policy <> "lfu"%string)).
  { apply orb_true_iff in E3. rewrite !String.eqb_eq in E3. tauto. }
  destruct (Z.ltb_spec mpl 1) as [L4|G4].
  { split; [intros _; eexists; split; reflexivity|].
    split; [intros H; exfalso; apply H; right; right; now right|].
    split; [lia|]. intros ttl'. split; intros _; eexists; reflexivity. }
  split; [intros [H|[H|[H|H]]]; try lia; contradiction|].
  split; [intros _; split; reflexivity|]. split; [lia|].
  intros ttl'. split; intros [e He]; discriminate.
Qed.

(** ** Eviction *)

Lemma remove_absent_key (d : list (string * CacheEntry)) (k : string) :
  pydict.get String.eqb d k = None -> pydict.remove String.eqb d k = d.
Proof.
  induction d as [|[k0 e0] r IH]; cbn; [reflexivity|].
  destruct (String.eqb k0 k); [discriminate|]. intros H. now rewrite IH.
Qed.

Lemma evict_entry_entries (self : CacheManager) (k : string) :
  _entries (snd (_evict_entry self k)) = pydict.remove String.eqb (_entries self) k.
Proof.
  unfold _evict_entry. destruct (pydict.get String.eqb (_entries self) k) eqn:G.
  - reflexivity.
  - cbn [snd]. now rewrite remove_absent_key.
Qed.

Lemma evict_entry_config (self : CacheManager) (k : string) :
  config (snd (_evict_entry self k)) = config self.
Proof.
  unfold _evict_entry. now destruct (pydict.get String.eqb (_entries self) k).
Qed.

Lemma evict_entry_evictions (self : CacheManager) (k : string) :
  models.evictions (_stats (snd (_evict_entry self k))) =
  models.evictions (_stats self)
  + if pydict.contains String.eqb (_entries self) k then 1 else 0.
Proof.
  unfold _evict_entry, pydict.contains.
  destruct (pydict.get String.eqb (_entries self) k); cbn; lia.
Qed.

Lemma py_min_in {A : Type} (f : A -> Z) (x : A) (xs : list A) :
  In (py_min f x xs) (x :: xs).
Proof.
  unfold py_min. revert x. induction xs as [|y r IH]; intros x; cbn [fold_left].
  - now left.
  - destruct (f y <? f x).
    + right. apply IH.
    + destruct (IH x) as [H|H]; [now left|right; now right].
Qed.

Lemma evict_one_victim (self : CacheManager) :
  _evict_one self =
  match victim self with
  | Some k => snd (_evict_entry self k)
  | None => self
  end.
Proof.
  unfold _evict_one, victim. destruct (_entries self) as [|[k0 e0] rest]; [reflexivity|].
  destruct (String.eqb _ "lru"); [reflexivity|].
  destruct (String.eqb _ "lfu"); reflexivity.
Qed.

Lemma victim_present (self : CacheManager) :
  policy_ok (config self) -> _entries self <> [] ->
  exists k, victim self = Some k /\ pydict.contains String.eqb (_entries self) k = true.
Proof.
  intros P Ne. unfold victim.
  destruct (_entries self) as [|[k0 e0] rest] eqn:E; [congruence|].
  assert (In_keys : forall k, In k (k0 :: map fst rest) ->
                              pydict.contains String.eqb ((k0, e0) :: rest) k = true).
  { intros k Hin. unfold pydict.contains.
    destruct (pydict.get String.eqb ((k0, e0) :: rest) k) eqn:G; [reflexivity|].
    apply (pydict_facts.get_None_not_In String.eqb Seqb_eq) in G. contradiction. }
  destruct P as [P|P]; rewrite P.
  - exists k0. split; [reflexivity|]. apply In_keys. now left.
  - cbn [String.eqb Ascii.eqb Bool.eqb]. eexists. split; [reflexivity|].
    apply In_keys. apply py_min_in.
Qed.

(** Each call of [_evict_one] on a non-empty map removes exactly one entry
    and counts one eviction. *)
Lemma evict_one_exactly_one (self : CacheManager) :
  policy_ok (config self) -> _entries self <> [] ->
  length (_entries (_evict_one self)) = pred (length (_entries self)) /\
  models.evictions (_stats (_evict_one self)) = models.evictions (_stats self) + 1 /\
  config (_evict_one self) = config self.
Proof.
  intros P Ne. destruct (victim_present self P Ne) as (k & Hv & Hc).
  rewrite evict_one_victim, Hv.
  rewrite evict_entry_entries, evict_entry_evictions, evict_entry_config, Hc.
  rewrite pydict_facts.length_remove, Hc. auto.
Qed.

Lemma over_capacity_nonempty (self : CacheManager) (needed m : Z) :
  over_capacity self needed m = true -> _entries self <> [].
Proof.
  unfold over_capacity. destruct (_entries self); [|discriminate].
  rewrite andb_false_r. discriminate.
Qed.

(** The capacity loop never reaches its sentinel: it ends normally after at
    most as many evictions as the map had entries. *)
Lemma ensure_loop_ok (remaining : nat) :
  forall (max_attempts : Z) (self : CacheManager) (needed m : Z),
    policy_ok (config self) ->
    (length (_entries self) <= remaining)%nat ->
    exists self',
      ensure_loop remaining max_attempts self needed m = (Ok tt, self') /\
      over_capacity self' needed m = false /\
      config self' = config self /\
      (length (_entries self') <= length (_entries self))%nat /\
      models.evictions (_stats self') - models.evictions (_stats self)
      = Z.of_nat (length (_entries self) - length (_entries self')).
Proof.
  induction remaining as [|r IH]; intros ma self needed m P L; cbn [ensure_loop];
    destruct (over_capacity self needed m) eqn:O;
    try (exists self; repeat split; auto; rewrite Nat.sub_diag; lia).
  - apply over_capacity_nonempty in O. destruct (_entries self); [congruence|].
    cbn [length] in L. lia.
  - pose proof (over_capacity_nonempty _ _ _ O) as Ne.
    destruct (evict_one_exactly_one self P Ne) as (H1 & H2 & H3).
    assert (Hlen : (1 <= length (_entries self))%nat).
    { destruct (_entries self); [congruence|cbn; lia]. }
    destruct (IH ma (_evict_one self) needed m) as (self' & E & O' & C & Le & Ev).
    + now rewrite H3.
    + lia.
    + exists self'. repeat split; auto; try congruence; lia.
Qed.

Lemma ensure_capacity_ok (self : CacheManager) (needed : Z) :
  policy_ok (config self) ->
  exists self',
    _ensure_capacity self needed = (Ok tt, self') /\
    over_capacity self' needed (max_memory_bytes (config self)) = false /\
    config self' = config self /\
    (length (_entries self') <= length (_entries self))%nat /\
    models.evictions (_stats self') - models.evictions (_stats self)
    = Z.of_nat (length (_entries self) - length (_entries self')).
Proof.
  intros P. unfold _ensure_capacity. apply ensure_loop_ok; [exact P|].
  unfold len. lia.
Qed.

(** ** The invariant is kept by every operation *)

Lemma total_bytes_set (d : list (string * CacheEntry)) (k : string) (e : CacheEntry) :
  total_bytes (pydict.set String.eqb d k e) =
  total_bytes d
  - match pydict.get String.eqb d k with Some e0 => memory_bytes e0 | None => 0 end
  + memory_bytes e.
Proof.
  induction d as [|[k0 e0] r IH]; cbn [pydict.set pydict.get total_bytes fold_right snd];
    [lia|].
  destruct (String.eqb k0 k); cbn [total_bytes fold_right snd]; [lia|].
  fold (total_bytes r). fold (total_bytes (pydict.set String.eqb r k e)). lia.
Qed.

Lemma total_bytes_remove (d : list (string * CacheEntry)) (k : string) :
  total_bytes (pydict.remove String.eqb d k) =
  total_bytes d
  - match pydict.get String.eqb d k with Some e0 => memory_bytes e0 | None => 0 end.
Proof.
  induction d as [|[k0 e0] r IH]; cbn [pydict.remove pydict.get total_bytes fold_right snd];
    [lia|].
  destruct (String.eqb k0 k); cbn [total_bytes fold_right snd];
    fold (total_bytes r); [lia|].
  fold (total_bytes (pydict.remove String.eqb r k)). lia.
Qed.

Lemma total_bytes_perm (d d' : list (string * CacheEntry)) :
  Permutation d d' -> total_bytes d = total_bytes d'.
Proof.
  induction 1; cbn [total_bytes fold_right] in *; fold total_bytes in *;
    try fold (total_bytes l) in *; try fold (total_bytes l') in *; lia.
Qed.

Lemma get_Some_length (d : list (string * CacheEntry)) (k : string) (e : CacheEntry) :
  pydict.get String.eqb d k = Some e -> (1 <= length d)%nat.
Proof. destruct d; cbn; [discriminate|lia]. Qed.

Lemma Inv_ext (a b : CacheManager) :
  _trie a = _trie b -> _entries a = _entries b ->
  _total_memory_bytes a = _total_memory_bytes b -> Inv a -> Inv b.
Proof.
  intros E1 E2 E3 [H1 H2 H3 H4 H5 H6].
  constructor; rewrite <- ?E1, <- ?E2, <- ?E3; assumption.
Qed.

Lemma Inv_with_stats (self : CacheManager) (st : models.CacheStats) :
  Inv self -> Inv (with_stats self st).
Proof. apply Inv_ext; reflexivity. Qed.

Lemma Inv_new (c : option models.CacheConfig) : Inv (CacheManager_new c).
Proof.
  constructor; cbn.
  - apply trie_facts.wf_new.
  - constructor.
  - discriminate.
  - intros [|f p] k Hp Hm; [congruence|discriminate].
  - reflexivity.
  - reflexivity.
Qed.

Lemma Inv_clear (self : CacheManager) : Inv (clear self).
Proof. apply (Inv_ext (CacheManager_new None)); try reflexivity. apply Inv_new. Qed.

Lemma Inv_evict_entry (self : CacheManager) (k : string) :
  Inv self -> Inv (snd (_evict_entry self k)).
Proof.
  intros I. unfold _evict_entry.
  destruct (pydict.get String.eqb (_entries self) k) as [e|] eqn:G; [|exact I].
  destruct I as [Hw Hk He Hm Hc Hb]. cbn [snd].
  destruct (He _ _ G) as (Ek & Eh & En & Em).
  constructor; cbn [_trie _entries _total_memory_bytes].
  - now apply trie_facts.wf_remove.
  - now apply pydict_facts.NoDup_remove.
  - intros k' e' G'.
    destruct (string_dec k' k) as [->|Nk].
    { rewrite (pydict_facts.get_remove_same String.eqb Seqb_eq) in G' by assumption.
      discriminate. }
    rewrite (pydict_facts.get_remove_other String.eqb Seqb_eq) in G' by assumption.
    destruct (He _ _ G') as (Ek' & Eh' & En' & Em').
    repeat split; auto.
    rewrite (trie_facts.marker_remove _ _ _ En).
    destruct (list_eq_dec Z.eq_dec (tokens e') (tokens e)) as [Et|]; [|exact Em'].
    exfalso. apply Nk. rewrite Eh', Eh, Et. reflexivity.
  - intros p k' Hp Hm'. rewrite (trie_facts.marker_remove _ _ _ En) in Hm'.
    destruct (list_eq_dec Z.eq_dec p (tokens e)) as [|Np]; [discriminate|].
    destruct (Hm _ _ Hp Hm') as (e' & G' & Et).
    exists e'. split; [|exact Et].
    rewrite (pydict_facts.get_remove_other String.eqb Seqb_eq); [exact G'|].
    intros ->. rewrite G in G'. injection G' as <-. congruence.
  - rewrite (trie_facts.count_remove _ _ En), Em, Hc. unfold len.
    rewrite pydict_facts.length_remove. unfold pydict.contains. rewrite G.
    pose proof (get_Some_length _ _ _ G). lia.
  - rewrite total_bytes_remove, G, Hb. reflexivity.
Qed.

Lemma Inv_evict_one (self : CacheManager) : Inv self -> Inv (_evict_one self).
Proof.
  intros I. rewrite evict_one_victim. destruct (victim self); [|exact I].
  now apply Inv_evict_entry.
Qed.

Lemma Inv_ensure_loop (remaining : nat) :
  forall (ma : Z) (self : CacheManager) (needed m : Z),
    Inv self -> Inv (snd (ensure_loop remaining ma self needed m)).
Proof.
  induction remaining as [|r IH]; intros ma self needed m I; cbn [ensure_loop];
    destruct (over_capacity self needed m); auto.
  apply IH. now apply Inv_evict_one.
Qed.

Lemma touch_fields (e : CacheEntry) (now : Q) :
  cache_key (touch e now) = cache_key e /\ tokens (touch e now) = tokens e /\
  memory_bytes (touch e now) = memory_bytes e /\
  created_at (touch e now) = created_at e.
Proof. repeat split. Qed.

Lemma touch_get (d : list (string * CacheEntry)) (k : string) (e' : CacheEntry)
  (k' : string) :
  NoDup (map fst d) ->
  pydict.get String.eqb
    (pydict.move_to_end String.eqb (pydict.set String.eqb d k e') k) k'
  = if string_dec k' k then Some e' else pydict.get String.eqb d k'.
Proof.
  intros ND.
  rewrite (pydict_facts.get_move_to_end String.eqb Seqb_eq)
    by now apply (pydict_facts.NoDup_set String.eqb Seqb_eq).
  destruct (string_dec k' k) as [->|N].
  - apply (pydict_facts.get_set_same String.eqb Seqb_eq).
  - now apply (pydict_facts.get_set_other String.eqb Seqb_eq).
Qed.

Lemma touch_length (d : list (string * CacheEntry)) (k : string) (e e' : CacheEntry) :
  pydict.get String.eqb d k = Some e ->
  length (pydict.move_to_end String.eqb (pydict.set String.eqb d k e') k) = length d.
Proof.
  intros G.
  rewrite (Permutation_length (pydict_facts.move_to_end_perm String.eqb Seqb_eq _ k)).
  rewrite pydict_facts.length_set. unfold pydict.contains. now rewrite G.
Qed.

(** The access bookkeeping of a hit (and of a repeated [store]). *)
Lemma Inv_touch (self : CacheManager) (k : string) (e : CacheEntry) (now : Q) :
  Inv self -> pydict.get String.eqb (_entries self) k = Some e ->
  Inv (with_entries self
         (pydict.move_to_end String.eqb
            (pydict.set String.eqb (_entries self) k (touch e now)) k)).
Proof.
  intros [Hw Hk He Hm Hc Hb] G.
  assert (ND : NoDup (map fst (pydict.set String.eqb (_entries self) k (touch e now))))
    by now apply (pydict_facts.NoDup_set String.eqb Seqb_eq).
  assert (Get : forall k',
             pydict.get String.eqb
               (pydict.move_to_end String.eqb
                  (pydict.set String.eqb (_entries self) k (touch e now)) k) k'
             = if string_dec k' k then Some (touch e now)
               else pydict.get String.eqb (_entries self) k').
  { intros k'. rewrite (pydict_facts.get_move_to_end String.eqb Seqb_eq) by exact ND.
    destruct (string_dec k' k) as [->|N].
    - apply (pydict_facts.get_set_same String.eqb Seqb_eq).
    - now apply (pydict_facts.get_set_other String.eqb Seqb_eq). }
  pose proof (pydict_facts.move_to_end_perm String.eqb Seqb_eq
                (pydict.set String.eqb (_entries self) k (touch e now)) k) as Pm.
  constructor; cbn [with_entries _trie _entries _total_memory_bytes].
  - exact Hw.
  - eapply Permutation_NoDup; [|exact ND].
    apply Permutation_map. symmetry. exact Pm.
  - intros k' e'. rewrite Get. destruct (string_dec k' k) as [->|N].
    + intros [= <-]. apply (He _ _ G).
    + apply He.
  - intros p k' Hp Hm'. destruct (Hm _ _ Hp Hm') as (e' & G' & Et).
    rewrite Get. destruct (string_dec k' k) as [->|N].
    + exists (touch e now). split; [reflexivity|]. rewrite G in G'. now injection G' as <-.
    + eauto.
  - rewrite Hc. unfold len. rewrite (Permutation_length Pm), pydict_facts.length_set.
    unfold pydict.contains. now rewrite G.
  - rewrite (total_bytes_perm _ _ Pm), total_bytes_set, G, Hb. cbn [touch memory_bytes]. lia.
Qed.

Lemma get_remove_None (d : list (string * CacheEntry)) (k k' : string) :
  pydict.get String.eqb d k = None ->
  pydict.get String.eqb (pydict.remove String.eqb d k') k = None.
Proof.
  rewrite !(pydict_facts.get_None_not_In String.eqb Seqb_eq).
  intros H Hin. apply H. eapply pydict_facts.keys_remove_incl; eauto.
Qed.

Lemma ensure_loop_absent (remaining : nat) :
  forall (ma : Z) (self : CacheManager) (needed m : Z) (k : string),
    pydict.get String.eqb (_entries self) k = None ->
    pydict.get String.eqb (_entries (snd (ensure_loop remaining ma self needed m))) k
    = None.
Proof.
  induction remaining as [|r IH]; intros ma self needed m k G; cbn [ensure_loop];
    destruct (over_capacity self needed m); auto.
  apply IH. rewrite evict_one_victim. destruct (victim self); [|exact G].
  rewrite evict_entry_entries. now apply get_remove_None.
Qed.

Lemma ensure_loop_config (remaining : nat) :
  forall (ma : Z) (self : CacheManager) (needed m : Z),
    config (snd (ensure_loop remaining ma self needed m)) = config self.
Proof.
  induction remaining as [|r IH]; intros ma self needed m; cbn [ensure_loop];
    destruct (over_capacity self needed m); auto.
  rewrite IH, evict_one_victim. destruct (victim self); [|reflexivity].
  apply evict_entry_config.
Qed.

(** Admission of a new entry: the map, the index and the byte total move
    together. *)
Lemma Inv_admit (self : CacheManager) (tokens : list Z) (entry : CacheEntry) :
  Inv self -> tokens <> [] ->
  cache.tokens entry = tokens -> cache_key entry = _compute_cache_key tokens ->
  pydict.get String.eqb (_entries self) (_compute_cache_key tokens) = None ->
  Inv (mkCacheManager
         (config self)
         (trie.insert (_trie self) tokens (_compute_cache_key tokens))
         (pydict.set String.eqb (_entries self) (_compute_cache_key tokens) entry)
         (_stats self)
         (_total_memory_bytes self + memory_bytes entry)).
Proof.
  intros [Hw Hk He Hm Hc Hb] Ht Et Ek G.
  set (key := _compute_cache_key tokens) in *.
  assert (Mn : trie_spec.marker (trie.root (_trie self)) tokens = None).
  { destruct (trie_spec.marker (trie.root (_trie self)) tokens) as [k'|] eqn:Mk;
      [|reflexivity].
    destruct (Hm _ _ Ht Mk) as (e' & G' & Et').
    destruct (He _ _ G') as (_ & Eh & _). rewrite Et' in Eh. fold key in Eh.
    subst k'. congruence. }
  constructor; cbn [_trie _entries _total_memory_bytes].
  - now apply trie_facts.wf_insert.
  - now apply (pydict_facts.NoDup_set String.eqb Seqb_eq).
  - intros k' e' G'. rewrite (trie_facts.marker_insert _ _ _ _ Hw Ht).
    destruct (string_dec k' key) as [->|Nk].
    + rewrite (pydict_facts.get_set_same String.eqb Seqb_eq) in G'. injection G' as <-.
      rewrite Et. repeat split; auto.
      destruct (list_eq_dec Z.eq_dec tokens tokens); [reflexivity|congruence].
    + rewrite (pydict_facts.get_set_other String.eqb Seqb_eq) in G' by exact Nk.
      destruct (He _ _ G') as (Ek' & Eh' & En' & Em').
      repeat split; auto.
      destruct (list_eq_dec Z.eq_dec (cache.tokens e') tokens) as [E|]; [|exact Em'].
      exfalso. apply Nk. rewrite Eh', E. reflexivity.
  - intros p k' Hp Hm'. rewrite (trie_facts.marker_insert _ _ _ _ Hw Ht) in Hm'.
    destruct (list_eq_dec Z.eq_dec p tokens) as [->|Np].
    + injection Hm' as <-. exists entry. split; [|exact Et].
      apply (pydict_facts.get_set_same String.eqb Seqb_eq).
    + destruct (Hm _ _ Hp Hm') as (e' & G' & Et'). exists e'. split; [|exact Et'].
      rewrite (pydict_facts.get_set_other String.eqb Seqb_eq); [exact G'|].
      intros ->. congruence.
  - rewrite (trie_facts.count_insert _ _ _ Hw Ht), Mn, Hc. unfold len.
    rewrite pydict_facts.length_set. unfold pydict.contains. fold key. rewrite G. lia.
  - rewrite total_bytes_set. fold key. rewrite G, Hb. lia.
Qed.

Lemma Inv_store (self : CacheManager) (tokens : list Z) (kv : Any) (mb : Z) (now : Q) :
  1 <= models.min_prefix_length (config self) ->
  Inv self -> Inv (snd (store self tokens kv mb now)).
Proof.
  intros Hmin I. unfold store.
  destruct (Z.ltb_spec (len tokens) (models.min_prefix_length (config self))) as [|Hl];
    [exact I|].
  destruct (pydict.get String.eqb (_entries self) (_compute_cache_key tokens))
    as [e|] eqn:G.
  { cbn [snd]. now apply Inv_touch. }
  set (entry := CacheEntry_new _ _ _ _ _).
  unfold _ensure_capacity.
  pose proof (Inv_ensure_loop (Z.to_nat (len (_entries self) + 1))
                (len (_entries self) + 1) self (memory_bytes entry)
                (py_int (models.max_memory_mb (config self) * 1024 * 1024)%Q) I) as I1.
  pose proof (ensure_loop_absent (Z.to_nat (len (_entries self) + 1))
                (len (_entries self) + 1) self (memory_bytes entry)
                (py_int (models.max_memory_mb (config self) * 1024 * 1024)%Q) _ G) as G1.
  destruct (ensure_loop _ _ self _ _) as [[u|ex] self1]; cbn [snd] in *; [|exact I1].
  apply Inv_admit; auto.
  intros ->. unfold len in Hl. cbn in Hl. lia.
Qed.

Lemma Inv_lookup (self : CacheManager) (tokens : list Z) (now1 now2 : Q) :
  Inv self -> Inv (snd (lookup self tokens now1 now2)).
Proof.
  intros I. unfold lookup.
  set (self0 := with_stats self _).
  assert (I0 : Inv self0) by now apply Inv_with_stats.
  destruct (trie.find_longest_prefix (_trie self0) tokens) as [ml [k|]];
    [|now apply Inv_with_stats].
  destruct (ml <? _); [now apply Inv_with_stats|].
  destruct (pydict.get String.eqb (_entries self0) k) as [e|] eqn:G;
    [|now apply Inv_with_stats].
  destruct (_is_expired self0 e now1).
  - cbn [snd]. apply Inv_with_stats. now apply Inv_evict_entry.
  - cbn [snd]. apply Inv_with_stats. now apply Inv_touch.
Qed.

Lemma run_op_config (self : CacheManager) (o : op) :
  config (run_op self o) = config self.
Proof.
  destruct o as [t kv mb now|t n1 n2|k| |]; cbn [run_op].
  - unfold store. destruct (len t <? _); [reflexivity|].
    destruct (pydict.get String.eqb (_entries self) (_compute_cache_key t));
      [reflexivity|].
    set (entry := CacheEntry_new _ _ _ _ _). unfold _ensure_capacity.
    pose proof (ensure_loop_config (Z.to_nat (len (_entries self) + 1))
                  (len (_entries self) + 1) self (memory_bytes entry)
                  (py_int (models.max_memory_mb (config self) * 1024 * 1024)%Q)) as C.
    destruct (ensure_loop _ _ self _ _) as [[u|ex] self1]; exact C.
  - unfold lookup.
    destruct (trie.find_longest_prefix _ t) as [ml [k|]]; [|reflexivity].
    destruct (ml <? _); [reflexivity|].
    destruct (pydict.get String.eqb _ k) as [e|]; [|reflexivity].
    destruct (_is_expired _ e n1); [|reflexivity].
    cbn [snd with_stats config]. now rewrite evict_entry_config.
  - apply evict_entry_config.
  - reflexivity.
  - reflexivity.
Qed.

Lemma run_ops_config (ops : list op) (self : CacheManager) :
  config (run_ops self ops) = config self.
Proof.
  revert self. induction ops as [|o r IH]; intros self; [reflexivity|].
  cbn [run_ops fold_left]. fold (run_ops (run_op self o) r).
  now rewrite IH, run_op_config.
Qed.

Lemma Inv_run_op (self : CacheManager) (o : op) :
  1 <= models.min_prefix_length (config self) -> Inv self -> Inv (run_op self o).
Proof.
  intros Hmin I. destruct o; cbn [run_op].
  - now apply Inv_store.
  - now apply Inv_lookup.
  - now apply Inv_evict_entry.
  - apply Inv_clear.
  - now apply Inv_with_stats.
Qed.

Lemma Inv_run_ops (ops : list op) (self : CacheManager) :
  1 <= models.min_prefix_length (config self) -> Inv self -> Inv (run_ops self ops).
Proof.
  revert self. induction ops as [|o r IH]; intros self Hmin I; [exact I|].
  cbn [run_ops fold_left]. fold (run_ops (run_op self o) r).
  apply IH; [now rewrite run_op_config|now apply Inv_run_op].
Qed.

(** Every state a history of public operations reaches from a store built
    with a valid configuration satisfies the invariant. *)
Lemma Inv_reachable (c : models.CacheConfig) (ops : list op) :
  valid_config c -> Inv (run_ops (CacheManager_new (Some c)) ops).
Proof.
  intros V. apply Inv_run_ops; [|apply Inv_new].
  cbn. now destruct (valid_config_fields _ V) as (_ & _ & _ & H).
Qed.

(** ** Synchrony and byte accounting *)

Lemma terminal_markers_count (t : trie.RadixTrie) :
  terminal_markers t = trie_spec.count_terminals (trie.root t).
Proof. apply trie_facts.collect_entries_length. Qed.

(** C4 as stated fails: [stats.memory_used_mb] is a float, the quotient of
    the byte total by [2^20] rounded to binary64, and the total cannot be
    read back from it once it needs more than 53 bits. After one [store]
    with a footprint of [2^53 + 1] bytes, [memory_used_mb * 2^20] is
    [2^53]. *)
Lemma memory_used_mb_is_rounded :
  ~ (forall (c : models.CacheConfig) (ops : list op),
        valid_config c ->
        let self := run_ops (CacheManager_new (Some c)) ops in
        (models.memory_used_mb (fst (stats self)) * inject_Z (2 ^ 20)
         == inject_Z (total_bytes (_entries self)))%Q).
Proof.
  intros H.
  specialize (H sample_config [OpStore [1; 2; 3] PyNone (2 ^ 53 + 1) 0] eq_refl).
  vm_compute in H. discriminate.
Qed.

(** C4, amended. After any history of [store], [lookup], [evict] and [clear]
    (and reads of [stats]) on a fresh store, the size of the map equals the
    number of terminal markers in the index, the index's own [size] and
    [stats.entries_count], and the running byte total equals the sum of
    [memory_bytes] over the entries of the map. [stats.memory_used_mb] is
    that total divided by [2^20] and rounded to a nearest binary64 number;
    [stats.memory_used_mb * 2^20] is the total, exactly, whenever the total
    is below [2^53] in magnitude. *)
Theorem store_index_synchrony (c : models.CacheConfig) (ops : list op) :
  valid_config c ->
  let self := run_ops (CacheManager_new (Some c)) ops in
  let total := total_bytes (_entries self) in
  let mb := models.memory_used_mb (fst (stats self)) in
  len (_entries self) = terminal_markers (_trie self) /\
  len (_entries self) = trie.size (_trie self) /\
  len (_entries self) = models.entries_count (fst (stats self)) /\
  _total_memory_bytes self = total /\
  mb = pyfloat.truediv total (2 ^ 20) /\
  float_spec.is_double mb /\
  (forall f : Q,
      float_spec.is_double f ->
      (Qabs (mb - inject_Z total / inject_Z (2 ^ 20))
       <= Qabs (f - inject_Z total / inject_Z (2 ^ 20)))%Q) /\
  (Z.abs total < 2 ^ 53 -> (mb * inject_Z (2 ^ 20) == inject_Z total)%Q).
Proof.
  intros V self total mb. destruct (Inv_reachable c ops V) as [Hw Hk He Hm Hc Hb].
  fold self in Hw, Hc, Hb. fold total in Hb.
  split; [now rewrite terminal_markers_count|].
  split; [destruct Hw as (_ & _ & _ & Hs); unfold trie.size; congruence|].
  split; [reflexivity|]. split; [exact Hb|].
  assert (E : mb = pyfloat.truediv total (2 ^ 20)).
  { unfold mb. cbn [stats fst models.memory_used_mb]. now rewrite Hb. }
  split; [exact E|]. rewrite E. split; [apply pyfloat_facts.nearest_is_double|].
  split.
  - intros f Df. now apply pyfloat_facts.nearest_is_nearest.
  - intros Ht. apply pyfloat_facts.truediv_pow2_exact; [lia|exact Ht].
Qed.

Lemma store_index_synchrony_witness :
  let self := run_ops (CacheManager_new (Some sample_config)) sample_history in
  let total := total_bytes (_entries self) in
  let mb := models.memory_used_mb (fst (stats self)) in
  len (_entries self) = terminal_markers (_trie self) /\
  len (_entries self) = trie.size (_trie self) /\
  len (_entries self) = models.entries_count (fst (stats self)) /\
  _total_memory_bytes self = total /\
  mb = pyfloat.truediv total (2 ^ 20) /\
  float_spec.is_double mb /\
  (forall f : Q,
      float_spec.is_double f ->
      (Qabs (mb - inject_Z total / inject_Z (2 ^ 20))
       <= Qabs (f - inject_Z total / inject_Z (2 ^ 20)))%Q) /\
  (Z.abs total < 2 ^ 53 -> (mb * inject_Z (2 ^ 20) == inject_Z total)%Q).
Proof.
  apply (store_index_synchrony sample_config sample_history). reflexivity.
Defined.

(** ** The capacity-exhausted error *)

(** C10. With a valid configuration, whatever the history, [store] does not
    raise [CacheFullError]: the capacity loop ends normally, every iteration
    evicts exactly one entry, and the evictions of one call number at most the
    size of the map when the call began. *)
Theorem store_never_raises_cache_full (c : models.CacheConfig) (ops : list op)
  (tokens : list Z) (kv : Any) (mb : Z) (now : Q) (needed : Z) :
  valid_config c ->
  let self := run_ops (CacheManager_new (Some c)) ops in
  (exists key, fst (store self tokens kv mb now) = Ok key) /\
  (exists self',
     _ensure_capacity self needed = (Ok tt, self') /\
     models.evictions (_stats self') - models.evictions (_stats self)
       = len (_entries self) - len (_entries self') /\
     0 <= len (_entries self') <= len (_entries self)) /\
  (_entries self <> [] ->
   len (_entries (_evict_one self)) = len (_entries self) - 1 /\
   models.evictions (_stats (_evict_one self)) = models.evictions (_stats self) + 1).
Proof.
  intros V self.
  assert (P : policy_ok (config self)).
  { unfold self. rewrite run_ops_config. cbn.
    now destruct (valid_config_fields _ V) as (_ & _ & P & _). }
  split; [|split].
  - unfold store. destruct (len tokens <? _); [eexists; reflexivity|].
    destruct (pydict.get String.eqb (_entries self) (_compute_cache_key tokens));
      [eexists; reflexivity|].
    set (entry := CacheEntry_new _ _ _ _ _).
    destruct (ensure_capacity_ok self (memory_bytes entry) P) as (self' & E & _).
    rewrite E. eexists; reflexivity.
  - destruct (ensure_capacity_ok self needed P) as (self' & E & _ & _ & L & Ev).
    exists self'. split; [exact E|]. unfold len. split; lia.
  - intros Ne. destruct (evict_one_exactly_one self P Ne) as (H1 & H2 & _).
    split; [|exact H2]. unfold len. rewrite H1.
    destruct (_entries self); [congruence|cbn [length]; lia].
Qed.

Lemma store_never_raises_cache_full_witness :
  let self := run_ops (CacheManager_new (Some sample_config)) sample_history in
  (exists key, fst (store self [5; 6; 7] PyNone 0 3) = Ok key) /\
  (exists self',
     _ensure_capacity self 6144 = (Ok tt, self') /\
     models.evictions (_stats self') - models.evictions (_stats self)
       = len (_entries self) - len (_entries self') /\
     0 <= len (_entries self') <= len (_entries self)) /\
  (_entries self <> [] ->
   len (_entries (_evict_one self)) = len (_entries self) - 1 /\
   models.evictions (_stats (_evict_one self)) = models.evictions (_stats self) + 1).
Proof.
  apply (store_never_raises_cache_full sample_config sample_history). reflexivity.
Defined.

(** ** The byte footprint of an admitted entry *)

(** C3 as stated fails: a negative caller-supplied footprint is kept as the
    entry's footprint. *)
Lemma negative_footprint_is_kept :
  ~ (forall (c : models.CacheConfig) (tokens : list Z) (kv : Any) (mb : Z) (now : Q)
            (e : CacheEntry),
        valid_config c ->
        get_entry (snd (store (CacheManager_new (Some c)) tokens kv mb now))
                  (_compute_cache_key tokens) = Some e ->
        memory_bytes e = (if 0 <? mb then mb else len tokens * 2048) /\
        0 < memory_bytes e).
Proof.
  intros H.
  destruct (H (models.mkCacheConfig 10 1 0 "lru" 2) [1; 2; 3] PyNone (-5) 0%Q
              (mkCacheEntry "7b0b5ea3ff36958c" [1; 2; 3] PyNone 3 (-5) 0 0 0))
    as [_ H2].
  - reflexivity.
  - vm_compute. reflexivity.
  - cbn in H2. lia.
Qed.

(** C3, amended. A [store] call that admits a new entry gives it the
    caller-supplied footprint when that value is not zero and
    [len(tokens) * 2048] when it is zero; the footprint is therefore positive
    whenever the supplied value is not negative. *)
Theorem store_footprint (self : CacheManager) (tokens : list Z) (kv : Any)
  (mb : Z) (now : Q) :
  valid_config (config self) ->
  models.min_prefix_length (config self) <= len tokens ->
  get_entry self (_compute_cache_key tokens) = None ->
  exists e,
    fst (store self tokens kv mb now) = Ok (_compute_cache_key tokens) /\
    get_entry (snd (store self tokens kv mb now)) (_compute_cache_key tokens) = Some e /\
    cache.tokens e = tokens /\ token_count e = len tokens /\
    memory_bytes e = (if mb =? 0 then len tokens * BYTES_PER_TOKEN_DEFAULT else mb) /\
    (0 <= mb -> 0 < memory_bytes e).
Proof.
  intros V Hl G. destruct (valid_config_fields _ V) as (_ & _ & P & Hmin).
  unfold get_entry in G. unfold store.
  destruct (Z.ltb_spec (len tokens) (models.min_prefix_length (config self))); [lia|].
  rewrite G.
  set (entry := CacheEntry_new _ _ _ _ _).
  destruct (ensure_capacity_ok self (memory_bytes entry) P) as (self' & E & _).
  rewrite E. cbn [fst snd]. exists entry. split; [reflexivity|].
  split; [unfold get_entry; cbn [_entries];
          apply (pydict_facts.get_set_same String.eqb Seqb_eq)|].
  assert (Hb : memory_bytes entry
               = if mb =? 0 then len tokens * BYTES_PER_TOKEN_DEFAULT else mb).
  { unfold entry, CacheEntry_new, CacheEntry__post_init__.
    cbn [memory_bytes token_count cache.tokens]. cbn [Z.eqb].
    destruct (Z.eqb_spec mb 0) as [->|N].
    - destruct (Z.eqb_spec (len tokens * BYTES_PER_TOKEN_DEFAULT) 0) as [E0|]; [|reflexivity].
      rewrite E0. unfold BYTES_PER_TOKEN_DEFAULT in *. lia.
    - destruct (Z.eqb_spec mb 0); [contradiction|reflexivity]. }
  split; [reflexivity|]. split; [reflexivity|]. split; [exact Hb|].
  intros Hpos. rewrite Hb. unfold BYTES_PER_TOKEN_DEFAULT.
  destruct (Z.eqb_spec mb 0); lia.
Qed.

Lemma store_footprint_witness :
  exists e,
    fst (store (CacheManager_new (Some sample_config)) [1; 2; 3] PyNone 0 0)
      = Ok (_compute_cache_key [1; 2; 3]) /\
    get_entry (snd (store (CacheManager_new (Some sample_config)) [1; 2; 3] PyNone 0 0))
              (_compute_cache_key [1; 2; 3]) = Some e /\
    cache.tokens e = [1; 2; 3] /\ token_count e = 3 /\
    memory_bytes e = 6144 /\ (0 <= 0 -> 0 < memory_bytes e).
Proof.
  apply (store_footprint (CacheManager_new (Some sample_config)) [1; 2; 3] PyNone 0 0%Q).
  - reflexivity.
  - vm_compute. discriminate.
  - reflexivity.
Defined.

(** ** Lookup *)

Lemma is_expired_with_stats (self : CacheManager) (st : models.CacheStats)
  (e : CacheEntry) (now : Q) :
  _is_expired (with_stats self st) e now = _is_expired self e now.
Proof. reflexivity. Qed.

(** C5. Every [lookup] adds one to [total_lookups] and [len(tokens)] to
    [total_tokens_requested]. It returns the miss result, which carries only
    [total_length], and counts a miss exactly when the index reports no key,
    or the matched length is below [min_prefix_length], or the key is not in
    the map, or the entry has expired; otherwise it returns a hit with
    [tokens[:matched_length]], the key and [tokens[matched_length:]]. *)
Theorem lookup_result (self : CacheManager) (tokens : list Z) (now1 now2 : Q) :
  let ml := fst (trie.find_longest_prefix (_trie self) tokens) in
  let found := snd (trie.find_longest_prefix (_trie self) tokens) in
  let r := fst (lookup self tokens now1 now2) in
  let self' := snd (lookup self tokens now1 now2) in
  let is_miss :=
    found = None \/
    exists k, found = Some k /\
      (ml < models.min_prefix_length (config self) \/
       get_entry self k = None \/
       exists e, get_entry self k = Some e /\ _is_expired self e now1 = true) in
  models.total_lookups (_stats self') = models.total_lookups (_stats self) + 1 /\
  models.total_tokens_requested (_stats self')
    = models.total_tokens_requested (_stats self) + len tokens /\
  (is_miss <-> r = miss tokens) /\
  (is_miss ->
   models.cache_misses (_stats self') = models.cache_misses (_stats self) + 1 /\
   models.cache_hits (_stats self') = models.cache_hits (_stats self) /\
   models.total_tokens_served (_stats self') = models.total_tokens_served (_stats self)) /\
  (~ is_miss ->
   exists k,
     found = Some k /\
     r = models.mkPrefixMatch (firstn (Z.to_nat ml) tokens) ml (len tokens) k
                              (skipn (Z.to_nat ml) tokens) true /\
     models.cache_hits (_stats self') = models.cache_hits (_stats self) + 1 /\
     models.total_tokens_served (_stats self')
       = models.total_tokens_served (_stats self) + ml /\
     models.cache_misses (_stats self') = models.cache_misses (_stats self)).
Proof.
  cbv zeta. unfold lookup, get_entry.
  cbn [with_stats _trie _entries config _stats].
  destruct (trie.find_longest_prefix (_trie self) tokens) as [ml [k|]]; cbn [fst snd].
  2:{ (* the index reports no key *)
      repeat split; auto; try tauto. }
  destruct (Z.ltb_spec ml (models.min_prefix_length (config self))) as [Lt|Ge].
  { (* below the minimum length *)
    cbn [fst snd with_stats _stats count_miss count_lookup
         models.total_lookups models.total_tokens_requested models.cache_misses
         models.cache_hits models.total_tokens_served].
    assert (M : Some k = None \/
                exists k0, Some k = Some k0 /\
                  (ml < models.min_prefix_length (config self) \/
                   pydict.get String.eqb (_entries self) k0 = None \/
                   exists e, pydict.get String.eqb (_entries self) k0 = Some e /\
                             _is_expired self e now1 = true)).
    { right. exists k. split; [reflexivity|]. now left. }
    repeat split; auto; try tauto. }
  destruct (pydict.get String.eqb (_entries self) k) as [e|] eqn:G.
  2:{ (* the key is not in the map *)
      cbn [fst snd with_stats _stats count_miss count_lookup
           models.total_lookups models.total_tokens_requested models.cache_misses
           models.cache_hits models.total_tokens_served].
      assert (M : Some k = None \/
                  exists k0, Some k = Some k0 /\
                    (ml < models.min_prefix_length (config self) \/
                     pydict.get String.eqb (_entries self) k0 = None \/
                     exists e, pydict.get String.eqb (_entries self) k0 = Some e /\
                               _is_expired self e now1 = true)).
      { right. exists k. split; [reflexivity|]. right. now left. }
      repeat split; auto; try tauto. }
  rewrite is_expired_with_stats.
  destruct (_is_expired self e now1) eqn:X.
  { (* the entry has expired *)
    unfold _evict_entry. cbn [with_stats _entries]. rewrite G.
    cbn [fst snd with_stats _stats count_miss count_lookup
         models.total_lookups models.total_tokens_requested models.cache_misses
         models.cache_hits models.total_tokens_served].
    assert (M : Some k = None \/
                exists k0, Some k = Some k0 /\
                  (ml < models.min_prefix_length (config self) \/
                   pydict.get String.eqb (_entries self) k0 = None \/
                   exists e, pydict.get String.eqb (_entries self) k0 = Some e /\
                             _is_expired self e now1 = true)).
    { right. exists k. split; [reflexivity|]. right. right. eauto. }
    repeat split; auto; try tauto. }
  (* a hit *)
  cbn [fst snd with_stats with_entries _stats count_hit count_lookup
       models.total_lookups models.total_tokens_requested models.cache_misses
       models.cache_hits models.total_tokens_served].
  assert (M : ~ (Some k = None \/
                 exists k0, Some k = Some k0 /\
                   (ml < models.min_prefix_length (config self) \/
                    pydict.get String.eqb (_entries self) k0 = None \/
                    exists e, pydict.get String.eqb (_entries self) k0 = Some e /\
                              _is_expired self e now1 = true))).
  { intros [H|(k0 & [= <-] & [H|[H|(e0 & H & H')]])]; try discriminate; try lia; congruence. }
  split; [reflexivity|]. split; [reflexivity|]. split; [|split].
  - split; [tauto|]. intros H. unfold miss in H. discriminate.
  - tauto.
  - intros _. exists k. repeat split.
Qed.

(** ** TTL *)

Lemma is_expired_iff (m : CacheManager) (x : CacheEntry) (now : Q) :
  _is_expired m x now = true <->
  (0 < models.default_ttl_seconds (config m))%Q /\
  (models.default_ttl_seconds (config m) < pyfloat.sub now (created_at x))%Q.
Proof.
  unfold _is_expired.
  destruct (Qle_bool (models.default_ttl_seconds (config m)) 0) eqn:E1.
  - apply Qle_bool_iff in E1. split; [discriminate|].
    intros [H _]. exfalso. now apply (Qlt_not_le _ _ H).
  - assert (P1 : (0 < models.default_ttl_seconds (config m))%Q).
    { apply Qnot_le_lt. intros H. apply Qle_bool_iff in H. congruence. }
    destruct (Qle_bool (pyfloat.sub now (created_at x))
                       (models.default_ttl_seconds (config m))) eqn:E2;
      cbn [negb].
    + apply Qle_bool_iff in E2. split; [discriminate|].
      intros [_ H]. exfalso. now apply (Qlt_not_le _ _ H).
    + split; [|reflexivity]. intros _. split; [exact P1|].
      apply Qnot_le_lt. intros H. apply Qle_bool_iff in H. congruence.
Qed.

(** An entry whose exact age is within a TTL that is a binary64 number is
    not expired: rounding the age does not carry it over the TTL. *)
Lemma age_within_ttl (m : CacheManager) (x : CacheEntry) (now : Q) :
  float_spec.is_double (models.default_ttl_seconds (config m)) ->
  (now - created_at x <= models.default_ttl_seconds (config m))%Q ->
  _is_expired m x now = false.
Proof.
  intros D H. unfold _is_expired.
  destruct (Qle_bool (models.default_ttl_seconds (config m)) 0); [reflexivity|].
  assert (L : (pyfloat.sub now (created_at x)
               <= models.default_ttl_seconds (config m))%Q)
    by (apply pyfloat_facts.nearest_le; assumption).
  apply Qle_bool_iff in L. now rewrite L.
Qed.

(** C6 as stated fails: the age that [_is_expired] compares with the TTL is
    the float difference [now - created_at], and an exact age above the TTL
    can round down to it. With a TTL of 2 seconds, an entry created at
    [1 - 2^-53] and looked up at 3 has the exact age [2 + 2^-53] and the
    float age 2: it is not expired, and the lookup hits and evicts
    nothing. *)
Lemma exact_age_above_ttl_can_hit :
  ~ (forall (m : CacheManager) (x : CacheEntry) (now : Q),
        _is_expired m x now = true <->
        (0 < models.default_ttl_seconds (config m))%Q /\
        (models.default_ttl_seconds (config m) < now - created_at x)%Q) /\
  ~ (forall (c : models.CacheConfig) (ops : list op) (tokens : list Z)
            (now1 now2 : Q) (ml : Z) (k : string) (e : CacheEntry),
        valid_config c ->
        let self := run_ops (CacheManager_new (Some c)) ops in
        trie.find_longest_prefix (_trie self) tokens = (ml, Some k) ->
        models.min_prefix_length c <= ml ->
        get_entry self k = Some e ->
        (0 < models.default_ttl_seconds c)%Q ->
        (models.default_ttl_seconds c < now1 - created_at e)%Q ->
        fst (lookup self tokens now1 now2) = miss tokens /\
        get_entry (snd (lookup self tokens now1 now2)) k = None).
Proof.
  split.
  - intros H.
    destruct (H (CacheManager_new (Some (models.mkCacheConfig 10 1 2 "lru" 2)))
                (mkCacheEntry "7b0b5ea3ff36958c" [1; 2; 3] PyNone 3 6144
                              (1 - (1 # 2 ^ 53)) (1 - (1 # 2 ^ 53)) 0)
                3%Q) as [_ H2].
    assert (X : false = true) by (apply H2; split; reflexivity).
    discriminate.
  - intros H.
    destruct (H (models.mkCacheConfig 10 1 2 "lru" 2)
                [OpStore [1; 2; 3] PyNone 0 (1 - (1 # 2 ^ 53))]
                [1; 2; 3] 3%Q 3%Q 3 "7b0b5ea3ff36958c"%string
                (mkCacheEntry "7b0b5ea3ff36958c" [1; 2; 3] PyNone 3 6144
                              (1 - (1 # 2 ^ 53)) (1 - (1 # 2 ^ 53)) 0))
      as [H1 _].
    + reflexivity.
    + vm_compute. reflexivity.
    + vm_compute. discriminate.
    + vm_compute. reflexivity.
    + reflexivity.
    + vm_compute. reflexivity.
    + vm_compute in H1. discriminate.
Qed.

(** C6, amended. An entry is expired exactly when [default_ttl_seconds > 0]
    and the float difference [now - created_at], which is the exact
    difference rounded to a nearest binary64 number, is above
    [default_ttl_seconds]; [last_accessed] plays no part, a TTL that is not
    positive disables expiry, and an entry whose exact age is within a
    binary64 TTL is not expired. A lookup that meets an expired entry
    answers a miss after evicting it: the entry leaves the map and the
    index, its footprint is subtracted from the byte total and the eviction
    counter goes up by one. *)
Theorem expired_entry_is_evicted (c : models.CacheConfig) (ops : list op)
  (tokens : list Z) (now1 now2 : Q) (ml : Z) (k : string) (e : CacheEntry) :
  valid_config c ->
  let self := run_ops (CacheManager_new (Some c)) ops in
  trie.find_longest_prefix (_trie self) tokens = (ml, Some k) ->
  models.min_prefix_length c <= ml ->
  get_entry self k = Some e ->
  (0 < models.default_ttl_seconds c)%Q ->
  (models.default_ttl_seconds c < pyfloat.sub now1 (created_at e))%Q ->
  let r := fst (lookup self tokens now1 now2) in
  let self' := snd (lookup self tokens now1 now2) in
  r = miss tokens /\
  _entries self' = pydict.remove String.eqb (_entries self) k /\
  get_entry self' k = None /\
  (forall k', ~ trie_spec.stored (_trie self') (cache.tokens e) k') /\
  terminal_markers (_trie self') = terminal_markers (_trie self) - 1 /\
  len (_entries self') = len (_entries self) - 1 /\
  _total_memory_bytes self' = _total_memory_bytes self - memory_bytes e /\
  models.evictions (_stats self') = models.evictions (_stats self) + 1 /\
  models.cache_misses (_stats self') = models.cache_misses (_stats self) + 1 /\
  (forall (m : CacheManager) (x : CacheEntry) (now : Q),
      _is_expired m x now = true <->
      (0 < models.default_ttl_seconds (config m))%Q /\
      (models.default_ttl_seconds (config m) < pyfloat.sub now (created_at x))%Q) /\
  (forall (x : CacheEntry) (now f : Q),
      float_spec.is_double (pyfloat.sub now (created_at x)) /\
      (float_spec.is_double f ->
       (Qabs (pyfloat.sub now (created_at x) - (now - created_at x))
        <= Qabs (f - (now - created_at x)))%Q)) /\
  (forall (m : CacheManager) (x : CacheEntry) (now t : Q),
      _is_expired m (touch x t) now = _is_expired m x now) /\
  (forall (m : CacheManager) (x : CacheEntry) (now : Q),
      (models.default_ttl_seconds (config m) <= 0)%Q -> _is_expired m x now = false) /\
  (forall (m : CacheManager) (x : CacheEntry) (now : Q),
      float_spec.is_double (models.default_ttl_seconds (config m)) ->
      (now - created_at x <= models.default_ttl_seconds (config m))%Q ->
      _is_expired m x now = false).
Proof.
  intros V self F Hml G T1 T2.
  assert (C : config self = c) by (unfold self; now rewrite run_ops_config).
  destruct (Inv_reachable c ops V) as [Hw Hk He Hm Hc Hb]. fold self in Hw, Hk, He, Hm, Hc, Hb.
  unfold get_entry in G. destruct (He _ _ G) as (Ek & Eh & En & Em).
  assert (X : _is_expired self e now1 = true) by (apply is_expired_iff; now rewrite C).
  unfold lookup. cbn [with_stats _trie _entries config _stats].
  rewrite F, C. destruct (Z.ltb_spec ml (models.min_prefix_length c)); [lia|].
  rewrite G, is_expired_with_stats, X.
  unfold _evict_entry. cbn [with_stats _entries]. rewrite G.
  cbn [fst snd with_stats _trie _entries _stats _total_memory_bytes count_miss
       count_lookup models.evictions models.cache_misses get_entry].
  split; [reflexivity|]. split; [reflexivity|].
  split; [now apply (pydict_facts.get_remove_same String.eqb Seqb_eq)|].
  split.
  { intros k' St. apply trie_facts.stored_marker in St;
      [|now apply trie_facts.wf_remove].
    destruct St as [_ St]. rewrite (trie_facts.marker_remove _ _ _ En) in St.
    destruct (list_eq_dec Z.eq_dec (cache.tokens e) (cache.tokens e));
      [discriminate|congruence]. }
  split.
  { rewrite !terminal_markers_count, (trie_facts.count_remove _ _ En), Em. reflexivity. }
  split.
  { unfold len. rewrite pydict_facts.length_remove. unfold pydict.contains. rewrite G.
    pose proof (get_Some_length _ _ _ G). lia. }
  split; [reflexivity|]. split; [reflexivity|]. split; [reflexivity|].
  split; [exact is_expired_iff|].
  split.
  { intros x now f. split; [apply pyfloat_facts.nearest_is_double|].
    intros Df. now apply pyfloat_facts.nearest_is_nearest. }
  split; [reflexivity|]. split.
  { intros m x now Hle. unfold _is_expired.
    apply Qle_bool_iff in Hle. now rewrite Hle. }
  exact age_within_ttl.
Qed.

Lemma expired_entry_is_evicted_witness :
  let self :=
    run_ops (CacheManager_new (Some sample_config))
            [OpStore [1; 2; 3] PyNone 0 0; OpStore [4; 5; 6] PyNone 0 0] in
  fst (lookup self [1; 2; 3; 4] 1 1) = miss [1; 2; 3; 4] /\
  get_entry (snd (lookup self [1; 2; 3; 4] 1 1)) "7b0b5ea3ff36958c" = None /\
  _total_memory_bytes (snd (lookup self [1; 2; 3; 4] 1 1))
    = _total_memory_bytes self - 6144.
Proof.
  assert (V : valid_config sample_config) by reflexivity.
  assert (F : trie.find_longest_prefix
                (_trie (run_ops (CacheManager_new (Some sample_config))
                          [OpStore [1; 2; 3] PyNone 0 0; OpStore [4; 5; 6] PyNone 0 0]))
                [1; 2; 3; 4] = (3, Some "7b0b5ea3ff36958c"%string))
    by (vm_compute; reflexivity).
  assert (G : get_entry
                (run_ops (CacheManager_new (Some sample_config))
                   [OpStore [1; 2; 3] PyNone 0 0; OpStore [4; 5; 6] PyNone 0 0])
                "7b0b5ea3ff36958c"
              = Some (mkCacheEntry "7b0b5ea3ff36958c" [1; 2; 3] PyNone 3 6144 0 0 0))
    by (vm_compute; reflexivity).
  assert (Hml : models.min_prefix_length sample_config <= 3) by (vm_compute; discriminate).
  assert (T1 : (0 < models.default_ttl_seconds sample_config)%Q) by reflexivity.
  assert (T2 : (models.default_ttl_seconds sample_config
                < 1 - created_at (mkCacheEntry "7b0b5ea3ff36958c" [1; 2; 3]%Z PyNone
                                               3%Z 6144%Z 0 0 0%Z))%Q)
    by reflexivity.
  destruct (expired_entry_is_evicted sample_config _ [1; 2; 3; 4] 1 1 3 _ _ V F Hml G T1 T2)
    as (H1 & _ & H3 & _ & _ & _ & H7 & _).
  split; [exact H1|]. split; [exact H3|exact H7].
Defined.

(** ** The byte budget *)

(** C1 fails on the code. An entry whose footprint exceeds the whole budget
    makes the capacity loop evict everything, after which the entry is
    admitted without an error and the byte total stands above
    [max_memory_mb * 2^20]. *)
Theorem oversized_entry_exceeds_budget :
  let c := models.mkCacheConfig 10 1 0 "lru" 2 in
  let self0 := snd (store (CacheManager_new (Some c)) [4; 5; 6] PyNone 0 0) in
  let self := snd (store self0 [1; 2; 3] PyNone 2097152 0) in
  valid_config c /\
  fst (store self0 [1; 2; 3] PyNone 2097152 0) = Ok "7b0b5ea3ff36958c"%string /\
  map fst (_entries self) = ["7b0b5ea3ff36958c"%string] /\
  models.evictions (_stats self) = 1 /\
  _total_memory_bytes self = 2097152 /\
  max_memory_bytes c = 1048576 /\
  ~ _total_memory_bytes self <= max_memory_bytes c.
Proof.
  cbv zeta. split; [reflexivity|]. split; [vm_compute; reflexivity|].
  split; [vm_compute; reflexivity|]. split; [vm_compute; reflexivity|].
  split; [vm_compute; reflexivity|]. split; [vm_compute; reflexivity|].
  vm_compute. intros H. now apply H.
Qed.

(** ** The capacity bounds that hold *)

Lemma new_entry_memory (k : string) (t : list Z) (kv : Any) (mb : Z) (now : Q) :
  memory_bytes
    (CacheEntry_new k t kv
       (if mb =? 0 then len t * BYTES_PER_TOKEN_DEFAULT else mb) now)
  = footprint t mb.
Proof.
  unfold CacheEntry_new, CacheEntry__post_init__, footprint.
  cbn [memory_bytes token_count cache.tokens]. cbn [Z.eqb].
  destruct (Z.eqb_spec mb 0) as [->|N].
  - destruct (Z.eqb_spec (len t * BYTES_PER_TOKEN_DEFAULT) 0); reflexivity.
  - destruct (Z.eqb_spec mb 0); [contradiction|reflexivity].
Qed.

Lemma over_capacity_false (self : CacheManager) (needed m : Z) :
  over_capacity self needed m = false ->
  _entries self = [] \/
  (len (_entries self) < models.max_entries (config self) /\
   _total_memory_bytes self + needed <= m).
Proof.
  unfold over_capacity. destruct (_entries self) as [|x r] eqn:E; [now left|].
  rewrite andb_true_r, orb_false_iff. intros [H1 H2]. right.
  destruct (Z.geb_spec (len (x :: r)) (models.max_entries (config self))); [discriminate|].
  destruct (Z.gtb_spec (_total_memory_bytes self + needed) m); [discriminate|]. lia.
Qed.

Lemma py_int_nonneg (q : Q) : (0 <= q)%Q -> 0 <= py_int q.
Proof.
  unfold py_int, Qle. cbn. intros H. apply Z.quot_pos; lia.
Qed.

Lemma max_memory_bytes_nonneg (c : models.CacheConfig) :
  valid_config c -> 0 <= max_memory_bytes c.
Proof.
  intros V. destruct (valid_config_fields _ V) as (_ & H & _).
  apply py_int_nonneg.
  apply Qlt_le_weak. repeat apply Qmult_lt_0_compat; [exact H|reflexivity|reflexivity].
Qed.

Lemma within_count_run_op (self : CacheManager) (o : op) :
  valid_config (config self) -> within_count self -> within_count (run_op self o).
Proof.
  intros V. destruct (valid_config_fields _ V) as (Hmax & _ & P & _).
  unfold within_count. rewrite run_op_config. intros C.
  destruct o as [t kv mb now|t n1 n2|k| |]; cbn [run_op].
  - unfold store. destruct (len t <? _); [exact C|].
    destruct (pydict.get String.eqb (_entries self) (_compute_cache_key t)) as [e|] eqn:G.
    { cbn [snd with_entries _entries]. unfold len in *.
      now rewrite (touch_length _ _ e _ G). }
    set (entry := CacheEntry_new _ _ _ _ _).
    destruct (ensure_capacity_ok self (memory_bytes entry) P)
      as (self' & E & O & Cf & _).
    pose proof (ensure_loop_absent (Z.to_nat (len (_entries self) + 1))
                  (len (_entries self) + 1) self (memory_bytes entry)
                  (py_int (models.max_memory_mb (config self) * 1024 * 1024)%Q) _ G) as G1.
    unfold _ensure_capacity in E. rewrite E in G1. cbn [snd] in G1.
    unfold _ensure_capacity. rewrite E. cbn [snd _entries].
    unfold len. rewrite pydict_facts.length_set. unfold pydict.contains. rewrite G1.
    apply over_capacity_false in O. rewrite Cf in O. unfold len in O.
    destruct O as [-> | [O _]]; cbn [length]; lia.
  - unfold lookup. cbn [with_stats _trie _entries config _stats].
    destruct (trie.find_longest_prefix (_trie self) t) as [ml [k|]]; [|exact C].
    destruct (ml <? _); [exact C|].
    destruct (pydict.get String.eqb (_entries self) k) as [e|] eqn:G; [|exact C].
    rewrite is_expired_with_stats. destruct (_is_expired self e n1).
    + cbn [snd with_stats _entries]. rewrite evict_entry_entries.
      cbn [with_stats _entries]. unfold len in *.
      rewrite pydict_facts.length_remove.
      destruct (pydict.contains String.eqb (_entries self) k); lia.
    + cbn [snd with_stats with_entries _entries]. unfold len in *.
      now rewrite (touch_length _ _ e _ G).
  - unfold evict. rewrite evict_entry_entries. unfold len in *.
    rewrite pydict_facts.length_remove.
    destruct (pydict.contains String.eqb (_entries self) k); lia.
  - cbn. lia.
  - exact C.
Qed.

Lemma within_bytes_evict_entry (self : CacheManager) (k : string) :
  Inv self -> within_bytes self -> within_bytes (snd (_evict_entry self k)).
Proof.
  intros I [B1 B2]. unfold within_bytes. rewrite evict_entry_config.
  unfold _evict_entry.
  destruct (pydict.get String.eqb (_entries self) k) as [e|] eqn:G; [|now split].
  cbn [snd _total_memory_bytes _entries]. pose proof (B2 _ _ G). split; [lia|].
  intros k' e' G'. destruct (string_dec k' k) as [->|N].
  - rewrite (pydict_facts.get_remove_same String.eqb Seqb_eq) in G';
      [discriminate|apply (inv_keys _ I)].
  - rewrite (pydict_facts.get_remove_other String.eqb Seqb_eq) in G' by exact N. eauto.
Qed.

Lemma within_bytes_ensure_loop (remaining : nat) :
  forall (ma : Z) (self : CacheManager) (needed m : Z),
    Inv self -> within_bytes self ->
    within_bytes (snd (ensure_loop remaining ma self needed m)).
Proof.
  induction remaining as [|r IH]; intros ma self needed m I B; cbn [ensure_loop];
    destruct (over_capacity self needed m); auto.
  apply IH; [now apply Inv_evict_one|].
  rewrite evict_one_victim. destruct (victim self); [|exact B].
  now apply within_bytes_evict_entry.
Qed.

Lemma within_bytes_touch (self : CacheManager) (k : string) (e : CacheEntry) (now : Q) :
  Inv self -> within_bytes self ->
  pydict.get String.eqb (_entries self) k = Some e ->
  within_bytes (with_entries self
                  (pydict.move_to_end String.eqb
                     (pydict.set String.eqb (_entries self) k (touch e now)) k)).
Proof.
  intros I [B1 B2] G. split; [exact B1|].
  cbn [with_entries _entries]. intros k' e'.
  rewrite (touch_get _ _ _ _ (inv_keys _ I)).
  destruct (string_dec k' k) as [->|N]; [|apply B2].
  intros [= <-]. cbn [touch memory_bytes]. eauto.
Qed.

Lemma within_bytes_run_op (self : CacheManager) (o : op) :
  valid_config (config self) -> Inv self -> fits (config self) o ->
  within_bytes self -> within_bytes (run_op self o).
Proof.
  intros V I F B. destruct (valid_config_fields _ V) as (_ & _ & P & _).
  destruct o as [t kv mb now|t n1 n2|k| |]; cbn [run_op].
  - unfold store. destruct (len t <? _); [exact B|].
    destruct (pydict.get String.eqb (_entries self) (_compute_cache_key t)) as [e|] eqn:G.
    { cbn [snd]. now apply within_bytes_touch. }
    rewrite new_entry_memory.
    destruct (ensure_capacity_ok self (footprint t mb) P) as (self' & E & O & Cf & _).
    pose proof (Inv_ensure_loop (Z.to_nat (len (_entries self) + 1))
                  (len (_entries self) + 1) self (footprint t mb)
                  (py_int (models.max_memory_mb (config self) * 1024 * 1024)%Q) I) as I1.
    pose proof (within_bytes_ensure_loop (Z.to_nat (len (_entries self) + 1))
                  (len (_entries self) + 1) self (footprint t mb)
                  (py_int (models.max_memory_mb (config self) * 1024 * 1024)%Q) I B) as B1.
    unfold _ensure_capacity in E. rewrite E in I1, B1. cbn [snd] in I1, B1.
    unfold _ensure_capacity. rewrite E. cbn [snd].
    destruct B1 as [B1 B2]. cbn [fits] in F. destruct F as [F1 F2].
    split; cbn [config _total_memory_bytes _entries].
    + apply over_capacity_false in O. destruct O as [O | [_ O]].
      * rewrite (inv_bytes _ I1), O. cbn. rewrite Cf. lia.
      * rewrite Cf. exact O.
    + intros k' e'. destruct (string_dec k' (_compute_cache_key t)) as [->|N].
      * rewrite (pydict_facts.get_set_same String.eqb Seqb_eq). intros [= <-].
        rewrite new_entry_memory. unfold footprint, BYTES_PER_TOKEN_DEFAULT, len.
        destruct (mb =? 0); lia.
      * rewrite (pydict_facts.get_set_other String.eqb Seqb_eq) by exact N. apply B2.
  - unfold lookup. cbn [with_stats _trie _entries config _stats].
    destruct (trie.find_longest_prefix (_trie self) t) as [ml [k|]]; [|exact B].
    destruct (ml <? _); [exact B|].
    destruct (pydict.get String.eqb (_entries self) k) as [e|] eqn:G; [|exact B].
    rewrite is_expired_with_stats. destruct (_is_expired self e n1).
    + cbn [snd].
      exact (within_bytes_evict_entry
               (with_stats self (count_lookup (_stats self) (len t))) k
               (Inv_with_stats _ _ I) B).
    + cbn [snd]. exact (within_bytes_touch self k e n2 I B G).
  - now apply within_bytes_evict_entry.
  - split; [cbn; now apply max_memory_bytes_nonneg|]. cbn. discriminate.
  - exact B.
Qed.

(** The part of the capacity bounds that holds in every history: the map
    never holds more than [max_entries] entries; and the byte total stays
    within the budget as long as every [store] brings a footprint that is not
    negative and fits in the budget on its own. *)
Theorem capacity_bounds (c : models.CacheConfig) (ops : list op) :
  valid_config c ->
  let self := run_ops (CacheManager_new (Some c)) ops in
  len (_entries self) <= models.max_entries c /\
  (Forall (fits c) ops -> _total_memory_bytes self <= max_memory_bytes c).
Proof.
  intros V.
  assert (H : forall ops self,
             config self = c -> Inv self -> within_count self ->
             within_count (run_ops self ops) /\
             (Forall (fits c) ops -> within_bytes self ->
              within_bytes (run_ops self ops))).
  { clear ops. induction ops as [|o r IH]; intros self C I W; [now split|].
    cbn [run_ops fold_left]. fold (run_ops (run_op self o) r).
    assert (V' : valid_config (config self)) by now rewrite C.
    destruct (valid_config_fields _ V') as (_ & _ & _ & Hmin).
    destruct (IH (run_op self o)) as [W' B'].
    - now rewrite run_op_config.
    - now apply Inv_run_op.
    - now apply within_count_run_op.
    - split; [exact W'|]. intros F B. inversion F as [|? ? Fo Fr]; subst.
      apply B'; [exact Fr|]. now apply within_bytes_run_op. }
  intros self. destruct (H ops (CacheManager_new (Some c))) as [W B].
  - reflexivity.
  - apply Inv_new.
  - unfold within_count. cbn. destruct (valid_config_fields _ V). lia.
  - fold self in W, B. unfold within_count in W. unfold self in W at 2.
    rewrite run_ops_config in W. cbn [CacheManager_new config] in W.
    split; [exact W|]. intros F. destruct (B F) as [B1 _].
    + split; [cbn; now apply max_memory_bytes_nonneg|]. cbn. discriminate.
    + unfold self in B1 at 2. rewrite run_ops_config in B1. exact B1.
Qed.

Lemma capacity_bounds_witness :
  let self := run_ops (CacheManager_new (Some sample_config)) sample_history in
  len (_entries self) <= 2 /\ _total_memory_bytes self <= 1048576.
Proof.
  destruct (capacity_bounds sample_config sample_history) as [H1 H2]; [reflexivity|].
  split; [exact H1|]. apply H2.
  repeat constructor; vm_compute; discriminate.
Defined.

End cache_facts.

Module batch_facts.
Import cache cache_spec batch_spec.

Lemma tokens_eqb_eq (a b : list Z) : tokens_eqb a b = true <-> a = b.
Proof.
  revert b. induction a as [|x a IH]; intros [|y b]; cbn; try (split; congruence).
  rewrite andb_true_iff, Z.eqb_eq, IH. split; [intros [-> ->]; reflexivity|].
  intros [= -> ->]. auto.
Qed.

Lemma Neqb_eq (a b : nat) : Nat.eqb a b = true <-> a = b.
Proof. apply Nat.eqb_eq. Qed.

Lemma candb_iff (L : Z) (s p : list Z) :
  candb L s p = true <->
  L <= len p /\ (length p <= length s)%nat /\ firstn (length p) s = p.
Proof.
  unfold candb. rewrite !andb_true_iff, Z.leb_le, Nat.leb_le, tokens_eqb_eq. tauto.
Qed.

(** ** The dictionary of candidate prefixes *)

Lemma record_prefix_get (d : list (list Z * list nat)) (idx : nat) (q p : list Z) :
  pydict.get tokens_eqb (record_prefix d idx q) p =
  if tokens_eqb q p then Some (get_or_nil d q ++ [idx])
  else pydict.get tokens_eqb d p.
Proof.
  unfold record_prefix, pydict.contains, get_or_nil.
  destruct (pydict.get tokens_eqb d q) as [l|] eqn:G.
  - rewrite G. destruct (tokens_eqb q p) eqn:E.
    + apply tokens_eqb_eq in E. subst p.
      apply (pydict_facts.get_set_same tokens_eqb tokens_eqb_eq).
    + apply (pydict_facts.get_set_other tokens_eqb tokens_eqb_eq).
      intros ->. rewrite (proj2 (tokens_eqb_eq q q) eq_refl) in E. discriminate.
  - rewrite (pydict_facts.get_set_same tokens_eqb tokens_eqb_eq).
    destruct (tokens_eqb q p) eqn:E.
    + apply tokens_eqb_eq in E. subst p.
      apply (pydict_facts.get_set_same tokens_eqb tokens_eqb_eq).
    + assert (N : p <> q).
      { intros ->. rewrite (proj2 (tokens_eqb_eq q q) eq_refl) in E. discriminate. }
      rewrite !(pydict_facts.get_set_other tokens_eqb tokens_eqb_eq) by exact N.
      reflexivity.
Qed.

Lemma record_prefix_NoDup (d : list (list Z * list nat)) (idx : nat) (q : list Z) :
  NoDup (map fst d) -> NoDup (map fst (record_prefix d idx q)).
Proof.
  intros ND. unfold record_prefix, pydict.contains.
  destruct (pydict.get tokens_eqb d q) as [l|] eqn:G.
  - rewrite G. now apply (pydict_facts.NoDup_set tokens_eqb tokens_eqb_eq).
  - rewrite (pydict_facts.get_set_same tokens_eqb tokens_eqb_eq).
    now repeat apply (pydict_facts.NoDup_set tokens_eqb tokens_eqb_eq).
Qed.

Lemma slice_to_nonneg (t : list Z) (z : Z) :
  0 <= z -> slice_to t z = firstn (Z.to_nat z) t.
Proof. intros H. unfold slice_to. destruct (Z.leb_spec 0 z); [reflexivity|lia]. Qed.

(** The inner loop over the lengths of one sequence. *)
Lemma inner_loop_get (idx : nat) (t : list Z) (ls : list Z) :
  forall d : list (list Z * list nat),
    (forall z, In z ls -> 0 <= z <= len t) -> NoDup ls -> NoDup (map fst d) ->
    let d' := fold_left (fun a z => record_prefix a idx (slice_to t z)) ls d in
    NoDup (map fst d') /\
    forall p,
      pydict.get tokens_eqb d' p =
      if existsb (fun z => tokens_eqb (slice_to t z) p) ls
      then Some (get_or_nil d p ++ [idx])
      else pydict.get tokens_eqb d p.
Proof.
  induction ls as [|z ls IH]; intros d Hr ND NDd; cbn [fold_left existsb].
  { split; [exact NDd|reflexivity]. }
  inversion ND as [|? ? Hz NDls]; subst.
  destruct (IH (record_prefix d idx (slice_to t z))) as [N' G'].
  - intros z' Hz'. apply Hr. now right.
  - exact NDls.
  - now apply record_prefix_NoDup.
  - split; [exact N'|]. intros p. rewrite G'. clear G' N' IH.
    destruct (existsb (fun z0 => tokens_eqb (slice_to t z0) p) ls) eqn:Ex.
    + (* [p] is hit later, so not now: the lengths are distinct *)
      apply existsb_exists in Ex. destruct Ex as (z' & Hz' & E').
      apply tokens_eqb_eq in E'.
      assert (Nz : tokens_eqb (slice_to t z) p = false).
      { destruct (tokens_eqb (slice_to t z) p) eqn:E; [|reflexivity].
        apply tokens_eqb_eq in E. exfalso. apply Hz.
        assert (Hrz := Hr z (or_introl eq_refl)).
        assert (Hrz' := Hr z' (or_intror Hz')).
        rewrite slice_to_nonneg in E, E' by lia.
        assert (El : length (firstn (Z.to_nat z) t) = length (firstn (Z.to_nat z') t))
          by congruence.
        rewrite !length_firstn in El. unfold len in *.
        assert (z = z') by lia. now subst. }
      rewrite Nz, orb_true_r. unfold get_or_nil at 1.
      rewrite record_prefix_get, Nz. reflexivity.
    + rewrite orb_false_r, record_prefix_get.
      destruct (tokens_eqb (slice_to t z) p) eqn:E; [|reflexivity].
      apply tokens_eqb_eq in E. now subst p.
Qed.

Lemma range_down_In (a b z : Z) : In z (range_down a b) <-> b < z <= a.
Proof.
  unfold range_down. rewrite in_map_iff. split.
  - intros (i & <- & Hi). apply in_seq in Hi. lia.
  - intros H. exists (Z.to_nat (a - z)). split; [lia|]. apply in_seq. lia.
Qed.

Lemma range_down_NoDup (a b : Z) : NoDup (range_down a b).
Proof.
  unfold range_down. apply Finite.Injective_map_NoDup; [|apply seq_NoDup].
  intros x y H. lia.
Qed.

Lemma slices_candb (L : Z) (t p : list Z) :
  1 <= L ->
  existsb (fun z => tokens_eqb (slice_to t z) p) (range_down (len t) (L - 1))
  = candb L t p.
Proof.
  intros HL. apply eq_true_iff_eq. rewrite existsb_exists, candb_iff. split.
  - intros (z & Hz & E). apply range_down_In in Hz. apply tokens_eqb_eq in E.
    rewrite slice_to_nonneg in E by lia. subst p. unfold len in *.
    rewrite length_firstn.
    replace (Nat.min (Z.to_nat z) (length t)) with (Z.to_nat z) by lia.
    repeat split; lia.
  - intros (H1 & H2 & H3). exists (len p). split.
    + apply range_down_In. unfold len in *. lia.
    + apply tokens_eqb_eq. rewrite slice_to_nonneg by (unfold len in *; lia).
      unfold len. now rewrite Nat2Z.id.
Qed.

Lemma combine_snoc {A B : Type} (l : list A) (m : list B) (a : A) (b : B) :
  length l = length m -> combine (l ++ [a]) (m ++ [b]) = combine l m ++ [(a, b)].
Proof.
  revert m. induction l as [|x l IH]; intros [|y m] H; try discriminate; cbn.
  - reflexivity.
  - rewrite IH by (cbn in H; lia). reflexivity.
Qed.

Lemma build_analysis_trie_snoc (L : Z) (seqs : list (list Z)) (t : list Z) :
  build_analysis_trie L (seqs ++ [t]) =
  fold_left (fun a z => record_prefix a (length seqs) (slice_to t z))
            (range_down (len t) (L - 1))
            (build_analysis_trie L seqs).
Proof.
  unfold build_analysis_trie.
  rewrite length_app. cbn [length]. rewrite Nat.add_1_r, seq_S. cbn [Nat.add].
  rewrite combine_snoc by now rewrite length_seq.
  rewrite fold_left_app. reflexivity.
Qed.

Lemma indices_of_snoc (L : Z) (seqs : list (list Z)) (t p : list Z) :
  indices_of L (seqs ++ [t]) (S (length seqs)) p =
  indices_of L seqs (length seqs) p ++ if candb L t p then [length seqs] else [].
Proof.
  unfold indices_of. rewrite seq_S, filter_app. cbn [Nat.add filter].
  rewrite app_nth2, Nat.sub_diag by lia. cbn [nth]. f_equal.
  apply filter_ext_in. intros i Hi. apply in_seq in Hi.
  now rewrite app_nth1 by lia.
Qed.

(** The dictionary maps every candidate prefix to the indices of the
    sequences that start with it, and holds nothing else. *)
Lemma build_analysis_trie_get (L : Z) (seqs : list (list Z)) :
  1 <= L ->
  NoDup (map fst (build_analysis_trie L seqs)) /\
  forall p,
    pydict.get tokens_eqb (build_analysis_trie L seqs) p =
    match indices_of L seqs (length seqs) p with
    | [] => None
    | i :: r => Some (i :: r)
    end.
Proof.
  intros HL. induction seqs as [|t seqs IH] using rev_ind.
  { split; [constructor|reflexivity]. }
  destruct IH as [ND G]. rewrite build_analysis_trie_snoc.
  destruct (inner_loop_get (length seqs) t (range_down (len t) (L - 1))
              (build_analysis_trie L seqs)) as [ND' G'].
  - intros z Hz. apply range_down_In in Hz. lia.
  - apply range_down_NoDup.
  - exact ND.
  - split; [exact ND'|]. intros p. cbv zeta in G'. rewrite G'.
    rewrite length_app. cbn [length]. rewrite Nat.add_1_r, indices_of_snoc.
    rewrite (slices_candb L t p HL). unfold get_or_nil. rewrite G.
    destruct (candb L t p); destruct (indices_of L seqs (length seqs) p);
      cbn [app]; try reflexivity. now rewrite app_nil_r.
Qed.

(** ** The order in which the candidates are taken *)

Lemma insert_by_len_perm (x : list Z) (l : list (list Z)) :
  Permutation (x :: l) (insert_by_len x l).
Proof.
  induction l as [|y r IH]; cbn [insert_by_len]; [reflexivity|].
  destruct (len y <? len x); [reflexivity|].
  rewrite perm_swap. now constructor.
Qed.

Lemma insert_by_len_sorted (x : list Z) (l : list (list Z)) :
  StronglySorted longer_first l -> StronglySorted longer_first (insert_by_len x l).
Proof.
  induction l as [|y r IH]; intros S; cbn [insert_by_len].
  { repeat constructor. }
  inversion S as [|? ? Sr Fy]; subst.
  destruct (Z.ltb_spec (len y) (len x)) as [Lt|Ge].
  - constructor; [exact S|]. unfold len in Lt.
    constructor; [unfold longer_first; lia|].
    eapply Forall_impl; [|exact Fy]. unfold longer_first. intros z Hz. lia.
  - constructor; [now apply IH|].
    eapply Permutation_Forall; [apply insert_by_len_perm|].
    constructor; [unfold longer_first, len in *; lia|exact Fy].
Qed.

Lemma sorted_by_len_desc_spec (l : list (list Z)) :
  Permutation l (sorted_by_len_desc l) /\
  StronglySorted longer_first (sorted_by_len_desc l).
Proof.
  unfold sorted_by_len_desc.
  assert (H : forall acc,
             StronglySorted longer_first acc ->
             Permutation (l ++ acc) (fold_left (fun a x => insert_by_len x a) l acc) /\
             StronglySorted longer_first
               (fold_left (fun a x => insert_by_len x a) l acc)).
  { induction l as [|x r IH]; intros acc Sa; cbn [fold_left app]; [split; auto|].
    destruct (IH (insert_by_len x acc) (insert_by_len_sorted _ _ Sa)) as [P S'].
    split; [|exact S']. rewrite <- P. rewrite <- insert_by_len_perm.
    apply Permutation_middle. }
  destruct (H [] (SSorted_nil _)) as [P S']. now rewrite app_nil_r in P.
Qed.

Lemma sorted_app_before (l1 : list (list Z)) (x : list Z) (l2 : list (list Z)) :
  StronglySorted longer_first (l1 ++ x :: l2) ->
  forall y, In y l1 -> longer_first y x.
Proof.
  induction l1 as [|a l1 IH]; cbn [app]; intros S y Hy; [contradiction|].
  inversion S as [|? ? S' F]; subst. destruct Hy as [->|Hy]; [|now apply IH].
  rewrite Forall_forall in F. apply F. apply in_or_app. right. now left.
Qed.

(** ** The greedy pass *)

Section Pass.
Variable L : Z.
Variable seqs : list (list Z).
Hypothesis HL : 1 <= L.

#[local] Abbreviation table := (build_analysis_trie L seqs).
#[local] Abbreviation ix p := (indices_of L seqs (length seqs) p).
#[local] Abbreviation unassigned a p := (batch_spec.unassigned L seqs a p).
#[local] Abbreviation pass_inv t a := (batch_spec.pass_inv L seqs t a).

Lemma ix_In (p : list Z) (i : nat) :
  In i (ix p) <->
  (i < length seqs)%nat /\ L <= len p /\ (length p <= length (nth i seqs []))%nat /\
  firstn (length p) (nth i seqs []) = p.
Proof.
  unfold ix, indices_of. rewrite filter_In, in_seq, candb_iff. split.
  - intros [H1 H2]. split; [lia|exact H2].
  - intros [H1 H2]. split; [lia|exact H2].
Qed.

Lemma ix_NoDup (p : list Z) : NoDup (ix p).
Proof. apply NoDup_filter, seq_NoDup. Qed.

Lemma ix_same_length (p q : list Z) (i : nat) :
  In i (ix p) -> In i (ix q) -> len p = len q -> p = q.
Proof.
  rewrite !ix_In. intros (_ & _ & _ & E1) (_ & _ & _ & E2) El.
  unfold len in El. apply Nat2Z.inj in El. congruence.
Qed.

Lemma table_get (p : list Z) :
  In p (map fst table) -> pydict.get tokens_eqb table p = Some (ix p) /\ ix p <> [].
Proof.
  intros Hin. destruct (build_analysis_trie_get L seqs HL) as [_ G].
  specialize (G p). fold table in G. fold (ix p) in G.
  destruct (ix p) as [|i r] eqn:E.
  - apply (pydict_facts.get_None_not_In tokens_eqb tokens_eqb_eq) in G. contradiction.
  - split; [exact G|discriminate].
Qed.

Lemma table_keys (p : list Z) : In p (map fst table) <-> ix p <> [].
Proof.
  split; [intros H; now apply table_get|].
  intros Ne. destruct (build_analysis_trie_get L seqs HL) as [_ G].
  specialize (G p). fold table in G. fold (ix p) in G.
  destruct (in_dec (list_eq_dec Z.eq_dec) p (map fst table)) as [|N]; [assumption|].
  apply (pydict_facts.get_None_not_In tokens_eqb tokens_eqb_eq) in N.
  fold table in N. rewrite N in G. destruct (ix p); [congruence|discriminate].
Qed.

Lemma unassigned_In (assigned : list (nat * Z)) (p : list Z) (i : nat) :
  In i (unassigned assigned p) <->
  In i (ix p) /\ pydict.get Nat.eqb assigned i = None.
Proof.
  unfold unassigned, pydict.contains. rewrite filter_In.
  destruct (pydict.get Nat.eqb assigned i); cbn; split; intros [H1 H2];
    split; auto; discriminate.
Qed.

Lemma assign_all_get (v : Z) (U : list nat) :
  forall (assigned : list (nat * Z)) (i : nat),
    pydict.get Nat.eqb
      (fold_left (fun a j => pydict.set Nat.eqb a j v) U assigned) i =
    if in_dec Nat.eq_dec i U then Some v else pydict.get Nat.eqb assigned i.
Proof.
  induction U as [|u U IH]; intros assigned i; cbn [fold_left]; [reflexivity|].
  rewrite IH. destruct (in_dec Nat.eq_dec i U) as [Hin|Hn];
    destruct (in_dec Nat.eq_dec i (u :: U)) as [Hin'|Hn']; try reflexivity.
  - exfalso. apply Hn'. now right.
  - destruct Hin' as [->|]; [|contradiction].
    apply (pydict_facts.get_set_same Nat.eqb Neqb_eq).
  - apply (pydict_facts.get_set_other Nat.eqb Neqb_eq). intros ->. apply Hn'. now left.
Qed.

(** what one step of the pass does to [assigned] *)
Lemma group_step_assigned (groups : list (string * list nat))
  (assigned : list (nat * Z)) (p : list Z) :
  In p (map fst table) ->
  snd (group_step table (groups, assigned) p) =
  if (2 <=? len (unassigned assigned p))
  then fold_left (fun a j => pydict.set Nat.eqb a j (len p))
                 (unassigned assigned p) assigned
  else assigned.
Proof.
  intros Hin. destruct (table_get p Hin) as [G _]. unfold group_step. rewrite G.
  fold (unassigned assigned p).
  assert (Hle : len (unassigned assigned p) <= len (ix p)).
  { unfold len, unassigned. pose proof (filter_length_le
      (fun i => negb (pydict.contains Nat.eqb assigned i)) (ix p)). lia. }
  destruct (Z.ltb_spec (len (ix p)) 2);
    destruct (Z.ltb_spec (len (unassigned assigned p)) 2);
    destruct (Z.leb_spec 2 (len (unassigned assigned p))); try reflexivity; lia.
Qed.

Lemma two_distinct (U : list nat) (i : nat) :
  NoDup U -> 2 <= len U -> exists j, In j U /\ j <> i.
Proof.
  intros ND H. destruct U as [|a [|b U]]; cbn in H; try lia.
  inversion ND as [|? ? Hn _]; subst.
  destruct (Nat.eq_dec a i) as [->|Na].
  - exists b. split; [right; now left|]. intros ->. apply Hn. now left.
  - exists a. split; [now left|exact Na].
Qed.

Lemma at_most_one (U : list nat) (i j : nat) :
  NoDup U -> len U < 2 -> In i U -> In j U -> j = i.
Proof.
  intros ND H Hi Hj. destruct U as [|a [|b U]]; cbn in H; try lia.
  - contradiction.
  - destruct Hi as [<-|[]], Hj as [<-|[]]. reflexivity.
Qed.

Lemma pass_step (taken : list (list Z)) (p : list Z) (todo : list (list Z))
  (groups : list (string * list nat)) (assigned : list (nat * Z)) :
  NoDup (taken ++ p :: todo) ->
  StronglySorted longer_first (taken ++ p :: todo) ->
  In p (map fst table) ->
  pass_inv taken assigned ->
  pass_inv (taken ++ [p]) (snd (group_step table (groups, assigned) p)).
Proof.
  intros ND Sd Hin [I1 I2].
  assert (Bound : forall i v, pydict.get Nat.eqb assigned i = Some v -> len p <= v).
  { intros i v Gi. destruct (I1 _ _ Gi) as (q & j & Hq & -> & _).
    pose proof (sorted_app_before _ _ _ Sd q Hq) as Hl.
    unfold longer_first, len in *. lia. }
  assert (Fresh : ~ In p taken).
  { apply NoDup_remove_2 in ND. intros H. apply ND. apply in_or_app. now left. }
  assert (Strict : forall i v, In i (ix p) ->
                               pydict.get Nat.eqb assigned i = Some v -> len p < v).
  { intros i v Hi Gi. pose proof (Bound _ _ Gi) as Hb.
    destruct (Z.eq_dec v (len p)) as [E|]; [|lia].
    destruct (I1 _ _ Gi) as (q & j & Hq & Ev & Hiq & _).
    exfalso. apply Fresh. rewrite (ix_same_length p q i Hi Hiq) by congruence.
    exact Hq. }
  pose proof (NoDup_filter (fun i => negb (pydict.contains Nat.eqb assigned i))
                (ix_NoDup p)) as NDu. fold (unassigned assigned p) in NDu.
  rewrite (group_step_assigned _ _ _ Hin).
  destruct (Z.leb_spec 2 (len (unassigned assigned p))) as [Two|One].
  - (* the prefix opens a group *)
    split.
    + intros i v. rewrite assign_all_get.
      destruct (in_dec Nat.eq_dec i (unassigned assigned p)) as [Hi|Hi].
      * intros [= <-]. destruct (two_distinct _ i NDu Two) as (j & Hj & Nj).
        exists p, j. split; [apply in_or_app; right; now left|].
        split; [reflexivity|].
        apply unassigned_In in Hi. apply unassigned_In in Hj.
        split; [tauto|]. split; [tauto|]. split; [exact Nj|].
        rewrite assign_all_get.
        destruct (in_dec Nat.eq_dec j (unassigned assigned p)) as [|N]; [reflexivity|].
        exfalso. apply N. now apply unassigned_In.
      * intros Gi. destruct (I1 _ _ Gi) as (q & j & Hq & Ev & Hiq & Hjq & Nj & Gj).
        exists q, j. split; [apply in_or_app; now left|].
        repeat (split; [assumption|]). rewrite assign_all_get.
        destruct (in_dec Nat.eq_dec j (unassigned assigned p)) as [Hj|]; [|exact Gj].
        apply unassigned_In in Hj. destruct Hj as [_ Hj]. congruence.
    + intros q i j Hq Hi Hj Nj Low.
      apply in_app_or in Hq. destruct Hq as [Hq|[<-|[]]].
      * assert (Low' : forall v, pydict.get Nat.eqb assigned i = Some v -> v < len q).
        { intros v Gi. apply Low. rewrite assign_all_get.
          destruct (in_dec Nat.eq_dec i (unassigned assigned p)) as [Hu|]; [|exact Gi].
          apply unassigned_In in Hu. destruct Hu as [_ Hu]. congruence. }
        destruct (I2 q i j Hq Hi Hj Nj Low') as (v & Gj & Hv).
        exists v. split; [|exact Hv]. rewrite assign_all_get.
        destruct (in_dec Nat.eq_dec j (unassigned assigned p)) as [Hu|]; [|exact Gj].
        apply unassigned_In in Hu. destruct Hu as [_ Hu]. congruence.
      * exfalso.
        destruct (pydict.get Nat.eqb assigned i) as [v|] eqn:Gi.
        -- pose proof (Strict _ _ Hi Gi) as Hs.
           assert (Hv : v < len p); [|lia].
           apply Low. rewrite assign_all_get.
           destruct (in_dec Nat.eq_dec i (unassigned assigned p)) as [Hu|]; [|exact Gi].
           apply unassigned_In in Hu. destruct Hu as [_ Hu]. congruence.
        -- assert (Hv : len p < len p); [|lia].
           apply Low. rewrite assign_all_get.
           destruct (in_dec Nat.eq_dec i (unassigned assigned p)) as [|N]; [reflexivity|].
           exfalso. apply N. now apply unassigned_In.
  - (* the prefix is passed over *)
    split.
    + intros i v Gi. destruct (I1 _ _ Gi) as (q & j & Hq & Rest).
      exists q, j. split; [apply in_or_app; now left|exact Rest].
    + intros q i j Hq Hi Hj Nj Low.
      apply in_app_or in Hq. destruct Hq as [Hq|[<-|[]]]; [now apply (I2 q i j)|].
      assert (Ui : In i (unassigned assigned p)).
      { apply unassigned_In. split; [exact Hi|].
        destruct (pydict.get Nat.eqb assigned i) as [v|] eqn:Gi; [|reflexivity].
        pose proof (Low _ eq_refl). pose proof (Bound _ _ Gi). lia. }
      destruct (pydict.get Nat.eqb assigned j) as [v|] eqn:Gj.
      * exists v. split; [reflexivity|]. now apply (Strict j).
      * exfalso. apply Nj. apply (at_most_one _ i j NDu One Ui).
        now apply unassigned_In.
Qed.

Lemma pass_fold (todo : list (list Z)) :
  forall (taken : list (list Z)) (st : list (string * list nat) * list (nat * Z)),
    NoDup (taken ++ todo) ->
    StronglySorted longer_first (taken ++ todo) ->
    (forall q, In q todo -> In q (map fst table)) ->
    pass_inv taken (snd st) ->
    pass_inv (taken ++ todo) (snd (fold_left (group_step table) todo st)).
Proof.
  induction todo as [|p todo IH]; intros taken [groups assigned] ND Sd Hk I;
    cbn [fold_left].
  { now rewrite app_nil_r. }
  replace (taken ++ p :: todo) with ((taken ++ [p]) ++ todo) in *
    by (rewrite <- app_assoc; reflexivity).
  apply IH; auto.
  - intros q Hq. apply Hk. now right.
  - apply (pass_step taken p todo).
    + now rewrite <- app_assoc in ND.
    + now rewrite <- app_assoc in Sd.
    + apply Hk. now left.
    + exact I.
Qed.

Lemma pass_final : pass_inv (sorted_prefixes L seqs) (snd (batch_state L seqs)).
Proof.
  unfold sorted_prefixes, batch_state. fold table.
  destruct (sorted_by_len_desc_spec (map fst table)) as [P Sd].
  apply (pass_fold _ [] ([], [])); cbn [app snd].
  - eapply Permutation_NoDup; [exact P|].
    apply (build_analysis_trie_get L seqs HL).
  - exact Sd.
  - intros q Hq. eapply Permutation_in; [symmetry; exact P|exact Hq].
  - split; [discriminate|contradiction].
Qed.

End Pass.

(** ** The report *)

Lemma py_sum_fold_right (l : list Z) : py_sum l = fold_right Z.add 0 l.
Proof.
  unfold py_sum. apply fold_symmetric; intros; lia.
Qed.

Lemma py_max_fold_right (x : Z) (xs : list Z) : py_max x xs = fold_right Z.max x xs.
Proof.
  unfold py_max. apply fold_symmetric; intros; lia.
Qed.

Lemma subtract_groups (assigned : list (nat * Z)) (groups : list (string * list nat)) :
  forall savings,
    fold_left (subtract_group assigned) (map snd groups) savings =
    savings - sum_group_max assigned groups.
Proof.
  induction groups as [|[k g] r IH]; intros savings;
    cbn [map snd fold_left sum_group_max fold_right]; [lia|].
  rewrite IH. fold (sum_group_max assigned r).
  destruct g as [|i g]; cbn [subtract_group group_max]; [lia|].
  rewrite py_max_fold_right. lia.
Qed.

Lemma analyze_batch_unfold (self : CacheManager) (seqs : list (list Z)) :
  analyze_batch self seqs =
  (models.mkBatchAnalysis
     (len seqs)
     (len (fst (batch_state (models.min_prefix_length (config self)) seqs)))
     (fst (batch_state (models.min_prefix_length (config self)) seqs))
     (Z.max 0
        (sum_assigned (snd (batch_state (models.min_prefix_length (config self)) seqs))
                      (length seqs)
         - sum_group_max
             (snd (batch_state (models.min_prefix_length (config self)) seqs))
             (fst (batch_state (models.min_prefix_length (config self)) seqs))))
     (fold_right Z.add 0 (map len seqs)),
   self).
Proof.
  destruct seqs as [|s0 seqs]; [reflexivity|].
  unfold analyze_batch, batch_state.
  destruct (fold_left _ _ ([], [])) as [groups assigned]. cbn [fst snd].
  rewrite subtract_groups, !py_sum_fold_right. reflexivity.
Qed.

(** C9. [analyze_batch] takes the candidate prefixes (every prefix of length
    at least [min_prefix_length] of every sequence) in order of decreasing
    length and assigns an index to the prefix of length [l] exactly when that
    prefix is shared with another index and neither of them is assigned to a
    longer prefix. It reports as [potential_savings_tokens] the sum of the
    assigned lengths minus the maximum assigned length of every group,
    clamped at zero. The report depends on the batch and on
    [min_prefix_length] only, and the manager is left as it was. *)
Theorem analyze_batch_spec (self : CacheManager) (seqs : list (list Z)) :
  valid_config (config self) ->
  let L := models.min_prefix_length (config self) in
  let r := fst (analyze_batch self seqs) in
  let groups := fst (batch_state L seqs) in
  let assigned := snd (batch_state L seqs) in
  (forall i l,
      (i < length seqs)%nat ->
      (pydict.get Nat.eqb assigned i = Some (Z.of_nat l) <->
       grouped_at L seqs assigned l i)) /\
  (forall i v,
      pydict.get Nat.eqb assigned i = Some v ->
      (i < length seqs)%nat /\ exists l, v = Z.of_nat l) /\
  StronglySorted longer_first (sorted_prefixes L seqs) /\
  (forall p,
      In p (sorted_prefixes L seqs) <->
      exists i, (i < length seqs)%nat /\ L <= len p /\
                (length p <= length (nth i seqs []))%nat /\
                firstn (length p) (nth i seqs []) = p) /\
  models.shared_prefix_groups r = groups /\
  models.potential_savings_tokens r
    = Z.max 0 (sum_assigned assigned (length seqs) - sum_group_max assigned groups) /\
  models.batch_size r = len seqs /\
  snd (analyze_batch self seqs) = self /\
  (forall self',
      models.min_prefix_length (config self') = L ->
      fst (analyze_batch self' seqs) = r).
Proof.
  intros V L r groups assigned.
  destruct (cache_facts.valid_config_fields _ V) as (_ & _ & _ & HL). fold L in HL.
  destruct (pass_final L seqs HL) as [I1 I2]. fold assigned in I1, I2.
  destruct (sorted_by_len_desc_spec (map fst (build_analysis_trie L seqs))) as [P Sd].
  fold (sorted_prefixes L seqs) in P, Sd.
  assert (Keys : forall p,
             In p (sorted_prefixes L seqs) <->
             exists i, In i (indices_of L seqs (length seqs) p)).
  { intros p. split.
    - intros Hp. apply (Permutation_in _ (Permutation_sym P)) in Hp.
      apply (table_get L seqs HL) in Hp. destruct Hp as [_ Ne].
      destruct (indices_of L seqs (length seqs) p) as [|i x]; [congruence|].
      exists i. now left.
    - intros [i Hi]. apply (Permutation_in _ P). apply (table_keys L seqs HL).
      intros E. rewrite E in Hi. contradiction. }
  split; [|split; [|split; [exact Sd|split]]].
  - intros i l Hi. split.
    + intros Gi. destruct (I1 _ _ Gi) as (p & j & Hp & Ev & Hip & Hjp & Nj & Gj).
      apply (ix_In L seqs) in Hip, Hjp.
      destruct Hip as (_ & A1 & A2 & A3), Hjp as (B0 & B1 & B2 & B3).
      unfold len in Ev. apply Nat2Z.inj in Ev. subst l.
      split; [split; assumption|]. split; [intros v Gv; rewrite Gi in Gv; injection Gv; lia|].
      exists j. repeat split; auto; try congruence.
      intros v Gv. rewrite Gj in Gv. injection Gv. lia.
    + intros ([C1 C2] & Fi & j & Hj & Nj & [D1 D2] & Ej & Fj).
      set (p := firstn l (nth i seqs [])).
      assert (Lp : length p = l) by (unfold p; rewrite length_firstn; lia).
      assert (Hip : In i (indices_of L seqs (length seqs) p)).
      { apply (ix_In L seqs). unfold len. rewrite Lp. repeat split; auto. }
      assert (Hjp : In j (indices_of L seqs (length seqs) p)).
      { apply (ix_In L seqs). unfold len. rewrite Lp. repeat split; auto. }
      assert (Hp : In p (sorted_prefixes L seqs)) by (apply Keys; eauto).
      destruct (pydict.get Nat.eqb assigned i) as [v|] eqn:Gi.
      * destruct (Z.eq_dec v (Z.of_nat l)) as [->|Nv]; [reflexivity|exfalso].
        destruct (I2 p i j Hp Hip Hjp Nj) as (w & Gw & Hw).
        -- intros v' Gv'. rewrite Gi in Gv'. injection Gv' as <-.
           pose proof (Fi _ Gi). unfold len. lia.
        -- pose proof (Fj _ Gw). unfold len in Hw. lia.
      * exfalso. destruct (I2 p i j Hp Hip Hjp Nj) as (w & Gw & Hw).
        -- intros v' Gv'. rewrite Gi in Gv'. discriminate.
        -- pose proof (Fj _ Gw). unfold len in Hw. lia.
  - intros i v Gi. destruct (I1 _ _ Gi) as (p & j & _ & Ev & Hip & _).
    apply (ix_In L seqs) in Hip. split; [tauto|]. exists (length p). exact Ev.
  - intros p. rewrite Keys. split; intros [i Hi]; exists i; now apply (ix_In L seqs).
  - unfold r. rewrite analyze_batch_unfold. cbn [fst snd models.shared_prefix_groups
      models.potential_savings_tokens models.batch_size].
    repeat split. intros self' E. rewrite analyze_batch_unfold, E. reflexivity.
Qed.

Lemma analyze_batch_spec_witness :
  let self := CacheManager_new (Some sample_config) in
  let assigned := snd (batch_state 2 sample_batch) in
  (pydict.get Nat.eqb assigned 0%nat = Some 4 <->
   grouped_at 2 sample_batch assigned 4 0) /\
  models.potential_savings_tokens (fst (analyze_batch self sample_batch)) = 4 /\
  snd (analyze_batch self sample_batch) = self.
Proof.
  destruct (analyze_batch_spec (CacheManager_new (Some sample_config))
              sample_batch)
    as (H1 & _ & _ & _ & _ & _ & _ & H8 & _); [reflexivity|].
  split; [apply (H1 0%nat 4%nat); cbn; lia|].
  split; [vm_compute; reflexivity|exact H8].
Defined.

End batch_facts.

(* ===================================================================== *)
(** * The prefix index: entries, depths and idempotence                *)
(* ===================================================================== *)

Module trie_props.
Import trie trie_spec trie_facts.

Lemma is_prefix_firstn (p s : list Z) :
  is_prefix p s <-> (length p <= length s)%nat /\ firstn (length p) s = p.
Proof.
  split.
  - intros [r ->]. rewrite length_app. split; [lia|].
    rewrite firstn_app, Nat.sub_diag, firstn_all. cbn. apply app_nil_r.
  - intros [_ E]. exists (skipn (length p) s). rewrite <- E at 1.
    symmetry. apply firstn_skipn.
Qed.

(** The search on a well-formed index. *)
Lemma longest_stored_prefix (t : RadixTrie) (s : list Z) :
  wf t ->
  let n := fst (find_longest_prefix t s) in
  match snd (find_longest_prefix t s) with
  | Some k =>
      1 <= n <= len s /\ stored t (firstn (Z.to_nat n) s) k /\
      forall p k', is_prefix p s -> stored t p k' -> len p <= n
  | None =>
      n = 0 /\ forall p k', is_prefix p s -> ~ stored t p k'
  end.
Proof.
  intros W.
  rewrite (find_longest_prefix_best _ _ W).
  pose proof (best_prefix_spec (root t) s (length s)) as B.
  destruct (best_prefix (root t) s (length s)) as [[j k]|]; cbn [fst snd].
  - destruct B as (Hj & Hm & Hmax). unfold len.
    split; [lia|]. rewrite Nat2Z.id. split.
    + apply (stored_marker _ _ _ W). split; [|exact Hm].
      intros E. apply (f_equal (@length Z)) in E.
      rewrite length_firstn in E. cbn in E. lia.
    + intros p k' Hp Hs. apply (stored_marker _ _ _ W) in Hs.
      destruct Hs as [_ Hs].
      apply is_prefix_firstn in Hp. destruct Hp as [Hl Hp].
      destruct (Nat.le_gt_cases (length p) j) as [|Gt]; [lia|].
      rewrite <- Hp in Hs. rewrite Hmax in Hs by lia. discriminate.
  - split; [reflexivity|]. intros p k' Hp Hs.
    apply (stored_marker _ _ _ W) in Hs. destruct Hs as [Hne Hs].
    apply is_prefix_firstn in Hp. destruct Hp as [Hl Hp].
    assert (1 <= length p)%nat by (destruct p; [congruence|cbn; lia]).
    rewrite <- Hp in Hs. rewrite B in Hs by lia. discriminate.
Qed.

(** A stored sequence is found in full. *)
Lemma find_stored (t : RadixTrie) (s : list Z) (k : string) :
  wf t -> stored t s k -> find_longest_prefix t s = (len s, Some k).
Proof.
  intros W St. rewrite (find_longest_prefix_best _ _ W).
  apply (stored_marker _ _ _ W) in St. destruct St as [Hne Hm].
  destruct s as [|f r]; [congruence|].
  cbn [length best_prefix]. rewrite firstn_all2 by (cbn; lia).
  rewrite Hm. reflexivity.
Qed.

(** X2. In every index built by [insert] and [remove] from [RadixTrie()],
    [find_longest_prefix(s)] returns the longest stored prefix of [s]. When
    it reports a key [k] with the length [n], then [1 <= n <= len(s)], the
    prefix [s[:n]] is stored under [k] and no stored prefix of [s] is longer
    than [n]. When it reports no key, the length is 0 and no prefix of [s]
    is stored. *)
Theorem find_longest_prefix_longest (t : RadixTrie) (s : list Z) :
  reachable t ->
  let n := fst (find_longest_prefix t s) in
  match snd (find_longest_prefix t s) with
  | Some k =>
      1 <= n <= len s /\ stored t (firstn (Z.to_nat n) s) k /\
      forall p k', is_prefix p s -> stored t p k' -> len p <= n
  | None =>
      n = 0 /\ forall p k', is_prefix p s -> ~ stored t p k'
  end.
Proof. intros R. apply longest_stored_prefix. now apply reachable_wf. Qed.

Lemma find_longest_prefix_longest_witness :
  1 <= 3 <= len [1; 2; 3; 7] /\ stored sample_index [1; 2; 3] "a" /\
  forall p k', is_prefix p [1; 2; 3; 7] -> stored sample_index p k' -> len p <= 3.
Proof.
  exact (find_longest_prefix_longest sample_index [1; 2; 3; 7]
           sample_index_reachable).
Defined.

(** ** The entries listed by [get_all_entries] *)

Lemma collect_entries_path (node : TrieNode) :
  wf_node node ->
  forall (prefix p : list Z),
    In p (map fst (_collect_entries node prefix)) ->
    exists q, p = prefix ++ tokens node ++ q.
Proof.
  intros W prefix p Hin. apply in_map_iff in Hin.
  destruct Hin as [[p' k] [E Hin]]. cbn in E. subst p'.
  apply (collect_entries_marker _ W) in Hin.
  destruct Hin as (q & E & _). eauto.
Qed.

Lemma collect_entries_NoDup (node : TrieNode) :
  wf_node node -> forall prefix, NoDup (map fst (_collect_entries node prefix)).
Proof.
  induction node as [toks ch ck d IH] using TrieNode_ind.
  intros W prefix. rewrite collect_entries_eq, map_app.
  cbn [cache_key children tokens].
  inversion W as [n ND F]; subst. cbn [children] in ND, F.
  assert (Hch :
    NoDup (map fst (flat_map (fun kc => _collect_entries (snd kc) (prefix ++ toks)) ch)) /\
    forall p, In p (map fst (flat_map (fun kc => _collect_entries (snd kc) (prefix ++ toks)) ch)) ->
              exists g q, In g (map fst ch) /\ p = (prefix ++ toks) ++ g :: q).
  { clear W. induction ch as [|[g c] r IHr]; cbn [flat_map map].
    - split; [constructor|]. intros p [].
    - inversion IH as [|? ? Hc Hr]; subst.
      inversion F as [|? ? [Hd Wc] Fr]; subst.
      inversion ND as [|? ? Hni NDr]; subst.
      cbn [fst snd] in *.
      destruct (IHr Hr NDr Fr) as [NDrest Hrest].
      assert (Hhead : forall p,
                 In p (map fst (_collect_entries c (prefix ++ toks))) ->
                 exists q, p = (prefix ++ toks) ++ g :: q).
      { intros p Hp. destruct (collect_entries_path _ Wc _ _ Hp) as [q ->].
        destruct (tokens c) as [|g0 e0]; [discriminate|].
        injection Hd as ->. exists (e0 ++ q). reflexivity. }
      rewrite map_app. split.
      + apply NoDup_app; [now apply Hc|exact NDrest|].
        intros p Hp Hp'. destruct (Hhead _ Hp) as [q ->].
        destruct (Hrest _ Hp') as (g' & q' & Hg' & E).
        apply app_inv_head in E. injection E as -> _. contradiction.
      + intros p Hp. apply in_app_iff in Hp. destruct Hp as [Hp|Hp].
        * destruct (Hhead _ Hp) as [q ->]. exists g, q. split; [now left|reflexivity].
        * destruct (Hrest _ Hp) as (g' & q' & Hg' & ->).
          exists g', q'. split; [now right|reflexivity]. }
  destruct Hch as [NDch Hpaths].
  apply NoDup_app; [|exact NDch|].
  - destruct ck; cbn; repeat constructor. intros [].
  - intros p Hp Hp'. destruct ck as [k|]; [|contradiction].
    destruct Hp as [<-|[]]. cbn [fst] in Hp'.
    destruct (Hpaths _ Hp') as (g & q & _ & E).
    rewrite <- (app_nil_r (prefix ++ toks)) in E at 1.
    apply app_inv_head in E. discriminate.
Qed.

Lemma entries_of_wf (t : RadixTrie) :
  wf t ->
  size t = len (get_all_entries t) /\
  NoDup (map fst (get_all_entries t)) /\
  (forall p k, stored t p k -> p <> []) /\
  (forall p k k', stored t p k -> stored t p k' -> k = k').
Proof.
  intros W.
  destruct W as (Ht & Hk & Hw & Hs). refine (conj _ (conj _ (conj _ _))).
  - unfold size, get_all_entries. rewrite Hs. symmetry.
    apply collect_entries_length.
  - apply collect_entries_NoDup. exact Hw.
  - intros p k H.
    apply (stored_marker t p k (conj Ht (conj Hk (conj Hw Hs)))) in H. tauto.
  - intros p k k' H H'.
    apply (stored_marker t p _ (conj Ht (conj Hk (conj Hw Hs)))) in H, H'.
    destruct H as [_ H], H' as [_ H']. congruence.
Qed.

(** X3. In every index built by [insert] and [remove], [size] is the number
    of entries that [get_all_entries] lists; the listed sequences are
    pairwise distinct and not empty, and a sequence is stored under at most
    one key. *)
Theorem size_counts_entries (t : RadixTrie) :
  reachable t ->
  size t = len (get_all_entries t) /\
  NoDup (map fst (get_all_entries t)) /\
  (forall p k, stored t p k -> p <> []) /\
  (forall p k k', stored t p k -> stored t p k' -> k = k').
Proof. intros R. apply entries_of_wf. now apply reachable_wf. Qed.

Lemma size_counts_entries_witness :
  size sample_index = len (get_all_entries sample_index) /\
  NoDup (map fst (get_all_entries sample_index)) /\
  (forall p k, stored sample_index p k -> p <> []) /\
  (forall p k k', stored sample_index p k -> stored sample_index p k' -> k = k').
Proof. exact (size_counts_entries sample_index sample_index_reachable). Defined.

Lemma size_insert (t : RadixTrie) (s : list Z) (k : string) :
  wf t -> s <> [] ->
  size (insert t s k) =
  size t + match marker (root t) s with None => 1 | Some _ => 0 end.
Proof.
  intros W Hs. pose proof (wf_insert t s k W) as (_ & _ & _ & E).
  unfold size. rewrite E, (count_insert _ _ _ W Hs).
  destruct W as (_ & _ & _ & E'). now rewrite E'.
Qed.

(** X4. [insert(s, k)] with [s] not empty makes [(s, k)] an entry, replacing
    the key of [s] if [s] was stored, and leaves every other entry as it
    was. [size] is unchanged when [s] was stored already and grows by one
    otherwise. *)
Theorem insert_entries (t : RadixTrie) (s : list Z) (k : string) :
  reachable t -> s <> [] ->
  (forall p k', stored (insert t s k) p k' <->
                (p = s /\ k' = k) \/ (p <> s /\ stored t p k')) /\
  ((exists k0, stored t s k0) -> size (insert t s k) = size t) /\
  ((forall k0, ~ stored t s k0) -> size (insert t s k) = size t + 1).
Proof.
  intros R Hs. pose proof (reachable_wf _ R) as W.
  pose proof (wf_insert t s k W) as W'.
  refine (conj _ (conj _ _)).
  - intros p k'. rewrite (stored_marker _ _ _ W'), (stored_marker _ _ _ W).
    rewrite (marker_insert _ _ _ _ W Hs).
    destruct (list_eq_dec Z.eq_dec p s) as [->|N].
    + split.
      * intros [_ [= <-]]. now left.
      * intros [[_ ->]|[N _]]; [now split|congruence].
    + split.
      * intros [Hp Hm]. right. now repeat split.
      * intros [[-> _]|[_ H]]; [congruence|exact H].
  - intros [k0 H]. apply (stored_marker _ _ _ W) in H. destruct H as [_ H].
    rewrite (size_insert _ _ _ W Hs), H. lia.
  - intros H. rewrite (size_insert _ _ _ W Hs).
    destruct (marker (root t) s) as [k0|] eqn:M; [|reflexivity].
    exfalso. apply (H k0). apply (stored_marker _ _ _ W). now split.
Qed.

Lemma insert_entries_witness :
  (forall p k', stored (insert sample_index [1; 2] "c") p k' <->
                (p = [1; 2] /\ k' = "c"%string) \/
                (p <> [1; 2] /\ stored sample_index p k')) /\
  ((exists k0, stored sample_index [1; 2] k0) ->
   size (insert sample_index [1; 2] "c") = size sample_index) /\
  ((forall k0, ~ stored sample_index [1; 2] k0) ->
   size (insert sample_index [1; 2] "c") = size sample_index + 1).
Proof.
  apply (insert_entries sample_index [1; 2] "c" sample_index_reachable).
  discriminate.
Defined.

(** X5. [remove(s)] returns [True] exactly when [s] is stored, and then
    [size] goes down by one; when it returns [False] the index is unchanged;
    a second [remove(s)] returns [False]. *)
Theorem remove_reports_stored (t : RadixTrie) (s : list Z) :
  reachable t ->
  (fst (remove t s) = true <-> exists k, stored t s k) /\
  (fst (remove t s) = true -> size (snd (remove t s)) = size t - 1) /\
  (fst (remove t s) = false -> snd (remove t s) = t) /\
  fst (remove (snd (remove t s)) s) = false.
Proof.
  intros R. pose proof (reachable_wf _ R) as W.
  assert (Hiff : fst (remove t s) = true <-> exists k, stored t s k).
  { rewrite remove_result. destruct s as [|f r].
    - split; [discriminate|]. intros [k H].
      apply (stored_marker _ _ _ W) in H. now destruct H.
    - destruct (marker (root t) (f :: r)) as [k|] eqn:M.
      + split; [|reflexivity]. intros _. exists k.
        apply (stored_marker _ _ _ W). now split.
      + split; [discriminate|]. intros [k H].
        apply (stored_marker _ _ _ W) in H. destruct H. congruence. }
  refine (conj Hiff (conj _ (conj _ _))).
  - intros H. unfold remove in *. destruct s as [|f r]; [discriminate|].
    destruct (remove_loop (root t) (f :: r)); [reflexivity|discriminate].
  - apply remove_absent.
  - rewrite remove_result. destruct s as [|f r]; [reflexivity|].
    rewrite marker_remove by discriminate.
    destruct (list_eq_dec Z.eq_dec (f :: r) (f :: r)); [reflexivity|congruence].
Qed.

Lemma remove_reports_stored_witness :
  (fst (remove sample_index [1; 2; 3]) = true <->
   exists k, stored sample_index [1; 2; 3] k) /\
  (fst (remove sample_index [1; 2; 3]) = true ->
   size (snd (remove sample_index [1; 2; 3])) = size sample_index - 1) /\
  (fst (remove sample_index [1; 2; 3]) = false ->
   snd (remove sample_index [1; 2; 3]) = sample_index) /\
  fst (remove (snd (remove sample_index [1; 2; 3])) [1; 2; 3]) = false.
Proof. exact (remove_reports_stored sample_index [1; 2; 3] sample_index_reachable). Defined.

(** ** The depth field *)

Lemma depths_set_child (above : Z) (node : TrieNode) (f : Z) (c : TrieNode) :
  depths_ok above node -> depths_ok (depth node) c ->
  depths_ok above (set_child node f c).
Proof.
  intros D Dc. inversion D as [a n Hd F]; subst.
  constructor; cbn [depth tokens children set_child]; [exact Hd|].
  apply Forall_set; assumption.
Qed.

Lemma depths_with_cache_key (above : Z) (node : TrieNode) (k : option string) :
  depths_ok above node -> depths_ok above (with_cache_key node k).
Proof. intros D. inversion D; subst. now constructor. Qed.

Lemma depths_leaf (above : Z) (toks : list Z) (k : option string) (d : Z) :
  d = above + len toks -> depths_ok above (mkTrieNode toks [] k d).
Proof. intros ->. constructor; cbn; [reflexivity|constructor]. Qed.

Lemma depths_insert_loop (node : TrieNode) :
  forall (above : Z) (rest : list Z) (total : Z) (key : string),
    depths_ok above node -> total = depth node + len rest ->
    depths_ok above (fst (insert_loop node rest total key)).
Proof.
  induction node as [toks ch ck d IH] using TrieNode_ind.
  intros above rest total key D Ht.
  destruct rest as [|f r].
  { cbn [insert_loop fst]. now apply depths_with_cache_key. }
  rewrite insert_loop_cons.
  destruct (pydict.get Z.eqb (children (mkTrieNode toks ch ck d)) f) as [child|] eqn:G.
  2:{ cbn [fst]. apply depths_set_child; [exact D|]. now apply depths_leaf. }
  pose proof (pydict_facts.get_In Z.eqb Zeqb_eq _ _ _ G) as Hin.
  cbn [children] in Hin.
  inversion D as [a n Hd F]; subst a n. cbn [depth tokens children] in Hd, F.
  assert (Dc : depths_ok d child).
  { rewrite Forall_forall in F. exact (F _ Hin). }
  assert (IHc := proj1 (Forall_forall _ _) IH _ Hin). cbn [snd] in IHc. clear IH.
  inversion Dc as [a n Hdc Fc]; subst a n.
  destruct (match_len_le (tokens child) (f :: r)) as [L1 L2].
  cbv zeta. cbn [depth] in Ht |- *.
  destruct (Nat.eqb (match_len (tokens child) (f :: r)) (length (tokens child))) eqn:Full.
  - apply Nat.eqb_eq in Full.
    specialize (IHc d (skipn (match_len (tokens child) (f :: r)) (f :: r)) total key Dc).
    destruct (insert_loop child _ total key) as [child' dl]. cbn [fst] in *.
    apply depths_set_child; [exact D|]. apply IHc.
    unfold len in *. rewrite length_skipn. lia.
  - cbn [fst].
    apply depths_set_child; [exact D|]. cbn [depth].
    set (c := match_len (tokens child) (f :: r)) in *.
    assert (D1 : depths_ok d
                   (set_child (mkTrieNode (firstn c (tokens child)) [] None (d + Z.of_nat c))
                      (hd 0 (tokens (with_tokens child (skipn c (tokens child)))))
                      (with_tokens child (skipn c (tokens child))))).
    { apply depths_set_child.
      - apply depths_leaf. unfold len. rewrite length_firstn. lia.
      - cbn [depth]. constructor; cbn [with_tokens depth tokens children].
        + unfold len in *. rewrite length_skipn. lia.
        + exact Fc. }
    destruct (skipn c (f :: r)) as [|r0 rem] eqn:Sk.
    + now apply depths_with_cache_key.
    + apply depths_set_child; [exact D1|]. cbn [depth set_child].
      apply depths_leaf. rewrite <- Sk. unfold len in *. rewrite length_skipn. lia.
Qed.

Lemma depths_remove_loop (node : TrieNode) :
  forall (above : Z) (rest : list Z) (node' : TrieNode),
    depths_ok above node -> remove_loop node rest = Some node' ->
    depths_ok above node' /\ depth node' = depth node /\ tokens node' = tokens node.
Proof.
  induction node as [toks ch ck d IH] using TrieNode_ind.
  intros above rest node' D Hr.
  destruct rest as [|f r].
  { cbn [remove_loop cache_key] in Hr. destruct ck; [|discriminate].
    injection Hr as <-. split; [now apply depths_with_cache_key|now split]. }
  rewrite remove_loop_cons in Hr.
  destruct (pydict.get Z.eqb (children (mkTrieNode toks ch ck d)) f) as [child|] eqn:G;
    [|discriminate].
  pose proof (pydict_facts.get_In Z.eqb Zeqb_eq _ _ _ G) as Hin.
  cbn [children] in Hin.
  inversion D as [a n Hd F]; subst a n. cbn [depth tokens children] in Hd, F.
  assert (Dc : depths_ok d child).
  { rewrite Forall_forall in F. exact (F _ Hin). }
  assert (IHc := proj1 (Forall_forall _ _) IH _ Hin). cbn [snd] in IHc. clear IH.
  destruct (strip (tokens child) (f :: r)) as [rest'|]; [|discriminate].
  destruct (remove_loop child rest') as [child'|] eqn:Rc; [|discriminate].
  injection Hr as <-.
  destruct (IHc _ _ _ Dc Rc) as (Dc' & _ & _).
  split; [|now split]. apply depths_set_child; assumption.
Qed.

(** X6. In every index built by [insert] and [remove], the [depth] field of
    every node is the number of tokens on the path from the root to the end
    of the node's edge label: the root has depth 0, and the depth of a child
    is the depth of its parent plus the length of its own label. *)
Theorem depth_is_path_length (t : RadixTrie) :
  reachable t -> depths_ok 0 (root t).
Proof.
  induction 1 as [|t s k R IH|t s R IH].
  - apply depths_leaf. reflexivity.
  - destruct s as [|f r]; [exact IH|]. unfold insert.
    pose proof (depths_insert_loop (root t) 0 (f :: r) (len (f :: r)) k IH) as D.
    destruct (insert_loop (root t) (f :: r) (len (f :: r)) k) as [root' dl].
    cbn [fst root] in *. apply D.
    inversion IH as [a n Hd _]; subst.
    destruct (reachable_wf _ R) as (Ht & _). rewrite Ht in Hd. cbn in Hd. lia.
  - destruct s as [|f r]; [exact IH|]. unfold remove.
    destruct (remove_loop (root t) (f :: r)) as [root'|] eqn:Rl; [|exact IH].
    cbn [snd root]. now destruct (depths_remove_loop _ _ _ _ IH Rl).
Qed.

Lemma depth_is_path_length_witness : depths_ok 0 (root sample_index).
Proof. exact (depth_is_path_length sample_index sample_index_reachable). Defined.

(** ** Rebuilding an index from its entries *)

Lemma best_prefix_ext (n1 n2 : TrieNode) (rest : list Z) (m : nat) :
  (forall q, marker n1 q = marker n2 q) ->
  best_prefix n1 rest m = best_prefix n2 rest m.
Proof.
  intros E. induction m as [|m IH]; [reflexivity|].
  cbn [best_prefix]. now rewrite E, IH.
Qed.

Lemma fold_insert_wf (l : list (list Z * string)) (t0 : RadixTrie) :
  wf t0 -> wf (fold_left (fun acc e => insert acc (fst e) (snd e)) l t0).
Proof.
  revert t0. induction l as [|[p k] l IH]; intros t0 W; [exact W|].
  cbn [fold_left fst snd]. apply IH. now apply wf_insert.
Qed.

Lemma fold_insert_marker (l : list (list Z * string)) :
  forall t0, wf t0 ->
    (forall p k, In (p, k) l -> p <> []) ->
    NoDup (map fst l) ->
    forall q,
      (forall k, In (q, k) l ->
         marker (root (fold_left (fun acc e => insert acc (fst e) (snd e)) l t0)) q = Some k) /\
      (~ In q (map fst l) ->
         marker (root (fold_left (fun acc e => insert acc (fst e) (snd e)) l t0)) q
         = marker (root t0) q).
Proof.
  induction l as [|[p k] l IH]; intros t0 W Hne ND q.
  - split; [intros k []|reflexivity].
  - cbn [fold_left fst snd map] in *.
    inversion ND as [|? ? Hni NDl]; subst.
    assert (Hp : p <> []) by (apply (Hne p k); now left).
    destruct (IH (insert t0 p k) (wf_insert _ _ _ W)
                 (fun p' k' H => Hne p' k' (or_intror H)) NDl q) as [I1 I2].
    split.
    + intros k' [[= -> ->]|Hin]; [|now apply I1].
      rewrite (I2 Hni), (marker_insert _ _ _ _ W Hp).
      destruct (list_eq_dec Z.eq_dec q q); [reflexivity|congruence].
    + intros Hq. rewrite (I2 (fun H => Hq (or_intror H))). rewrite (marker_insert _ _ _ _ W Hp).
      destruct (list_eq_dec Z.eq_dec q p) as [->|]; [|reflexivity].
      exfalso. apply Hq. now left.
Qed.

Lemma fold_insert_size (l : list (list Z * string)) :
  forall t0, wf t0 ->
    (forall p k, In (p, k) l -> p <> [] /\ marker (root t0) p = None) ->
    NoDup (map fst l) ->
    size (fold_left (fun acc e => insert acc (fst e) (snd e)) l t0) = size t0 + len l.
Proof.
  induction l as [|[p k] l IH]; intros t0 W Hne ND.
  - cbn. unfold len. cbn. lia.
  - cbn [fold_left fst snd map] in *.
    inversion ND as [|? ? Hni NDl]; subst.
    destruct (Hne p k (or_introl eq_refl)) as [Hp Hm].
    rewrite IH; [| now apply wf_insert | | exact NDl].
    + rewrite (size_insert _ _ _ W Hp), Hm. unfold len. cbn [length].
      rewrite Nat2Z.inj_succ. lia.
    + intros p' k' Hin. destruct (Hne p' k' (or_intror Hin)) as [Hp' Hm'].
      split; [exact Hp'|]. rewrite (marker_insert _ _ _ _ W Hp).
      destruct (list_eq_dec Z.eq_dec p' p) as [->|]; [|exact Hm'].
      exfalso. apply Hni. apply in_map_iff. now exists (p, k').
Qed.

Lemma marker_new (q : list Z) : marker (root new_RadixTrie) q = None.
Proof. destruct q; reflexivity. Qed.

(** X7. [get_all_entries] determines the index: inserting the entries it
    lists into a fresh [RadixTrie()] gives an index with the same entries,
    the same answer to every [find_longest_prefix] query and the same
    [size]. *)
Theorem rebuild_equivalent (t : RadixTrie) :
  reachable t ->
  (forall p k, stored (rebuild t) p k <-> stored t p k) /\
  (forall s, find_longest_prefix (rebuild t) s = find_longest_prefix t s) /\
  size (rebuild t) = size t.
Proof.
  intros R. pose proof (reachable_wf _ R) as W.
  pose proof (fold_insert_wf (get_all_entries t) _ wf_new) as W'.
  fold (rebuild t) in W'.
  destruct (entries_of_wf t W) as (Hsz & ND & Hne & _).
  assert (M : forall q, marker (root (rebuild t)) q = marker (root t) q).
  { intros q.
    destruct (fold_insert_marker (get_all_entries t) _ wf_new Hne ND q) as [I1 I2].
    fold (rebuild t) in I1, I2.
    destruct (marker (root t) q) as [k|] eqn:Mq.
    - destruct q as [|g q].
      + destruct W as (_ & Hk & _). rewrite marker_nil in Mq. congruence.
      + apply I1. apply (stored_marker _ _ _ W). split; [discriminate|exact Mq].
    - rewrite I2; [apply marker_new|].
      intros Hin. apply in_map_iff in Hin. destruct Hin as [[q' k] [E Hin]].
      cbn in E. subst q'. apply (stored_marker _ _ _ W) in Hin.
      destruct Hin. congruence. }
  refine (conj _ (conj _ _)).
  - intros p k. rewrite (stored_marker _ _ _ W'), (stored_marker _ _ _ W).
    now rewrite M.
  - intros s. rewrite (find_longest_prefix_best _ _ W'), (find_longest_prefix_best _ _ W).
    now rewrite (best_prefix_ext _ _ _ _ M).
  - unfold rebuild. rewrite fold_insert_size; [|exact wf_new| |exact ND].
    + rewrite Hsz. reflexivity.
    + intros p k Hin. split; [now apply (Hne p k)|apply marker_new].
Qed.

Lemma rebuild_equivalent_witness :
  (forall p k, stored (rebuild sample_index) p k <-> stored sample_index p k) /\
  (forall s, find_longest_prefix (rebuild sample_index) s
             = find_longest_prefix sample_index s) /\
  size (rebuild sample_index) = size sample_index.
Proof. exact (rebuild_equivalent sample_index sample_index_reachable). Defined.

Lemma set_same (d : list (Z * TrieNode)) (f : Z) (c : TrieNode) :
  pydict.get Z.eqb d f = Some c -> pydict.set Z.eqb d f c = d.
Proof.
  induction d as [|[k0 c0] r IH]; cbn; [discriminate|].
  destruct (Z.eqb_spec k0 f) as [->|N].
  - now intros [= ->].
  - intros G. now rewrite IH.
Qed.

Lemma set_child_same (node : TrieNode) (f : Z) (c : TrieNode) :
  pydict.get Z.eqb (children node) f = Some c -> set_child node f c = node.
Proof.
  intros G. unfold set_child. rewrite (set_same _ _ _ G). now destruct node.
Qed.

Lemma set_set (d : list (Z * TrieNode)) (f : Z) (c c' : TrieNode) :
  pydict.set Z.eqb (pydict.set Z.eqb d f c) f c' = pydict.set Z.eqb d f c'.
Proof.
  induction d as [|[k0 c0] r IH]; cbn.
  - now rewrite Z.eqb_refl.
  - destruct (Z.eqb k0 f) eqn:E; cbn; rewrite E; [reflexivity|]. now rewrite IH.
Qed.

(** Inserting at a path that already carries the key changes nothing. *)
Lemma insert_loop_stored (node : TrieNode) :
  forall (rest : list Z) (total : Z) (key : string),
    marker node rest = Some key ->
    insert_loop node rest total key = (node, 0).
Proof.
  induction node as [toks ch ck d IH] using TrieNode_ind.
  intros rest total key M.
  destruct rest as [|f r].
  { rewrite marker_nil in M. cbn [cache_key] in M. subst ck. reflexivity. }
  rewrite marker_cons in M. rewrite insert_loop_cons.
  destruct (pydict.get Z.eqb (children (mkTrieNode toks ch ck d)) f) as [child|] eqn:G;
    [|discriminate].
  assert (IHc := proj1 (Forall_forall _ _) IH _
                   (pydict_facts.get_In Z.eqb Zeqb_eq _ _ _ G)).
  cbn [snd] in IHc. clear IH.
  unfold strip in M. cbv zeta.
  destruct (match_len_le (tokens child) (f :: r)) as [L1 _].
  destruct (Nat.ltb_spec (match_len (tokens child) (f :: r)) (length (tokens child)))
    as [Lt|Ge]; [discriminate|].
  assert (Full : Nat.eqb (match_len (tokens child) (f :: r)) (length (tokens child)) = true)
    by (apply Nat.eqb_eq; lia).
  rewrite Full, (IHc _ total key M). now rewrite (set_child_same _ _ _ G).
Qed.

(** Re-inserting at a path whose marker was just removed restores the node. *)
Lemma insert_loop_removed (node : TrieNode) :
  forall (rest : list Z) (total : Z) (key : string) (node' : TrieNode),
    marker node rest = Some key ->
    remove_loop node rest = Some node' ->
    insert_loop node' rest total key = (node, 1).
Proof.
  induction node as [toks ch ck d IH] using TrieNode_ind.
  intros rest total key node' M R.
  destruct rest as [|f r].
  { rewrite marker_nil in M. cbn [cache_key] in M. subst ck.
    cbn in R. injection R as <-. reflexivity. }
  rewrite marker_cons in M. rewrite remove_loop_cons in R.
  destruct (pydict.get Z.eqb (children (mkTrieNode toks ch ck d)) f) as [child|] eqn:G;
    [|discriminate].
  assert (IHc := proj1 (Forall_forall _ _) IH _
                   (pydict_facts.get_In Z.eqb Zeqb_eq _ _ _ G)).
  cbn [snd] in IHc. clear IH.
  destruct (strip (tokens child) (f :: r)) as [rest'|] eqn:St; [|discriminate].
  destruct (remove_loop child rest') as [child'|] eqn:Rc; [|discriminate].
  injection R as <-.
  pose proof (IHc _ total key _ M Rc) as Ic.
  pose proof (remove_loop_spec child rest') as Sp. rewrite Rc in Sp.
  destruct Sp as (_ & Tk & _).
  rewrite insert_loop_cons. cbn [set_child children].
  rewrite (pydict_facts.get_set_same Z.eqb Zeqb_eq). cbv zeta.
  unfold strip in St. rewrite Tk.
  destruct (match_len_le (tokens child) (f :: r)) as [L1 _].
  destruct (Nat.ltb_spec (match_len (tokens child) (f :: r)) (length (tokens child)))
    as [Lt|Ge]; [discriminate|]. injection St as <-.
  assert (Full : Nat.eqb (match_len (tokens child) (f :: r)) (length (tokens child)) = true)
    by (apply Nat.eqb_eq; lia).
  rewrite Full, Ic. unfold set_child. cbn [children tokens cache_key depth].
  rewrite set_set. cbn [children] in G. now rewrite (set_same _ _ _ G).
Qed.

(** X8. [insert] is idempotent: inserting [(s, k)] a second time leaves the
    index exactly as the first insertion left it, and inserting an entry
    that is stored already changes nothing. [remove] keeps the nodes and
    clears the marker only, so after [remove(s)] of an entry stored under
    [k], [insert(s, k)] gives back the index as it was before. *)
Theorem insert_idempotent (t : RadixTrie) (s : list Z) (k : string) :
  reachable t ->
  insert (insert t s k) s k = insert t s k /\
  (stored t s k -> insert t s k = t) /\
  (stored t s k -> insert (snd (remove t s)) s k = t).
Proof.
  intros R. pose proof (reachable_wf _ R) as W.
  assert (Same : forall t0, wf t0 -> stored t0 s k -> insert t0 s k = t0).
  { intros t0 W0 St. apply (stored_marker _ _ _ W0) in St. destruct St as [Hne M].
    destruct s as [|f r]; [congruence|]. unfold insert.
    rewrite (insert_loop_stored _ _ _ _ M). destruct t0 as [rt sz]. cbn. f_equal. lia. }
  split; [|split].
  - destruct s as [|f r]; [reflexivity|]. apply Same; [now apply wf_insert|].
    apply (stored_marker _ _ _ (wf_insert _ _ _ W)). split; [discriminate|].
    rewrite marker_insert by (auto; discriminate).
    destruct (list_eq_dec Z.eq_dec (f :: r) (f :: r)); [reflexivity|congruence].
  - now apply Same.
  - intros St. apply (stored_marker _ _ _ W) in St. destruct St as [Hne M].
    destruct s as [|f r]; [congruence|]. unfold remove.
    destruct (remove_loop (root t) (f :: r)) as [root'|] eqn:Rl.
    + cbn [snd]. unfold insert. cbn [root _size].
      rewrite (insert_loop_removed _ _ (len (f :: r)) _ _ M Rl).
      destruct t as [rt sz]. cbn. f_equal. lia.
    + pose proof (remove_result t (f :: r)) as Rr. unfold remove in Rr.
      rewrite Rl, M in Rr. discriminate.
Qed.

Lemma insert_idempotent_witness :
  insert (insert sample_index [1; 2; 3] "a") [1; 2; 3] "a"
  = insert sample_index [1; 2; 3] "a" /\
  (stored sample_index [1; 2; 3] "a" -> insert sample_index [1; 2; 3] "a" = sample_index) /\
  (stored sample_index [1; 2; 3] "a" ->
   insert (snd (remove sample_index [1; 2; 3])) [1; 2; 3] "a" = sample_index).
Proof. exact (insert_idempotent sample_index [1; 2; 3] "a" sample_index_reachable). Defined.

End trie_props.

(* ===================================================================== *)
(** * utils.find_common_prefix_length                                  *)
(* ===================================================================== *)

Module utils_facts.
Import trie trie_spec trie_facts utils.

Lemma skipn_cons_nth (l : list Z) (k : nat) :
  (k < length l)%nat -> skipn k l = nth k l 0 :: skipn (S k) l.
Proof.
  revert k. induction l as [|x l IH]; intros k H; cbn in H; [lia|].
  destruct k as [|k]; [reflexivity|]. cbn [skipn nth]. apply IH. lia.
Qed.

Lemma common_prefix_loop_match (a b : list Z) (n : nat) :
  forall k,
    (k + n = Nat.min (length a) (length b))%nat ->
    common_prefix_loop a b (map Z.of_nat (seq k n))
                       (Z.of_nat (Nat.min (length a) (length b)))
    = Z.of_nat (k + match_len (skipn k a) (skipn k b)).
Proof.
  induction n as [|n IH]; intros k H; cbn [seq map common_prefix_loop].
  - assert (E : skipn k a = [] \/ skipn k b = []).
    { destruct (Nat.min_spec (length a) (length b)) as [[_ E]|[_ E]].
      - left. apply skipn_all2. lia.
      - right. apply skipn_all2. lia. }
    destruct E as [-> | ->].
    + cbn. f_equal. lia.
    + destruct (skipn k a); cbn; f_equal; lia.
  - unfold item. rewrite Nat2Z.id.
    rewrite (skipn_cons_nth a k), (skipn_cons_nth b k) by lia.
    cbn [match_len]. destruct (Z.eqb (nth k a 0) (nth k b 0)); cbn [negb].
    + rewrite (IH (S k)) by lia. f_equal. lia.
    + f_equal. lia.
Qed.

Lemma find_common_prefix_length_match (a b : list Z) :
  find_common_prefix_length a b = Z.of_nat (match_len a b).
Proof.
  unfold find_common_prefix_length, range, len.
  rewrite <- Nat2Z.inj_min, Nat2Z.id.
  now rewrite (common_prefix_loop_match a b _ 0%nat eq_refl).
Qed.

Lemma match_len_comm (a b : list Z) : match_len a b = match_len b a.
Proof.
  revert b. induction a as [|x a IH]; intros [|y b]; cbn; try reflexivity.
  rewrite (Z.eqb_sym y x). destruct (Z.eqb x y); [now rewrite IH|reflexivity].
Qed.

Lemma match_len_firstn (a b : list Z) :
  firstn (match_len a b) a = firstn (match_len a b) b.
Proof.
  revert b. induction a as [|x a IH]; intros [|y b]; cbn; try reflexivity.
  destruct (Z.eqb_spec x y) as [->|]; [|reflexivity]. cbn. now rewrite IH.
Qed.

Lemma match_len_stop (a b : list Z) :
  (match_len a b < Nat.min (length a) (length b))%nat ->
  nth (match_len a b) a 0 <> nth (match_len a b) b 0.
Proof.
  revert b. induction a as [|x a IH]; intros [|y b]; cbn; try lia.
  destruct (Z.eqb_spec x y) as [->|N]; [|intros _; exact N].
  intros H. apply IH. lia.
Qed.

(** X9. [find_common_prefix_length(a, b)] is the length [n] of the longest
    common prefix of [a] and [b]: [0 <= n <= min(len(a), len(b))],
    [a[:n] = b[:n]], [a[n] != b[n]] when [n] is below both lengths, and no
    longer prefix is common. The function is symmetric, it returns [len(a)]
    exactly when [a] is a prefix of [b], and its result is the number of
    positions that the edge comparison loops of the trie count. *)
Theorem common_prefix_length_spec (seq_a seq_b : list Z) :
  let n := find_common_prefix_length seq_a seq_b in
  0 <= n <= Z.min (len seq_a) (len seq_b) /\
  firstn (Z.to_nat n) seq_a = firstn (Z.to_nat n) seq_b /\
  (n < Z.min (len seq_a) (len seq_b) -> item seq_a n <> item seq_b n) /\
  (forall m, 0 <= m <= Z.min (len seq_a) (len seq_b) ->
             firstn (Z.to_nat m) seq_a = firstn (Z.to_nat m) seq_b -> m <= n) /\
  find_common_prefix_length seq_b seq_a = n /\
  (n = len seq_a <-> is_prefix seq_a seq_b) /\
  n = Z.of_nat (match_len seq_a seq_b).
Proof.
  cbv zeta. rewrite !find_common_prefix_length_match.
  destruct (match_len_le seq_a seq_b) as [L1 L2].
  set (c := match_len seq_a seq_b) in *.
  unfold item, len. rewrite Nat2Z.id.
  split; [lia|]. split; [apply match_len_firstn|]. split.
  { intros H. apply match_len_stop. fold c. lia. }
  split.
  { intros m Hm E. destruct (Z.le_gt_cases m (Z.of_nat c)) as [|Gt]; [assumption|exfalso].
    assert (Hc : (c < Nat.min (length seq_a) (length seq_b))%nat) by lia.
    apply (match_len_stop seq_a seq_b Hc). fold c.
    assert (Hn : forall l : list Z, (c < length l)%nat ->
                   nth c l 0 = nth c (firstn (Z.to_nat m) l) 0).
    { intros l Hl. rewrite <- (firstn_skipn (Z.to_nat m) l) at 1.
      rewrite app_nth1; [reflexivity|]. rewrite length_firstn. lia. }
    rewrite (Hn seq_a), (Hn seq_b) by lia. now rewrite E. }
  split; [now rewrite match_len_comm|]. split; [|reflexivity].
  split.
  - intros E. apply Nat2Z.inj in E. exists (skipn c seq_b).
    apply full_match. fold c. rewrite E. apply Nat.eqb_refl.
  - intros [r ->]. unfold c. now rewrite match_len_app.
Qed.

End utils_facts.

(* ===================================================================== *)
(** * The format of the digest                                         *)
(* ===================================================================== *)

Module hashlib_facts.
Import hashlib.

Lemma round_length (s : list Z) (kw : Z * Z) : length (round s kw) = length s.
Proof.
  destruct s as [|a [|b [|c [|d [|e [|f [|g [|h [|i r]]]]]]]]]; reflexivity.
Qed.

Lemma rounds_length (l : list (Z * Z)) (s : list Z) :
  length (fold_left round l s) = length s.
Proof.
  revert s. induction l as [|kw l IH]; intros s; [reflexivity|].
  cbn [fold_left]. now rewrite IH, round_length.
Qed.

Lemma compress_length (h block : list Z) : length (compress h block) = length h.
Proof.
  unfold compress. rewrite length_map, length_combine, rounds_length.
  apply Nat.min_id.
Qed.

Lemma digest_length (bs : list (list Z)) (h : list Z) :
  length (fold_left compress bs h) = length h.
Proof.
  revert h. induction bs as [|b bs IH]; intros h; [reflexivity|].
  cbn [fold_left]. now rewrite IH, compress_length.
Qed.

Lemma be_bytes_length (n : nat) (x : Z) : length (be_bytes n x) = n.
Proof. unfold be_bytes. now rewrite length_map, length_rev, length_seq. Qed.

Lemma flat_map_be_bytes_length (l : list Z) :
  length (flat_map (be_bytes 4) l) = (4 * length l)%nat.
Proof.
  induction l as [|x l IH]; [reflexivity|].
  cbn [flat_map]. rewrite length_app, be_bytes_length, IH. cbn [length]. lia.
Qed.

Lemma hex_digit_hex (d : Z) : cache_spec.is_hex (hex_digit d).
Proof.
  unfold hex_digit, cache_spec.is_hex.
  set (l := list_ascii_of_string "0123456789abcdef").
  destruct (Nat.lt_ge_cases (Z.to_nat d) (length l)) as [Lt|Ge].
  - now apply nth_In.
  - rewrite nth_overflow by exact Ge. now left.
Qed.

Lemma concat_hex_bytes (l : list Z) :
  String.length (String.concat EmptyString (map hex_byte l)) = (2 * length l)%nat /\
  Forall cache_spec.is_hex
         (list_ascii_of_string (String.concat EmptyString (map hex_byte l))).
Proof.
  induction l as [|b l [IH1 IH2]]; [split; [reflexivity|constructor]|].
  cbn [map String.concat].
  destruct (map hex_byte l) as [|y ys] eqn:E.
  - destruct l; [|discriminate]. split; [reflexivity|].
    unfold hex_byte. cbn [list_ascii_of_string].
    constructor; [apply hex_digit_hex|]. constructor; [apply hex_digit_hex|constructor].
  - unfold hex_byte. cbn [String.append String.length list_ascii_of_string].
    split.
    + cbn [length]. rewrite IH1. lia.
    + constructor; [apply hex_digit_hex|]. constructor; [apply hex_digit_hex|exact IH2].
Qed.

Lemma substring_prefix_length (n : nat) (s : string) :
  (n <= String.length s)%nat -> String.length (String.substring 0 n s) = n.
Proof.
  revert s. induction n as [|n IH]; intros s H.
  - destruct s; reflexivity.
  - destruct s as [|c s]; cbn in H; [lia|]. cbn. rewrite IH; [reflexivity|lia].
Qed.

Lemma substring_prefix_Forall (P : ascii -> Prop) (n : nat) (s : string) :
  Forall P (list_ascii_of_string s) ->
  Forall P (list_ascii_of_string (String.substring 0 n s)).
Proof.
  revert s. induction n as [|n IH]; intros s H.
  - destruct s; constructor.
  - destruct s as [|c s]; cbn; [constructor|].
    cbn in H. inversion H; subst. constructor; auto.
Qed.

Lemma sha256_hexdigest_format (data : list Z) :
  String.length (sha256_hexdigest data) = 64%nat /\
  Forall cache_spec.is_hex (list_ascii_of_string (sha256_hexdigest data)).
Proof.
  unfold sha256_hexdigest.
  destruct (concat_hex_bytes
              (flat_map (be_bytes 4)
                 (fold_left compress (blocks (length (pad data) / 64) (pad data)) H0)))
    as [H1 H2].
  split; [|exact H2].
  rewrite H1, flat_map_be_bytes_length, digest_length. reflexivity.
Qed.

End hashlib_facts.

(* ===================================================================== *)
(** * The cache store: entries, results and eviction order             *)
(* ===================================================================== *)

Module cache_props.
Import exceptions cache cache_spec cache_facts.

Lemma cache_key_length (tokens : list Z) :
  String.length (_compute_cache_key tokens) = 16%nat.
Proof.
  unfold _compute_cache_key.
  destruct (hashlib_facts.sha256_hexdigest_format (flat_map to_bytes tokens)) as [H1 _].
  apply hashlib_facts.substring_prefix_length. rewrite H1. lia.
Qed.

Lemma cache_key_nonempty (tokens : list Z) : _compute_cache_key tokens <> EmptyString.
Proof.
  intros E. pose proof (cache_key_length tokens) as L. rewrite E in L. discriminate.
Qed.

(** X10. [_compute_cache_key] returns 16 lowercase hexadecimal characters
    for every token sequence. A key is therefore never the empty string,
    which [store] returns for a sequence it skips, and the group key of
    [analyze_batch], its first 8 characters, has 8 characters. *)
Theorem cache_key_format (tokens : list Z) :
  String.length (_compute_cache_key tokens) = 16%nat /\
  Forall is_hex (list_ascii_of_string (_compute_cache_key tokens)) /\
  _compute_cache_key tokens <> EmptyString /\
  String.length (String.substring 0 8 (_compute_cache_key tokens)) = 8%nat.
Proof.
  refine (conj (cache_key_length tokens) (conj _ (conj (cache_key_nonempty tokens) _))).
  - unfold _compute_cache_key.
    apply hashlib_facts.substring_prefix_Forall.
    apply hashlib_facts.sha256_hexdigest_format.
  - apply hashlib_facts.substring_prefix_length. rewrite cache_key_length. lia.
Qed.

(** ** The shape of the map after each operation *)

Lemma remove_set_same (d : list (string * CacheEntry)) (k : string) (v : CacheEntry) :
  pydict.remove String.eqb (pydict.set String.eqb d k v) k
  = pydict.remove String.eqb d k.
Proof.
  induction d as [|[k0 v0] r IH]; cbn.
  - now rewrite String.eqb_refl.
  - destruct (String.eqb k0 k) eqn:E; cbn; rewrite E; [reflexivity|].
    now rewrite IH.
Qed.

Lemma touch_entries (d : list (string * CacheEntry)) (k : string) (v : CacheEntry) :
  pydict.move_to_end String.eqb (pydict.set String.eqb d k v) k
  = pydict.remove String.eqb d k ++ [(k, v)].
Proof.
  unfold pydict.move_to_end.
  rewrite (pydict_facts.get_set_same String.eqb Seqb_eq), remove_set_same.
  reflexivity.
Qed.

Lemma set_absent (d : list (string * CacheEntry)) (k : string) (v : CacheEntry) :
  pydict.get String.eqb d k = None -> pydict.set String.eqb d k v = d ++ [(k, v)].
Proof.
  induction d as [|[k0 v0] r IH]; cbn; [reflexivity|].
  destruct (String.eqb k0 k); [discriminate|]. intros G. now rewrite IH.
Qed.

Lemma evict_one_entries (self : CacheManager) :
  exists ks, _entries (_evict_one self) = removes (_entries self) ks.
Proof.
  rewrite evict_one_victim. destruct (victim self) as [k|].
  - exists [k]. apply evict_entry_entries.
  - now exists [].
Qed.

Lemma removes_app (d : list (string * CacheEntry)) (ks ks' : list string) :
  removes (removes d ks) ks' = removes d (ks ++ ks').
Proof. unfold removes. now rewrite fold_left_app. Qed.

Lemma ensure_loop_entries (remaining : nat) :
  forall (ma : Z) (self : CacheManager) (needed m : Z),
    exists ks,
      _entries (snd (ensure_loop remaining ma self needed m))
      = removes (_entries self) ks.
Proof.
  induction remaining as [|r IH]; intros ma self needed m; cbn [ensure_loop];
    destruct (over_capacity self needed m); try (now exists []).
  destruct (IH ma (_evict_one self) needed m) as [ks E].
  destruct (evict_one_entries self) as [ks0 E0].
  exists (ks0 ++ ks). now rewrite E, E0, removes_app.
Qed.

Lemma ensure_loop_trie_stats (remaining : nat) :
  forall (ma : Z) (self : CacheManager) (needed m : Z),
    over_capacity self needed m = false ->
    ensure_loop remaining ma self needed m = (Ok tt, self).
Proof.
  intros ma self needed m O. destruct remaining; cbn [ensure_loop]; now rewrite O.
Qed.

(** The three outcomes of [store]. *)
Lemma store_entries (self : CacheManager) (tokens : list Z) (kv : Any) (mb : Z)
  (now : Q) :
  let d := _entries self in
  let k := _compute_cache_key tokens in
  let d2 := _entries (snd (store self tokens kv mb now)) in
  (len tokens < models.min_prefix_length (config self) /\ d2 = d) \/
  (models.min_prefix_length (config self) <= len tokens /\
   exists e, pydict.get String.eqb d k = Some e /\
             d2 = pydict.remove String.eqb d k ++ [(k, touch e now)]) \/
  (models.min_prefix_length (config self) <= len tokens /\
   pydict.get String.eqb d k = None /\
   exists ks,
     d2 = removes d ks \/
     d2 = removes d ks ++ [(k, CacheEntry_new k tokens kv (footprint tokens mb) now)]).
Proof.
  cbv zeta. unfold store.
  destruct (Z.ltb_spec (len tokens) (models.min_prefix_length (config self))) as [Lt|Ge].
  { left. now split. }
  right.
  destruct (pydict.get String.eqb (_entries self) (_compute_cache_key tokens))
    as [e|] eqn:G.
  { left. split; [exact Ge|]. exists e. split; [reflexivity|].
    cbn [snd with_entries _entries]. apply touch_entries. }
  right. split; [exact Ge|]. split; [reflexivity|].
  set (entry := CacheEntry_new _ _ _ _ _).
  unfold _ensure_capacity.
  destruct (ensure_loop_entries (Z.to_nat (len (_entries self) + 1))
              (len (_entries self) + 1) self (memory_bytes entry)
              (py_int (models.max_memory_mb (config self) * 1024 * 1024)%Q)) as [ks E].
  pose proof (ensure_loop_absent (Z.to_nat (len (_entries self) + 1))
                (len (_entries self) + 1) self (memory_bytes entry)
                (py_int (models.max_memory_mb (config self) * 1024 * 1024)%Q) _ G) as G1.
  exists ks.
  destruct (ensure_loop _ _ self _ _) as [[u|ex] self1]; cbn [snd] in *.
  - right. cbn [_entries]. rewrite (set_absent _ _ _ G1), E. reflexivity.
  - left. exact E.
Qed.

(** The three outcomes of [lookup]. *)
Lemma lookup_entries (self : CacheManager) (tokens : list Z) (now1 now2 : Q) :
  let d := _entries self in
  let d2 := _entries (snd (lookup self tokens now1 now2)) in
  d2 = d \/
  (exists k, d2 = pydict.remove String.eqb d k) \/
  (exists k e, pydict.get String.eqb d k = Some e /\
               d2 = pydict.remove String.eqb d k ++ [(k, touch e now2)]).
Proof.
  cbv zeta. unfold lookup. cbn [with_stats _trie _entries config _stats].
  destruct (trie.find_longest_prefix (_trie self) tokens) as [ml [k|]];
    [|now left].
  destruct (ml <? _); [now left|].
  destruct (pydict.get String.eqb (_entries self) k) as [e|] eqn:G; [|now left].
  rewrite is_expired_with_stats. destruct (_is_expired self e now1).
  - right. left. exists k. cbn [snd with_stats _entries].
    rewrite evict_entry_entries. reflexivity.
  - right. right. exists k, e. split; [exact G|].
    cbn [snd with_stats with_entries _entries]. apply touch_entries.
Qed.

(** ** Properties of the values of the map *)

Lemma Forall_remove (P : string * CacheEntry -> Prop) (d : list (string * CacheEntry))
  (k : string) :
  Forall P d -> Forall P (pydict.remove String.eqb d k).
Proof.
  induction 1 as [|[k0 v0] r Hx Hr IH]; cbn; [constructor|].
  destruct (String.eqb k0 k); [exact Hr|now constructor].
Qed.

Lemma Forall_removes (P : string * CacheEntry -> Prop) (ks : list string) :
  forall d, Forall P d -> Forall P (removes d ks).
Proof.
  induction ks as [|k ks IH]; intros d F; [exact F|].
  cbn [removes fold_left]. apply IH. now apply Forall_remove.
Qed.

Lemma Forall_snoc {A : Type} (P : A -> Prop) (l : list A) (x : A) :
  Forall P l -> P x -> Forall P (l ++ [x]).
Proof. intros F Px. apply Forall_app. split; [exact F|now constructor]. Qed.

Lemma new_entry_fields (k : string) (t : list Z) (kv : Any) (mb : Z) (now : Q) :
  let e := CacheEntry_new k t kv mb now in
  cache_key e = k /\ tokens e = t /\ kv_data e = kv /\ token_count e = len t /\
  access_count e = 0 /\ created_at e = now /\ last_accessed e = now.
Proof.
  cbv zeta. unfold CacheEntry_new, CacheEntry__post_init__.
  cbn [cache_key tokens kv_data token_count access_count created_at last_accessed
       memory_bytes].
  repeat split.
Qed.

Lemma entries_ok_run_op (self : CacheManager) (o : op) :
  Forall (fun ke => entry_ok (config self) (fst ke) (snd ke)) (_entries self) ->
  Forall (fun ke => entry_ok (config self) (fst ke) (snd ke)) (_entries (run_op self o)).
Proof.
  intros F. destruct o as [t kv mb now|t n1 n2|k| |]; cbn [run_op].
  - destruct (store_entries self t kv mb now)
      as [[_ ->]|[(Ge & e & G & ->)|(Ge & G & ks & [->| ->])]].
    + exact F.
    + apply Forall_snoc; [now apply Forall_remove|]. cbn [fst snd].
      apply (pydict_facts.get_In String.eqb Seqb_eq) in G.
      rewrite Forall_forall in F. destruct (F _ G) as (H1 & H2 & H3 & H4 & H5).
      cbn [fst snd] in *. repeat split; cbn [touch cache_key tokens token_count access_count];
        auto; lia.
    + now apply Forall_removes.
    + apply Forall_snoc; [now apply Forall_removes|]. cbn [fst snd].
      destruct (new_entry_fields (_compute_cache_key t) t kv (footprint t mb) now)
        as (H1 & H2 & _ & H4 & H5 & _).
      unfold entry_ok. rewrite H1, H2, H4, H5. repeat split; auto; lia.
  - destruct (lookup_entries self t n1 n2) as [->|[[k ->]|(k & e & G & ->)]].
    + exact F.
    + now apply Forall_remove.
    + apply Forall_snoc; [now apply Forall_remove|]. cbn [fst snd].
      apply (pydict_facts.get_In String.eqb Seqb_eq) in G.
      rewrite Forall_forall in F. destruct (F _ G) as (H1 & H2 & H3 & H4 & H5).
      cbn [fst snd] in *. repeat split; cbn [touch cache_key tokens token_count access_count];
        auto; lia.
  - unfold evict. rewrite evict_entry_entries. now apply Forall_remove.
  - constructor.
  - exact F.
Qed.

Lemma entries_ok_run_ops (ops : list op) :
  forall self,
    Forall (fun ke => entry_ok (config self) (fst ke) (snd ke)) (_entries self) ->
    Forall (fun ke => entry_ok (config self) (fst ke) (snd ke))
           (_entries (run_ops self ops)).
Proof.
  induction ops as [|o r IH]; intros self F; [exact F|].
  cbn [run_ops fold_left]. fold (run_ops (run_op self o) r).
  rewrite <- (run_op_config self o). apply IH. rewrite run_op_config.
  now apply entries_ok_run_op.
Qed.

Lemma entries_ok_reachable (c : models.CacheConfig) (ops : list op) (k : string)
  (e : CacheEntry) :
  get_entry (run_ops (CacheManager_new (Some c)) ops) k = Some e ->
  entry_ok c k e.
Proof.
  intros G. unfold get_entry in G.
  apply (pydict_facts.get_In String.eqb Seqb_eq) in G.
  pose proof (entries_ok_run_ops ops (CacheManager_new (Some c)) (Forall_nil _)) as F.
  rewrite Forall_forall in F. exact (F _ G).
Qed.

(** X11. After any history of [store], [lookup], [evict], [clear] and [stats]
    on a manager built with a valid configuration, every entry [e] of the
    map, filed under [k], has [e.cache_key = k = _compute_cache_key(e.tokens)],
    [e.token_count = len(e.tokens)], [len(e.tokens) >= min_prefix_length]
    and [e.access_count >= 0], and the index stores [e.tokens] under [k].
    Conversely every sequence that the index stores under a key [k] is the
    token sequence of the entry filed under [k]. The keys of the map are
    distinct. *)
Theorem live_entries_match_index (c : models.CacheConfig) (ops : list op) :
  valid_config c ->
  let self := run_ops (CacheManager_new (Some c)) ops in
  (forall k e, get_entry self k = Some e ->
     cache_key e = k /\ k = _compute_cache_key (tokens e) /\
     token_count e = len (tokens e) /\
     models.min_prefix_length c <= len (tokens e) /\
     0 <= access_count e /\
     trie_spec.stored (_trie self) (tokens e) k) /\
  (forall p k, trie_spec.stored (_trie self) p k ->
     exists e, get_entry self k = Some e /\ tokens e = p) /\
  NoDup (map fst (_entries self)).
Proof.
  intros V self. destruct (Inv_reachable c ops V) as [Hw Hk He Hm _ _].
  fold self in Hw, Hk, He, Hm.
  refine (conj _ (conj _ Hk)).
  - intros k e G. destruct (entries_ok_reachable c ops k e G) as (H1 & H2 & H3 & H4 & H5).
    repeat split; auto.
    destruct (He _ _ G) as (_ & _ & Hn & Hmk).
    apply (trie_facts.stored_marker _ _ _ Hw). now split.
  - intros p k St. apply (trie_facts.stored_marker _ _ _ Hw) in St.
    destruct St as [Hp Hmk]. exact (Hm _ _ Hp Hmk).
Qed.

Lemma live_entries_match_index_witness :
  let self := run_ops (CacheManager_new (Some sample_config)) sample_history in
  (forall k e, get_entry self k = Some e ->
     cache_key e = k /\ k = _compute_cache_key (tokens e) /\
     token_count e = len (tokens e) /\
     models.min_prefix_length sample_config <= len (tokens e) /\
     0 <= access_count e /\
     trie_spec.stored (_trie self) (tokens e) k) /\
  (forall p k, trie_spec.stored (_trie self) p k ->
     exists e, get_entry self k = Some e /\ tokens e = p) /\
  NoDup (map fst (_entries self)).
Proof.
  apply (live_entries_match_index sample_config sample_history). reflexivity.
Defined.

(** ** [lookup], case by case *)

Lemma lookup_unfold (self : CacheManager) (tokens : list Z) (now1 now2 : Q) :
  lookup self tokens now1 now2 =
  let s0 := count_lookup (_stats self) (len tokens) in
  let ml := fst (trie.find_longest_prefix (_trie self) tokens) in
  match snd (trie.find_longest_prefix (_trie self) tokens) with
  | None => (miss tokens, with_stats self (count_miss s0))
  | Some k =>
      if ml <? models.min_prefix_length (config self) then
        (miss tokens, with_stats self (count_miss s0))
      else
        match pydict.get String.eqb (_entries self) k with
        | None => (miss tokens, with_stats self (count_miss s0))
        | Some e =>
            if _is_expired self e now1 then
              let self1 := snd (_evict_entry (with_stats self s0) k) in
              (miss tokens, with_stats self1 (count_miss (_stats self1)))
            else
              (models.mkPrefixMatch (firstn (Z.to_nat ml) tokens) ml (len tokens) k
                 (skipn (Z.to_nat ml) tokens) true,
               mkCacheManager (config self) (_trie self)
                 (pydict.remove String.eqb (_entries self) k ++ [(k, touch e now2)])
                 (count_hit s0 ml) (_total_memory_bytes self))
        end
  end.
Proof.
  unfold lookup. cbn [with_stats _trie _entries config _stats].
  destruct (trie.find_longest_prefix (_trie self) tokens) as [ml [k|]]; cbn [fst snd];
    [|reflexivity].
  destruct (ml <? _); [reflexivity|].
  destruct (pydict.get String.eqb (_entries self) k) as [e|]; [|reflexivity].
  rewrite is_expired_with_stats. destruct (_is_expired self e now1); [reflexivity|].
  cbn [with_entries with_stats config _trie _entries _stats _total_memory_bytes].
  now rewrite touch_entries.
Qed.

Lemma find_bounds (t : trie.RadixTrie) (s : list Z) (k : string) :
  trie_spec.wf t -> snd (trie.find_longest_prefix t s) = Some k ->
  1 <= fst (trie.find_longest_prefix t s) <= len s.
Proof.
  intros W E. pose proof (trie_props.longest_stored_prefix t s W) as H.
  cbv zeta in H. rewrite E in H. tauto.
Qed.

(** ** The counters *)

Lemma counters_evict_entry (self : CacheManager) (k : string) :
  counters_ok (_stats self) -> counters_ok (_stats (snd (_evict_entry self k))).
Proof.
  unfold _evict_entry, counters_ok.
  destruct (pydict.get String.eqb (_entries self) k); cbn; intros; lia.
Qed.

Lemma counters_evict_one (self : CacheManager) :
  counters_ok (_stats self) -> counters_ok (_stats (_evict_one self)).
Proof.
  rewrite evict_one_victim. destruct (victim self); [|auto].
  apply counters_evict_entry.
Qed.

Lemma counters_ensure_loop (remaining : nat) :
  forall (ma : Z) (self : CacheManager) (needed m : Z),
    counters_ok (_stats self) ->
    counters_ok (_stats (snd (ensure_loop remaining ma self needed m))).
Proof.
  induction remaining as [|r IH]; intros ma self needed m C; cbn [ensure_loop];
    destruct (over_capacity self needed m); auto.
  apply IH. now apply counters_evict_one.
Qed.

Lemma counters_run_op (self : CacheManager) (o : op) :
  trie_spec.wf (_trie self) ->
  counters_ok (_stats self) -> counters_ok (_stats (run_op self o)).
Proof.
  intros W C. destruct o as [t kv mb now|t n1 n2|k| |]; cbn [run_op].
  - unfold store. destruct (len t <? _); [exact C|].
    destruct (pydict.get String.eqb (_entries self) (_compute_cache_key t));
      [exact C|].
    set (entry := CacheEntry_new _ _ _ _ _). unfold _ensure_capacity.
    pose proof (counters_ensure_loop (Z.to_nat (len (_entries self) + 1))
                  (len (_entries self) + 1) self (memory_bytes entry)
                  (py_int (models.max_memory_mb (config self) * 1024 * 1024)%Q) C) as C1.
    destruct (ensure_loop _ _ self _ _) as [[u|ex] self1]; exact C1.
  - rewrite lookup_unfold. cbv zeta.
    assert (Cm : counters_ok (count_miss (count_lookup (_stats self) (len t)))).
    { unfold counters_ok, len in *. cbn. lia. }
    destruct (snd (trie.find_longest_prefix (_trie self) t)) as [k|] eqn:F;
      [|exact Cm].
    pose proof (find_bounds _ _ _ W F) as B.
    destruct (_ <? _); [exact Cm|].
    destruct (pydict.get String.eqb (_entries self) k) as [e|] eqn:G; [|exact Cm].
    destruct (_is_expired self e n1).
    + cbn [snd with_stats _stats]. unfold _evict_entry.
      cbn [with_stats _entries]. rewrite G. cbn [snd _stats].
      unfold counters_ok, len in *. cbn. lia.
    + cbn [snd _stats]. unfold counters_ok, len in *. cbn. lia.
  - now apply counters_evict_entry.
  - exact C.
  - unfold counters_ok in *. cbn. exact C.
Qed.

Lemma counters_run_ops (ops : list op) :
  forall self,
    1 <= models.min_prefix_length (config self) -> Inv self ->
    counters_ok (_stats self) -> counters_ok (_stats (run_ops self ops)).
Proof.
  induction ops as [|o r IH]; intros self Hmin I C; [exact C|].
  cbn [run_ops fold_left]. fold (run_ops (run_op self o) r).
  apply IH.
  - now rewrite run_op_config.
  - now apply Inv_run_op.
  - apply counters_run_op; [apply I|exact C].
Qed.

Lemma ratio_bounds (a b : Z) :
  0 <= a <= b ->
  (0 <= (if b =? 0 then 0 else pyfloat.truediv a b) <= 1)%Q.
Proof.
  intros H. destruct (Z.eqb_spec b 0) as [->|N].
  - split; [apply Qle_refl|discriminate].
  - apply pyfloat_facts.truediv_unit; lia.
Qed.

(** X12. After any history of operations on a manager built with a valid
    configuration, the counters that [stats] returns satisfy
    [total_lookups = cache_hits + cache_misses] and
    [0 <= total_tokens_served <= total_tokens_requested]; none of the
    counters is negative; [hit_rate] and [token_savings_rate] lie between 0
    and 1. *)
Theorem counters_consistent (c : models.CacheConfig) (ops : list op) :
  valid_config c ->
  let s := fst (stats (run_ops (CacheManager_new (Some c)) ops)) in
  models.total_lookups s = models.cache_hits s + models.cache_misses s /\
  0 <= models.cache_hits s /\ 0 <= models.cache_misses s /\
  0 <= models.total_tokens_served s <= models.total_tokens_requested s /\
  0 <= models.evictions s /\
  (0 <= models.hit_rate s <= 1)%Q /\
  (0 <= models.token_savings_rate s <= 1)%Q.
Proof.
  intros V s.
  assert (C : counters_ok s).
  { assert (C0 : counters_ok (_stats (run_ops (CacheManager_new (Some c)) ops))).
    { apply counters_run_ops.
      - cbn. now destruct (valid_config_fields _ V) as (_ & _ & _ & H).
      - apply Inv_new.
      - unfold counters_ok. cbn. lia. }
    exact C0. }
  destruct C as (H1 & H2 & H3 & H4 & H5).
  repeat (split; [assumption || lia|]).
  split; [apply ratio_bounds; lia|apply ratio_bounds; lia].
Qed.

Lemma counters_consistent_witness :
  let s := fst (stats (run_ops (CacheManager_new (Some sample_config)) sample_history)) in
  models.total_lookups s = models.cache_hits s + models.cache_misses s /\
  0 <= models.cache_hits s /\ 0 <= models.cache_misses s /\
  0 <= models.total_tokens_served s <= models.total_tokens_requested s /\
  0 <= models.evictions s /\
  (0 <= models.hit_rate s <= 1)%Q /\
  (0 <= models.token_savings_rate s <= 1)%Q.
Proof.
  apply (counters_consistent sample_config sample_history). reflexivity.
Defined.

(** ** The result of a lookup *)

(** X13. The parts of the result of [lookup(tokens)] fit together:
    [total_length = len(tokens)], [0 <= matched_length <= total_length],
    [len(matched_tokens) = matched_length] and [savings_ratio] lies between
    0 and 1. On a hit [matched_tokens + remaining_tokens = tokens], the
    matched length is at least [min_prefix_length] (and at least 1) and the
    key is not empty; a result that is not a hit is the miss result. *)
Theorem lookup_match_consistent (c : models.CacheConfig) (ops : list op)
  (tokens : list Z) (now1 now2 : Q) :
  valid_config c ->
  let self := run_ops (CacheManager_new (Some c)) ops in
  let r := fst (lookup self tokens now1 now2) in
  models.total_length r = len tokens /\
  0 <= models.matched_length r <= models.total_length r /\
  len (models.matched_tokens r) = models.matched_length r /\
  (models.hit r = true ->
   models.matched_tokens r ++ models.remaining_tokens r = tokens /\
   models.min_prefix_length c <= models.matched_length r /\
   1 <= models.matched_length r /\
   models.cache_key r <> EmptyString) /\
  (models.hit r = false -> r = miss tokens) /\
  (0 <= models.savings_ratio r <= 1)%Q.
Proof.
  intros V self r.
  assert (Cc : config self = c) by (unfold self; now rewrite run_ops_config).
  destruct (Inv_reachable c ops V) as [Hw Hk He Hm _ _].
  fold self in Hw, Hk, He, Hm.
  assert (Miss :
    models.total_length (miss tokens) = len tokens /\
    0 <= models.matched_length (miss tokens) <= models.total_length (miss tokens) /\
    len (models.matched_tokens (miss tokens)) = models.matched_length (miss tokens) /\
    (models.hit (miss tokens) = true ->
     models.matched_tokens (miss tokens) ++ models.remaining_tokens (miss tokens) = tokens /\
     models.min_prefix_length c <= models.matched_length (miss tokens) /\
     1 <= models.matched_length (miss tokens) /\
     models.cache_key (miss tokens) <> EmptyString) /\
    (models.hit (miss tokens) = false -> miss tokens = miss tokens) /\
    (0 <= models.savings_ratio (miss tokens) <= 1)%Q).
  { unfold miss, models.savings_ratio. cbn.
    repeat split; try discriminate; try reflexivity; unfold len; try lia.
    all: apply (ratio_bounds 0 (Z.of_nat (length tokens))); lia. }
  unfold r. rewrite lookup_unfold. cbv zeta.
  destruct (snd (trie.find_longest_prefix (_trie self) tokens)) as [k|] eqn:F;
    [|exact Miss].
  pose proof (find_bounds _ _ _ Hw F) as B.
  destruct (Z.ltb_spec (fst (trie.find_longest_prefix (_trie self) tokens))
                       (models.min_prefix_length (config self))) as [|Ge];
    [exact Miss|].
  destruct (pydict.get String.eqb (_entries self) k) as [e|] eqn:G; [|exact Miss].
  destruct (_is_expired self e now1); [exact Miss|].
  cbn [fst models.total_length models.matched_length models.matched_tokens
       models.remaining_tokens models.hit models.cache_key].
  set (ml := fst (trie.find_longest_prefix (_trie self) tokens)) in *.
  split; [reflexivity|]. split; [lia|]. split.
  { unfold len in *. rewrite length_firstn. lia. }
  split.
  { intros _. split; [apply firstn_skipn|]. split; [congruence|]. split; [lia|].
    destruct (He _ _ G) as (_ & -> & _).
    apply cache_key_nonempty. }
  split; [discriminate|].
  unfold models.savings_ratio. cbn [models.total_length models.matched_length].
  apply ratio_bounds. lia.
Qed.

Lemma lookup_match_consistent_witness :
  let self := run_ops (CacheManager_new (Some sample_config)) sample_history in
  let r := fst (lookup self [7; 8; 9; 10] 2 2) in
  models.total_length r = len [7; 8; 9; 10] /\
  0 <= models.matched_length r <= models.total_length r /\
  len (models.matched_tokens r) = models.matched_length r /\
  (models.hit r = true ->
   models.matched_tokens r ++ models.remaining_tokens r = [7; 8; 9; 10] /\
   models.min_prefix_length sample_config <= models.matched_length r /\
   1 <= models.matched_length r /\
   models.cache_key r <> EmptyString) /\
  (models.hit r = false -> r = miss [7; 8; 9; 10]) /\
  (0 <= models.savings_ratio r <= 1)%Q.
Proof.
  apply (lookup_match_consistent sample_config sample_history [7; 8; 9; 10] 2 2).
  reflexivity.
Defined.

(** A hit, read off the result. *)
Lemma lookup_hit (self : CacheManager) (tokens : list Z) (now1 now2 : Q) :
  models.hit (fst (lookup self tokens now1 now2)) = true ->
  exists ml k e,
    trie.find_longest_prefix (_trie self) tokens = (ml, Some k) /\
    models.min_prefix_length (config self) <= ml /\
    pydict.get String.eqb (_entries self) k = Some e /\
    _is_expired self e now1 = false /\
    lookup self tokens now1 now2 =
    (models.mkPrefixMatch (firstn (Z.to_nat ml) tokens) ml (len tokens) k
       (skipn (Z.to_nat ml) tokens) true,
     mkCacheManager (config self) (_trie self)
       (pydict.remove String.eqb (_entries self) k ++ [(k, touch e now2)])
       (count_hit (count_lookup (_stats self) (len tokens)) ml)
       (_total_memory_bytes self)).
Proof.
  rewrite lookup_unfold. cbv zeta.
  destruct (trie.find_longest_prefix (_trie self) tokens) as [ml [k|]]; cbn [fst snd];
    [|discriminate].
  destruct (Z.ltb_spec ml (models.min_prefix_length (config self))); [discriminate|].
  destruct (pydict.get String.eqb (_entries self) k) as [e|] eqn:G; [|discriminate].
  destruct (_is_expired self e now1) eqn:X; [discriminate|].
  intros _. exists ml, k, e. repeat split; auto.
Qed.

Lemma get_touched (d : list (string * CacheEntry)) (k : string) (e' : CacheEntry)
  (k' : string) :
  NoDup (map fst d) ->
  pydict.get String.eqb (pydict.remove String.eqb d k ++ [(k, e')]) k'
  = if string_dec k' k then Some e' else pydict.get String.eqb d k'.
Proof.
  intros ND. rewrite <- touch_entries. now apply touch_get.
Qed.

(** X14. A hit is sound. When [lookup(tokens)] hits, the key it returns is
    the key of a live entry whose token sequence is exactly
    [matched_tokens], that key is [_compute_cache_key(matched_tokens)], the
    entry has not expired, and no live entry whose tokens are a prefix of
    [tokens] is longer than the match. The lookup replaces that entry by
    its touched copy ([last_accessed] set, [access_count] plus one) and
    changes no other entry, nor the index, nor the byte total. *)
Theorem lookup_hit_sound (c : models.CacheConfig) (ops : list op)
  (tokens : list Z) (now1 now2 : Q) :
  valid_config c ->
  let self := run_ops (CacheManager_new (Some c)) ops in
  let r := fst (lookup self tokens now1 now2) in
  let self' := snd (lookup self tokens now1 now2) in
  models.hit r = true ->
  exists e,
    get_entry self (models.cache_key r) = Some e /\
    cache.tokens e = models.matched_tokens r /\
    models.cache_key r = _compute_cache_key (models.matched_tokens r) /\
    _is_expired self e now1 = false /\
    (forall k' e', get_entry self k' = Some e' ->
                   trie_spec.is_prefix (cache.tokens e') tokens ->
                   len (cache.tokens e') <= models.matched_length r) /\
    get_entry self' (models.cache_key r) = Some (touch e now2) /\
    (forall k', k' <> models.cache_key r -> get_entry self' k' = get_entry self k') /\
    _trie self' = _trie self /\
    _total_memory_bytes self' = _total_memory_bytes self.
Proof.
  intros V self r self' H.
  destruct (Inv_reachable c ops V) as [Hw Hk He Hm _ _].
  fold self in Hw, Hk, He, Hm.
  destruct (lookup_hit self tokens now1 now2 H) as (ml & k & e & F & Ge & G & X & L).
  unfold r, self', get_entry. rewrite L.
  cbn [fst snd models.cache_key models.matched_tokens models.matched_length
       _entries _trie _total_memory_bytes].
  pose proof (trie_props.longest_stored_prefix (_trie self) tokens Hw) as Sp.
  cbv zeta in Sp. rewrite F in Sp. cbn [fst snd] in Sp.
  destruct Sp as (Hb & St & Hmax).
  apply (trie_facts.stored_marker _ _ _ Hw) in St. destruct St as [Hne Hmk].
  destruct (Hm _ _ Hne Hmk) as (e0 & G0 & Et).
  rewrite G in G0. injection G0 as <-.
  exists e. split; [exact G|]. split; [exact Et|].
  split.
  { destruct (He _ _ G) as (_ & Ek & _). now rewrite <- Et. }
  split; [exact X|]. split.
  { intros k' e' G' Hp. destruct (He _ _ G') as (_ & _ & Hn' & Hmk').
    apply (Hmax _ k' Hp). apply (trie_facts.stored_marker _ _ _ Hw). now split. }
  split.
  { rewrite (get_touched _ _ _ _ Hk). destruct (string_dec k k); [reflexivity|congruence]. }
  split; [|split; reflexivity].
  intros k' N. rewrite (get_touched _ _ _ _ Hk).
  destruct (string_dec k' k); [congruence|reflexivity].
Qed.

Lemma lookup_hit_sound_witness :
  let self := run_ops (CacheManager_new (Some sample_config)) sample_history in
  let r := fst (lookup self [7; 8; 9; 10] 2 2) in
  let self' := snd (lookup self [7; 8; 9; 10] 2 2) in
  exists e,
    get_entry self (models.cache_key r) = Some e /\
    cache.tokens e = models.matched_tokens r /\
    models.cache_key r = _compute_cache_key (models.matched_tokens r) /\
    _is_expired self e 2 = false /\
    (forall k' e', get_entry self k' = Some e' ->
                   trie_spec.is_prefix (cache.tokens e') [7; 8; 9; 10] ->
                   len (cache.tokens e') <= models.matched_length r) /\
    get_entry self' (models.cache_key r) = Some (touch e 2) /\
    (forall k', k' <> models.cache_key r -> get_entry self' k' = get_entry self k') /\
    _trie self' = _trie self /\
    _total_memory_bytes self' = _total_memory_bytes self.
Proof.
  apply (lookup_hit_sound sample_config sample_history [7; 8; 9; 10] 2 2).
  - reflexivity.
  - vm_compute. reflexivity.
Defined.

(** ** [store] followed by [lookup] *)

Lemma store_result (self : CacheManager) (tokens : list Z) (kv : Any) (mb : Z)
  (now : Q) :
  policy_ok (config self) -> Inv self ->
  models.min_prefix_length (config self) <= len tokens ->
  let key := _compute_cache_key tokens in
  let self' := snd (store self tokens kv mb now) in
  fst (store self tokens kv mb now) = Ok key /\
  exists e,
    pydict.get String.eqb (_entries self') key = Some e /\
    (forall e0, pydict.get String.eqb (_entries self) key = Some e0 ->
                e = touch e0 now /\
                self' = with_entries self
                          (pydict.remove String.eqb (_entries self) key ++ [(key, e)])) /\
    (pydict.get String.eqb (_entries self) key = None ->
     e = CacheEntry_new key tokens kv (footprint tokens mb) now).
Proof.
  intros P I Ge key self'. unfold self', store.
  destruct (Z.ltb_spec (len tokens) (models.min_prefix_length (config self))) as [Lt|_];
    [lia|].
  fold key.
  destruct (pydict.get String.eqb (_entries self) key) as [e0|] eqn:G.
  - cbn [fst snd with_entries _entries]. split; [reflexivity|].
    exists (touch e0 now). rewrite touch_entries. split.
    + rewrite (get_touched _ _ _ _ (inv_keys _ I)).
      destruct (string_dec key key); [reflexivity|congruence].
    + split; [|discriminate]. intros ? [= <-]. split; reflexivity.
  - set (entry := CacheEntry_new _ _ _ _ _).
    destruct (ensure_capacity_ok self (memory_bytes entry) P) as (self1 & E & _).
    rewrite E. cbn [fst snd _entries]. split; [reflexivity|].
    exists entry. split; [apply (pydict_facts.get_set_same String.eqb Seqb_eq)|].
    split; [discriminate|]. intros _. reflexivity.
Qed.

Lemma lookup_stored (self : CacheManager) (k : string) (e : CacheEntry)
  (now1 now2 : Q) :
  Inv self ->
  pydict.get String.eqb (_entries self) k = Some e ->
  models.min_prefix_length (config self) <= len (tokens e) ->
  _is_expired self e now1 = false ->
  fst (lookup self (tokens e) now1 now2)
  = models.mkPrefixMatch (tokens e) (len (tokens e)) (len (tokens e)) k [] true.
Proof.
  intros [Hw Hk He Hm _ _] G Ge X.
  destruct (He _ _ G) as (_ & _ & Hn & Hmk).
  assert (F : trie.find_longest_prefix (_trie self) (tokens e) = (len (tokens e), Some k)).
  { apply trie_props.find_stored; [exact Hw|].
    apply (trie_facts.stored_marker _ _ _ Hw). now split. }
  rewrite lookup_unfold. cbv zeta. rewrite F. cbn [fst snd].
  destruct (Z.ltb_spec (len (tokens e)) (models.min_prefix_length (config self)));
    [lia|].
  rewrite G, X. cbn [fst]. unfold len. rewrite Nat2Z.id, firstn_all, skipn_all.
  reflexivity.
Qed.

(** X15. [store(tokens)] followed by [lookup(tokens)]. For a sequence of at
    least [min_prefix_length] tokens whose key is not taken by an entry for
    other tokens, [store] returns [_compute_cache_key(tokens)] and leaves an
    entry for [tokens] under that key. An entry that the call created has
    [created_at] equal to the time of the call, and it is not expired at
    [now1] if the TTL is disabled or the float difference [now1 - now] is
    within the TTL, which is the case whenever the exact difference is
    within a TTL that is a binary64 number. Unless the entry is expired,
    [lookup(tokens)] then hits with the whole sequence matched, the key of
    the entry and nothing remaining. *)
Theorem store_then_lookup (c : models.CacheConfig) (ops : list op)
  (tokens : list Z) (kv : Any) (mb : Z) (now now1 now2 : Q) :
  valid_config c ->
  let self := run_ops (CacheManager_new (Some c)) ops in
  models.min_prefix_length c <= len tokens ->
  (forall e, get_entry self (_compute_cache_key tokens) = Some e ->
             cache.tokens e = tokens) ->
  let self' := snd (store self tokens kv mb now) in
  fst (store self tokens kv mb now) = Ok (_compute_cache_key tokens) /\
  exists e,
    get_entry self' (_compute_cache_key tokens) = Some e /\
    cache.tokens e = tokens /\
    (get_entry self (_compute_cache_key tokens) = None ->
     created_at e = now /\
     ((models.default_ttl_seconds c <= 0)%Q \/
      (pyfloat.sub now1 now <= models.default_ttl_seconds c)%Q ->
      _is_expired self' e now1 = false) /\
     (float_spec.is_double (models.default_ttl_seconds c) ->
      (now1 - now <= models.default_ttl_seconds c)%Q ->
      _is_expired self' e now1 = false)) /\
    (_is_expired self' e now1 = false ->
     fst (lookup self' tokens now1 now2)
     = models.mkPrefixMatch tokens (len tokens) (len tokens)
                            (_compute_cache_key tokens) [] true).
Proof.
  intros V self Ge NoColl self'.
  assert (Cc : config self = c) by (unfold self; now rewrite run_ops_config).
  destruct (valid_config_fields _ V) as (_ & _ & P & Hmin).
  pose proof (Inv_reachable c ops V) as I. fold self in I.
  assert (I' : Inv self').
  { apply Inv_store; [rewrite Cc; exact Hmin|exact I]. }
  assert (Cc' : config self' = c).
  { unfold self'. change (config (run_op self (OpStore tokens kv mb now)) = c).
    now rewrite run_op_config. }
  destruct (store_result self tokens kv mb now) as (R & e & G & Hold & Hnew);
    [now rewrite Cc|exact I|now rewrite Cc|].
  fold self' in G.
  split; [exact R|]. exists e. split; [exact G|].
  assert (Et : cache.tokens e = tokens).
  { unfold get_entry in NoColl.
    destruct (pydict.get String.eqb (_entries self) (_compute_cache_key tokens))
      as [e0|] eqn:G0.
    - destruct (Hold e0 eq_refl) as [-> _]. cbn [touch cache.tokens]. now apply NoColl.
    - rewrite (Hnew eq_refl).
      now destruct (new_entry_fields (_compute_cache_key tokens) tokens kv
                      (footprint tokens mb) now) as (_ & H & _). }
  split; [exact Et|]. split.
  { unfold get_entry. intros G0. rewrite (Hnew G0).
    destruct (new_entry_fields (_compute_cache_key tokens) tokens kv
                (footprint tokens mb) now) as (_ & _ & _ & _ & _ & Hc & _).
    split; [exact Hc|]. split.
    - unfold _is_expired. rewrite Cc', Hc.
      intros [Le|Le]; apply Qle_bool_iff in Le; rewrite Le; [reflexivity|].
      now destruct (Qle_bool (models.default_ttl_seconds c) 0).
    - intros D Le. apply age_within_ttl; rewrite Cc', ?Hc; assumption. }
  intros X. rewrite <- Et at 1. rewrite (lookup_stored self' _ e now1 now2 I' G).
  - now rewrite Et.
  - rewrite Cc', Et. exact Ge.
  - exact X.
Qed.

Lemma store_then_lookup_witness :
  let self := run_ops (CacheManager_new (Some sample_config)) sample_history in
  let self' := snd (store self [5; 6; 7] PyNone 0 3) in
  fst (store self [5; 6; 7] PyNone 0 3) = Ok (_compute_cache_key [5; 6; 7]) /\
  exists e,
    get_entry self' (_compute_cache_key [5; 6; 7]) = Some e /\
    cache.tokens e = [5; 6; 7] /\
    (get_entry self (_compute_cache_key [5; 6; 7]) = None ->
     created_at e = 3%Q /\
     ((models.default_ttl_seconds sample_config <= 0)%Q \/
      (pyfloat.sub 3 3 <= models.default_ttl_seconds sample_config)%Q ->
      _is_expired self' e 3 = false) /\
     (float_spec.is_double (models.default_ttl_seconds sample_config) ->
      (3 - 3 <= models.default_ttl_seconds sample_config)%Q ->
      _is_expired self' e 3 = false)) /\
    (_is_expired self' e 3 = false ->
     fst (lookup self' [5; 6; 7] 3 3)
     = models.mkPrefixMatch [5; 6; 7] (len [5; 6; 7]) (len [5; 6; 7])
                            (_compute_cache_key [5; 6; 7]) [] true).
Proof.
  apply (store_then_lookup sample_config sample_history [5; 6; 7] PyNone 0 3 3 3).
  - reflexivity.
  - vm_compute. discriminate.
  - assert (G : get_entry (run_ops (CacheManager_new (Some sample_config)) sample_history)
                          (_compute_cache_key [5; 6; 7]) = None)
      by (vm_compute; reflexivity).
    intros e He. rewrite G in He. discriminate.
Defined.

(** X16. With the TTL disabled ([default_ttl_seconds <= 0]), a query that
    starts with the token sequence of a live entry is a hit, and the match
    is at least as long as that entry. *)
Theorem cached_prefix_hits (c : models.CacheConfig) (ops : list op)
  (k : string) (e : CacheEntry) (q : list Z) (now1 now2 : Q) :
  valid_config c ->
  (models.default_ttl_seconds c <= 0)%Q ->
  let self := run_ops (CacheManager_new (Some c)) ops in
  get_entry self k = Some e ->
  trie_spec.is_prefix (cache.tokens e) q ->
  let r := fst (lookup self q now1 now2) in
  models.hit r = true /\ len (cache.tokens e) <= models.matched_length r.
Proof.
  intros V Ttl self G Hp r.
  assert (Cc : config self = c) by (unfold self; now rewrite run_ops_config).
  destruct (Inv_reachable c ops V) as [Hw Hk He Hm _ _].
  fold self in Hw, Hk, He, Hm.
  destruct (entries_ok_reachable c ops k e G) as (_ & _ & _ & Hlen & _).
  unfold get_entry in G. destruct (He _ _ G) as (_ & _ & Hn & Hmk).
  assert (St : trie_spec.stored (_trie self) (cache.tokens e) k).
  { apply (trie_facts.stored_marker _ _ _ Hw). now split. }
  pose proof (trie_props.longest_stored_prefix (_trie self) q Hw) as Sp.
  cbv zeta in Sp. unfold r. rewrite lookup_unfold. cbv zeta.
  destruct (snd (trie.find_longest_prefix (_trie self) q)) as [k'|] eqn:F.
  2:{ destruct Sp as [_ Sp]. exfalso. exact (Sp _ _ Hp St). }
  destruct Sp as (Hb & St' & Hmax).
  pose proof (Hmax _ _ Hp St) as Hle.
  set (ml := fst (trie.find_longest_prefix (_trie self) q)) in *.
  destruct (Z.ltb_spec ml (models.min_prefix_length (config self))) as [Lt|_];
    [rewrite Cc in Lt; lia|].
  apply (trie_facts.stored_marker _ _ _ Hw) in St'. destruct St' as [Hne' Hmk'].
  destruct (Hm _ _ Hne' Hmk') as (e' & G' & _). rewrite G'.
  assert (X : _is_expired self e' now1 = false).
  { unfold _is_expired. rewrite Cc. apply Qle_bool_iff in Ttl. now rewrite Ttl. }
  rewrite X. cbn [fst models.hit models.matched_length]. split; [reflexivity|exact Hle].
Qed.

Lemma cached_prefix_hits_witness :
  let self :=
    run_ops (CacheManager_new (Some (models.mkCacheConfig 10 1 0 "lru" 2)))
            [OpStore [1; 2; 3] PyNone 0 0; OpStore [1; 2; 3; 4; 5] PyNone 0 1] in
  let r := fst (lookup self [1; 2; 3; 4; 9] 7 7) in
  models.hit r = true /\ len [1; 2; 3] <= models.matched_length r.
Proof.
  apply (cached_prefix_hits (models.mkCacheConfig 10 1 0 "lru" 2)
           [OpStore [1; 2; 3] PyNone 0 0; OpStore [1; 2; 3; 4; 5] PyNone 0 1]
           (_compute_cache_key [1; 2; 3])
           (mkCacheEntry (_compute_cache_key [1; 2; 3]) [1; 2; 3] PyNone 3 6144 0 0 0)
           [1; 2; 3; 4; 9] 7 7).
  - reflexivity.
  - discriminate.
  - vm_compute. reflexivity.
  - now exists [4; 9].
Defined.

(** X17. A repeated [store] of the same tokens does not replace the entry.
    The second call returns the same key and touches the entry
    ([last_accessed] set to the time of the call, [access_count] plus one):
    [kv_data], [memory_bytes] and [created_at] stay as they were, whatever
    payload and footprint the second call supplies. No other entry, nor the
    index, the byte total or the statistics change, and the entry becomes
    the last one of the map order. *)
Theorem store_again_keeps_entry (c : models.CacheConfig) (ops : list op)
  (tokens : list Z) (kv : Any) (mb : Z) (now : Q) (kv' : Any) (mb' : Z) (now' : Q) :
  valid_config c ->
  let self := run_ops (CacheManager_new (Some c)) ops in
  models.min_prefix_length c <= len tokens ->
  let key := _compute_cache_key tokens in
  let self1 := snd (store self tokens kv mb now) in
  let self2 := snd (store self1 tokens kv' mb' now') in
  fst (store self1 tokens kv' mb' now') = Ok key /\
  exists e,
    get_entry self1 key = Some e /\
    get_entry self2 key = Some (touch e now') /\
    kv_data (touch e now') = kv_data e /\
    memory_bytes (touch e now') = memory_bytes e /\
    created_at (touch e now') = created_at e /\
    access_count (touch e now') = access_count e + 1 /\
    last_accessed (touch e now') = now' /\
    (forall k', k' <> key -> get_entry self2 k' = get_entry self1 k') /\
    _trie self2 = _trie self1 /\
    _total_memory_bytes self2 = _total_memory_bytes self1 /\
    _stats self2 = _stats self1 /\
    last (map fst (_entries self2)) EmptyString = key.
Proof.
  intros V self Ge key self1 self2.
  assert (Cc : config self = c) by (unfold self; now rewrite run_ops_config).
  destruct (valid_config_fields _ V) as (_ & _ & P & Hmin).
  pose proof (Inv_reachable c ops V) as I. fold self in I.
  assert (I1 : Inv self1).
  { apply Inv_store; [rewrite Cc; exact Hmin|exact I]. }
  assert (Cc1 : config self1 = c).
  { unfold self1. change (config (run_op self (OpStore tokens kv mb now)) = c).
    now rewrite run_op_config. }
  destruct (store_result self tokens kv mb now) as (_ & e & G & _);
    [now rewrite Cc|exact I|now rewrite Cc|].
  fold self1 key in G.
  destruct (store_result self1 tokens kv' mb' now') as (R2 & e2 & G2 & Hold & _);
    [now rewrite Cc1|exact I1|now rewrite Cc1|].
  fold self2 key in G2, R2, Hold.
  destruct (Hold e G) as [-> E2].
  split; [exact R2|]. exists e. unfold get_entry.
  split; [exact G|]. split; [exact G2|].
  repeat (split; [reflexivity|]).
  rewrite E2. cbn [with_entries _entries _trie _stats _total_memory_bytes].
  split.
  { intros k' N. rewrite (get_touched _ _ _ _ (inv_keys _ I1)).
    destruct (string_dec k' key); [congruence|reflexivity]. }
  repeat (split; [reflexivity|]).
  rewrite map_app. cbn [map fst]. apply last_last.
Qed.

Lemma store_again_keeps_entry_witness :
  let self := run_ops (CacheManager_new (Some sample_config)) sample_history in
  let key := _compute_cache_key [5; 6; 7] in
  let self1 := snd (store self [5; 6; 7] (PyObject 1) 0 3) in
  let self2 := snd (store self1 [5; 6; 7] (PyObject 2) 4096 4) in
  fst (store self1 [5; 6; 7] (PyObject 2) 4096 4) = Ok key /\
  exists e,
    get_entry self1 key = Some e /\
    get_entry self2 key = Some (touch e 4) /\
    kv_data (touch e 4) = kv_data e /\
    memory_bytes (touch e 4) = memory_bytes e /\
    created_at (touch e 4) = created_at e /\
    access_count (touch e 4) = access_count e + 1 /\
    last_accessed (touch e 4) = 4%Q /\
    (forall k', k' <> key -> get_entry self2 k' = get_entry self1 k') /\
    _trie self2 = _trie self1 /\
    _total_memory_bytes self2 = _total_memory_bytes self1 /\
    _stats self2 = _stats self1 /\
    last (map fst (_entries self2)) EmptyString = key.
Proof.
  apply (store_again_keeps_entry sample_config sample_history [5; 6; 7]
           (PyObject 1) 0 3 (PyObject 2) 4096 4).
  - reflexivity.
  - vm_compute. discriminate.
Defined.

(** X18. The value that [store] returns. For a sequence shorter than
    [min_prefix_length] it returns the empty string and leaves the manager
    as it was; for any other sequence it returns
    [_compute_cache_key(tokens)] and an entry is filed under that key
    afterwards. The empty string is returned for short sequences only. *)
Theorem store_return_value (c : models.CacheConfig) (ops : list op)
  (tokens : list Z) (kv : Any) (mb : Z) (now : Q) :
  valid_config c ->
  let self := run_ops (CacheManager_new (Some c)) ops in
  (len tokens < models.min_prefix_length c ->
   store self tokens kv mb now = (Ok EmptyString, self)) /\
  (models.min_prefix_length c <= len tokens ->
   fst (store self tokens kv mb now) = Ok (_compute_cache_key tokens) /\
   get_entry (snd (store self tokens kv mb now)) (_compute_cache_key tokens) <> None) /\
  (fst (store self tokens kv mb now) = Ok EmptyString <->
   len tokens < models.min_prefix_length c).
Proof.
  intros V self.
  assert (Cc : config self = c) by (unfold self; now rewrite run_ops_config).
  destruct (valid_config_fields _ V) as (_ & _ & P & Hmin).
  pose proof (Inv_reachable c ops V) as I. fold self in I.
  assert (Short : len tokens < models.min_prefix_length c ->
                  store self tokens kv mb now = (Ok EmptyString, self)).
  { intros Lt. unfold store. rewrite Cc.
    destruct (Z.ltb_spec (len tokens) (models.min_prefix_length c)); [reflexivity|lia]. }
  assert (Long : models.min_prefix_length c <= len tokens ->
                 fst (store self tokens kv mb now) = Ok (_compute_cache_key tokens) /\
                 get_entry (snd (store self tokens kv mb now)) (_compute_cache_key tokens)
                 <> None).
  { intros Ge.
    destruct (store_result self tokens kv mb now) as (R & e & G & _);
      [now rewrite Cc|exact I|now rewrite Cc|].
    split; [exact R|]. unfold get_entry. rewrite G. discriminate. }
  refine (conj Short (conj Long _)). split.
  - intros E. destruct (Z.lt_ge_cases (len tokens) (models.min_prefix_length c)) as [|Ge];
      [assumption|].
    destruct (Long Ge) as [R _]. rewrite R in E. injection E as E.
    now apply cache_key_nonempty in E.
  - intros Lt. now rewrite (Short Lt).
Qed.

Lemma store_return_value_witness :
  let self := run_ops (CacheManager_new (Some sample_config)) sample_history in
  (len [5] < models.min_prefix_length sample_config ->
   store self [5] PyNone 0 3 = (Ok EmptyString, self)) /\
  (models.min_prefix_length sample_config <= len [5] ->
   fst (store self [5] PyNone 0 3) = Ok (_compute_cache_key [5]) /\
   get_entry (snd (store self [5] PyNone 0 3)) (_compute_cache_key [5]) <> None) /\
  (fst (store self [5] PyNone 0 3) = Ok EmptyString <->
   len [5] < models.min_prefix_length sample_config).
Proof.
  apply (store_return_value sample_config sample_history [5] PyNone 0 3). reflexivity.
Defined.

(** X19. A [store] into a cache with room evicts nothing. When the key is
    new, the map holds fewer than [max_entries] entries and the byte total
    plus the footprint of the new entry is within the budget, the new entry
    is appended to the map, every entry that was there stays, the byte total
    grows by the footprint and the statistics are unchanged. *)
Theorem store_with_room (c : models.CacheConfig) (ops : list op)
  (tokens : list Z) (kv : Any) (mb : Z) (now : Q) :
  valid_config c ->
  let self := run_ops (CacheManager_new (Some c)) ops in
  let key := _compute_cache_key tokens in
  let self' := snd (store self tokens kv mb now) in
  models.min_prefix_length c <= len tokens ->
  get_entry self key = None ->
  len (_entries self) < models.max_entries c ->
  _total_memory_bytes self + footprint tokens mb <= max_memory_bytes c ->
  _entries self' =
    _entries self ++ [(key, CacheEntry_new key tokens kv (footprint tokens mb) now)] /\
  _total_memory_bytes self' = _total_memory_bytes self + footprint tokens mb /\
  _stats self' = _stats self /\
  (forall k e, get_entry self k = Some e -> get_entry self' k = Some e).
Proof.
  intros V self key self' Ge G Hn Hb.
  assert (Cc : config self = c) by (unfold self; now rewrite run_ops_config).
  unfold get_entry in G.
  assert (O : over_capacity self (footprint tokens mb) (max_memory_bytes (config self))
              = false).
  { unfold over_capacity. rewrite Cc.
    destruct (Z.geb_spec (len (_entries self)) (models.max_entries c)); [lia|].
    destruct (Z.gtb_spec (_total_memory_bytes self + footprint tokens mb)
                         (max_memory_bytes c)); [lia|].
    reflexivity. }
  unfold self', store. rewrite Cc.
  destruct (Z.ltb_spec (len tokens) (models.min_prefix_length c)); [lia|].
  fold key. rewrite G.
  rewrite new_entry_memory. unfold _ensure_capacity.
  rewrite ensure_loop_trie_stats by exact O.
  cbn [snd _entries _total_memory_bytes _stats].
  rewrite (set_absent _ _ _ G).
  repeat (split; [reflexivity|]).
  intros k e Gk. unfold get_entry in *. cbn [_entries].
  rewrite (pydict_facts.get_app_absent String.eqb). now rewrite Gk.
Qed.

Lemma store_with_room_witness :
  let self :=
    run_ops (CacheManager_new (Some (models.mkCacheConfig 10 1 0 "lru" 2)))
            sample_timeline in
  let key := _compute_cache_key [5; 6; 7] in
  let self' := snd (store self [5; 6; 7] PyNone 0 3) in
  len (_entries self) = 3 /\
  _entries self' =
    _entries self ++ [(key, CacheEntry_new key [5; 6; 7] PyNone (footprint [5; 6; 7] 0) 3)] /\
  _total_memory_bytes self' = _total_memory_bytes self + footprint [5; 6; 7] 0 /\
  _stats self' = _stats self /\
  (forall k e, get_entry self k = Some e -> get_entry self' k = Some e).
Proof.
  split; [vm_compute; reflexivity|].
  apply (store_with_room (models.mkCacheConfig 10 1 0 "lru" 2) sample_timeline
           [5; 6; 7] PyNone 0 3).
  - reflexivity.
  - vm_compute. discriminate.
  - vm_compute. reflexivity.
  - vm_compute. reflexivity.
  - vm_compute. discriminate.
Defined.

(** X21. [evict(k)] returns [True] exactly when an entry is filed under
    [k]; when it returns [False] the manager is unchanged. Afterwards no
    entry is filed under [k] and every other entry is as before. If an entry
    was there, the map has one entry less, the byte total is lower by its
    footprint, the eviction counter is one higher, its token sequence is no
    longer stored in the index and the size of the index is one lower. A
    [lookup] on the manager that [evict] leaves never hits with the key
    [k]. *)
Theorem evict_removes_entry (c : models.CacheConfig) (ops : list op) (k : string) :
  valid_config c ->
  let self := run_ops (CacheManager_new (Some c)) ops in
  let self' := snd (evict self k) in
  (fst (evict self k) = true <-> get_entry self k <> None) /\
  (fst (evict self k) = false -> self' = self) /\
  get_entry self' k = None /\
  (forall k', k' <> k -> get_entry self' k' = get_entry self k') /\
  (forall e, get_entry self k = Some e ->
     len (_entries self') = len (_entries self) - 1 /\
     _total_memory_bytes self' = _total_memory_bytes self - memory_bytes e /\
     models.evictions (_stats self') = models.evictions (_stats self) + 1 /\
     (forall k', ~ trie_spec.stored (_trie self') (cache.tokens e) k') /\
     trie.size (_trie self') = trie.size (_trie self) - 1) /\
  (forall tokens now1 now2,
     models.hit (fst (lookup self' tokens now1 now2)) = true ->
     models.cache_key (fst (lookup self' tokens now1 now2)) <> k).
Proof.
  intros V self self'.
  pose proof (Inv_reachable c ops V) as I. fold self in I.
  pose proof (Inv_evict_entry self k I) as I'.
  destruct I as [Hw Hk He Hm Hc Hb].
  assert (Gone : get_entry self' k = None).
  { unfold self', evict, get_entry. rewrite evict_entry_entries.
    now apply (pydict_facts.get_remove_same String.eqb Seqb_eq). }
  unfold self', evict, get_entry in *. unfold _evict_entry in *.
  destruct (pydict.get String.eqb (_entries self) k) as [e|] eqn:G;
    cbn [fst snd _entries _trie _stats _total_memory_bytes] in *.
  - split; [split; [discriminate|reflexivity]|]. split; [discriminate|].
    split; [exact Gone|]. split.
    { intros k' N. now apply (pydict_facts.get_remove_other String.eqb Seqb_eq). }
    split.
    { intros ? [= <-]. destruct (He _ _ G) as (_ & _ & Hn & Hmk).
      split.
      { unfold len. rewrite pydict_facts.length_remove. unfold pydict.contains.
        rewrite G. pose proof (get_Some_length _ _ _ G). lia. }
      split; [reflexivity|]. split; [reflexivity|]. split.
      { intros k' St. apply trie_facts.stored_marker in St; [|apply I'].
        destruct St as [_ St]. rewrite (trie_facts.marker_remove _ _ _ Hn) in St.
        destruct (list_eq_dec Z.eq_dec (cache.tokens e) (cache.tokens e));
          [discriminate|congruence]. }
      unfold trie.size.
      destruct (trie_facts.wf_remove _ (cache.tokens e) Hw) as (_ & _ & _ & ->).
      destruct Hw as (_ & _ & _ & ->).
      rewrite (trie_facts.count_remove _ _ Hn), Hmk. reflexivity. }
    intros tokens now1 now2 H.
    destruct (lookup_hit _ tokens now1 now2 H) as (ml & k0 & e0 & _ & _ & G0 & _ & L).
    rewrite L. cbn [fst models.cache_key]. cbn [_entries] in G0.
    intros ->. congruence.
  - split; [split; [discriminate|congruence]|]. split; [reflexivity|].
    split; [exact G|]. split; [reflexivity|]. split; [discriminate|].
    intros tokens now1 now2 H.
    destruct (lookup_hit _ tokens now1 now2 H) as (ml & k0 & e0 & _ & _ & G0 & _ & L).
    rewrite L. cbn [fst models.cache_key]. intros ->. congruence.
Qed.

Lemma evict_removes_entry_witness :
  let self := run_ops (CacheManager_new (Some sample_config)) sample_history in
  let k := _compute_cache_key [7; 8; 9] in
  let self' := snd (evict self k) in
  (fst (evict self k) = true <-> get_entry self k <> None) /\
  (fst (evict self k) = false -> self' = self) /\
  get_entry self' k = None /\
  (forall k', k' <> k -> get_entry self' k' = get_entry self k') /\
  (forall e, get_entry self k = Some e ->
     len (_entries self') = len (_entries self) - 1 /\
     _total_memory_bytes self' = _total_memory_bytes self - memory_bytes e /\
     models.evictions (_stats self') = models.evictions (_stats self) + 1 /\
     (forall k', ~ trie_spec.stored (_trie self') (cache.tokens e) k') /\
     trie.size (_trie self') = trie.size (_trie self) - 1) /\
  (forall tokens now1 now2,
     models.hit (fst (lookup self' tokens now1 now2)) = true ->
     models.cache_key (fst (lookup self' tokens now1 now2)) <> k).
Proof.
  apply (evict_removes_entry sample_config sample_history (_compute_cache_key [7; 8; 9])).
  reflexivity.
Defined.

Lemma over_capacity_empty (self : CacheManager) (needed m : Z) :
  _entries self = [] -> over_capacity self needed m = false.
Proof. intros E. unfold over_capacity. rewrite E. apply andb_false_r. Qed.

(** X22. [clear()] empties the cache in any state: afterwards every
    [lookup] misses, no key has an entry, [evict] of any key returns
    [False], [stats] reports 0 entries and 0 MB and the index has size 0.
    The configuration is kept and the eviction counter is not changed.
    A [store] on the cleared manager returns what it returns on a fresh
    manager with the same configuration and leaves the same map, index and
    byte total. *)
Theorem clear_empties (self : CacheManager) :
  let self' := clear self in
  (forall tokens now1 now2, fst (lookup self' tokens now1 now2) = miss tokens) /\
  (forall k, get_entry self' k = None) /\
  (forall k, fst (evict self' k) = false) /\
  models.entries_count (fst (stats self')) = 0 /\
  (models.memory_used_mb (fst (stats self')) == 0)%Q /\
  trie.size (_trie self') = 0 /\
  models.evictions (_stats self') = models.evictions (_stats self) /\
  config self' = config self /\
  (forall tokens kv mb now,
     let fresh := CacheManager_new (Some (config self)) in
     fst (store self' tokens kv mb now) = fst (store fresh tokens kv mb now) /\
     _entries (snd (store self' tokens kv mb now))
       = _entries (snd (store fresh tokens kv mb now)) /\
     _trie (snd (store self' tokens kv mb now))
       = _trie (snd (store fresh tokens kv mb now)) /\
     _total_memory_bytes (snd (store self' tokens kv mb now))
       = _total_memory_bytes (snd (store fresh tokens kv mb now))).
Proof.
  cbv zeta. split.
  { intros tokens now1 now2. rewrite lookup_unfold. cbv zeta.
    cbn [clear _trie]. destruct tokens; reflexivity. }
  split; [reflexivity|]. split; [reflexivity|]. split; [reflexivity|].
  split; [reflexivity|]. split; [reflexivity|]. split; [reflexivity|].
  split; [reflexivity|].
  intros tokens kv mb now. unfold store. cbn [clear CacheManager_new config _entries].
  destruct (len tokens <? _); [repeat split|].
  cbn [pydict.get]. unfold _ensure_capacity.
  rewrite !ensure_loop_trie_stats by (now apply over_capacity_empty).
  repeat split.
Qed.

(** ** [min] with a key *)

Lemma py_min_fold {A : Type} (f : A -> Z) (ys : list A) :
  forall best,
    let m := fold_left (fun best y => if f y <? f best then y else best) ys best in
    (m = best /\ Forall (fun y => f best <= f y) ys) \/
    (exists l1 l2, ys = l1 ++ m :: l2 /\ f m < f best /\
                   Forall (fun y => f m < f y) l1 /\ Forall (fun y => f m <= f y) l2).
Proof.
  induction ys as [|y r IH]; intros best; cbn [fold_left].
  - left. split; [reflexivity|constructor].
  - destruct (Z.ltb_spec (f y) (f best)) as [Lt|Ge].
    + right. destruct (IH y) as [[E F]|(l1 & l2 & E & Hlt & F1 & F2)].
      * exists [], r. cbv zeta in E. rewrite E. repeat split; auto.
      * exists (y :: l1), l2. cbv zeta in *. repeat split; auto.
        -- cbn. now f_equal.
        -- lia.
    + destruct (IH best) as [[E F]|(l1 & l2 & E & Hlt & F1 & F2)].
      * left. split; [exact E|]. constructor; [lia|exact F].
      * right. exists (y :: l1), l2. cbv zeta in *. repeat split; auto.
        -- cbn. now f_equal.
        -- constructor; [lia|exact F1].
Qed.

(** [min(x :: xs, key=f)] is the first element at which [f] is least. *)
Lemma py_min_first_least {A : Type} (f : A -> Z) (x : A) (xs : list A) :
  exists l1 l2,
    x :: xs = l1 ++ py_min f x xs :: l2 /\
    Forall (fun y => f (py_min f x xs) < f y) l1 /\
    Forall (fun y => f (py_min f x xs) <= f y) l2.
Proof.
  unfold py_min. destruct (py_min_fold f xs x) as [[E F]|(l1 & l2 & E & Hlt & F1 & F2)];
    cbv zeta in *.
  - exists [], xs. rewrite E. repeat split; auto.
  - exists (x :: l1), l2. repeat split; auto.
    + cbn. now f_equal.
Qed.

(** X23. Under the policy [lfu], [_evict_one] on a map that is not empty
    removes the first entry, in map order, whose [access_count] is least:
    every entry before it has a strictly larger count and every entry after
    it a count at least as large. *)
Theorem lfu_evicts_least_used (c : models.CacheConfig) (ops : list op) :
  valid_config c ->
  models.eviction_policy c = "lfu"%string ->
  let self := run_ops (CacheManager_new (Some c)) ops in
  _entries self <> [] ->
  exists k e d1 d2,
    _entries self = d1 ++ (k, e) :: d2 /\
    _entries (_evict_one self) = d1 ++ d2 /\
    get_entry self k = Some e /\
    get_entry (_evict_one self) k = None /\
    Forall (fun ke => access_count e < access_count (snd ke)) d1 /\
    Forall (fun ke => access_count e <= access_count (snd ke)) d2 /\
    (forall k' e', get_entry self k' = Some e' -> access_count e <= access_count e').
Proof.
  intros V Pol self Ne.
  assert (Cc : config self = c) by (unfold self; now rewrite run_ops_config).
  destruct (Inv_reachable c ops V) as [Hw Hk He Hm _ _].
  fold self in Hw, Hk, He, Hm.
  rewrite evict_one_victim. unfold victim. rewrite Cc, Pol.
  cbn [String.eqb Ascii.eqb Bool.eqb].
  destruct (_entries self) as [|[k0 e0] rest] eqn:E; [congruence|].
  set (f := fun k => match pydict.get String.eqb ((k0, e0) :: rest) k with
                     | Some e => access_count e
                     | None => 0
                     end).
  destruct (py_min_first_least f k0 (map fst rest)) as (l1 & l2 & Hsplit & F1 & F2).
  set (kv := py_min f k0 (map fst rest)) in *.
  change (k0 :: map fst rest) with (map fst ((k0, e0) :: rest)) in Hsplit.
  apply map_eq_app in Hsplit. destruct Hsplit as (d1 & d2' & Ed & M1 & M2).
  destruct d2' as [|[kv' ev] d2]; [discriminate|]. cbn [map fst] in M2.
  injection M2 as Ekv M2. subst kv'.
  assert (Get : forall k' e', In (k', e') ((k0, e0) :: rest) -> f k' = access_count e').
  { intros k' e' Hin. unfold f.
    now rewrite (pydict_facts.In_get String.eqb Seqb_eq _ _ _ Hk Hin). }
  assert (Gv : pydict.get String.eqb ((k0, e0) :: rest) kv = Some ev).
  { apply (pydict_facts.In_get String.eqb Seqb_eq _ _ _ Hk).
    rewrite Ed. apply in_or_app. right. now left. }
  assert (Fv : f kv = access_count ev).
  { apply Get. rewrite Ed. apply in_or_app. right. now left. }
  exists kv, ev, d1, d2. split; [exact Ed|].
  assert (Rm : pydict.remove String.eqb ((k0, e0) :: rest) kv = d1 ++ d2).
  { rewrite Ed. rewrite Ed in Hk. clear - Hk.
    induction d1 as [|[k1 e1] d1 IH]; cbn.
    - now rewrite String.eqb_refl.
    - cbn in Hk. inversion Hk as [|? ? Hni ND]; subst.
      destruct (String.eqb_spec k1 kv) as [->|N].
      + exfalso. apply Hni. rewrite map_app. apply in_or_app. right. now left.
      + now rewrite (IH ND). }
  split.
  { rewrite evict_entry_entries, E. exact Rm. }
  unfold get_entry. split; [rewrite E; exact Gv|]. split.
  { rewrite evict_entry_entries, E.
    now apply (pydict_facts.get_remove_same String.eqb Seqb_eq). }
  assert (A1 : Forall (fun ke => access_count ev < access_count (snd ke)) d1).
  { rewrite <- M1 in F1. rewrite Forall_map in F1.
    rewrite Forall_forall in F1 |- *. intros [k' e'] Hin. cbn [snd].
    specialize (F1 _ Hin). cbn [fst] in F1.
    rewrite Fv, (Get k' e') in F1; [exact F1|].
    rewrite Ed. apply in_or_app. now left. }
  assert (A2 : Forall (fun ke => access_count ev <= access_count (snd ke)) d2).
  { rewrite <- M2 in F2. rewrite Forall_map in F2.
    rewrite Forall_forall in F2 |- *. intros [k' e'] Hin. cbn [snd].
    specialize (F2 _ Hin). cbn [fst] in F2.
    rewrite Fv, (Get k' e') in F2; [exact F2|].
    rewrite Ed. apply in_or_app. right. now right. }
  split; [exact A1|]. split; [exact A2|].
  intros k' e' G'. rewrite E in G'.
  apply (pydict_facts.get_In String.eqb Seqb_eq) in G'.
  rewrite Ed in G'. apply in_app_or in G'. destruct G' as [H|[H|H]].
  - rewrite Forall_forall in A1. specialize (A1 _ H). cbn in A1. lia.
  - injection H as _ <-. lia.
  - rewrite Forall_forall in A2. exact (A2 _ H).
Qed.

Lemma lfu_evicts_least_used_witness :
  let self :=
    run_ops (CacheManager_new (Some sample_config))
            [OpStore [1; 2; 3] PyNone 0 0; OpStore [1; 2; 4; 5] PyNone 0 0;
             OpLookup [1; 2; 3; 9] 0 0] in
  exists k e d1 d2,
    _entries self = d1 ++ (k, e) :: d2 /\
    _entries (_evict_one self) = d1 ++ d2 /\
    get_entry self k = Some e /\
    get_entry (_evict_one self) k = None /\
    Forall (fun ke => access_count e < access_count (snd ke)) d1 /\
    Forall (fun ke => access_count e <= access_count (snd ke)) d2 /\
    (forall k' e', get_entry self k' = Some e' -> access_count e <= access_count e').
Proof.
  apply (lfu_evicts_least_used sample_config
           [OpStore [1; 2; 3] PyNone 0 0; OpStore [1; 2; 4; 5] PyNone 0 0;
            OpLookup [1; 2; 3; 9] 0 0]).
  - reflexivity.
  - reflexivity.
  - vm_compute. discriminate.
Defined.

(** ** The recency order *)

Lemma sorted_remove (d : list (string * CacheEntry)) (k : string) :
  StronglySorted older d -> StronglySorted older (pydict.remove String.eqb d k).
Proof.
  induction 1 as [|[k0 e0] r Hs IH Hf]; cbn; [constructor|].
  destruct (String.eqb k0 k); [exact Hs|].
  constructor; [exact IH|]. now apply Forall_remove.
Qed.

Lemma sorted_snoc (d : list (string * CacheEntry)) (x : string * CacheEntry) :
  StronglySorted older d -> Forall (fun a => older a x) d ->
  StronglySorted older (d ++ [x]).
Proof.
  induction 1 as [|a r Hs IH Hf]; intros F; cbn.
  - constructor; constructor.
  - inversion F as [|? ? Ha Fr]; subst. constructor; [now apply IH|].
    apply Forall_app. split; [exact Hf|]. now constructor.
Qed.

Lemma recency_remove (t : Q) (d : list (string * CacheEntry)) (k : string) :
  recency_ordered t d -> recency_ordered t (pydict.remove String.eqb d k).
Proof.
  intros [S F]. split; [now apply sorted_remove|now apply Forall_remove].
Qed.

Lemma recency_removes (t : Q) (ks : list string) :
  forall d, recency_ordered t d -> recency_ordered t (removes d ks).
Proof.
  induction ks as [|k ks IH]; intros d R; [exact R|].
  cbn [removes fold_left]. apply IH. now apply recency_remove.
Qed.

Lemma recency_later (t t' : Q) (d : list (string * CacheEntry)) :
  (t <= t')%Q -> recency_ordered t d -> recency_ordered t' d.
Proof.
  intros Le [S F]. split; [exact S|].
  eapply Forall_impl; [|exact F]. cbn. intros a [H1 H2]. split; [exact H1|].
  eapply Qle_trans; eauto.
Qed.

Lemma recency_snoc (t now : Q) (d : list (string * CacheEntry)) (k : string)
  (e : CacheEntry) :
  recency_ordered t d -> (t <= now)%Q ->
  last_accessed e = now -> (created_at e <= now)%Q ->
  recency_ordered now (d ++ [(k, e)]).
Proof.
  intros [S F] Le La Cr. split.
  - apply sorted_snoc; [exact S|].
    eapply Forall_impl; [|exact F]. cbn. intros a [_ H]. unfold older. cbn [snd].
    rewrite La. eapply Qle_trans; eauto.
  - apply Forall_snoc.
    + eapply Forall_impl; [|exact F]. cbn. intros a [H1 H2]. split; [exact H1|].
      eapply Qle_trans; eauto.
    + cbn [snd]. rewrite La. split; [exact Cr|apply Qle_refl].
Qed.

Lemma recency_get (t : Q) (d : list (string * CacheEntry)) (k : string) (e : CacheEntry) :
  recency_ordered t d -> pydict.get String.eqb d k = Some e ->
  (created_at e <= last_accessed e)%Q /\ (last_accessed e <= t)%Q.
Proof.
  intros [_ F] G. apply (pydict_facts.get_In String.eqb Seqb_eq) in G.
  rewrite Forall_forall in F. exact (F _ G).
Qed.

Lemma recency_run_ops (ops : list op) :
  forall (t : Q) (self : CacheManager),
    monotone_from t ops -> recency_ordered t (_entries self) ->
    exists t', recency_ordered t' (_entries (run_ops self ops)).
Proof.
  induction ops as [|o r IH]; intros t self M R; [now exists t|].
  cbn [run_ops fold_left]. fold (run_ops (run_op self o) r).
  destruct o as [tk kv mb now|tk n1 n2|k| |]; cbn [monotone_from run_op] in *.
  - destruct M as [Le M]. apply (IH now); [exact M|].
    destruct (store_entries self tk kv mb now)
      as [[_ ->]|[(_ & e & G & ->)|(_ & G & ks & [->| ->])]].
    + now apply (recency_later t).
    + destruct (recency_get _ _ _ _ R G) as [C1 C2].
      apply (recency_snoc t); [now apply recency_remove|exact Le|reflexivity|].
      cbn [touch created_at]. eapply Qle_trans; [exact C1|].
      eapply Qle_trans; eauto.
    + apply (recency_later t); [exact Le|]. now apply recency_removes.
    + destruct (new_entry_fields (_compute_cache_key tk) tk kv (footprint tk mb) now)
        as (_ & _ & _ & _ & _ & Cr & La).
      apply (recency_snoc t); [now apply recency_removes|exact Le|exact La|].
      rewrite Cr. apply Qle_refl.
  - destruct M as (Le1 & Le2 & M). apply (IH n2); [exact M|].
    assert (Le : (t <= n2)%Q) by (eapply Qle_trans; eauto).
    destruct (lookup_entries self tk n1 n2) as [->|[[k ->]|(k & e & G & ->)]].
    + now apply (recency_later t).
    + apply (recency_later t); [exact Le|]. now apply recency_remove.
    + destruct (recency_get _ _ _ _ R G) as [C1 C2].
      apply (recency_snoc t); [now apply recency_remove|exact Le|reflexivity|].
      cbn [touch created_at]. eapply Qle_trans; [exact C1|].
      eapply Qle_trans; eauto.
  - apply (IH t); [exact M|]. unfold evict. rewrite evict_entry_entries.
    now apply recency_remove.
  - apply (IH t); [exact M|]. split; constructor.
  - apply (IH t); [exact M|exact R].
Qed.

(** X24. If the clock never goes back along a history, the map lists its
    entries from the least to the most recently accessed ([last_accessed]
    never decreases along the map order), and no entry has been accessed
    before it was created ([created_at <= last_accessed]). *)
Theorem entries_in_recency_order (c : models.CacheConfig) (ops : list op) (t0 : Q) :
  monotone_from t0 ops ->
  let self := run_ops (CacheManager_new (Some c)) ops in
  StronglySorted older (_entries self) /\
  (forall k e, get_entry self k = Some e -> (created_at e <= last_accessed e)%Q).
Proof.
  intros M self.
  destruct (recency_run_ops ops t0 (CacheManager_new (Some c)) M) as [t' [S F]].
  { split; constructor. }
  fold self in S, F. split; [exact S|].
  intros k e G. unfold get_entry in G.
  apply (pydict_facts.get_In String.eqb Seqb_eq) in G.
  rewrite Forall_forall in F. now destruct (F _ G).
Qed.

Lemma entries_in_recency_order_witness :
  let self := run_ops (CacheManager_new (Some sample_config)) sample_timeline in
  StronglySorted older (_entries self) /\
  (forall k e, get_entry self k = Some e -> (created_at e <= last_accessed e)%Q).
Proof.
  apply (entries_in_recency_order sample_config sample_timeline 0).
  cbn. repeat split; unfold Qle; cbn; lia.
Defined.

(** X25. Under the policy [lru], if the clock never goes back along the
    history, [_evict_one] on a map that is not empty removes its first
    entry, and no entry of the map was last accessed earlier than that
    one. *)
Theorem lru_evicts_least_recent (c : models.CacheConfig) (ops : list op) (t0 : Q) :
  valid_config c ->
  models.eviction_policy c = "lru"%string ->
  monotone_from t0 ops ->
  let self := run_ops (CacheManager_new (Some c)) ops in
  _entries self <> [] ->
  exists k e d,
    _entries self = (k, e) :: d /\
    _entries (_evict_one self) = d /\
    get_entry self k = Some e /\
    get_entry (_evict_one self) k = None /\
    (forall k' e', get_entry self k' = Some e' ->
                   (last_accessed e <= last_accessed e')%Q).
Proof.
  intros V Pol M self Ne.
  assert (Cc : config self = c) by (unfold self; now rewrite run_ops_config).
  destruct (Inv_reachable c ops V) as [_ Hk _ _ _ _]. fold self in Hk.
  destruct (recency_run_ops ops t0 (CacheManager_new (Some c)) M) as [t' [S _]].
  { split; constructor. }
  fold self in S.
  rewrite evict_one_victim. unfold victim. rewrite Cc, Pol.
  cbn [String.eqb Ascii.eqb Bool.eqb].
  destruct (_entries self) as [|[k0 e0] rest] eqn:E; [congruence|].
  exists k0, e0, rest. split; [reflexivity|].
  assert (Rm : pydict.remove String.eqb ((k0, e0) :: rest) k0 = rest).
  { cbn. now rewrite String.eqb_refl. }
  split; [now rewrite evict_entry_entries, E|].
  unfold get_entry. rewrite evict_entry_entries, E.
  split; [cbn; now rewrite String.eqb_refl|].
  split; [now apply (pydict_facts.get_remove_same String.eqb Seqb_eq)|].
  intros k' e' G. apply (pydict_facts.get_In String.eqb Seqb_eq) in G.
  apply StronglySorted_inv in S. destruct S as [_ F]. destruct G as [[= _ <-]|Hin].
  - apply Qle_refl.
  - rewrite Forall_forall in F. exact (F _ Hin).
Qed.

Lemma lru_evicts_least_recent_witness :
  let self :=
    run_ops (CacheManager_new (Some (models.mkCacheConfig 10 1 0 "lru" 2)))
            sample_timeline in
  exists k e d,
    _entries self = (k, e) :: d /\
    _entries (_evict_one self) = d /\
    get_entry self k = Some e /\
    get_entry (_evict_one self) k = None /\
    (forall k' e', get_entry self k' = Some e' ->
                   (last_accessed e <= last_accessed e')%Q).
Proof.
  apply (lru_evicts_least_recent (models.mkCacheConfig 10 1 0 "lru" 2)
           sample_timeline 0).
  - reflexivity.
  - reflexivity.
  - cbn. repeat split; unfold Qle; cbn; lia.
  - vm_compute. discriminate.
Defined.

(** X20. A [store] into a full cache evicts one entry. When the key is new,
    the map holds [max_entries] entries and the footprint of the new entry
    fits once the victim of the policy has left, the map after the call is
    the map that [_evict_one] leaves followed by the new entry; the cache is
    full again and the eviction counter has gone up by one. *)
Theorem store_at_capacity (c : models.CacheConfig) (ops : list op)
  (tokens : list Z) (kv : Any) (mb : Z) (now : Q) :
  valid_config c ->
  let self := run_ops (CacheManager_new (Some c)) ops in
  let key := _compute_cache_key tokens in
  let self' := snd (store self tokens kv mb now) in
  models.min_prefix_length c <= len tokens ->
  get_entry self key = None ->
  len (_entries self) = models.max_entries c ->
  _total_memory_bytes (_evict_one self) + footprint tokens mb <= max_memory_bytes c ->
  _entries self' =
    _entries (_evict_one self)
    ++ [(key, CacheEntry_new key tokens kv (footprint tokens mb) now)] /\
  len (_entries self') = models.max_entries c /\
  models.evictions (_stats self') = models.evictions (_stats self) + 1 /\
  _total_memory_bytes self' = _total_memory_bytes (_evict_one self) + footprint tokens mb.
Proof.
  intros V self key self' Ge G Hn Hb.
  assert (Cc : config self = c) by (unfold self; now rewrite run_ops_config).
  destruct (valid_config_fields _ V) as (Hme & _ & P & _).
  unfold get_entry in G.
  assert (Ne : _entries self <> []).
  { intros E. rewrite E in Hn. unfold len in Hn. cbn in Hn. lia. }
  destruct (evict_one_exactly_one self) as (L1 & Ev1 & C1);
    [now rewrite Cc|exact Ne|].
  assert (O : over_capacity self (footprint tokens mb) (max_memory_bytes (config self))
              = true).
  { unfold over_capacity. rewrite Cc.
    destruct (Z.geb_spec (len (_entries self)) (models.max_entries c)); [|lia].
    destruct (_entries self); [congruence|reflexivity]. }
  assert (Hlen : (1 <= length (_entries self))%nat).
  { destruct (_entries self); [congruence|cbn; lia]. }
  assert (O1 : over_capacity (_evict_one self) (footprint tokens mb)
                 (max_memory_bytes (config self)) = false).
  { unfold over_capacity. rewrite C1, Cc.
    destruct (Z.geb_spec (len (_entries (_evict_one self))) (models.max_entries c)) as [H|_].
    { unfold len in *. rewrite L1 in H. lia. }
    destruct (Z.gtb_spec (_total_memory_bytes (_evict_one self) + footprint tokens mb)
                         (max_memory_bytes c)); [lia|].
    reflexivity. }
  assert (G1 : pydict.get String.eqb (_entries (_evict_one self)) key = None).
  { destruct (evict_one_entries self) as [ks ->]. clear - G.
    revert G. generalize (_entries self). induction ks as [|k ks IH]; intros d G;
      [exact G|].
    cbn [removes fold_left]. apply IH. now apply get_remove_None. }
  unfold self', store. rewrite Cc.
  destruct (Z.ltb_spec (len tokens) (models.min_prefix_length c)); [lia|].
  fold key. rewrite G. rewrite new_entry_memory. unfold _ensure_capacity.
  replace (Z.to_nat (len (_entries self) + 1)) with (S (length (_entries self)))
    by (unfold len; lia).
  cbn [ensure_loop].
  change (py_int (models.max_memory_mb (config self) * 1024 * 1024)%Q)
    with (max_memory_bytes (config self)).
  rewrite O, ensure_loop_trie_stats by exact O1.
  cbn [snd _entries _total_memory_bytes _stats].
  rewrite (set_absent _ _ _ G1).
  split; [reflexivity|]. split.
  { unfold len in *. rewrite length_app, L1. cbn [length]. lia. }
  split; [exact Ev1|reflexivity].
Qed.

Lemma store_at_capacity_witness :
  let self := run_ops (CacheManager_new (Some sample_config)) sample_timeline in
  let key := _compute_cache_key [5; 6; 7] in
  let self' := snd (store self [5; 6; 7] PyNone 0 3) in
  _entries self' =
    _entries (_evict_one self)
    ++ [(key, CacheEntry_new key [5; 6; 7] PyNone (footprint [5; 6; 7] 0) 3)] /\
  len (_entries self') = models.max_entries sample_config /\
  models.evictions (_stats self') = models.evictions (_stats self) + 1 /\
  _total_memory_bytes self' = _total_memory_bytes (_evict_one self) + footprint [5; 6; 7] 0.
Proof.
  apply (store_at_capacity sample_config sample_timeline [5; 6; 7] PyNone 0 3).
  - reflexivity.
  - vm_compute. discriminate.
  - vm_compute. reflexivity.
  - vm_compute. reflexivity.
  - vm_compute. discriminate.
Defined.

Lemma evict_one_without_policy (self : CacheManager) :
  models.eviction_policy (config self) <> "lru"%string ->
  models.eviction_policy (config self) <> "lfu"%string ->
  _evict_one self = self.
Proof.
  intros N1 N2. unfold _evict_one. destruct (_entries self) as [|[k0 e0] rest];
    [reflexivity|].
  destruct (String.eqb_spec (models.eviction_policy (config self)) "lru");
    [contradiction|].
  destruct (String.eqb_spec (models.eviction_policy (config self)) "lfu");
    [contradiction|reflexivity].
Qed.

Lemma ensure_loop_stuck (remaining : nat) (ma : Z) (self : CacheManager) (needed m : Z) :
  _evict_one self = self -> over_capacity self needed m = true ->
  ensure_loop remaining ma self needed m = (Raise (CacheFullError (ma + 1)), self).
Proof.
  intros E O. induction remaining as [|r IH]; cbn [ensure_loop]; rewrite O;
    [reflexivity|]. now rewrite E.
Qed.

(** X26. The sentinel of the capacity loop. When the eviction policy of the
    configuration is neither [lru] nor [lfu] (which validation excludes, so
    only a configuration changed after its construction has it) and the
    cache is over capacity for the bytes needed, [_ensure_capacity] raises
    [CacheFullError], reporting [len(entries) + 2] evictions, and leaves
    the manager as it was; [store] of a new sequence with that footprint raises
    the same error and stores nothing. *)
Theorem capacity_loop_raises_without_policy (self : CacheManager) (needed : Z) :
  models.eviction_policy (config self) <> "lru"%string ->
  models.eviction_policy (config self) <> "lfu"%string ->
  over_capacity self needed (max_memory_bytes (config self)) = true ->
  _ensure_capacity self needed
  = (Raise (CacheFullError (len (_entries self) + 2)), self) /\
  (forall tokens kv mb now,
     models.min_prefix_length (config self) <= len tokens ->
     get_entry self (_compute_cache_key tokens) = None ->
     footprint tokens mb = needed ->
     store self tokens kv mb now
     = (Raise (CacheFullError (len (_entries self) + 2)), self)).
Proof.
  intros N1 N2 O.
  assert (E : _ensure_capacity self needed
              = (Raise (CacheFullError (len (_entries self) + 2)), self)).
  { unfold _ensure_capacity.
    rewrite (ensure_loop_stuck _ _ self needed _ (evict_one_without_policy self N1 N2) O).
    do 2 f_equal. f_equal. lia. }
  split; [exact E|].
  intros tokens kv mb now Ge G Ef. unfold store, get_entry in *.
  destruct (Z.ltb_spec (len tokens) (models.min_prefix_length (config self))); [lia|].
  rewrite G, new_entry_memory, Ef, E. reflexivity.
Qed.

Lemma capacity_loop_raises_without_policy_witness :
  _ensure_capacity policy_less_cache 6144
  = (Raise (CacheFullError (len (_entries policy_less_cache) + 2)), policy_less_cache) /\
  (forall tokens kv mb now,
     models.min_prefix_length (config policy_less_cache) <= len tokens ->
     get_entry policy_less_cache (_compute_cache_key tokens) = None ->
     footprint tokens mb = 6144 ->
     store policy_less_cache tokens kv mb now
     = (Raise (CacheFullError (len (_entries policy_less_cache) + 2)), policy_less_cache)).
Proof.
  apply (capacity_loop_raises_without_policy policy_less_cache 6144).
  - vm_compute. discriminate.
  - vm_compute. discriminate.
  - vm_compute. reflexivity.
Defined.

End cache_props.

(* ===================================================================== *)
(** * The batch analyzer: bounds, groups and savings                   *)
(* ===================================================================== *)

Module batch_props.
Import cache cache_spec batch_spec batch_facts.

Lemma In_set_inv {V : Type} (d : list (string * V)) (key : string) (v : V)
  (k : string) (g : V) :
  NoDup (map fst d) -> In (k, g) (pydict.set String.eqb d key v) ->
  (k = key /\ g = v) \/ (k <> key /\ In (k, g) d).
Proof.
  induction d as [|[k0 v0] r IH]; cbn; intros ND Hin.
  - destruct Hin as [[= <- <-]|[]]. now left.
  - inversion ND as [|? ? Hni NDr]; subst.
    destruct (String.eqb_spec k0 key) as [->|N].
    + destruct Hin as [[= <- <-]|Hin]; [now left|].
      right. split; [|now right]. intros ->. apply Hni.
      apply in_map_iff. now exists (key, g).
    + destruct Hin as [[= <- <-]|Hin]; [right; split; [exact N|now left]|].
      destruct (IH NDr Hin) as [H|[H1 H2]]; [now left|right; split; [exact H1|now right]].
Qed.

Section Groups.
Variable L : Z.
Variable seqs : list (list Z).
Hypothesis HL : 1 <= L.

Lemma group_step_groups (groups : list (string * list nat))
  (assigned : list (nat * Z)) (p : list Z) :
  In p (map fst (build_analysis_trie L seqs)) ->
  fst (group_step (build_analysis_trie L seqs) (groups, assigned) p) =
  if (2 <=? len (unassigned L seqs assigned p))
  then pydict.set String.eqb groups (String.substring 0 8 (_compute_cache_key p))
                  (unassigned L seqs assigned p)
  else groups.
Proof.
  intros Hin. destruct (table_get L seqs HL p Hin) as [G _]. unfold group_step. rewrite G.
  fold (unassigned L seqs assigned p).
  assert (Hle : len (unassigned L seqs assigned p)
                <= len (indices_of L seqs (length seqs) p)).
  { unfold len, unassigned. pose proof (filter_length_le
      (fun i => negb (pydict.contains Nat.eqb assigned i))
      (indices_of L seqs (length seqs) p)). lia. }
  destruct (Z.ltb_spec (len (indices_of L seqs (length seqs) p)) 2);
    destruct (Z.ltb_spec (len (unassigned L seqs assigned p)) 2);
    destruct (Z.leb_spec 2 (len (unassigned L seqs assigned p))); try reflexivity; lia.
Qed.

Lemma groups_step (groups : list (string * list nat)) (assigned : list (nat * Z))
  (p : list Z) :
  In p (map fst (build_analysis_trie L seqs)) ->
  groups_inv L seqs (groups, assigned) ->
  groups_inv L seqs (group_step (build_analysis_trie L seqs) (groups, assigned) p).
Proof.
  intros Hin (ND & F & D). cbn [fst snd] in ND, F, D.
  rewrite (surjective_pairing (group_step _ _ p)).
  rewrite (group_step_groups _ _ _ Hin), (group_step_assigned L seqs HL _ _ _ Hin).
  destruct (Z.leb_spec 2 (len (unassigned L seqs assigned p))) as [Two|One];
    [|now repeat split].
  set (U := unassigned L seqs assigned p) in *.
  assert (NDu : NoDup U).
  { apply NoDup_filter, ix_NoDup. }
  assert (Old : forall k g i, In (k, g) groups -> In i g -> ~ In i U).
  { intros k g i Hg Hi Hu. rewrite Forall_forall in F.
    destruct (F _ Hg) as (_ & _ & q & _ & Hq). cbn [snd] in Hq.
    destruct (Hq _ Hi) as [_ Gi].
    apply (unassigned_In L seqs) in Hu. destruct Hu as [_ Hu]. congruence. }
  refine (conj _ (conj _ _)); cbn [fst snd].
  - now apply (pydict_facts.NoDup_set String.eqb cache_facts.Seqb_eq).
  - rewrite Forall_forall. intros [k g] Hg.
    destruct (In_set_inv _ _ _ _ _ ND Hg) as [[-> ->]|[Nk Hg']].
    + split; [exact Two|]. split; [exact NDu|]. exists p. split; [reflexivity|].
      cbn [snd]. intros i Hi. split.
      * now apply (unassigned_In L seqs) in Hi.
      * rewrite assign_all_get. destruct (in_dec Nat.eq_dec i U); [reflexivity|contradiction].
    + rewrite Forall_forall in F. destruct (F _ Hg') as (G2 & Gn & q & Eq & Hq).
      split; [exact G2|]. split; [exact Gn|]. exists q. split; [exact Eq|].
      intros i Hi. destruct (Hq _ Hi) as [H1 H2]. split; [exact H1|].
      rewrite assign_all_get. destruct (in_dec Nat.eq_dec i U) as [Hu|]; [|exact H2].
      exfalso. exact (Old _ _ _ Hg' Hi Hu).
  - intros k1 g1 k2 g2 i H1 H2 Nk Hi1 Hi2.
    destruct (In_set_inv _ _ _ _ _ ND H1) as [[-> ->]|[N1 H1']];
      destruct (In_set_inv _ _ _ _ _ ND H2) as [[-> ->]|[N2 H2']].
    + congruence.
    + exact (Old _ _ _ H2' Hi2 Hi1).
    + exact (Old _ _ _ H1' Hi1 Hi2).
    + exact (D _ _ _ _ _ H1' H2' Nk Hi1 Hi2).
Qed.

Lemma groups_fold (todo : list (list Z)) :
  forall st,
    (forall q, In q todo -> In q (map fst (build_analysis_trie L seqs))) ->
    groups_inv L seqs st ->
    groups_inv L seqs (fold_left (group_step (build_analysis_trie L seqs)) todo st).
Proof.
  induction todo as [|p todo IH]; intros [groups assigned] Hk I; cbn [fold_left];
    [exact I|].
  apply IH.
  - intros q Hq. apply Hk. now right.
  - apply groups_step; [apply Hk; now left|exact I].
Qed.

Lemma groups_final : groups_inv L seqs (batch_state L seqs).
Proof.
  unfold batch_state.
  destruct (sorted_by_len_desc_spec (map fst (build_analysis_trie L seqs))) as [P _].
  apply groups_fold.
  - intros q Hq. eapply Permutation_in; [symmetry; exact P|exact Hq].
  - split; [constructor|]. split; [constructor|]. intros ? ? ? ? ? [].
Qed.

Lemma assigned_bounds (i : nat) :
  0 <= assigned_get (snd (batch_state L seqs)) i <= len (nth i seqs []).
Proof.
  destruct (pass_final L seqs HL) as [I1 _]. unfold assigned_get.
  destruct (pydict.get Nat.eqb (snd (batch_state L seqs)) i) as [v|] eqn:G.
  - destruct (I1 _ _ G) as (p & j & _ & -> & Hi & _).
    apply (ix_In L seqs) in Hi. unfold len in *. lia.
  - unfold len. lia.
Qed.

End Groups.

Lemma sum_le (f g : nat -> Z) (l : list nat) :
  (forall i, f i <= g i) ->
  fold_right Z.add 0 (map f l) <= fold_right Z.add 0 (map g l).
Proof.
  intros H. induction l as [|i l IH]; cbn; [lia|]. specialize (H i). lia.
Qed.

Lemma sum_nonneg (f : nat -> Z) (l : list nat) :
  (forall i, 0 <= f i) -> 0 <= fold_right Z.add 0 (map f l).
Proof.
  intros H. induction l as [|i l IH]; cbn; [lia|]. specialize (H i). lia.
Qed.

Lemma sum_nth (seqs : list (list Z)) :
  fold_right Z.add 0 (map (fun i => len (nth i seqs [])) (seq 0 (length seqs)))
  = fold_right Z.add 0 (map len seqs).
Proof.
  induction seqs as [|s seqs IH]; [reflexivity|].
  cbn [length seq map fold_right nth]. rewrite <- seq_shift, map_map.
  cbn [nth]. now rewrite IH.
Qed.

Lemma group_max_nonneg (assigned : list (nat * Z)) (g : list nat) :
  (forall i, 0 <= assigned_get assigned i) -> 0 <= group_max assigned g.
Proof.
  intros H. destruct g as [|i r]; cbn [group_max]; [lia|].
  induction r as [|j r IH]; cbn; [apply H|]. lia.
Qed.

Lemma sum_group_max_nonneg (assigned : list (nat * Z))
  (groups : list (string * list nat)) :
  (forall i, 0 <= assigned_get assigned i) -> 0 <= sum_group_max assigned groups.
Proof.
  intros H. induction groups as [|[k g] r IH]; cbn; [lia|].
  pose proof (group_max_nonneg assigned g H). fold (sum_group_max assigned r). lia.
Qed.

(** X27. The report of [analyze_batch]: [batch_size] is the number of
    sequences, [total_tokens] the sum of their lengths, [unique_prefixes]
    the number of groups, [0 <= potential_savings_tokens <= total_tokens]
    and [dedup_ratio] lies between 0 and 1; for an empty batch the report
    is [BatchAnalysis()]. *)
Theorem analyze_batch_bounds (self : CacheManager) (seqs : list (list Z)) :
  valid_config (config self) ->
  let r := fst (analyze_batch self seqs) in
  models.batch_size r = len seqs /\
  models.total_tokens r = fold_right Z.add 0 (map len seqs) /\
  models.unique_prefixes r = len (models.shared_prefix_groups r) /\
  0 <= models.potential_savings_tokens r <= models.total_tokens r /\
  (0 <= models.dedup_ratio r <= 1)%Q /\
  (seqs = [] -> r = models.new_BatchAnalysis).
Proof.
  intros V r.
  destruct (cache_facts.valid_config_fields _ V) as (_ & _ & _ & HL).
  set (L := models.min_prefix_length (config self)) in *.
  assert (B : 0 <= models.potential_savings_tokens r <= models.total_tokens r).
  { unfold r. rewrite analyze_batch_unfold.
    cbn [fst models.potential_savings_tokens models.total_tokens]. fold L.
    pose proof (sum_group_max_nonneg (snd (batch_state L seqs)) (fst (batch_state L seqs))
                  (fun i => proj1 (assigned_bounds L seqs HL i))) as G.
    pose proof (sum_le (assigned_get (snd (batch_state L seqs)))
                  (fun i => len (nth i seqs [])) (seq 0 (length seqs))
                  (fun i => proj2 (assigned_bounds L seqs HL i))) as S.
    rewrite sum_nth in S. unfold sum_assigned.
    assert (0 <= fold_right Z.add 0 (map len seqs)).
    { clear. induction seqs as [|s l IH]; cbn; [lia|]. unfold len in *. lia. }
    lia. }
  unfold r in *. rewrite analyze_batch_unfold in *.
  cbn [fst models.batch_size models.total_tokens models.unique_prefixes
       models.shared_prefix_groups models.potential_savings_tokens] in *.
  repeat (split; [reflexivity|]). split; [exact B|]. split.
  - unfold models.dedup_ratio.
    cbn [models.total_tokens models.potential_savings_tokens].
    apply cache_props.ratio_bounds. exact B.
  - intros ->. reflexivity.
Qed.

Lemma analyze_batch_bounds_witness :
  let r := fst (analyze_batch (CacheManager_new (Some sample_config)) sample_batch) in
  models.batch_size r = len sample_batch /\
  models.total_tokens r = fold_right Z.add 0 (map len sample_batch) /\
  models.unique_prefixes r = len (models.shared_prefix_groups r) /\
  0 <= models.potential_savings_tokens r <= models.total_tokens r /\
  (0 <= models.dedup_ratio r <= 1)%Q /\
  (sample_batch = [] -> r = models.new_BatchAnalysis).
Proof.
  apply (analyze_batch_bounds (CacheManager_new (Some sample_config)) sample_batch).
  reflexivity.
Defined.

(** X28. The groups of [analyze_batch]. The keys of the groups are distinct.
    Every group lists at least two distinct indices of the batch, and there
    is a prefix of at least [min_prefix_length] tokens, whose key starts
    with the group key, that all the sequences of the group start with. No
    index is in two groups. *)
Theorem analyze_batch_groups (self : CacheManager) (seqs : list (list Z)) :
  valid_config (config self) ->
  let L := models.min_prefix_length (config self) in
  let groups := models.shared_prefix_groups (fst (analyze_batch self seqs)) in
  NoDup (map fst groups) /\
  (forall key g, In (key, g) groups ->
     2 <= len g /\ NoDup g /\
     exists p, L <= len p /\
               key = String.substring 0 8 (_compute_cache_key p) /\
               forall i, In i g ->
                 (i < length seqs)%nat /\ trie_spec.is_prefix p (nth i seqs [])) /\
  (forall key1 g1 key2 g2 i,
     In (key1, g1) groups -> In (key2, g2) groups -> key1 <> key2 ->
     In i g1 -> ~ In i g2).
Proof.
  intros V L groups.
  destruct (cache_facts.valid_config_fields _ V) as (_ & _ & _ & HL). fold L in HL.
  destruct (groups_final L seqs HL) as (ND & F & D).
  unfold groups. rewrite analyze_batch_unfold. cbn [fst models.shared_prefix_groups].
  fold L. refine (conj ND (conj _ D)).
  intros key g Hg. rewrite Forall_forall in F.
  destruct (F _ Hg) as (G2 & Gn & p & Ek & Hp). cbn [fst snd] in *.
  split; [exact G2|]. split; [exact Gn|].
  destruct g as [|i0 g']; [unfold len in G2; cbn in G2; lia|].
  destruct (Hp i0 (or_introl eq_refl)) as [Hi0 _].
  apply (ix_In L seqs) in Hi0.
  exists p. split; [tauto|]. split; [exact Ek|].
  intros i Hi. destruct (Hp i Hi) as [Hix _]. apply (ix_In L seqs) in Hix.
  split; [tauto|]. apply trie_props.is_prefix_firstn. tauto.
Qed.

Lemma analyze_batch_groups_witness :
  let groups :=
    models.shared_prefix_groups
      (fst (analyze_batch (CacheManager_new (Some sample_config)) sample_batch)) in
  NoDup (map fst groups) /\
  (forall key g, In (key, g) groups ->
     2 <= len g /\ NoDup g /\
     exists p, models.min_prefix_length sample_config <= len p /\
               key = String.substring 0 8 (_compute_cache_key p) /\
               forall i, In i g ->
                 (i < length sample_batch)%nat /\ trie_spec.is_prefix p (nth i sample_batch [])) /\
  (forall key1 g1 key2 g2 i,
     In (key1, g1) groups -> In (key2, g2) groups -> key1 <> key2 ->
     In i g1 -> ~ In i g2).
Proof.
  apply (analyze_batch_groups (CacheManager_new (Some sample_config)) sample_batch).
  reflexivity.
Defined.

Lemma sum_incl (f : nat -> Z) (l : list nat) :
  (forall i, 0 <= f i) ->
  forall l', NoDup l -> incl l l' ->
             fold_right Z.add 0 (map f l) <= fold_right Z.add 0 (map f l').
Proof.
  intros Hf. induction l as [|x l IH]; intros l' ND Hi.
  - cbn. now apply sum_nonneg.
  - inversion ND as [|? ? Hn NDl]; subst.
    destruct (in_split x l' (Hi x (or_introl eq_refl))) as (l1 & l2 & ->).
    assert (Hi' : incl l (l1 ++ l2)).
    { intros y Hy. pose proof (Hi y (or_intror Hy)) as H.
      apply in_app_or in H. apply in_or_app.
      destruct H as [H|[->|H]]; [now left|contradiction|now right]. }
    specialize (IH _ NDl Hi'). rewrite !map_app, !fold_right_app in *.
    cbn [map fold_right] in *.
    assert (A : forall (a b : list Z) (z : Z),
               fold_right Z.add z a = fold_right Z.add 0 a + z).
    { clear. intros a b z. induction a as [|q a IHa]; cbn; lia. }
    rewrite (A (map f l1) [] (f x + _)). rewrite (A (map f l1) [] (fold_right _ _ _)) in IH.
    lia.
Qed.

Lemma sum_flat_map (f : nat -> Z) (groups : list (string * list nat)) :
  fold_right Z.add 0 (map f (flat_map snd groups))
  = fold_right (fun g acc => fold_right Z.add 0 (map f (snd g)) + acc) 0 groups.
Proof.
  induction groups as [|[k g] r IH]; [reflexivity|].
  cbn [flat_map snd fold_right]. rewrite map_app, fold_right_app, <- IH.
  generalize (fold_right Z.add 0 (map f (flat_map snd r))). intros z.
  induction g as [|i g IHg]; cbn; lia.
Qed.

Lemma constant_group (a : nat -> Z) (v : Z) (g : list nat) :
  (forall i, In i g -> a i = v) -> 0 <= v -> 2 <= len g ->
  fold_right Z.add 0 (map a g) = len g * v /\
  match g with
  | [] => 0
  | i :: r => fold_right Z.max (a i) (map a r)
  end = v.
Proof.
  intros H Hv H2. split.
  - clear H2. induction g as [|i g IH]; [reflexivity|].
    cbn [map fold_right]. rewrite IH by (intros j Hj; apply H; now right).
    rewrite (H i (or_introl eq_refl)). unfold len. cbn [length].
    rewrite Nat2Z.inj_succ. lia.
  - destruct g as [|i r]; [unfold len in H2; cbn in H2; lia|].
    rewrite (H i (or_introl eq_refl)).
    assert (Hr : forall j, In j r -> a j = v) by (intros j Hj; apply H; now right).
    clear H H2. induction r as [|j r IH]; cbn; [reflexivity|].
    rewrite IH by (intros j' Hj'; apply Hr; now right).
    rewrite (Hr j (or_introl eq_refl)). lia.
Qed.

Lemma sum_pos_exists (f : nat -> Z) (l : list nat) :
  0 < fold_right Z.add 0 (map f l) -> exists i, In i l /\ 0 < f i.
Proof.
  induction l as [|x l IH]; cbn; [lia|]. intros H.
  destruct (Z.lt_ge_cases 0 (f x)) as [Hx|Hx].
  - exists x. split; [now left|exact Hx].
  - destruct IH as (i & Hi & Hf); [lia|]. exists i. split; [now right|exact Hf].
Qed.

Section Savings.
Variable L : Z.
Variable seqs : list (list Z).
Hypothesis HL : 1 <= L.

Lemma groups_members_NoDup (groups : list (string * list nat))
  (assigned : list (nat * Z)) :
  groups_inv L seqs (groups, assigned) -> NoDup (flat_map snd groups).
Proof.
  intros (ND & F & D). cbn [fst snd] in *.
  induction groups as [|[k g] r IH]; [constructor|].
  cbn [flat_map snd]. inversion ND as [|? ? Hn NDr]; subst.
  inversion F as [|? ? Hg Fr]; subst.
  apply NoDup_app.
  - destruct Hg as (_ & Hg & _). exact Hg.
  - apply IH; auto. intros k1 g1 k2 g2 i H1 H2. apply D; now right.
  - intros i Hi Hi'. apply in_flat_map in Hi'. destruct Hi' as [[k' g'] [Hg' Hi']].
    cbn [snd] in Hi'. apply (D k g k' g' i); auto.
    + now left.
    + now right.
    + intros ->. apply Hn. apply in_map_iff. now exists (k', g').
Qed.

Lemma group_gain (assigned : list (nat * Z)) (kg : string * list nat) :
  group_ok L seqs assigned kg ->
  L <= fold_right Z.add 0 (map (assigned_get assigned) (snd kg))
       - group_max assigned (snd kg).
Proof.
  intros (H2 & _ & p & _ & Hp).
  assert (Hv : L <= len p).
  { destruct (snd kg) as [|i r]; [unfold len in H2; cbn in H2; lia|].
    destruct (Hp i (or_introl eq_refl)) as [Hi _]. apply (ix_In L seqs) in Hi. tauto. }
  destruct (constant_group (assigned_get assigned) (len p) (snd kg)) as [S M].
  - intros i Hi. destruct (Hp i Hi) as [_ G]. unfold assigned_get. now rewrite G.
  - lia.
  - exact H2.
  - unfold group_max. rewrite S, M. nia.
Qed.

Lemma groups_gain (groups : list (string * list nat)) (assigned : list (nat * Z)) :
  Forall (group_ok L seqs assigned) groups ->
  L * len groups <=
  fold_right (fun g acc => fold_right Z.add 0 (map (assigned_get assigned) (snd g)) + acc)
             0 groups
  - sum_group_max assigned groups.
Proof.
  induction 1 as [|kg r Hg Hr IH]; [cbn; lia|].
  cbn [fold_right sum_group_max]. fold (sum_group_max assigned r).
  pose proof (group_gain _ _ Hg). unfold len in *. cbn [length].
  rewrite Nat2Z.inj_succ. lia.
Qed.

Lemma savings_lower_bound :
  L * len (fst (batch_state L seqs)) <=
  sum_assigned (snd (batch_state L seqs)) (length seqs)
  - sum_group_max (snd (batch_state L seqs)) (fst (batch_state L seqs)).
Proof.
  pose proof (groups_final L seqs HL) as I.
  rewrite (surjective_pairing (batch_state L seqs)) in I.
  pose proof (groups_members_NoDup _ _ I) as ND.
  destruct I as (_ & F & _). cbn [fst snd] in F.
  pose proof (groups_gain _ _ F) as G.
  assert (Incl : incl (flat_map snd (fst (batch_state L seqs))) (seq 0 (length seqs))).
  { intros i Hi. apply in_flat_map in Hi. destruct Hi as [[k g] [Hg Hi]].
    rewrite Forall_forall in F. destruct (F _ Hg) as (_ & _ & p & _ & Hp).
    destruct (Hp i Hi) as [Hix _]. apply (ix_In L seqs) in Hix.
    apply in_seq. lia. }
  pose proof (sum_incl (assigned_get (snd (batch_state L seqs)))
                (flat_map snd (fst (batch_state L seqs)))
                (fun i => proj1 (assigned_bounds L seqs HL i)) _ ND Incl) as S.
  rewrite sum_flat_map in S. unfold sum_assigned. lia.
Qed.

Lemma step_nonempty (groups : list (string * list nat)) (assigned : list (nat * Z))
  (p : list Z) :
  In p (map fst (build_analysis_trie L seqs)) ->
  (assigned <> [] -> groups <> []) ->
  snd (group_step (build_analysis_trie L seqs) (groups, assigned) p) <> [] ->
  fst (group_step (build_analysis_trie L seqs) (groups, assigned) p) <> [].
Proof.
  intros Hin K. rewrite (group_step_groups L seqs HL _ _ _ Hin),
                  (group_step_assigned L seqs HL _ _ _ Hin).
  destruct (Z.leb_spec 2 (len (unassigned L seqs assigned p))); [|exact K].
  intros _. destruct groups as [|[k0 g0] r]; cbn; [discriminate|].
  destruct (String.eqb k0 _); discriminate.
Qed.

Lemma fold_nonempty (todo : list (list Z)) :
  forall st,
    (forall q, In q todo -> In q (map fst (build_analysis_trie L seqs))) ->
    (snd st <> [] -> fst st <> []) ->
    snd (fold_left (group_step (build_analysis_trie L seqs)) todo st) <> [] ->
    fst (fold_left (group_step (build_analysis_trie L seqs)) todo st) <> [].
Proof.
  induction todo as [|p todo IH]; intros [groups assigned] Hk K; cbn [fold_left];
    [exact K|].
  apply IH.
  - intros q Hq. apply Hk. now right.
  - rewrite (surjective_pairing (group_step _ _ p)). cbn [fst snd].
    apply step_nonempty; [apply Hk; now left|exact K].
Qed.

Lemma assigned_groups_nonempty :
  snd (batch_state L seqs) <> [] -> fst (batch_state L seqs) <> [].
Proof.
  unfold batch_state.
  destruct (sorted_by_len_desc_spec (map fst (build_analysis_trie L seqs))) as [P _].
  apply fold_nonempty.
  - intros q Hq. eapply Permutation_in; [symmetry; exact P|exact Hq].
  - cbn. congruence.
Qed.

Lemma shares_assigned :
  shares_prefix L seqs -> snd (batch_state L seqs) <> [].
Proof.
  intros (i & j & p & Hij & Hp & Pi & Pj).
  destruct (pass_final L seqs HL) as [_ I2].
  apply trie_props.is_prefix_firstn in Pi, Pj.
  assert (Hi : In i (indices_of L seqs (length seqs) p)).
  { apply (ix_In L seqs). repeat split; try tauto; lia. }
  assert (Hj : In j (indices_of L seqs (length seqs) p)).
  { apply (ix_In L seqs). repeat split; try tauto; lia. }
  assert (Hk : In p (sorted_prefixes L seqs)).
  { unfold sorted_prefixes.
    destruct (sorted_by_len_desc_spec (map fst (build_analysis_trie L seqs))) as [P _].
    apply (Permutation_in _ P). apply (table_keys L seqs HL).
    intros E. rewrite E in Hi. contradiction. }
  intros E.
  destruct (I2 p i j Hk Hi Hj) as (v & G & _); [lia| |].
  - intros v G. rewrite E in G. discriminate.
  - rewrite E in G. discriminate.
Qed.

Lemma assigned_shares (i : nat) (v : Z) :
  pydict.get Nat.eqb (snd (batch_state L seqs)) i = Some v -> shares_prefix L seqs.
Proof.
  intros G. destruct (pass_final L seqs HL) as [I1 _].
  destruct (I1 _ _ G) as (p & j & _ & _ & Hi & Hj & Nj & _).
  apply (ix_In L seqs) in Hi, Hj.
  assert (Pi : trie_spec.is_prefix p (nth i seqs [])) by (apply trie_props.is_prefix_firstn; tauto).
  assert (Pj : trie_spec.is_prefix p (nth j seqs [])) by (apply trie_props.is_prefix_firstn; tauto).
  destruct (Nat.lt_total i j) as [Lt|[E|Gt]]; [|congruence|].
  - exists i, j, p. repeat split; try tauto; lia.
  - exists j, i, p. repeat split; try tauto; lia.
Qed.

End Savings.

(** X29. [analyze_batch] reports savings exactly when there is something to
    share: [potential_savings_tokens > 0] if and only if two sequences of
    the batch have a prefix of at least [min_prefix_length] tokens in
    common, and likewise for the report to have a group. The savings are at
    least [min_prefix_length] tokens for every group. *)
Theorem savings_iff_shared_prefix (self : CacheManager) (seqs : list (list Z)) :
  valid_config (config self) ->
  let L := models.min_prefix_length (config self) in
  let r := fst (analyze_batch self seqs) in
  (0 < models.potential_savings_tokens r <-> shares_prefix L seqs) /\
  (models.shared_prefix_groups r <> [] <-> shares_prefix L seqs) /\
  L * models.unique_prefixes r <= models.potential_savings_tokens r.
Proof.
  intros V L r.
  destruct (cache_facts.valid_config_fields _ V) as (_ & _ & _ & HL). fold L in HL.
  pose proof (savings_lower_bound L seqs HL) as Lb.
  unfold r. rewrite analyze_batch_unfold. fold L.
  cbn [fst models.potential_savings_tokens models.shared_prefix_groups
       models.unique_prefixes].
  set (groups := fst (batch_state L seqs)) in *.
  set (assigned := snd (batch_state L seqs)) in *.
  assert (Hg : 0 <= len groups) by (unfold len; lia).
  assert (G2S : groups <> [] -> shares_prefix L seqs).
  { intros Ne. destruct groups as [|[k g] rest] eqn:E; [congruence|].
    pose proof (groups_final L seqs HL) as (_ & F & _). fold groups in F.
    rewrite E in F. inversion F as [|? ? (H2 & _ & p & _ & Hp) _]; subst.
    cbn [snd] in *. destruct g as [|i g']; [unfold len in H2; cbn in H2; lia|].
    destruct (Hp i (or_introl eq_refl)) as [_ Gi].
    now apply (assigned_shares L seqs HL i (len p)). }
  assert (S2G : shares_prefix L seqs -> groups <> []).
  { intros Sh. apply (assigned_groups_nonempty L seqs HL).
    now apply shares_assigned. }
  split; [|split; [split; assumption|nia]].
  split.
  - intros Pos.
    pose proof (sum_group_max_nonneg assigned groups
                  (fun i => proj1 (assigned_bounds L seqs HL i))) as G0.
    destruct (sum_pos_exists (assigned_get assigned) (seq 0 (length seqs))) as (i & _ & Hi).
    { unfold sum_assigned in Pos. lia. }
    unfold assigned_get in Hi.
    destruct (pydict.get Nat.eqb assigned i) as [v|] eqn:Gi; [|lia].
    now apply (assigned_shares L seqs HL i v).
  - intros Sh. pose proof (S2G Sh) as Ne.
    assert (1 <= len groups).
    { destruct groups; [congruence|unfold len; cbn; lia]. }
    nia.
Qed.

Lemma savings_iff_shared_prefix_witness :
  let self := CacheManager_new (Some sample_config) in
  let L := models.min_prefix_length (config self) in
  let r := fst (analyze_batch self sample_batch) in
  (0 < models.potential_savings_tokens r <-> shares_prefix L sample_batch) /\
  (models.shared_prefix_groups r <> [] <-> shares_prefix L sample_batch) /\
  L * models.unique_prefixes r <= models.potential_savings_tokens r.
Proof.
  apply (savings_iff_shared_prefix (CacheManager_new (Some sample_config))
           sample_batch).
  reflexivity.
Defined.

End batch_props.

(* ===================================================================== *)
(** * The embedding on the scenarios of the test suite                    *)
(* ===================================================================== *)

Module scenarios.
Import exceptions cache cache_spec.

(** ** The rounding of floats *)

(** [1 / 3] and [float("0.1")], as [float.as_integer_ratio] gives them. *)
Example third_as_float :
  (pyfloat.truediv 1 3 == 6004799503160661 # 18014398509481984)%Q.
Proof. vm_compute. reflexivity. Qed.

Example tenth_as_float :
  (pyfloat.nearest (1 # 10) == 3602879701896397 # 36028797018963968)%Q.
Proof. vm_compute. reflexivity. Qed.

(** [3.0 - (1 - 2**-53) == 2.0]: a tie, resolved to the even neighbour. *)
Example difference_rounds_down :
  (pyfloat.sub 3 (1 - (1 # 2 ^ 53)) == 2)%Q.
Proof. vm_compute. reflexivity. Qed.

(** [(2**53 + 1) / 2**20 * 2**20 == 2**53] and
    [(2**53 + 3) / 2**20 * 2**20 == 2**53 + 4]. *)
Example quotient_drops_a_bit :
  (pyfloat.truediv (2 ^ 53 + 1) (2 ^ 20) * inject_Z (2 ^ 20) == inject_Z (2 ^ 53))%Q /\
  (pyfloat.truediv (2 ^ 53 + 3) (2 ^ 20) * inject_Z (2 ^ 20)
   == inject_Z (2 ^ 53 + 4))%Q.
Proof. split; vm_compute; reflexivity. Qed.

(** The smallest subnormal number is [2**-1074]; half of it rounds to zero
    and three halves of it to its double. *)
Example subnormal_rounding :
  (pyfloat.nearest (1 # 2 ^ 1075) == 0)%Q /\
  (pyfloat.nearest (3 # 2 ^ 1075) == 1 # 2 ^ 1073)%Q.
Proof. split; vm_compute; reflexivity. Qed.

(** ** The digest and the key derivation *)

Example sha256_of_empty :
  hashlib.sha256_hexdigest [] =
  "e3b0c44298fc1c149afbf4c8996fb92427ae41e4649b934ca495991b7852b855"%string.
Proof. vm_compute. reflexivity. Qed.

Example sha256_of_abc :
  hashlib.sha256_hexdigest [97; 98; 99] =
  "ba7816bf8f01cfea414140de5dae2223b00361a396177a9cb410ff61f20015ad"%string.
Proof. vm_compute. reflexivity. Qed.

Example sha256_two_blocks :
  hashlib.sha256_hexdigest (repeat 97 56) =
  "b35439a4ac6f0948b6d6f9e3c6af0f5f590ce20f1bde7090ef7970686ec6738a"%string.
Proof. vm_compute. reflexivity. Qed.

Example key_of_123 : _compute_cache_key [1; 2; 3] = "7b0b5ea3ff36958c"%string.
Proof. vm_compute. reflexivity. Qed.

Example key_of_negative_token : _compute_cache_key [-1; 2] = "7de07921ae33ac07"%string.
Proof. vm_compute. reflexivity. Qed.

(** ** The index *)

Example longest_prefix_wins :
  let t := trie.insert (trie.insert trie.new_RadixTrie [1; 2] "key-12")
                       [1; 2; 3; 4] "key-1234" in
  trie.find_longest_prefix t [1; 2; 3; 4; 5; 6] = (4, Some "key-1234"%string) /\
  trie.find_longest_prefix t [1; 2; 5; 6] = (2, Some "key-12"%string) /\
  trie.size t = 2.
Proof. vm_compute. auto. Qed.

Example remove_preserves_siblings :
  let t := trie.insert (trie.insert trie.new_RadixTrie [1; 2; 3] "a") [1; 2; 4] "b" in
  trie.remove t [1; 2; 3] = (true, snd (trie.remove t [1; 2; 3])) /\
  trie.find_longest_prefix (snd (trie.remove t [1; 2; 3])) [1; 2; 4] = (3, Some "b"%string) /\
  trie.find_longest_prefix (snd (trie.remove t [1; 2; 3])) [1; 2; 3] = (0, None) /\
  trie.remove trie.new_RadixTrie [1; 2; 3] = (false, trie.new_RadixTrie).
Proof. vm_compute. auto. Qed.

(** ** The store *)

Example basic_hit :
  let self := snd (store small_cache [1; 2; 3; 4; 5] PyNone 0 0) in
  fst (lookup self [1; 2; 3; 4; 5] 0 0) =
  models.mkPrefixMatch [1; 2; 3; 4; 5] 5 5 "de9f9201383c914c" [] true.
Proof. vm_compute. reflexivity. Qed.

Example prefix_hit :
  let self := snd (store small_cache [1; 2; 3; 4] PyNone 0 0) in
  fst (lookup self [1; 2; 3; 4; 5; 6; 7; 8] 0 0) =
  models.mkPrefixMatch [1; 2; 3; 4] 4 8 "bac02613b6f9456c" [5; 6; 7; 8] true.
Proof. vm_compute. reflexivity. Qed.

Example minimum_length_gating :
  store small_cache [1] PyNone 0 0 = (Ok EmptyString, small_cache) /\
  models.hit (fst (lookup (snd (store small_cache [1; 2; 3; 4] PyNone 0 0)) [1; 99] 0 0))
  = false.
Proof. vm_compute. auto. Qed.

Example recency_eviction :
  let self :=
    run_ops (CacheManager_new (Some (models.mkCacheConfig 2 1024 0 "lru" 2)))
            [OpStore [1; 2; 3] PyNone 0 0; OpStore [4; 5; 6] PyNone 0 0;
             OpStore [7; 8; 9] PyNone 0 0] in
  models.hit (fst (lookup self [1; 2; 3] 0 0)) = false /\
  models.hit (fst (lookup self [7; 8; 9] 0 0)) = true /\
  models.evictions (fst (stats self)) = 1.
Proof. vm_compute. auto. Qed.

Example frequency_eviction :
  let self :=
    run_ops (CacheManager_new (Some (models.mkCacheConfig 2 1024 0 "lfu" 2)))
            [OpStore [1; 2; 3] PyNone 0 0; OpStore [4; 5; 6] PyNone 0 0;
             OpLookup [1; 2; 3] 0 0; OpStore [7; 8; 9] PyNone 0 0] in
  models.hit (fst (lookup self [1; 2; 3] 0 0)) = true /\
  models.hit (fst (lookup self [4; 5; 6] 0 0)) = false.
Proof. vm_compute. auto. Qed.

Example ttl_expiry :
  let self :=
    snd (store (CacheManager_new (Some (models.mkCacheConfig 10000 1024 (1 # 10) "lru" 2)))
               [1; 2; 3; 4; 5] PyNone 0 100) in
  models.hit (fst (lookup self [1; 2; 3; 4; 5] (100 + (15 # 100)) (100 + (15 # 100))))
  = false /\
  models.hit (fst (lookup self [1; 2; 3; 4; 5] (100 + (5 # 100)) (100 + (5 # 100))))
  = true.
Proof. vm_compute. auto. Qed.

Example batch_analyzer :
  let r := fst (analyze_batch small_cache
                  [[1; 2; 3; 4; 5]; [1; 2; 3; 4; 6]; [1; 2; 3; 4; 7]]) in
  models.batch_size r = 3 /\ models.unique_prefixes r = 1 /\
  models.shared_prefix_groups r = [("bac02613"%string, [0; 1; 2]%nat)] /\
  models.potential_savings_tokens r = 8 /\ models.total_tokens r = 15.
Proof. vm_compute. auto 10. Qed.

End scenarios.
